(** * U8 archives: a shallow embedding of [u8.py] and its properties

    The development follows the layout of the Python module: the alignment
    helper, the 12-byte FST record, the [ArcFile] leaf, the [Arc] class with
    its decoder ([_load_from_bin]), encoder ([to_bytes]), flat index
    ([_flatten_file_map], [_update]) and the path-addressed mutation API.

    Python integers are [Z]; [bytes] are [list byte]; [str] is [string]
    (characters above 127 stand for non-ASCII code points); a [dict] is an
    insertion-ordered association list; exceptions are values of [exn]
    carried by the [result] type. *)

From Stdlib Require Import ZArith List String Ascii Bool Lia Permutation.
From Stdlib Require Import Strings.Byte.
Import ListNotations.
Local Open Scope Z_scope.
Local Open Scope list_scope.

Set Implicit Arguments.

(* ------------------------------------------------------------------ *)
(** ** Exceptions and results *)

Inductive exn : Type :=
| AssertionError | StructError | IndexError | UnicodeDecodeError
| ValueError | KeyError | OverflowError | AttributeError
| RecursionError | OSError | TypeError.

Inductive result (A : Type) : Type :=
| Ok (a : A)
| Raise (e : exn).
Arguments Ok {A} a.
Arguments Raise {A} e.

Definition is_ok {A} (r : result A) : bool :=
  match r with Ok _ => true | Raise _ => false end.

(* ------------------------------------------------------------------ *)
(** ** Python containers *)

Definition bytes := list byte.

(** [range(a, b)] *)
Definition range (a b : Z) : list Z :=
  map (fun i => a + Z.of_nat i) (seq 0 (Z.to_nat (b - a))).

(** [l[i]] for a non-negative index; [IndexError] past the end. *)
Definition list_index {A} (l : list A) (i : Z) : result A :=
  if i <? 0 then Raise IndexError
  else match nth_error l (Z.to_nat i) with
       | Some a => Ok a
       | None => Raise IndexError
       end.

(** [l[i] = v] for an index inside the list. *)
Fixpoint list_set {A} (l : list A) (i : nat) (v : A) : list A :=
  match l, i with
  | [], _ => []
  | _ :: t, O => v :: t
  | h :: t, S j => h :: list_set t j v
  end.

Definition len {A} (l : list A) : Z := Z.of_nat (List.length l).

Definition in_list (x : Z) (l : list Z) : bool := existsb (Z.eqb x) l.

(** Insertion-ordered dictionaries keyed by strings. *)
Section Dict.
Variable V : Type.

Definition dict := list (string * V).

Fixpoint dict_get (d : dict) (k : string) : option V :=
    match d with
    | [] => None
    | (k', v) :: t => if String.eqb k k' then Some v else dict_get t k
    end.

Definition dict_mem (d : dict) (k : string) : bool :=
    match dict_get d k with Some _ => true | None => false end.

  (** [d[k] = v]: an existing key keeps its position, a new key goes last. *)
Fixpoint dict_set (d : dict) (k : string) (v : V) : dict :=
    match d with
    | [] => [(k, v)]
    | (k', v') :: t =>
        if String.eqb k k' then (k, v) :: t else (k', v') :: dict_set t k v
    end.

  (** [del d[k]] *)
Fixpoint dict_del (d : dict) (k : string) : dict :=
    match d with
    | [] => []
    | (k', v') :: t =>
        if String.eqb k k' then t else (k', v') :: dict_del t k
    end.

Definition dict_keys (d : dict) : list string := map fst d.

  (** [keys.index(k)] *)
Fixpoint keys_index (ks : list string) (k : string) : option nat :=
    match ks with
    | [] => None
    | k' :: t => if String.eqb k k' then Some O
                 else option_map S (keys_index t k)
    end.
End Dict.

Arguments dict_get {V} d k.
Arguments dict_mem {V} d k.
Arguments dict_set {V} d k v.
Arguments dict_del {V} d k.
Arguments dict_keys {V} d.

(* ------------------------------------------------------------------ *)
(** ** Bytes and big-endian integers *)

Definition Z_of_byte (b : byte) : Z := Z.of_N (Byte.to_N b).

Definition byte_of_Z (z : Z) : byte :=
  match Byte.of_N (Z.to_N (z mod 256)) with
  | Some b => b
  | None => x00
  end.

(** [v.to_bytes(n, "big")] without the range check. *)
Fixpoint be_bytes (n : nat) (v : Z) : bytes :=
  match n with
  | O => []
  | S m => byte_of_Z (v / 256 ^ Z.of_nat m) :: be_bytes m (v mod 256 ^ Z.of_nat m)
  end.

(** [int.from_bytes(bs, "big")] *)
Definition be_value (bs : bytes) : Z :=
  fold_left (fun acc b => acc * 256 + Z_of_byte b) bs 0.

(** [v.to_bytes(n, "big")]: [OverflowError] when [v] is negative or too big. *)
Definition int_to_bytes (n : nat) (v : Z) : result bytes :=
  if (0 <=? v) && (v <? 256 ^ Z.of_nat n) then Ok (be_bytes n v)
  else Raise OverflowError.

(** [struct.pack(">I", v)]: [struct.error] outside [0, 2^32). *)
Definition pack_I (v : Z) : result bytes :=
  if (0 <=? v) && (v <? 2 ^ 32) then Ok (be_bytes 4 v)
  else Raise StructError.

(** Signed reading of a 32-bit word, as [struct.unpack(">i", ...)]. *)
Definition signed32 (v : Z) : Z := if v <? 2 ^ 31 then v else v - 2 ^ 32.

(** [struct.unpack] of three 32-bit words: exactly 12 bytes are required. *)
Definition unpack3 (bs : bytes) : result (Z * Z * Z) :=
  match bs with
  | [b0; b1; b2; b3; b4; b5; b6; b7; b8; b9; b10; b11] =>
      Ok (be_value [b0; b1; b2; b3],
          be_value [b4; b5; b6; b7],
          be_value [b8; b9; b10; b11])
  | _ => Raise StructError
  end.

Definition unpack_III (bs : bytes) : result (Z * Z * Z) := unpack3 bs.

Definition unpack_iii (bs : bytes) : result (Z * Z * Z) :=
  match unpack3 bs with
  | Ok (a, b, c) => Ok (signed32 a, signed32 b, signed32 c)
  | Raise e => Raise e
  end.

(** [struct.unpack(">4s", bs)[0]] *)
Definition unpack_4s (bs : bytes) : result bytes :=
  match bs with
  | [_; _; _; _] => Ok bs
  | _ => Raise StructError
  end.

(** [s.encode("ascii", errors="replace")]: one ['?'] per non-ASCII character. *)
Definition encode_char (c : ascii) : byte :=
  if Z_of_byte (byte_of_ascii c) <? 128 then byte_of_ascii c else x3f.

Fixpoint encode_ascii_replace (s : string) : bytes :=
  match s with
  | EmptyString => []
  | String c t => encode_char c :: encode_ascii_replace t
  end.

(** [bs.decode("ascii")]: [UnicodeDecodeError] on a byte above 127. *)
Fixpoint decode_ascii (bs : bytes) : result string :=
  match bs with
  | [] => Ok EmptyString
  | b :: t =>
      if Z_of_byte b <? 128 then
        match decode_ascii t with
        | Ok s => Ok (String (ascii_of_byte b) s)
        | Raise e => Raise e
        end
      else Raise UnicodeDecodeError
  end.

(** [U8_FILE_MAGIC = "Uª8-"], compared after a latin-1 decoding, which is a
    bijection on bytes: the comparison is on the four bytes 55 AA 38 2D. *)
Definition U8_FILE_MAGIC : bytes := [x55; xaa; x38; x2d].

Definition bytes_eqb (a b : bytes) : bool :=
  if list_eq_dec Byte.byte_eq_dec a b then true else false.

(* ------------------------------------------------------------------ *)
(** ** [_align] *)

Definition _align (x boundary : Z) : Z :=
  let rem := x mod boundary in
  if negb (rem =? 0) then x + (boundary - rem) else x.

(* ------------------------------------------------------------------ *)
(** ** [_FST_ENTRY_] *)

Record FST_ENTRY : Type := mkEntry {
  is_dir : bool;
  name_off : Z;
  parent_or_file_off : Z;
  next_entry_or_len : Z
}.

(** [_FST_ENTRY_.to_binary] *)
Definition to_binary (e : FST_ENTRY) : result bytes :=
  match int_to_bytes 1 (if is_dir e then 1 else 0) with
  | Raise x => Raise x
  | Ok is_dir_byte =>
      if negb ((0 <=? name_off e) && (name_off e <=? 16777215))
      then Raise ValueError
      else
        match int_to_bytes 3 (name_off e) with
        | Raise x => Raise x
        | Ok name_off_bytes =>
            match int_to_bytes 4 (parent_or_file_off e) with
            | Raise x => Raise x
            | Ok parent_off_bytes =>
                match int_to_bytes 4 (next_entry_or_len e) with
                | Raise x => Raise x
                | Ok next_len_bytes =>
                    Ok (is_dir_byte ++ name_off_bytes
                          ++ parent_off_bytes ++ next_len_bytes)
                end
            end
        end
  end.

(** The pure part of [_FST_ENTRY_.load_from_bin]: from the 12 bytes read. *)
Definition entry_of_bytes (bs : bytes) : result FST_ENTRY :=
  match unpack_III bs with
  | Raise x => Raise x
  | Ok (is_dir_name_off, a, b) =>
      Ok (mkEntry (negb (Z.land is_dir_name_off 4278190080 =? 0))
                  (Z.land is_dir_name_off 16777215)
                  a b)
  end.

(* ------------------------------------------------------------------ *)
(** ** The archive tree *)

(** [ArcFile]: a dataclass with a name and a byte buffer. *)
Record ArcFile : Type := mkArcFile {
  name : string;
  data : bytes
}.

Definition file_size (f : ArcFile) : Z := len (data f).

(** A node of [Arc.files]: an [ArcFile] or a nested [dict]. *)
#[warnings="-register-all"]
Inductive node : Type :=
| File (f : ArcFile)
| Dir (d : list (string * node)).

(** [isinstance(value, dict)] *)
Definition is_dict (n : node) : bool :=
  match n with Dir _ => true | File _ => false end.

(* ------------------------------------------------------------------ *)
(** ** Binary streams

    [BinaryIO] as the decoder uses it: [name], [tell], [seek], [read].  The
    buffer is immutable while decoding and only the position moves.  With
    [window = None] the operations are those of a Python byte stream: a read
    past the end is cut short and a seek past the end is legal.

    A stream with [window = Some (lo, hi)] is a checked view used to state
    which streams are conforming: every byte requested must lie in
    [[lo, hi)], otherwise the access raises. *)

Record stream : Type := mkStream {
  content : bytes;
  pos : Z;
  stream_name : string;
  window : option (Z * Z)
}.

Definition BytesIO (bs : bytes) (nm : string) : stream :=
  mkStream bs 0 nm None.

Definition set_pos (s : stream) (p : Z) : stream :=
  mkStream (content s) p (stream_name s) (window s).

Definition in_window (s : stream) (p n : Z) : bool :=
  match window s with
  | None => true
  | Some (lo, hi) => (0 <=? n) && (lo <=? p) && (p + n <=? hi)
  end.

(** The bytes from the current position on. *)
Definition remaining (s : stream) : bytes :=
  skipn (Z.to_nat (pos s)) (content s).

(** State and exceptions of the decoder: the stream is threaded. *)
Definition M (A : Type) : Type := stream -> result (A * stream).

Definition ret {A} (a : A) : M A := fun s => Ok (a, s).

Definition bind {A B} (m : M A) (f : A -> M B) : M B :=
  fun s => match m s with
           | Ok (a, s') => f a s'
           | Raise e => Raise e
           end.

Definition lift {A} (r : result A) : M A :=
  fun s => match r with Ok a => Ok (a, s) | Raise e => Raise e end.

Notation "x <- m ;; k" := (bind m (fun x => k))
  (at level 61, m at next level, right associativity).
Notation "' p <- m ;; k" := (bind m (fun x => match x with p => k end))
  (at level 61, p pattern, m at next level, right associativity).

(** [data.tell()] *)
Definition stream_tell : M Z := fun s => Ok (pos s, s).

(** [data.seek(p)]: a negative target raises. *)
Definition stream_seek (p : Z) : M unit :=
  fun s => if p <? 0 then Raise ValueError else Ok (tt, set_pos s p).

(** [data.read(n)]: at most [n] bytes, fewer at the end of the stream; a
    negative [n] reads everything that is left. *)
Definition stream_read (n : Z) : M bytes :=
  fun s =>
    if in_window s (pos s) n then
      let bs := if n <? 0 then remaining s
                else firstn (Z.to_nat n) (remaining s) in
      Ok (bs, set_pos s (pos s + len bs))
    else Raise OSError.

(** [takewhile(lambda b: b != b'\x00', iter(lambda: data.read(1), b''))]:
    the bytes taken, how many one-byte reads returned a byte (the
    terminator is consumed too), and whether the scan met the end of the
    stream, where a last read returns [b'']. *)
Fixpoint takewhile_nul (l : bytes) : bytes * Z * bool :=
  match l with
  | [] => ([], 0, true)
  | b :: t =>
      if Byte.eqb b x00 then ([], 1, false)
      else let '(taken, n, eof) := takewhile_nul t in (b :: taken, n + 1, eof)
  end.

(** [read_terminated_string] of [_load_from_bin] *)
Definition read_terminated_string : M string :=
  fun s =>
    let '(taken, n, eof) := takewhile_nul (remaining s) in
    if in_window s (pos s) (n + (if eof then 1 else 0)) then
      match decode_ascii taken with
      | Ok str => Ok (str, set_pos s (pos s + n))
      | Raise e => Raise e
      end
    else Raise OSError.

(** A [for] loop over a list with a loop-carried state. *)
Fixpoint for_each {A St} (l : list A) (body : A -> St -> M St) (st : St) : M St :=
  match l with
  | [] => ret st
  | x :: t => st' <- body x st ;; for_each t body st'
  end.

(** [_FST_ENTRY_.load_from_bin] *)
Definition load_from_bin : M FST_ENTRY :=
  bs <- stream_read 12 ;;
  lift (entry_of_bytes bs).

(** [[_FST_ENTRY_.load_from_bin(data) for _ in range(n)]] *)
Fixpoint load_entries (n : nat) : M (list FST_ENTRY) :=
  match n with
  | O => ret []
  | S m => e <- load_from_bin ;; es <- load_entries m ;; ret (e :: es)
  end.

(** [open_arc]: the records and the start of the string table. *)
Definition open_arc (base_offset fst_start : Z) : M (list FST_ENTRY * Z) :=
  _ <- stream_seek (base_offset + fst_start) ;;
  head <- load_from_bin ;;
  let entry_num := next_entry_or_len head in
  nodes <- load_entries (Z.to_nat (entry_num - 1)) ;;
  string_tbl_start <- stream_tell ;;
  ret (head :: nodes, string_tbl_start).

(* ------------------------------------------------------------------ *)
(** ** POSIX path helpers *)

Local Open Scope string_scope.

Definition sep : string := "/".

Fixpoint ends_with_sep (s : string) : bool :=
  match s with
  | EmptyString => false
  | String c EmptyString => Ascii.eqb c "/"
  | String _ t => ends_with_sep t
  end.

Definition starts_with_sep (s : string) : bool :=
  match s with
  | String c _ => Ascii.eqb c "/"
  | EmptyString => false
  end.

(** [os.path.join(a, b)] *)
Definition path_join (a b : string) : string :=
  if starts_with_sep b then b
  else if (a =? "") || ends_with_sep a then a ++ b
  else a ++ sep ++ b.

(** [s.rfind(c)]: the last index of [c], or [-1]. *)
Fixpoint rfind_from (i : Z) (c : ascii) (s : string) : Z :=
  match s with
  | EmptyString => (-1)%Z
  | String x t =>
      let r := rfind_from (i + 1) c t in
      if (0 <=? r)%Z then r else if Ascii.eqb x c then i else (-1)%Z
  end.

Definition rfind (c : ascii) (s : string) : Z := rfind_from 0 c s.

(** Is some character of [p[i:j]] different from a dot? *)
Fixpoint has_non_dot (p : string) (i j : nat) : bool :=
  match p, i, j with
  | _, _, O => false
  | EmptyString, _, _ => false
  | String _ t, S i', S j' => has_non_dot t i' j'
  | String c t, O, S j' => negb (Ascii.eqb c ".") || has_non_dot t O j'
  end.

(** [os.path.splitext(p)[0]]: the extension starts at the last dot of the
    last component, leading dots of that component not counting. *)
Definition splitext_root (p : string) : string :=
  let sepIndex := rfind "/" p in
  let dotIndex := rfind "." p in
  if (sepIndex <? dotIndex)%Z
     && has_non_dot p (Z.to_nat (sepIndex + 1)) (Z.to_nat dotIndex)
  then substring 0 (Z.to_nat dotIndex) p
  else p.

(** [[seg for seg in path.split("/") if seg]] *)
Fixpoint split_segments (cur : string) (s : string) : list string :=
  match s with
  | EmptyString => if cur =? "" then [] else [cur]
  | String c t =>
      if Ascii.eqb c "/"
      then (if cur =? "" then [] else [cur]) ++ split_segments "" t
      else split_segments (cur ++ String c EmptyString) t
  end.

Definition split_path (s : string) : list string := split_segments "" s.

Local Close Scope string_scope.

(* ------------------------------------------------------------------ *)
(** ** [load_dir]: rebuilding the nesting

    [load_dir] fills dictionaries through references kept on [dir_stack];
    the dictionaries it creates live in a store, [dir_files] being object 0,
    and a directory value inside a dictionary is a reference into it. *)

Inductive hval : Type :=
| HFile (f : ArcFile)
| HDict (r : nat).

Definition heap := list (dict hval).

(** A fresh [{}] *)
Definition heap_alloc (h : heap) : nat * heap := (List.length h, h ++ [[]]).

(** [d[k] = v] on the dictionary referenced by [r] *)
Definition heap_set (h : heap) (r : nat) (k : string) (v : hval) : heap :=
  list_set h r (dict_set (nth r h []) k v).

(** The dictionary referenced by [r], read back as a tree; [fuel] bounds the
    nesting depth followed. *)
Fixpoint reify (fuel : nat) (h : heap) (r : nat) {struct fuel} : dict node :=
  match fuel with
  | O => []
  | S n =>
      (fix go (l : dict hval) : dict node :=
         match l with
         | [] => []
         | (k, HFile f) :: t => (k, File f) :: go t
         | (k, HDict r') :: t => (k, Dir (reify n h r')) :: go t
         end) (nth r h [])
  end.

Record dir_state : Type := mkDirState {
  store : heap;
  current_dir : nat;
  current_path : string;
  dir_stack : list (Z * nat * string);   (* the top of the stack first *)
  already_parsed : list Z
}.

(** [while dir_stack and dir_stack[-1][0] == x + 1: dir_stack.pop()] *)
Fixpoint pop_closed (stk : list (Z * nat * string)) (x : Z)
  : list (Z * nat * string) :=
  match stk with
  | (close, _, _) :: t => if close =? x + 1 then pop_closed t x else stk
  | [] => []
  end.

(** The body of the loop of [load_dir] for the record of index [x];
    [dir_path] is the [__path] argument of [load_dir]. *)
Definition load_dir_step (entries : list FST_ENTRY) (string_tbl_start : Z)
    (dir_path : string) (x : Z) (st : dir_state) : M dir_state :=
  let parsed := already_parsed st ++ [x] in
  entry <- lift (list_index entries x) ;;
  _ <- stream_seek (string_tbl_start + name_off entry) ;;
  nm <- read_terminated_string ;;
  st1 <-
    (if is_dir entry then
       if next_entry_or_len entry =? x + 1 then
         let (r, h) := heap_alloc (store st) in
         ret (mkDirState (heap_set h (current_dir st) nm (HDict r))
                (current_dir st) (current_path st) (dir_stack st) parsed)
       else
         let (sub_dir, h) := heap_alloc (store st) in
         ret (mkDirState (heap_set h (current_dir st) nm (HDict sub_dir))
                sub_dir
                (current_path st ++ sep ++ nm)
                ((next_entry_or_len entry, sub_dir, dir_path) :: dir_stack st)
                parsed)
     else
       _ <- stream_seek (parent_or_file_off entry) ;;
       bs <- stream_read (next_entry_or_len entry) ;;
       ret (mkDirState
              (heap_set (store st) (current_dir st) nm (HFile (mkArcFile nm bs)))
              (current_dir st) (current_path st) (dir_stack st) parsed)) ;;
  let stk := pop_closed (dir_stack st1) x in
  match stk with
  | (_, d, p) :: _ =>
      ret (mkDirState (store st1) d p stk (already_parsed st1))
  | [] =>
      ret (mkDirState (store st1) 0%nat dir_path stk (already_parsed st1))
  end.

(** [load_dir(__dir_idx, __path)]: the directory read back from the store
    and the updated [already_parsed]. *)
Definition load_dir (entries : list FST_ENTRY) (string_tbl_start : Z)
    (parsed : list Z) (dir_idx : Z) (path : string)
  : M (dict node * list Z) :=
  let init := mkDirState [[]] 0%nat path [] (parsed ++ [dir_idx]) in
  dir_entry <- lift (list_index entries dir_idx) ;;
  st <- for_each (range (dir_idx + 1) (next_entry_or_len dir_entry))
          (load_dir_step entries string_tbl_start path) init ;;
  ret (reify (List.length (store st)) (store st) 0%nat, already_parsed st).

(** The body of the top-level loop of [_load_from_bin]; the loop state is
    [self.files] and [already_parsed]. *)
Definition load_top_step (entries : list FST_ENTRY) (string_tbl_start : Z)
    (i : Z) (st : dict node * list Z) : M (dict node * list Z) :=
  let (files, parsed) := st in
  if in_list i parsed then ret st
  else
    entry <- lift (list_index entries i) ;;
    if is_dir entry then
      _ <- stream_seek (string_tbl_start + name_off entry) ;;
      nm <- read_terminated_string ;;
      '(sub, parsed') <- load_dir entries string_tbl_start parsed i (sep ++ nm) ;;
      ret (dict_set files nm (Dir sub), parsed')
    else
      _ <- stream_seek (string_tbl_start + name_off entry) ;;
      nm <- read_terminated_string ;;
      bs <- stream_read (next_entry_or_len entry) ;;
      ret (dict_set files nm (File (mkArcFile nm bs)), parsed ++ [i]).

(** The tree-building part of [_load_from_bin], after [open_arc]. *)
Definition load_tree (entries : list FST_ENTRY) (string_tbl_start : Z)
  : M (dict node) :=
  head <- lift (list_index entries 0) ;;
  '(files, _) <- for_each (range 1 (next_entry_or_len head))
                   (load_top_step entries string_tbl_start) ([], []) ;;
  ret files.

(** The start of [_load_from_bin]: the position of the stream, the magic
    and the three header words; the 16 reserved bytes are skipped. *)
Definition load_header : M (Z * Z * Z * Z) :=
  base_offset <- stream_tell ;;
  magic_bytes <- stream_read 4 ;;
  file_magic <- lift (unpack_4s magic_bytes) ;;
  if negb (bytes_eqb file_magic U8_FILE_MAGIC) then lift (Raise AssertionError)
  else
    hdr <- stream_read 12 ;;
    '(fst_start, fst_size, file_start) <- lift (unpack_iii hdr) ;;
    _ <- stream_read 16 ;;
    ret (base_offset, fst_start, fst_size, file_start).

(** The header and [open_arc]: the record table and where the string table
    starts. *)
Definition load_table : M (list FST_ENTRY * Z) :=
  '(base_offset, fst_start, _, _) <- load_header ;;
  open_arc base_offset fst_start.

(** [_load_from_bin] up to the tree: the stream name and [self.files]. *)
Definition load_files : M (string * dict node) :=
  fun s =>
    ('(entries, string_tbl_start) <- load_table ;;
     files <- load_tree entries string_tbl_start ;;
     ret (stream_name s, files)) s.

(* ------------------------------------------------------------------ *)
(** ** The [Arc] object and its flat index *)

Definition flat_map := dict (option ArcFile).

Record Arc : Type := mkArc {
  _mod_count : Z;
  _flat_file_struct : flat_map;
  _only_files : flat_map;
  _created_manually : bool;
  _arc_name : string;
  files : dict node
}.

(** The [for key, value in current_dict.items()] loop of
    [_flatten_file_map]: the results and the stack after it. *)
Fixpoint flatten_items (include_dirs : bool) (current_path : string)
    (items : dict node) (results : flat_map)
    (stack : list (string * dict node))
  : flat_map * list (string * dict node) :=
  match items with
  | [] => (results, stack)
  | (key, value) :: t =>
      let next_path := path_join current_path key in
      match value with
      | Dir d =>
          flatten_items include_dirs current_path t
            (if include_dirs then dict_set results next_path None else results)
            ((next_path, d) :: stack)
      | File f =>
          flatten_items include_dirs current_path t
            (dict_set results next_path (Some f)) stack
      end
  end.

(** The [while stack] loop; the top of the stack is the head of the list.
    Every round pops one dictionary, so [fuel] counts dictionaries. *)
Fixpoint flatten_loop (fuel : nat) (include_dirs : bool)
    (stack : list (string * dict node)) (results : flat_map) : flat_map :=
  match fuel with
  | O => results
  | S n =>
      match stack with
      | [] => results
      | (current_path, current_dict) :: rest =>
          let (results', stack') :=
            flatten_items include_dirs current_path current_dict results rest in
          flatten_loop n include_dirs stack' results'
      end
  end.

(** Number of dictionaries and of files in a tree. *)
Fixpoint count_dirs (n : node) : nat :=
  match n with
  | File _ => 0%nat
  | Dir d =>
      S ((fix go (l : dict node) : nat :=
            match l with
            | [] => 0%nat
            | (_, c) :: t => (count_dirs c + go t)%nat
            end) d)
  end.

Fixpoint count_files (n : node) : nat :=
  match n with
  | File _ => 1%nat
  | Dir d =>
      (fix go (l : dict node) : nat :=
         match l with
         | [] => 0%nat
         | (_, c) :: t => (count_files c + go t)%nat
         end) d
  end.

(** [_flatten_file_map(include_dirs)] *)
Definition flatten_tree (include_dirs : bool) (arc_name : string)
    (fs : dict node) : flat_map :=
  flatten_loop (count_dirs (Dir fs)) include_dirs
    [(splitext_root arc_name, fs)] [].

Definition _flatten_file_map (include_dirs : bool) (a : Arc) : flat_map :=
  flatten_tree include_dirs (_arc_name a) (files a).

(** [Arc()] *)
Definition Arc_new : Arc :=
  mkArc 0 [] [] true "ARC_FILE"%string [].

(** [_load_from_bin], as run by [Arc(data=...)]: on an exception no object
    is returned. *)
Definition _load_from_bin (s : stream) : result Arc :=
  match load_files s with
  | Raise e => Raise e
  | Ok ((nm, fs), _) =>
      Ok (mkArc 0 (flatten_tree true nm fs) (flatten_tree false nm fs)
                false nm fs)
  end.

(** [Arc.from_file] on an open stream *)
Definition from_file (s : stream) : result Arc := _load_from_bin s.

(** [_update] *)
Definition _update (a : Arc) : Arc :=
  if 0 <? _mod_count a then
    mkArc 0 (_flatten_file_map true a) (_flatten_file_map false a)
          (_created_manually a) (_arc_name a) (files a)
  else a.

Definition set_files (a : Arc) (fs : dict node) : Arc :=
  mkArc (_mod_count a) (_flat_file_struct a) (_only_files a)
        (_created_manually a) (_arc_name a) fs.

Definition bump (a : Arc) (k : Z) : Arc :=
  mkArc (_mod_count a + k) (_flat_file_struct a) (_only_files a)
        (_created_manually a) (_arc_name a) (files a).

(** *** Readers *)

(** [get_all_files] *)
Definition get_all_files (a : Arc) : flat_map * Arc :=
  let a' := _update a in (_only_files a', a').

(** [__len__] *)
Definition __len__ (a : Arc) : Z * Arc :=
  let a' := _update a in (len (_flat_file_struct a'), a').

(** [__iter__]: the pairs yielded; the object is read as it is. *)
Definition __iter__ (a : Arc) : list (string * option ArcFile) * Arc :=
  (_flat_file_struct a, a).

(** File-system calls of [to_dir] *)
Inductive fs_op : Type :=
| Rmtree (p : string)
| Makedirs (p : string)
| WriteFile (p : string) (bs : bytes).

(** The calls run against a file system the archive does not hold:
    [fs_raises done op] is the exception the call [op] raises after the
    calls [done] have been made, if it raises ([os.makedirs] on a path
    that exists, [open] in a directory that does not).  The first call
    that raises ends the method; otherwise the calls made are returned. *)
Fixpoint run_fs (fs_raises : list fs_op -> fs_op -> option exn)
    (done todo : list fs_op) : result (list fs_op) :=
  match todo with
  | [] => Ok done
  | op :: t =>
      match fs_raises done op with
      | Some e => Raise e
      | None => run_fs fs_raises (done ++ [op]) t
      end
  end.

(** [to_dir(__path)]; [exists_] answers [os.path.exists]. *)
Definition to_dir (path : option string) (exists_ : string -> bool)
    (fs_raises : list fs_op -> fs_op -> option exn) (a : Arc)
  : result (list fs_op) * Arc :=
  let a1 := _update a in
  let target :=
    if _created_manually a1 then path
    else Some (splitext_root
                 (match path with Some p => p | None => _arc_name a1 end)) in
  match target with
  | None => (Raise TypeError, a1)
  | Some target_path =>
      let pre := (if exists_ target_path then [Rmtree target_path] else [])
                   ++ [Makedirs target_path] in
      match run_fs fs_raises [] pre with
      | Raise e => (Raise e, a1)
      | Ok done =>
          let a2 :=
            match _flat_file_struct a1 with
            | [] => mkArc (_mod_count a1) (_flatten_file_map true a1)
                      (_only_files a1) (_created_manually a1) (_arc_name a1)
                      (files a1)
            | _ => a1
            end in
          (run_fs fs_raises done
             (map (fun '(p, d) =>
                     match d with
                     | None => Makedirs (path_join target_path p)
                     | Some f => WriteFile (path_join target_path p) (data f)
                     end) (_flat_file_struct a2)),
           a2)
      end
  end.

(* ------------------------------------------------------------------ *)
(** ** Path-addressed mutations

    A method runs on the object and leaves it in some state whether it
    returns or raises: [Arc -> result A * Arc].  A reference to a nested
    dictionary obtained by walking down from [self.files] is rendered by the
    continuation that uses it: the walk rebuilds the spine around whatever
    the continuation makes of the dictionary reached. *)

Definition ArcM (A : Type) : Type := Arc -> result A * Arc.

(** A path argument: [None], a ['/']-separated string, or a list. *)
Inductive path_arg : Type :=
| PathNone
| PathStr (s : string)
| PathList (l : list string).

Definition segments (p : path_arg) : list string :=
  match p with
  | PathNone => []
  | PathStr s => split_path s
  | PathList l => l
  end.

(** [_get_or_create_directory], followed by what the caller does with the
    dictionary returned. *)
Fixpoint _get_or_create_directory {A} (path : list string)
    (k : dict node -> result A * dict node) (current_dict : dict node)
  : result A * dict node :=
  match path with
  | [] => k current_dict
  | seg :: rest =>
      match dict_get current_dict seg with
      | None =>
          let created := dict_set current_dict seg (Dir []) in
          let (r, sub) := _get_or_create_directory rest k [] in
          (r, dict_set created seg (Dir sub))
      | Some (File _) => (Raise ValueError, current_dict)
      | Some (Dir d) =>
          let (r, sub) := _get_or_create_directory rest k d in
          (r, dict_set current_dict seg (Dir sub))
      end
  end.

(** The descent through the parent segments that [rename], [delete] and
    [move] each spell out: a missing segment is a [KeyError], a file on the
    way a [ValueError]. *)
Fixpoint descend {A} (parents : list string)
    (k : dict node -> result A * dict node) (current_dict : dict node)
  : result A * dict node :=
  match parents with
  | [] => k current_dict
  | key :: rest =>
      match dict_get current_dict key with
      | None => (Raise KeyError, current_dict)
      | Some (File _) => (Raise ValueError, current_dict)
      | Some (Dir d) =>
          let (r, sub) := descend rest k d in
          (r, dict_set current_dict key (Dir sub))
      end
  end.

(** [mkdir] *)
Definition mkdir (path : path_arg) : ArcM unit :=
  fun a =>
    match _get_or_create_directory (segments path)
            (fun d => (Ok tt, d)) (files a) with
    | (Ok _, fs) => (Ok tt, bump (set_files a fs) 1)
    | (Raise e, fs) => (Raise e, set_files a fs)
    end.

(** The end of [_append_internal] and of [move], on the directory reached:
    the name must be free. *)
Definition insert_at (filename : string) (element : node)
    (target_dir : dict node) : result unit * dict node :=
  if dict_mem target_dir filename then (Raise KeyError, target_dir)
  else (Ok tt, dict_set target_dir filename element).

(** [_append_internal] *)
Definition _append_internal (filename : string) (file : ArcFile)
    (path : path_arg) : ArcM unit :=
  fun a =>
    match _get_or_create_directory (segments path)
            (insert_at filename (File file)) (files a) with
    | (Ok _, fs) => (Ok tt, bump (set_files a fs) 1)
    | (Raise e, fs) => (Raise e, set_files a fs)
    end.

(** The [file] argument of [append_file]: the bytes themselves, or, with
    [raw_data=False], the path of a file to read.  A file is given as
    bytes, as the annotation of [ArcFile.data] asks; a [str] passed with
    [raw_data=True] is outside the model. *)
Inductive file_arg : Type :=
| RawData (bs : bytes)
| FromPath (p : string).

(** [append_file]; [disk] answers [open(p, 'rb').read()]. *)
Definition append_file (disk : string -> option bytes) (filename : string)
    (file : file_arg) (path : path_arg) : ArcM unit :=
  fun a =>
    match file with
    | RawData bs => _append_internal filename (mkArcFile filename bs) path a
    | FromPath p =>
        match disk p with
        | Some bs => _append_internal filename (mkArcFile filename bs) path a
        | None => (Raise OSError, a)
        end
    end.

(** The rebuilding loop of [_rename_dict_key_in_place] *)
Fixpoint rename_rebuild (keys : list string) (new_key : string) (val : node)
    (d new_dict : dict node) : result (dict node) :=
  match keys with
  | [] => Ok new_dict
  | k :: t =>
      if String.eqb k new_key
      then rename_rebuild t new_key val d (dict_set new_dict new_key val)
      else match dict_get d k with
           | Some v => rename_rebuild t new_key val d (dict_set new_dict k v)
           | None => Raise KeyError
           end
  end.

(** [d.update(other)] *)
Definition dict_update {V} (d other : dict V) : dict V :=
  fold_left (fun acc kv => dict_set acc (fst kv) (snd kv)) other d.

(** [_rename_dict_key_in_place] on the dictionary [d]; the caller counts the
    modification. *)
Definition _rename_dict_key_in_place (d : dict node) (old_key new_key : string)
  : result unit * dict node :=
  if negb (dict_mem d old_key) then (Raise KeyError, d)
  else if dict_mem d new_key then (Raise KeyError, d)
  else
    let keys := dict_keys d in
    match keys_index keys old_key, dict_get d old_key with
    | Some idx, Some val =>
        let d1 := dict_del d old_key in
        let keys1 := list_set keys idx new_key in
        match rename_rebuild keys1 new_key val d1 [] with
        | Ok new_dict => (Ok tt, dict_update [] new_dict)
        | Raise e => (Raise e, d1)
        end
    | _, _ => (Raise ValueError, d)
    end.

(** The end of [rename], on the parent directory reached *)
Definition rename_at (old_key new_name : string) (current_dict : dict node)
  : result unit * dict node :=
  if negb (dict_mem current_dict old_key) then (Raise KeyError, current_dict)
  else _rename_dict_key_in_place current_dict old_key new_name.

(** [rename] *)
Definition rename (path : path_arg) (new_name : string) : ArcM unit :=
  fun a =>
    match segments path with
    | [] => (Raise ValueError, a)
    | p =>
        let parents := removelast p in
        let old_key := last p EmptyString in
        match descend parents (rename_at old_key new_name) (files a) with
        | (Ok _, fs) => (Ok tt, bump (set_files a fs) 1)
        | (Raise e, fs) => (Raise e, set_files a fs)
        end
    end.

(** The end of [delete], on the parent directory reached *)
Definition delete_at (to_remove : string) (current_dict : dict node)
  : result unit * dict node :=
  if negb (dict_mem current_dict to_remove) then (Raise KeyError, current_dict)
  else (Ok tt, dict_del current_dict to_remove).

(** [delete] *)
Definition delete (path : path_arg) : ArcM unit :=
  fun a =>
    match segments path with
    | [] => (Raise ValueError, a)
    | p =>
        let parents := removelast p in
        let to_remove := last p EmptyString in
        match descend parents (delete_at to_remove) (files a) with
        | (Ok _, fs) => (Ok tt, bump (set_files a fs) 1)
        | (Raise e, fs) => (Raise e, set_files a fs)
        end
    end.

(** [current_dict.pop(src_name)] at the end of the source path *)
Definition pop_source (src_name : string) (current_dict : dict node)
  : result node * dict node :=
  match dict_get current_dict src_name with
  | None => (Raise KeyError, current_dict)
  | Some element => (Ok element, dict_del current_dict src_name)
  end.

(** [move] *)
Definition move (src dest : path_arg) : ArcM unit :=
  fun a =>
    match segments src, segments dest with
    | [], _ => (Raise ValueError, a)
    | _, [] => (Raise ValueError, a)
    | s, d =>
        match descend (removelast s) (pop_source (last s EmptyString))
                (files a) with
        | (Raise e, fs) => (Raise e, set_files a fs)
        | (Ok element, fs) =>
            let a1 := bump (set_files a fs) 1 in
            let dest_name := last d EmptyString in
            match _get_or_create_directory (removelast d)
                    (insert_at dest_name element) (files a1) with
            | (Ok _, fs') => (Ok tt, bump (set_files a1 fs') 1)
            | (Raise e, fs') => (Raise e, set_files a1 fs')
            end
        end
    end.

(** The values and keys [__setitem__] tells apart.  [VSelf] is the archive
    itself, [VOther] any other object (without a [name] attribute).  For
    [VArc other] the code binds the dictionary object [other.files] itself;
    the tree bound here is its value at the time of the call, so what a
    later change of [other] does to this archive, behind its modification
    counter, is not represented. *)
Inductive set_value : Type :=
| VNone
| VSelf
| VArc (other : Arc)
| VFile (f : ArcFile)
| VOther.

Inductive set_key : Type :=
| KStr (s : string)
| KOther.

(** [__setitem__] *)
Definition __setitem__ (key : set_key) (value : set_value) : ArcM unit :=
  fun a =>
    match value, key with
    | VSelf, _ => (Raise RecursionError, a)
    | _, KOther => (Raise KeyError, a)
    | _, KStr k =>
        let a1 := bump a 1 in
        match dict_get (files a1) k with
        | Some (Dir d) =>
            match value with
            | VFile f =>
                (Ok tt, set_files a1
                          (dict_set (files a1) k (Dir (dict_set d (name f) (File f)))))
            | _ => (Raise AttributeError, a1)
            end
        | _ =>
            match value with
            | VNone => (Ok tt, set_files a1 (dict_set (files a1) k (Dir [])))
            | VArc other =>
                (Ok tt, set_files a1 (dict_set (files a1) k (Dir (files other))))
            | VFile f => (Ok tt, set_files a1 (dict_set (files a1) k (File f)))
            | _ => (Raise ValueError, bump a1 (-1))
            end
        end
    end.

(* ------------------------------------------------------------------ *)
(** ** [to_bytes]: the encoder *)

(** Step 1: the lists [traverse] fills. *)
Record enc_state : Type := mkEnc {
  fst_entries : list (option FST_ENTRY);
  names : list string;
  file_map : list (Z * ArcFile)
}.

(** [add_entry]: a placeholder record and the name; the index is returned. *)
Definition add_entry (nm : string) (st : enc_state) : Z * enc_state :=
  (len (fst_entries st),
   mkEnc (fst_entries st ++ [None]) (names st ++ [nm]) (file_map st)).

(** [fst_entries[idx] = e] *)
Definition fill_entry (st : enc_state) (idx : Z) (e : FST_ENTRY) : enc_state :=
  mkEnc (list_set (fst_entries st) (Z.to_nat idx) (Some e))
        (names st) (file_map st).

(** [traverse(name, node, parent_idx)].  The Python function calls itself
    once per level of nesting; the limit the interpreter puts on the depth
    of calls is not part of the model, so what is said of [to_bytes] is
    said of the calls that return. *)
Fixpoint traverse (nm : string) (nd : node) (parent_idx : Z)
    (st : enc_state) : enc_state :=
  match nd with
  | Dir d =>
      let (my_idx, st1) := add_entry nm st in
      let st2 :=
        (fix children (l : dict node) (s : enc_state) : enc_state :=
           match l with
           | [] => s
           | (child_name, child_node) :: t =>
               children t (traverse child_name child_node my_idx s)
           end) d st1 in
      let next_idx := len (fst_entries st2) in
      fill_entry st2 my_idx (mkEntry true 0 parent_idx next_idx)
  | File f =>
      let (my_idx, st1) := add_entry nm st in
      let st2 := fill_entry st1 my_idx (mkEntry false 0 0 0) in
      mkEnc (fst_entries st2) (names st2) (file_map st2 ++ [(my_idx, f)])
  end.

(** The loop over the top-level entries *)
Fixpoint traverse_all (l : dict node) (parent_idx : Z) (st : enc_state)
  : enc_state :=
  match l with
  | [] => st
  | (key, value) :: t => traverse_all t parent_idx (traverse key value parent_idx st)
  end.

(** Step 1 as a whole *)
Definition build_fst (fs : dict node) : enc_state :=
  let (root_idx, st0) := add_entry EmptyString (mkEnc [] [] []) in
  let st1 := traverse_all fs root_idx st0 in
  fill_entry st1 root_idx (mkEntry true 0 0 (len (fst_entries st1))).

(** Step 2: the string table and the offset of every name *)
Fixpoint build_string_table (nms : list string) (string_table : bytes)
    (name_offsets : list Z) : bytes * list Z :=
  match nms with
  | [] => (string_table, name_offsets)
  | nm :: t =>
      let off := len string_table in
      build_string_table t
        (string_table ++ encode_ascii_replace nm ++ [x00])
        (name_offsets ++ [off])
  end.

(** [entry.name_off = name_offsets[idx]] for every record; a placeholder
    left unfilled has no such attribute. *)
Fixpoint assign_name_offsets (es : list (option FST_ENTRY)) (idx : Z)
    (name_offsets : list Z) : result (list FST_ENTRY) :=
  match es with
  | [] => Ok []
  | None :: _ => Raise AttributeError
  | Some e :: t =>
      match list_index name_offsets idx with
      | Raise x => Raise x
      | Ok off =>
          match assign_name_offsets t (idx + 1) name_offsets with
          | Raise x => Raise x
          | Ok rest =>
              Ok (mkEntry (is_dir e) off (parent_or_file_off e)
                          (next_entry_or_len e) :: rest)
          end
      end
  end.

(** [file_map[idx]] *)
Fixpoint file_map_get (m : list (Z * ArcFile)) (idx : Z) : result ArcFile :=
  match m with
  | [] => Raise KeyError
  | (i, f) :: t => if i =? idx then Ok f else file_map_get t idx
  end.

(** Step 4: offsets and sizes of the file records *)
Fixpoint fill_file_entries (es : list FST_ENTRY) (idx : Z)
    (m : list (Z * ArcFile)) (curr_file_off : Z) : result (list FST_ENTRY) :=
  match es with
  | [] => Ok []
  | e :: t =>
      if negb (is_dir e) then
        match file_map_get m idx with
        | Raise x => Raise x
        | Ok arc_file =>
            match fill_file_entries t (idx + 1) m
                    (curr_file_off + _align (len (data arc_file)) 32) with
            | Raise x => Raise x
            | Ok rest =>
                Ok (mkEntry false (name_off e) curr_file_off
                            (len (data arc_file)) :: rest)
            end
        end
      else
        match fill_file_entries t (idx + 1) m curr_file_off with
        | Raise x => Raise x
        | Ok rest => Ok (e :: rest)
        end
  end.

(** What steps 1 to 4 compute *)
Record layout : Type := mkLayout {
  lay_entries : list FST_ENTRY;
  lay_string_table : bytes;
  lay_file_map : list (Z * ArcFile);
  fst_offset : Z;
  fst_size : Z;
  str_table_size : Z;
  file_data_offset : Z
}.

Definition compute_layout (fs : dict node) : result layout :=
  let st := build_fst fs in
  let (string_table, name_offsets) := build_string_table (names st) [] [] in
  match assign_name_offsets (fst_entries st) 0 name_offsets with
  | Raise x => Raise x
  | Ok es =>
      let fst_offset := 32 in
      let fst_size := len es * 12 in
      let str_table_offset := fst_offset + fst_size in
      let str_table_size := len string_table in
      let file_data_offset := _align (str_table_offset + str_table_size) 32 in
      match fill_file_entries es 0 (file_map st) file_data_offset with
      | Raise x => Raise x
      | Ok es' =>
          Ok (mkLayout es' string_table (file_map st) fst_offset fst_size
                       str_table_size file_data_offset)
      end
  end.

(** [struct.pack('>4sIII16s', ...)] *)
Definition pack_header (L : layout) : result bytes :=
  match pack_I (fst_offset L), pack_I (fst_size L + str_table_size L),
        pack_I (file_data_offset L) with
  | Ok a, Ok b, Ok c => Ok (U8_FILE_MAGIC ++ a ++ b ++ c ++ repeat x00 16)
  | _, _, _ => Raise StructError
  end.

(** [for entry in fst_entries: buffer.write(entry.to_binary())] *)
Fixpoint write_entries (es : list FST_ENTRY) (buffer : bytes) : result bytes :=
  match es with
  | [] => Ok buffer
  | e :: t =>
      match to_binary e with
      | Raise x => Raise x
      | Ok b => write_entries t (buffer ++ b)
      end
  end.

(** The zero padding written after the data of one file *)
Definition file_padding (f : ArcFile) : bytes :=
  let pad := _align (len (data f)) 32 - len (data f) in
  repeat x00 (Z.to_nat pad).

(** The last loop of step 5: every file, padded to 32 bytes *)
Fixpoint write_files (es : list FST_ENTRY) (idx : Z) (m : list (Z * ArcFile))
    (buffer : bytes) : result bytes :=
  match es with
  | [] => Ok buffer
  | e :: t =>
      if negb (is_dir e) then
        match file_map_get m idx with
        | Raise x => Raise x
        | Ok arc_file =>
            write_files t (idx + 1) m
              (buffer ++ data arc_file ++ file_padding arc_file)
        end
      else write_files t (idx + 1) m buffer
  end.

(** Step 5 *)
Definition emit (L : layout) : result bytes :=
  match pack_header L with
  | Raise x => Raise x
  | Ok header =>
      match write_entries (lay_entries L) header with
      | Raise x => Raise x
      | Ok buf1 =>
          let buf2 := buf1 ++ lay_string_table L in
          let pad := _align (len buf2) 32 - len buf2 in
          let buf3 := buf2 ++ repeat x00 (Z.to_nat pad) in
          write_files (lay_entries L) 0 (lay_file_map L) buf3
      end
  end.

(** [to_bytes] *)
Definition to_bytes (a : Arc) : result bytes :=
  match compute_layout (files a) with
  | Raise x => Raise x
  | Ok L => emit L
  end.

(** [Arc(data=BytesIO(bytes))] with the given stream name: the decoder run
    on what the encoder wrote. *)
Definition decode (nm : string) (bs : bytes) : result Arc :=
  _load_from_bin (BytesIO bs nm).

(* ------------------------------------------------------------------ *)
(** ** Lookup: [__getitem__] and [__contains__] *)

(** ["/" in item] *)
Fixpoint contains_sep (s : string) : bool :=
  match s with
  | EmptyString => false
  | String c t => Ascii.eqb c "/"%char || contains_sep t
  end.

(** The argument of [__getitem__]: a string, a list of strings, or any
    other object. *)
Inductive item_arg : Type :=
| ItemStr (s : string)
| ItemList (l : list string)
| ItemOther.

(** The keys [__getitem__] walks through: a string is split only when it
    holds a ['/']. *)
Definition item_keys (item : item_arg) : result (list string) :=
  match item with
  | ItemStr s => Ok (if contains_sep s then split_path s else [s])
  | ItemList l => Ok l
  | ItemOther => Raise KeyError
  end.

(** The loop of [__getitem__] from [current] on.  [key not in current] is
    a [TypeError] when [current] is an [ArcFile], which is no container. *)
Fixpoint walk (keys : list string) (current : node) : result node :=
  match keys with
  | [] => Ok current
  | key :: rest =>
      match current with
      | File _ => Raise TypeError
      | Dir d =>
          match dict_get d key with
          | None => Raise KeyError
          | Some v => walk rest v
          end
      end
  end.

(** [__getitem__]: the root dictionary is returned as [Dir (files a)]. *)
Definition __getitem__ (item : item_arg) : ArcM node :=
  fun a =>
    let a1 := _update a in
    match item_keys item with
    | Raise e => (Raise e, a1)
    | Ok keys => (walk keys (Dir (files a1)), a1)
    end.

(** [__contains__]: only a [KeyError] is caught. *)
Definition __contains__ (item : item_arg) : ArcM bool :=
  fun a =>
    match __getitem__ item a with
    | (Ok _, a1) => (Ok true, a1)
    | (Raise KeyError, a1) => (Ok false, a1)
    | (Raise e, a1) => (Raise e, a1)
    end.

(* ------------------------------------------------------------------ *)
(** ** The display name: [arc_name] *)

(** [pathlib.PurePosixPath(p).name]: the last component of [p], empty
    components and ["."] not counting; empty when there is none. *)
Definition path_name (p : string) : string :=
  last (filter (fun x => negb (String.eqb x "."%string)) (split_path p))
       EmptyString.

(** [PurePosixPath(p).stem]: the name without its suffix; a dot that starts
    or ends the name starts no suffix. *)
Definition path_stem (p : string) : string :=
  let nm := path_name p in
  let i := rfind "."%char nm in
  if (0 <? i) && (i <? Z.of_nat (String.length nm) - 1)
  then substring 0 (Z.to_nat i) nm
  else nm.

(** The property [arc_name]: [Path(self._arc_name).stem] *)
Definition arc_name (a : Arc) : string := path_stem (_arc_name a).

(* ------------------------------------------------------------------ *)
(** ** [RouteEdit.py]: the archive [saveArc] builds

    [saveArc] and [saveSarcAs] take the files of the editor widgets, objects
    with a [name] and [data], sort them by name and append each one to a
    new archive; the bytes of that archive are what is written. *)

Local Open Scope string_scope.

(** [file.name[5:-4]], cut to its first two characters when longer. *)
Definition folder_name_of (nm : string) : string :=
  let folder_name := substring 5 (String.length nm - 9) nm in
  if (2 <? String.length folder_name)%nat then substring 0 2 folder_name
  else folder_name.

(** [arcContents.sort(key=lambda __f: __f.name)]: a stable sort by name. *)
Fixpoint insert_by_name (f : ArcFile) (l : list ArcFile) : list ArcFile :=
  match l with
  | [] => [f]
  | g :: t =>
      if String.leb (name f) (name g) then f :: g :: t
      else g :: insert_by_name f t
  end.

Definition sort_by_name (l : list ArcFile) : list ArcFile :=
  fold_right insert_by_name [] l.

(** The path argument of the call of [append_file] *)
Definition save_path (nm : string) : path_arg :=
  PathStr (folder_name_of nm ++ "/" ++ nm).

(** The loop over the sorted files; an exception of [append_file] ends
    it. *)
Fixpoint append_all (contents : list ArcFile) : ArcM unit :=
  fun a =>
    match contents with
    | [] => (Ok tt, a)
    | file :: t =>
        match append_file (fun _ => None) (name file) (RawData (data file))
                (save_path (name file)) a with
        | (Ok _, a') => append_all t a'
        | (Raise e, a') => (Raise e, a')
        end
    end.

(** [newArchive] at the end of the loop *)
Definition build_archive (arcContents : list ArcFile) : result unit * Arc :=
  append_all (sort_by_name arcContents) Arc_new.

(** What [saveArc] writes to the file *)
Definition saveArc_bytes (arcContents : list ArcFile) : result bytes :=
  match build_archive arcContents with
  | (Ok _, newArchive) => to_bytes newArchive
  | (Raise e, _) => Raise e
  end.

Local Close Scope string_scope.

(* ------------------------------------------------------------------ *)
(** ** Calls of the mutation API *)

Inductive call : Type :=
| CallMkdir (path : path_arg)
| CallAppend (disk : string -> option bytes) (filename : string)
             (file : file_arg) (path : path_arg)
| CallRename (path : path_arg) (new_name : string)
| CallDelete (path : path_arg)
| CallMove (src dest : path_arg)
| CallSetitem (key : set_key) (value : set_value).

Definition run (c : call) : ArcM unit :=
  match c with
  | CallMkdir p => mkdir p
  | CallAppend disk fn f p => append_file disk fn f p
  | CallRename p n => rename p n
  | CallDelete p => delete p
  | CallMove s d => move s d
  | CallSetitem k v => __setitem__ k v
  end.

(** A burst of calls, stopping at the first one that raises. *)
Fixpoint run_all (cs : list call) (a : Arc) : result unit * Arc :=
  match cs with
  | [] => (Ok tt, a)
  | c :: t =>
      match run c a with
      | (Ok _, a') => run_all t a'
      | (Raise e, a') => (Raise e, a')
      end
  end.

(* ------------------------------------------------------------------ *)
(** ** Predicates used in the statements *)

(** The cached maps agree with the tree whenever no modification is
    pending. *)
Definition index_in_sync (a : Arc) : Prop :=
  0 <= _mod_count a /\
  (_mod_count a = 0 ->
   _flat_file_struct a = _flatten_file_map true a /\
   _only_files a = _flatten_file_map false a).

Fixpoint nodup_strings (l : list string) : bool :=
  match l with
  | [] => true
  | k :: t => negb (existsb (String.eqb k) t) && nodup_strings t
  end.

(** Sibling names are unique in every directory of the tree. *)
Fixpoint unique_names (n : node) : bool :=
  match n with
  | File _ => true
  | Dir d =>
      nodup_strings (dict_keys d)
      && (fix go (l : dict node) : bool :=
            match l with
            | [] => true
            | (_, c) :: t => unique_names c && go t
            end) d
  end.

Fixpoint no_slash (s : string) : bool :=
  match s with
  | EmptyString => true
  | String c t => negb (Ascii.eqb c "/") && no_slash t
  end.

(** A name that is one path component: not empty and without ['/']. *)
Definition component (s : string) : bool :=
  negb (String.eqb s EmptyString) && no_slash s.

(** Every name in the tree is a path component. *)
Fixpoint component_names (n : node) : bool :=
  match n with
  | File _ => true
  | Dir d =>
      (fix go (l : dict node) : bool :=
         match l with
         | [] => true
         | (k, c) :: t => component k && component_names c && go t
         end) d
  end.

(** The index paths of the nodes below a node placed at path [p]. *)
Fixpoint node_paths (p : string) (n : node) : list string :=
  match n with
  | File _ => []
  | Dir d =>
      (fix go (l : dict node) : list string :=
         match l with
         | [] => []
         | (k, c) :: t =>
             path_join p k :: node_paths (path_join p k) c ++ go t
         end) d
  end.

(** The paths still to come from the dictionaries waiting on the stack of
    [_flatten_file_map], and how many dictionaries that is. *)
Fixpoint stack_paths (stack : list (string * dict node)) : list string :=
  match stack with
  | [] => []
  | (p, d) :: t => node_paths p (Dir d) ++ stack_paths t
  end.

Fixpoint stack_dirs (stack : list (string * dict node)) : nat :=
  match stack with
  | [] => 0%nat
  | (_, d) :: t => (count_dirs (Dir d) + stack_dirs t)%nat
  end.

(** What [os.path.join(p, k)] puts in front of a path component [k]. *)
Definition join_prefix (p : string) : string :=
  if String.eqb p EmptyString || ends_with_sep p then p
  else String.append p sep.

(** What may follow a component inside a path: nothing, or a separator and
    the rest. *)
Definition tail_like (x : string) : Prop :=
  x = EmptyString \/ exists r, x = String.append sep r.

(** Number of directories below the root dictionary. *)
Definition count_subdirs (fs : dict node) : nat := pred (count_dirs (Dir fs)).



Definition rename_key (old_key new_key : string) (kv : string * node)
  : string * node :=
  if String.eqb (fst kv) old_key then (new_key, snd kv) else kv.

(* ------------------------------------------------------------------ *)
(** ** Conforming streams *)

(** The stream seen through the window [[lo, hi)]. *)
Definition checked (s : stream) (lo hi : Z) : stream :=
  mkStream (content s) (pos s) (stream_name s) (Some (lo, hi)).

(** The same stream over other bytes, unchecked. *)
Definition over (c : bytes) (s : stream) : stream :=
  mkStream c (pos s) (stream_name s) None.

(** Two byte strings that carry the same bytes at the offsets of the window
    [[lo, hi)]. *)
Definition agree (lo hi : Z) (c1 c2 : bytes) : Prop :=
  exists pre1 pre2 mid post1 post2,
    c1 = pre1 ++ mid ++ post1 /\ c2 = pre2 ++ mid ++ post2
    /\ len pre1 = lo /\ len pre2 = lo /\ len mid = hi - lo.

(** [m2], run unchecked over the bytes [c2], follows every successful run
    of [m1] on a stream checked against the window [[lo, hi)] on which the
    two contents agree; the results are related by [R]. *)
Definition simulates {A B} (R : A -> B -> Prop) (c2 : bytes) (lo hi : Z)
    (m1 : M A) (m2 : M B) : Prop :=
  forall s a s',
    window s = Some (lo, hi) -> agree lo hi (content s) c2 ->
    m1 s = Ok (a, s') ->
    exists b, m2 (over c2 s) = Ok (b, over c2 s') /\ R a b
              /\ window s' = Some (lo, hi) /\ content s' = content s.

(** Two records that the decoder cannot tell apart: they may differ in the
    second word when they describe a directory. *)
Definition same_but_dir_parent (e1 e2 : FST_ENTRY) : Prop :=
  is_dir e1 = is_dir e2 /\ name_off e1 = name_off e2
  /\ next_entry_or_len e1 = next_entry_or_len e2
  /\ (is_dir e1 = false -> parent_or_file_off e1 = parent_or_file_off e2).

(** A stream is conforming when its header and record table parse from
    inside the stream and every name and every file content the decoder then
    reads lies, terminator included, between the end of the record table and
    the end of the stream. *)
Definition conforming (s : stream) : bool :=
  let L := len (content s) in
  match load_table (checked s 0 L) with
  | Ok ((entries, tbl), s') =>
      is_ok (load_tree entries tbl (checked s' tbl L))
  | Raise _ => false
  end.

(** The 32-bit big-endian word at offset [off] of [bs]. *)
Definition word_at (bs : bytes) (off : Z) : Z :=
  be_value (firstn 4 (skipn (Z.to_nat off) bs)).

(** Header fields of a stream positioned at the start of an archive: where
    the record table starts, how many records its first record announces,
    and where it ends. *)
Definition table_start (s : stream) : Z :=
  pos s + signed32 (word_at (content s) (pos s + 4)).

Definition record_count (s : stream) : Z :=
  word_at (content s) (table_start s + 8).

Definition table_end (s : stream) : Z :=
  table_start s + 12 * Z.max 1 (record_count s).

(** The record stored in the 12 bytes at offset [p]. *)
Definition entry_at (c : bytes) (p : Z) : FST_ENTRY :=
  mkEntry (negb (Z.land (word_at c p) 4278190080 =? 0))
          (Z.land (word_at c p) 16777215)
          (word_at c (p + 4))
          (word_at c (p + 8)).

(** The [n] records stored from offset [p] on. *)
Definition entries_at (c : bytes) (p : Z) (n : nat) : list FST_ENTRY :=
  map (fun r => entry_at c (p + 12 * Z.of_nat r)) (seq 0 n).

(** The record table of a stream positioned at the start of an archive. *)
Definition table_entries (s : stream) : list FST_ENTRY :=
  entries_at (content s) (table_start s)
    (Z.to_nat (Z.max 1 (record_count s))).

(** Is record [r] of the table of [s] a directory record? *)
Definition dir_record (s : stream) (r : Z) : bool :=
  negb (Z.land (word_at (content s) (table_start s + 12 * r)) 4278190080 =? 0).

(** [c2] differs from the bytes of [s] at most in bytes 4 to 7 of directory
    records. *)
Definition differ_in_dir_parents (s : stream) (c2 : bytes) : Prop :=
  List.length c2 = List.length (content s)
  /\ forall i : nat,
       nth_error c2 i <> nth_error (content s) i ->
       exists r, 0 <= r < Z.max 1 (record_count s)
                 /\ dir_record s r = true
                 /\ table_start s + 12 * r + 4 <= Z.of_nat i
                    < table_start s + 12 * r + 8.

(* ------------------------------------------------------------------ *)
(** ** Concrete archives *)

Local Open Scope string_scope.

Definition no_disk : string -> option bytes := fun _ => None.

(** [{"point": {"point_001.bin": b"\x01\x02"}}], built through the API. *)
Definition scenario_arc : Arc :=
  snd (append_file no_disk "point_001.bin" (RawData [x01; x02])
         (PathStr "point") Arc_new).

(** A new archive with one file inserted directly under the root. *)
Definition root_file_arc : Arc :=
  snd (append_file no_disk "x" (RawData [x01]) PathNone Arc_new).

(** A new archive with the files ["x"] and ["y"] under the root. *)
Definition two_files_arc : Arc :=
  snd (append_file no_disk "y" (RawData [x02]) PathNone root_file_arc).

(** The bytes of the scenario archive, and the same cut in the middle of
    the data of its only file. *)
Definition scenario_bytes : bytes :=
  match to_bytes scenario_arc with Ok bs => bs | Raise _ => [] end.

Definition truncated_bytes : bytes := firstn 97 scenario_bytes.

(** The scenario bytes with another parent index in the record of the
    directory ["point"], and with the data offset of the file record
    pointing far past the end. *)
Definition reparented_bytes : bytes :=
  (firstn 48 scenario_bytes ++ [x00; x00; x00; x07]
     ++ skipn 52 scenario_bytes)%list.

Definition wild_offset_bytes : bytes :=
  (firstn 60 scenario_bytes ++ [x00; x00; xff; xff]
     ++ skipn 64 scenario_bytes)%list.

(** A new archive with one empty directory. *)
Definition one_dir_arc : Arc := snd (mkdir (PathStr "d") Arc_new).

Local Close Scope string_scope.

(* ------------------------------------------------------------------ *)
(** ** Vocabulary of the round trip *)

(** Number of records a node takes in the table: itself and its
    descendants. *)
Fixpoint node_size (n : node) : nat :=
  match n with
  | File _ => 1%nat
  | Dir d =>
      S ((fix go (l : dict node) : nat :=
            match l with
            | [] => 0%nat
            | (_, c) :: t => (node_size c + go t)%nat
            end) d)
  end.

Definition forest_size (d : dict node) : nat := pred (node_size (Dir d)).

(** The tree as the decoder rebuilds it: every [ArcFile] is named after its
    key. *)
Fixpoint canon_node (k : string) (n : node) : node :=
  match n with
  | File f => File (mkArcFile k (data f))
  | Dir d =>
      Dir ((fix go (l : dict node) : dict node :=
              match l with
              | [] => []
              | (k', c) :: t => (k', canon_node k' c) :: go t
              end) d)
  end.

Definition canon (d : dict node) : dict node :=
  map (fun kv => (fst kv, canon_node (fst kv) (snd kv))) d.

(** What the decoder is expected to rebuild from the top-level entries: a
    directory with all it holds; of a file directly under the root, the
    name. *)
Definition top_rebuilt (kv kv' : string * node) : Prop :=
  fst kv' = fst kv
  /\ match snd kv, snd kv' with
     | Dir d, Dir d' => d' = canon d
     | File _, File f' => name f' = fst kv
     | _, _ => False
     end.

(** A name the string table stores and gives back: ASCII, without NUL. *)
Fixpoint clean_name (s : string) : bool :=
  match s with
  | EmptyString => true
  | String c t =>
      (Z_of_byte (byte_of_ascii c) <? 128)
      && negb (Byte.eqb (byte_of_ascii c) x00)
      && clean_name t
  end.

Fixpoint clean_names (n : node) : bool :=
  match n with
  | File _ => true
  | Dir d =>
      (fix go (l : dict node) : bool :=
         match l with
         | [] => true
         | (k, c) :: t => clean_name k && clean_names c && go t
         end) d
  end.

(** The store of [load_dir] against trees: the value [v] found in the
    object of index [lb] stands for the node [n]; references point to later
    objects. *)
Fixpoint repr_node (h : heap) (lb : nat) (v : hval) (n : node) {struct n}
  : Prop :=
  match n with
  | File f =>
      match v with
      | HFile f' => f' = f
      | HDict _ => False
      end
  | Dir d =>
      match v with
      | HFile _ => False
      | HDict r =>
          (lb < r)%nat
          /\ exists obj,
               nth_error h r = Some obj
               /\ (fix items (d : dict node) (obj : dict hval) {struct d}
                     : Prop :=
                     match d with
                     | [] => obj = []
                     | (k, c) :: t =>
                         match obj with
                         | [] => False
                         | (k', v') :: obj' =>
                             k' = k /\ repr_node h r v' c /\ items t obj'
                         end
                     end) d obj
      end
  end.

Fixpoint repr_items (h : heap) (r : nat) (d : dict node) (obj : dict hval)
  {struct d} : Prop :=
  match d with
  | [] => obj = []
  | (k, c) :: t =>
      match obj with
      | [] => False
      | (k', v') :: obj' =>
          k' = k /\ repr_node h r v' c /\ repr_items h r t obj'
      end
  end.

(** A stored value read back with [reify]. *)
Definition reify_val (fuel : nat) (h : heap) (v : hval) : node :=
  match v with
  | HFile f => File f
  | HDict r => Dir (reify fuel h r)
  end.

(** Objects other than [r] are kept from [h] to [h']. *)
Definition frame (r : nat) (h h' : heap) : Prop :=
  forall i o, i <> r -> nth_error h i = Some o -> nth_error h' i = Some o.

(** The directory on top of the stack, [dir_files] when it is empty. *)
Definition stack_top (stk : list (Z * nat * string)) : nat :=
  match stk with
  | (_, d, _) :: _ => d
  | [] => 0%nat
  end.

Definition stack_path (dflt : string) (stk : list (Z * nat * string)) : string :=
  match stk with
  | (_, _, p) :: _ => p
  | [] => dflt
  end.

(** An unchecked stream over the bytes [c]. *)
Definition reads (c : bytes) (s : stream) : Prop :=
  window s = None /\ content s = c.

(** The string read at offset [p] and the bytes read at offset [a]. *)
Definition name_at (c : bytes) (p : Z) (k : string) : Prop :=
  0 <= p
  /\ exists taken n eof,
       takewhile_nul (skipn (Z.to_nat p) c) = (taken, n, eof)
       /\ decode_ascii taken = Ok k.

Definition data_at (c : bytes) (a n : Z) (d : bytes) : Prop :=
  0 <= a /\ 0 <= n /\ firstn (Z.to_nat n) (skipn (Z.to_nat a) c) = d.

(** The records from index [x] on spell the forest [d] in preorder: names
    in the string table at [tbl], directories bounded by their
    [next_entry_or_len], files with their offset and length. *)
Inductive encodes (c : bytes) (tbl : Z) (es : list FST_ENTRY)
  : Z -> dict node -> Prop :=
| encodes_nil x : encodes c tbl es x []
| encodes_file x k f e t :
    list_index es x = Ok e -> is_dir e = false ->
    name_at c (tbl + name_off e) k ->
    data_at c (parent_or_file_off e) (next_entry_or_len e) (data f) ->
    encodes c tbl es (x + 1) t ->
    encodes c tbl es x ((k, File f) :: t)
| encodes_dir x k d e t :
    list_index es x = Ok e -> is_dir e = true ->
    name_at c (tbl + name_off e) k ->
    next_entry_or_len e = x + 1 + Z.of_nat (forest_size d) ->
    encodes c tbl es (x + 1) d ->
    encodes c tbl es (x + 1 + Z.of_nat (forest_size d)) t ->
    encodes c tbl es x ((k, Dir d) :: t).

(* ------------------------------------------------------------------ *)
(** ** Vocabulary of the encoder *)

(** One record of the table, in the order [traverse] numbers the nodes: a
    file under its key, or a directory under its key with the number of
    records below it. *)
Inductive item : Type :=
| IFile (k : string) (f : ArcFile)
| IDir (k : string) (sz : nat).

Definition item_name (it : item) : string :=
  match it with IFile k _ => k | IDir k _ => k end.

Definition item_is_dir (it : item) : bool :=
  match it with IFile _ _ => false | IDir _ _ => true end.

Fixpoint flat_node (k : string) (n : node) : list item :=
  match n with
  | File f => [IFile k f]
  | Dir d =>
      IDir k (forest_size d)
      :: (fix go (l : dict node) : list item :=
            match l with
            | [] => []
            | (k', c) :: t => flat_node k' c ++ go t
            end) d
  end.

Definition flat (d : dict node) : list item :=
  List.flat_map (fun kv => flat_node (fst kv) (snd kv)) d.

(** Two lists related element by element, the relation knowing the index. *)
Inductive Forall2i {A B : Type} (R : Z -> A -> B -> Prop)
  : Z -> list A -> list B -> Prop :=
| Forall2i_nil i : Forall2i R i [] []
| Forall2i_cons i a b la lb :
    R i a b -> Forall2i R (i + 1) la lb -> Forall2i R i (a :: la) (b :: lb).

(** The record [traverse] leaves at index [idx] for an item: the kind, and
    for a directory the index after its last descendant. *)
Definition pre_ok (idx : Z) (it : item) (oe : option FST_ENTRY) : Prop :=
  exists e,
    oe = Some e /\ is_dir e = item_is_dir it
    /\ match it with
       | IDir _ sz => next_entry_or_len e = idx + 1 + Z.of_nat sz
       | IFile _ _ => True
       end.

(** The [file_map] entries of the items numbered from [idx] on. *)
Fixpoint item_files (idx : Z) (its : list item) : list (Z * ArcFile) :=
  match its with
  | [] => []
  | IFile _ f :: t => (idx, f) :: item_files (idx + 1) t
  | IDir _ _ :: t => item_files (idx + 1) t
  end.

(** What a call of [traverse], or the loop over siblings, adds to the three
    lists for the items [its]. *)
Definition extends_by (st st' : enc_state) (its : list item) : Prop :=
  exists ents,
    fst_entries st' = fst_entries st ++ ents
    /\ Forall2i pre_ok (len (fst_entries st)) its ents
    /\ names st' = names st ++ map item_name its
    /\ file_map st' = file_map st
                      ++ item_files (len (fst_entries st)) its.

(** The final record of index [idx] against its item, in the bytes [c]
    with the string table at [tbl]. *)
Definition rec_ok (c : bytes) (tbl : Z) (idx : Z) (it : item) (e : FST_ENTRY)
  : Prop :=
  name_at c (tbl + name_off e) (item_name it)
  /\ match it with
     | IFile _ f =>
         is_dir e = false
         /\ data_at c (parent_or_file_off e) (next_entry_or_len e) (data f)
     | IDir _ sz =>
         is_dir e = true
         /\ next_entry_or_len e = idx + 1 + Z.of_nat sz
     end.

(** A file record against the bytes written: the offset is a multiple of
    32, and there the stream holds the data of the file followed by
    [(32 - length % 32) % 32] zero bytes. *)
Definition file_laid (c : bytes) (e : FST_ENTRY) (f : ArcFile) : Prop :=
  parent_or_file_off e mod 32 = 0
  /\ next_entry_or_len e = len (data f)
  /\ exists pre rest,
       c = pre ++ data f
             ++ repeat x00 (Z.to_nat ((32 - len (data f) mod 32) mod 32))
             ++ rest
       /\ len pre = parent_or_file_off e.

(* ------------------------------------------------------------------ *)
(** ** Concrete trees of the round trip *)

(** A one-character name outside ASCII: U+00E9. *)
Definition latin_name : string := String (ascii_of_nat 233) EmptyString.

(** A directory ["d"] holding one file under that name, built through the
    API. *)
Definition latin_arc : Arc :=
  snd (append_file no_disk latin_name (RawData [x01]) (PathStr "d"%string)
         Arc_new).

(* ------------------------------------------------------------------ *)
(** ** Vocabulary of the layout *)

(** What the last loop of [to_bytes] writes for an item: the data of a file
    and its padding, nothing for a directory. *)
Definition item_chunk (it : item) : bytes :=
  match it with
  | IFile _ f => data f ++ file_padding f
  | IDir _ _ => []
  end.

(** Bytes the names of the items take in the string table, terminators
    included. *)
Definition names_size (its : list item) : Z :=
  fold_right (fun it acc => Z.of_nat (String.length (item_name it)) + 1 + acc)
    0 its.

(** Is every entry directly under the root a directory? *)
Definition no_root_file (fs : dict node) : bool :=
  forallb (fun kv => is_dict (snd kv)) fs.

(** The entries of a flat map that stand for files: the markers of
    directories, bound to [None], are left out. *)
Definition only_some (m : flat_map) : flat_map :=
  filter (fun kv => match snd kv with Some _ => true | None => false end) m.

(** Number of files in the dictionaries waiting on the stack of
    [_flatten_file_map]. *)
Fixpoint stack_files (stack : list (string * dict node)) : nat :=
  match stack with
  | [] => 0%nat
  | (_, d) :: t => (count_files (Dir d) + stack_files t)%nat
  end.

(** Every entry of an index lies directly under the root path or under a
    path that an earlier entry marks as a directory. *)
Definition parents_first (root : string) (m : flat_map) : Prop :=
  forall l1 p v l2, m = l1 ++ (p, v) :: l2 ->
    exists q k, component k = true /\ p = path_join q k
                /\ (q = root \/ In (q, None) l1).

(** What the loops keep about the dictionaries waiting on the stack: each
    is at the root path or at a path marked as a directory, and holds
    path components only. *)
Definition stack_ready (root : string) (results : flat_map)
    (stack : list (string * dict node)) : Prop :=
  Forall (fun pd => (fst pd = root \/ In (fst pd, None) results)
                    /\ component_names (Dir (snd pd)) = true) stack.

(** The bytes a node takes in the file data as the format asks: the data of
    a file followed by [(32 - length % 32) % 32] zero bytes, nothing for a
    directory. *)
Definition padded_chunk (it : item) : bytes :=
  match it with
  | IFile _ f =>
      data f ++ repeat x00 (Z.to_nat ((32 - len (data f) mod 32) mod 32))
  | IDir _ _ => []
  end.

(* ------------------------------------------------------------------ *)
(** ** What the decoder does not check *)

(** Can the name that starts at offset [p] of [c] be read: are its bytes,
    up to the terminator or to the end of [c], ASCII? *)
Definition name_readable (c : bytes) (p : Z) : bool :=
  is_ok (decode_ascii (fst (fst (takewhile_nul (skipn (Z.to_nat p) c))))).

(** Two records that send the decoder the same way, whatever offsets and
    lengths they carry: the same kind, for directories the same last
    field, and the name of the second can be read when the name of the
    first can. *)
Definition same_flow (c1 c2 : bytes) (tbl1 tbl2 : Z) (e1 e2 : FST_ENTRY)
  : bool :=
  Bool.eqb (is_dir e1) (is_dir e2)
  && (negb (is_dir e1) || (next_entry_or_len e1 =? next_entry_or_len e2))
  && (negb (name_readable c1 (tbl1 + name_off e1))
      || name_readable c2 (tbl2 + name_off e2)).

Fixpoint all2 {A B : Type} (p : A -> B -> bool) (la : list A) (lb : list B)
  : bool :=
  match la, lb with
  | [], [] => true
  | a :: ta, b :: tb => p a b && all2 p ta tb
  | _, _ => false
  end.

(** Two record tables of that kind, announcing the same number of
    records. *)
Definition same_records (c1 c2 : bytes) (tbl1 tbl2 : Z)
    (es1 es2 : list FST_ENTRY) : bool :=
  match es1, es2 with
  | h1 :: _, h2 :: _ =>
      (next_entry_or_len h1 =? next_entry_or_len h2)
      && all2 (same_flow c1 c2 tbl1 tbl2) es1 es2
  | _, _ => false
  end.

(** Two unchecked streams over the bytes [c1] and [c2], wherever they
    stand. *)
Definition unchecked_pair (c1 c2 : bytes) (s1 s2 : stream) : Prop :=
  content s1 = c1 /\ content s2 = c2
  /\ window s1 = None /\ window s2 = None.

(** [m2] over [c2] returns whenever [m1] over [c1] does, with results
    related by [R]. *)
Definition follows {A B : Type} (R : A -> B -> Prop) (c1 c2 : bytes)
    (m1 : M A) (m2 : M B) : Prop :=
  forall s1 s2 a s1',
    unchecked_pair c1 c2 s1 s2 -> m1 s1 = Ok (a, s1') ->
    exists b s2', m2 s2 = Ok (b, s2') /\ R a b
                  /\ unchecked_pair c1 c2 s1' s2'.

(** What steers [load_dir] in an entry of its stack, and in its state: the
    index that closes a directory and the dictionary to return to; names,
    paths and the contents of the dictionaries play no part. *)
Definition stack_control (x : Z * nat * string) : Z * nat := fst x.

Definition same_control (st1 st2 : dir_state) : Prop :=
  List.length (store st1) = List.length (store st2)
  /\ current_dir st1 = current_dir st2
  /\ map stack_control (dir_stack st1) = map stack_control (dir_stack st2)
  /\ already_parsed st1 = already_parsed st2.

(* ------------------------------------------------------------------ *)
(** * Properties *)

Unset Implicit Arguments.

(** ** Dictionaries *)

Section DictFacts.
Variable V : Type.
Implicit Types (d : dict V) (k : string) (v : V).

Lemma dict_get_set_same d k v : dict_get (dict_set d k v) k = Some v.
  Proof.
    induction d as [|[k' v'] t IH]; simpl.
    - now rewrite String.eqb_refl.
    - destruct (String.eqb_spec k k'); simpl.
      + now rewrite String.eqb_refl.
      + destruct (String.eqb_spec k k'); [contradiction|exact IH].
  Qed.

Lemma dict_get_set_other d k k' v :
    k' <> k -> dict_get (dict_set d k v) k' = dict_get d k'.
  Proof.
    intros Hne. induction d as [|[k0 v0] t IH]; simpl.
    - destruct (String.eqb_spec k' k); [contradiction|reflexivity].
    - destruct (String.eqb_spec k k0) as [->|Hk]; simpl.
      + destruct (String.eqb_spec k' k0); [contradiction|reflexivity].
      + destruct (String.eqb_spec k' k0); [reflexivity|exact IH].
  Qed.

Lemma dict_set_get_id d k v : dict_get d k = Some v -> dict_set d k v = d.
  Proof.
    induction d as [|[k0 v0] t IH]; simpl; [discriminate|].
    destruct (String.eqb_spec k k0) as [->|Hk].
    - now intros [= ->].
    - intros H. now rewrite IH.
  Qed.

Lemma dict_set_set d k v v' :
    dict_set (dict_set d k v) k v' = dict_set d k v'.
  Proof.
    induction d as [|[k0 v0] t IH]; simpl.
    - now rewrite String.eqb_refl.
    - destruct (String.eqb_spec k k0) as [->|Hk]; simpl.
      + now rewrite String.eqb_refl.
      + destruct (String.eqb_spec k k0); [contradiction|now rewrite IH].
  Qed.

Lemma dict_mem_in_keys d k : In k (dict_keys d) -> dict_mem d k = true.
  Proof.
    unfold dict_mem. induction d as [|[k0 v0] t IH]; simpl; [tauto|].
    intros [->|Hin].
    - now rewrite String.eqb_refl.
    - destruct (String.eqb k k0); [reflexivity|now apply IH].
  Qed.

Lemma dict_get_none_not_in d k :
    dict_get d k = None -> ~ In k (dict_keys d).
  Proof.
    intros Hg Hin. apply dict_mem_in_keys in Hin. unfold dict_mem in Hin.
    now rewrite Hg in Hin.
  Qed.

Lemma dict_get_in d k v : dict_get d k = Some v -> In (k, v) d.
  Proof.
    induction d as [|[k0 v0] t IH]; simpl; [discriminate|].
    destruct (String.eqb_spec k k0) as [->|Hk].
    - intros [= ->]. now left.
    - intros H. right. now apply IH.
  Qed.

Lemma dict_set_absent d k v :
    dict_get d k = None -> dict_set d k v = d ++ [(k, v)].
  Proof.
    induction d as [|[k0 v0] t IH]; simpl; [reflexivity|].
    destruct (String.eqb_spec k k0); [discriminate|].
    intros H. now rewrite IH.
  Qed.

Lemma dict_keys_set_present d k v v' :
    dict_get d k = Some v -> dict_keys (dict_set d k v') = dict_keys d.
  Proof.
    induction d as [|[k0 v0] t IH]; simpl; [discriminate|].
    destruct (String.eqb_spec k k0) as [->|Hk]; simpl; [reflexivity|].
    intros H. now rewrite IH.
  Qed.
End DictFacts.

(** ** The mutation API leaves the tree alone when it raises *)

Section Atomic.
Variable A : Type.
Variable k : dict node -> result A * dict node.
Hypothesis k_atomic : forall d e d', k d = (Raise e, d') -> d' = d.

Lemma descend_raise parents : forall cur e fs,
    descend parents k cur = (Raise e, fs) -> fs = cur.
  Proof.
    induction parents as [|key rest IH]; simpl; intros cur e fs H.
    - eapply k_atomic; eauto.
    - destruct (dict_get cur key) as [[f|d]|] eqn:Hg;
        try (now inversion H).
      destruct (descend rest k d) as [r sub] eqn:Hd.
      inversion H; subst. apply IH in Hd. subst sub.
      now apply dict_set_get_id.
  Qed.

Hypothesis k_empty : forall e d', k [] <> (Raise e, d').

Lemma get_or_create_fresh path : forall e fs,
    _get_or_create_directory path k [] <> (Raise e, fs).
  Proof.
    induction path as [|seg rest IH]; simpl; intros e fs.
    - apply k_empty.
    - destruct (_get_or_create_directory rest k []) as [r sub] eqn:Hd.
      intros H. inversion H; subst. eapply IH; eauto.
  Qed.

Lemma get_or_create_raise path : forall cur e fs,
    _get_or_create_directory path k cur = (Raise e, fs) -> fs = cur.
  Proof.
    induction path as [|seg rest IH]; simpl; intros cur e fs H.
    - eapply k_atomic; eauto.
    - destruct (dict_get cur seg) as [[f|d]|] eqn:Hg.
      + now inversion H.
      + destruct (_get_or_create_directory rest k d) as [r sub] eqn:Hd.
        inversion H; subst. apply IH in Hd. subst sub.
        now apply dict_set_get_id.
      + destruct (_get_or_create_directory rest k []) as [r sub] eqn:Hd.
        inversion H; subst. exfalso. eapply get_or_create_fresh; eauto.
  Qed.
End Atomic.

Lemma rename_rebuild_ok keys new_key val d : forall acc,
  (forall k, In k keys -> k <> new_key -> dict_mem d k = true) ->
  exists nd, rename_rebuild keys new_key val d acc = Ok nd.
Proof.
  induction keys as [|k t IH]; simpl; intros acc H.
  - eauto.
  - destruct (String.eqb_spec k new_key) as [->|Hk].
    + apply IH. intros; apply H; auto.
    + assert (Hm : dict_mem d k = true) by (apply H; auto).
      unfold dict_mem in Hm. destruct (dict_get d k); [|discriminate].
      apply IH. intros; apply H; auto.
Qed.

Lemma renamed_keys_present (d : dict node) old_key new_key : forall idx k,
  keys_index (dict_keys d) old_key = Some idx ->
  In k (list_set (dict_keys d) idx new_key) -> k <> new_key ->
  dict_mem (dict_del d old_key) k = true.
Proof.
  induction d as [|[k0 v0] t IH]; simpl; intros idx k Hi Hin Hne.
  - discriminate.
  - destruct (String.eqb_spec old_key k0) as [->|Hk].
    + inversion Hi; subst. simpl in Hin. destruct Hin as [<-|Hin]; [congruence|].
      now apply dict_mem_in_keys.
    + destruct (keys_index (dict_keys t) old_key) as [i|] eqn:Hki; [|discriminate].
      inversion Hi; subst. simpl in Hin. destruct Hin as [<-|Hin].
      * unfold dict_mem. simpl. now rewrite String.eqb_refl.
      * specialize (IH _ _ eq_refl Hin Hne). unfold dict_mem in *. simpl.
        destruct (String.eqb k k0); auto.
Qed.

Lemma rename_in_place_raise d old_key new_key e d' :
  _rename_dict_key_in_place d old_key new_key = (Raise e, d') -> d' = d.
Proof.
  unfold _rename_dict_key_in_place.
  destruct (negb (dict_mem d old_key)); [now intros [= _ <-]|].
  destruct (dict_mem d new_key); [now intros [= _ <-]|].
  destruct (keys_index (dict_keys d) old_key) as [idx|] eqn:Hi;
    [|now intros [= _ <-]].
  destruct (dict_get d old_key) as [val|]; [|now intros [= _ <-]].
  destruct (rename_rebuild_ok (list_set (dict_keys d) idx new_key) new_key val
              (dict_del d old_key) [])
    as [nd Hnd].
  { intros k Hin Hne. eapply renamed_keys_present; eauto. }
  rewrite Hnd. discriminate.
Qed.

Lemma insert_at_raise fn el d e d' : insert_at fn el d = (Raise e, d') -> d' = d.
Proof. unfold insert_at. destruct (dict_mem d fn); now intros [= <-]. Qed.

Lemma insert_at_empty fn el e d' : insert_at fn el [] <> (Raise e, d').
Proof. discriminate. Qed.

Lemma rename_at_raise old_key new_name d e d' :
  rename_at old_key new_name d = (Raise e, d') -> d' = d.
Proof.
  unfold rename_at. destruct (negb (dict_mem d old_key)); [now intros [= _ <-]|].
  apply rename_in_place_raise.
Qed.

Lemma delete_at_raise nm d e d' : delete_at nm d = (Raise e, d') -> d' = d.
Proof. unfold delete_at. destruct (negb (dict_mem d nm)); now intros [= <-]. Qed.

Lemma mkdir_raise p a e a' : mkdir p a = (Raise e, a') -> files a' = files a.
Proof.
  unfold mkdir.
  destruct (_get_or_create_directory (segments p) (fun d => (Ok tt, d)) (files a))
    as [[u|x] fs] eqn:H; intros [= <- <-]; simpl.
  eapply get_or_create_raise in H; auto; intros; discriminate.
Qed.

Lemma append_internal_raise fn f p a e a' :
  _append_internal fn f p a = (Raise e, a') -> files a' = files a.
Proof.
  unfold _append_internal.
  destruct (_get_or_create_directory (segments p) (insert_at fn (File f)) (files a))
    as [[u|x] fs] eqn:H; intros [= <- <-]; simpl.
  eapply get_or_create_raise in H; auto.
  - apply insert_at_raise.
  - apply insert_at_empty.
Qed.

Lemma append_file_raise disk fn f p a e a' :
  append_file disk fn f p a = (Raise e, a') -> files a' = files a.
Proof.
  unfold append_file. destruct f as [bs|q].
  - apply append_internal_raise.
  - destruct (disk q).
    + apply append_internal_raise.
    + now intros [= _ <-].
Qed.

Lemma rename_raise p n a e a' :
  rename p n a = (Raise e, a') -> files a' = files a.
Proof.
  unfold rename. destruct (segments p) as [|s0 st]; [now intros [= _ <-]|].
  destruct (descend (removelast (s0 :: st))
              (rename_at (last (s0 :: st) EmptyString) n) (files a))
    as [[u|x] fs] eqn:H; intros [= <- <-]; simpl.
  eapply descend_raise in H; auto. apply rename_at_raise.
Qed.

Lemma delete_raise p a e a' :
  delete p a = (Raise e, a') -> files a' = files a.
Proof.
  unfold delete. destruct (segments p) as [|s0 st]; [now intros [= _ <-]|].
  destruct (descend (removelast (s0 :: st))
              (delete_at (last (s0 :: st) EmptyString)) (files a))
    as [[u|x] fs] eqn:H; intros [= <- <-]; simpl.
  eapply descend_raise in H; auto. apply delete_at_raise.
Qed.

(** [delete] and [move] reach the source the same way. *)
Lemma descend_pop_delete nm parents : forall cur,
  snd (descend parents (pop_source nm) cur)
  = snd (descend parents (delete_at nm) cur)
  /\ (is_ok (fst (descend parents (pop_source nm) cur))
      = is_ok (fst (descend parents (delete_at nm) cur))).
Proof.
  induction parents as [|key rest IH]; simpl; intros cur.
  - unfold pop_source, delete_at, dict_mem.
    destruct (dict_get cur nm); simpl; split; auto.
  - destruct (dict_get cur key) as [[f|d]|]; simpl; auto.
    specialize (IH d). destruct IH as [IH1 IH2].
    destruct (descend rest (pop_source nm) d) as [r sub].
    destruct (descend rest (delete_at nm) d) as [r' sub'].
    simpl in *. subst sub'. auto.
Qed.

Lemma move_key_error_loses_source src dest a a' :
  fst (delete src a) = Ok tt ->
  move src dest a = (Raise KeyError, a') ->
  files a' = files (snd (delete src a)).
Proof.
  unfold move, delete. intros Hdel.
  destruct (segments src) as [|s0 st] eqn:Hs; [discriminate|].
  destruct (segments dest) as [|d0 dt] eqn:Hdst; [discriminate|].
  remember (last (s0 :: st) EmptyString) as nm.
  remember (removelast (s0 :: st)) as parents.
  remember (last (d0 :: dt) EmptyString) as dnm.
  remember (removelast (d0 :: dt)) as dparents.
  destruct (descend_pop_delete nm parents (files a)) as [Hsnd Hfst].
  destruct (descend parents (pop_source nm) (files a)) as [r1 fs1].
  destruct (descend parents (delete_at nm) (files a)) as [r2 fs2].
  simpl in Hsnd, Hfst. subst fs2.
  destruct r2 as [[]|y]; simpl in Hdel; [|discriminate].
  destruct r1 as [el|x]; simpl in Hfst; [|discriminate].
  simpl.
  destruct (_get_or_create_directory dparents (insert_at dnm el) fs1)
    as [[u|x] fs'] eqn:H; intros [= Hx <-]; simpl.
  eapply get_or_create_raise in H; auto.
  - apply insert_at_raise.
  - apply insert_at_empty.
Qed.

Lemma setitem_raise key value a e a' :
  __setitem__ key value a = (Raise e, a') -> files a' = files a.
Proof.
  unfold __setitem__.
  destruct value, key; try (now intros [= _ <-]);
    simpl; destruct (dict_get (files a) s) as [[f0|d]|];
    intros [= _ <-]; reflexivity.
Qed.

(** ** The flat index and its readers *)

Lemma set_files_same a : set_files a (files a) = a.
Proof. now destruct a. Qed.

Lemma flatten_map_ext inc a b :
  _arc_name a = _arc_name b -> files a = files b ->
  _flatten_file_map inc a = _flatten_file_map inc b.
Proof. unfold _flatten_file_map. now intros -> ->. Qed.

(** A state with a pending modification is in sync whatever its maps. *)
Lemma sync_pending a : 0 < _mod_count a -> index_in_sync a.
Proof. intros H. split; [lia|intros H0; lia]. Qed.

(** The shape of the state after a method built on a tree walk. *)
Lemma sync_after_walk a (r : result unit) fs :
  index_in_sync a ->
  (forall e, r = Raise e -> fs = files a) ->
  index_in_sync (snd (match r with
                      | Ok _ => (Ok tt, bump (set_files a fs) 1)
                      | Raise e => (Raise e, set_files a fs)
                      end)).
Proof.
  intros [H0 Hs] Hr. destruct r as [u|e]; simpl.
  - apply sync_pending. simpl. lia.
  - rewrite (Hr e eq_refl), set_files_same. now split.
Qed.

Lemma run_preserves_sync c a :
  index_in_sync a -> index_in_sync (snd (run c a)).
Proof.
  intros Hs.
  assert (Hgen : forall r a', run c a = (r, a') ->
                 (exists e, r = Raise e /\ a' = a) \/ 0 < _mod_count a').
  { intros r a' H. destruct Hs as [H0 _].
    destruct c as [p|disk fn f p|p n|p|src dest|key value]; simpl in H.
    - unfold mkdir in H.
      destruct (_get_or_create_directory _ _ _) as [[u|x] fs] eqn:E;
        inversion H; subst; [right; simpl; lia|left].
      eexists; split; eauto.
      apply get_or_create_raise in E; [|intros; discriminate|intros; discriminate].
      subst. apply set_files_same.
    - assert (Hap : forall bs, _append_internal fn (mkArcFile fn bs) p a = (r, a') ->
                    (exists e, r = Raise e /\ a' = a) \/ 0 < _mod_count a').
      { intros bs. unfold _append_internal.
        destruct (_get_or_create_directory _ _ _) as [[u|x] fs] eqn:E;
          intros H1; inversion H1; subst; [right; simpl; lia|left].
        eexists; split; eauto.
        apply get_or_create_raise in E;
          [|apply insert_at_raise|apply insert_at_empty].
        subst. apply set_files_same. }
      unfold append_file in H. destruct f as [bs|q]; [eauto|].
      destruct (disk q); [eauto|]. inversion H; subst. left; eauto.
    - unfold rename in H. destruct (segments p) as [|s0 st].
      { inversion H; subst. left; eauto. }
      destruct (descend _ _ _) as [[u|x] fs] eqn:E;
        inversion H; subst; [right; simpl; lia|left].
      eexists; split; eauto.
      apply descend_raise in E; [|apply rename_at_raise].
      subst. apply set_files_same.
    - unfold delete in H. destruct (segments p) as [|s0 st].
      { inversion H; subst. left; eauto. }
      destruct (descend _ _ _) as [[u|x] fs] eqn:E;
        inversion H; subst; [right; simpl; lia|left].
      eexists; split; eauto.
      apply descend_raise in E; [|apply delete_at_raise].
      subst. apply set_files_same.
    - unfold move in H. destruct (segments src) as [|s0 st].
      { inversion H; subst. left; eauto. }
      destruct (segments dest) as [|d0 dt].
      { inversion H; subst. left; eauto. }
      destruct (descend _ _ _) as [[el|x] fs] eqn:E.
      + right. destruct (_get_or_create_directory _ _ _) as [[u|x] fs'];
          inversion H; subst; simpl; lia.
      + inversion H; subst. left. eexists; split; eauto.
        apply descend_raise in E.
        * subst. apply set_files_same.
        * intros d e d'. unfold pop_source.
          destruct (dict_get d _); now intros [= <-].
    - unfold __setitem__ in H.
      destruct value, key; try (inversion H; subst; left; now eauto);
        simpl in H; destruct (dict_get (files a) s) as [[f0|d]|];
        inversion H; subst; simpl;
        try (right; simpl; lia);
        left; eexists; (split; [reflexivity|]);
        destruct a; unfold bump; simpl; f_equal; lia. }
  destruct (run c a) as [r a'] eqn:E. simpl.
  destruct (Hgen _ _ eq_refl) as [(e & -> & ->)|Hpos]; auto.
  now apply sync_pending.
Qed.

Lemma run_all_preserves_sync cs : forall a,
  index_in_sync a -> index_in_sync (snd (run_all cs a)).
Proof.
  induction cs as [|c t IH]; simpl; intros a Hs; [exact Hs|].
  pose proof (run_preserves_sync c a Hs) as Hc.
  destruct (run c a) as [[u|e] a']; simpl in *; auto.
Qed.

Lemma new_in_sync : index_in_sync Arc_new.
Proof. split; [simpl; lia|intros _; split; reflexivity]. Qed.

Lemma loaded_in_sync s a : _load_from_bin s = Ok a -> index_in_sync a.
Proof.
  unfold _load_from_bin. destruct (load_files s) as [[[nm fs] s']|e];
    [|discriminate].
  intros [= <-]. split; [simpl; lia|intros _; split; reflexivity].
Qed.

Lemma update_fresh a :
  index_in_sync a ->
  _flat_file_struct (_update a) = _flatten_file_map true a
  /\ _only_files (_update a) = _flatten_file_map false a
  /\ _mod_count (_update a) = 0
  /\ files (_update a) = files a /\ _arc_name (_update a) = _arc_name a.
Proof.
  intros [H0 Hs]. unfold _update. destruct (0 <? _mod_count a) eqn:E; simpl.
  - auto.
  - apply Z.ltb_ge in E. assert (Hz : _mod_count a = 0) by lia.
    destruct (Hs Hz). auto.
Qed.

Lemma run_fs_ok fs_raises todo : forall done ops,
  run_fs fs_raises done todo = Ok ops -> ops = (done ++ todo)%list.
Proof.
  induction todo as [|op t IH]; intros done ops H; cbn [run_fs] in H.
  - injection H as <-. now rewrite app_nil_r.
  - destruct (fs_raises done op); [discriminate|].
    rewrite (IH _ _ H), <- app_assoc. reflexivity.
Qed.

(** The readers that start with [_update] see a fresh flattening of the
    tree, whatever burst of calls came before. *)
Lemma updating_readers_fresh cs a0 :
  index_in_sync a0 ->
  let a := snd (run_all cs a0) in
  fst (get_all_files a) = _flatten_file_map false a
  /\ fst (__len__ a) = len (_flatten_file_map true a)
  /\ _mod_count (snd (get_all_files a)) = 0
  /\ _mod_count (snd (__len__ a)) = 0
  /\ (forall path exists_ fs_raises ops,
        fst (to_dir path exists_ fs_raises a) = Ok ops ->
        exists target pre,
          ops = pre ++ map (fun '(p, d) =>
                              match d with
                              | None => Makedirs (path_join target p)
                              | Some f => WriteFile (path_join target p) (data f)
                              end) (_flatten_file_map true a)).
Proof.
  intros Hs0 a. assert (Hs : index_in_sync a) by now apply run_all_preserves_sync.
  destruct (update_fresh a Hs) as (Hf & Ho & Hm & Hfi & Hn).
  unfold get_all_files, __len__. simpl. rewrite Hf, Ho, Hm.
  repeat split; auto.
  intros path exists_ fs_raises ops. unfold to_dir.
  destruct (if _created_manually (_update a) then path else _) as [target|];
    simpl; [|discriminate].
  destruct (run_fs fs_raises [] _) as [done|e]; [|discriminate].
  cbn [fst]. intros H. apply run_fs_ok in H. subst ops.
  exists target, done. f_equal. f_equal.
  destruct (_flat_file_struct (_update a)) eqn:E; simpl.
  - unfold _flatten_file_map. now rewrite Hfi, Hn.
  - now rewrite <- Hf.
Qed.

(** C2, at the failing input: after [append_file("x", b"\x01")] on a new
    archive one modification is pending and the tree holds the file, yet
    [__iter__], which does not call [_update], yields nothing, while a
    fresh flattening (and [__len__], [get_all_files]) has the entry. *)
Theorem C2_iter_reads_stale_index :
  _mod_count root_file_arc = 1
  /\ fst (__iter__ root_file_arc) = []
  /\ _flatten_file_map true root_file_arc
     = [("ARC_FILE/x"%string, Some (mkArcFile "x" [x01]))]
  /\ fst (__len__ root_file_arc) = 1.
Proof. repeat split; reflexivity. Qed.

(** ** [__setitem__] *)

(** C10.  [arc[k] = value] when [k] names a top-level directory: a file is
    inserted into that directory under its own name, the directory stays
    where it is, and no other value rebinds [k] (the call raises and the
    tree is unchanged); when [k] is absent or names a file the key itself
    is bound: to [{}] for [None], to the tree of another archive, or to the
    file. *)
Theorem C10_setitem_binding :
  forall (a : Arc) (k : string),
    (forall d v r a',
        dict_get (files a) k = Some (Dir d) ->
        __setitem__ (KStr k) v a = (r, a') ->
        match v with
        | VFile f =>
            r = Ok tt
            /\ files a'
               = dict_set (files a) k (Dir (dict_set d (name f) (File f)))
            /\ dict_get (files a') k
               = Some (Dir (dict_set d (name f) (File f)))
            /\ dict_keys (files a') = dict_keys (files a)
        | _ => (exists e, r = Raise e) /\ files a' = files a
        end)
    /\ ((forall d, dict_get (files a) k <> Some (Dir d)) ->
        forall v r a',
          __setitem__ (KStr k) v a = (r, a') ->
          match v with
          | VNone => r = Ok tt /\ dict_get (files a') k = Some (Dir [])
          | VArc other =>
              r = Ok tt /\ dict_get (files a') k = Some (Dir (files other))
          | VFile f => r = Ok tt /\ dict_get (files a') k = Some (File f)
          | _ => (exists e, r = Raise e) /\ files a' = files a
          end).
Proof.
  intros a k. split.
  - intros d v r a' Hg. unfold __setitem__.
    destruct v; simpl; rewrite ?Hg; intros [= <- <-]; simpl; eauto.
    repeat split.
    + apply dict_get_set_same.
    + eapply dict_keys_set_present; eauto.
  - intros Hnd v r a'. unfold __setitem__.
    destruct v; simpl;
      destruct (dict_get (files a) k) as [[f0|d0]|] eqn:Hg;
      try (exfalso; eapply Hnd; reflexivity);
      intros [= <- <-]; simpl; eauto using dict_get_set_same.
Qed.

Lemma C10_setitem_binding_witness :
  files (snd (__setitem__ (KStr "d") (VFile (mkArcFile "f" [x01])) one_dir_arc))
  = [("d"%string, Dir [("f"%string, File (mkArcFile "f" [x01]))])]
  /\ dict_get (files (snd (__setitem__ (KStr "x") VNone root_file_arc)))
       "x"%string = Some (Dir []).
Proof.
  destruct (C10_setitem_binding one_dir_arc "d") as [H1 _].
  destruct (C10_setitem_binding root_file_arc "x") as [_ H2].
  split.
  - specialize (H1 [] (VFile (mkArcFile "f" [x01])) _ _ eq_refl
                  (surjective_pairing _)).
    simpl in H1. destruct H1 as (_ & H1 & _). exact H1.
  - assert (Hnd : forall d, dict_get (files root_file_arc) "x"%string
                            <> Some (Dir d)) by (intros d; discriminate).
    specialize (H2 Hnd VNone _ _ (surjective_pairing _)).
    simpl in H2. destruct H2 as [_ H2]. exact H2.
Defined.

(** ** [rename] keeps every entry in place *)

Lemma nodup_strings_NoDup l : nodup_strings l = true <-> NoDup l.
Proof.
  induction l as [|k t IH]; simpl.
  - split; [constructor|reflexivity].
  - rewrite andb_true_iff, negb_true_iff, IH. split.
    + intros [Hn Hd]. constructor; [|assumption].
      intros Hin. assert (existsb (String.eqb k) t = true); [|congruence].
      apply existsb_exists. exists k. split; [assumption|apply String.eqb_refl].
    + intros Hnd. inversion Hnd; subst. split; [|assumption].
      destruct (existsb (String.eqb k) t) eqn:E; [|reflexivity].
      apply existsb_exists in E. destruct E as (x & Hx & E).
      apply String.eqb_eq in E. now subst.
Qed.

Lemma unique_names_dir d :
  unique_names (Dir d) = true ->
  NoDup (dict_keys d)
  /\ forall k c, In (k, c) d -> unique_names c = true.
Proof.
  simpl. rewrite andb_true_iff. intros [Hn Hc]. split.
  - now apply nodup_strings_NoDup.
  - clear Hn. induction d as [|[k0 c0] t IH]; simpl; [tauto|].
    apply andb_true_iff in Hc. destruct Hc as [H0 Ht].
    intros k c [[= <- <-]|Hin]; eauto.
Qed.

Lemma dict_get_nodup {V} (d : dict V) k v :
  NoDup (dict_keys d) -> In (k, v) d -> dict_get d k = Some v.
Proof.
  induction d as [|[k0 v0] t IH]; simpl; [tauto|].
  intros Hnd. inversion Hnd as [|? ? Hnin Hnd']; subst.
  intros [[= -> ->]|Hin].
  - now rewrite String.eqb_refl.
  - destruct (String.eqb_spec k k0) as [->|Hk]; [|auto].
    exfalso. apply Hnin. change k0 with (fst (k0, v)). now apply in_map.
Qed.

Lemma dict_get_del_other {V} (d : dict V) k k' :
  k' <> k -> dict_get (dict_del d k) k' = dict_get d k'.
Proof.
  intros Hne. induction d as [|[k0 v0] t IH]; simpl; [reflexivity|].
  destruct (String.eqb_spec k k0) as [->|Hk]; simpl.
  - destruct (String.eqb_spec k' k0); [contradiction|reflexivity].
  - destruct (String.eqb_spec k' k0); [reflexivity|exact IH].
Qed.

Lemma fold_set_append {V} (l : dict V) : forall acc,
  NoDup (dict_keys acc ++ dict_keys l) ->
  fold_left (fun a kv => dict_set a (fst kv) (snd kv)) l acc = acc ++ l.
Proof.
  induction l as [|[k v] t IH]; simpl; intros acc Hnd.
  - now rewrite app_nil_r.
  - rewrite dict_set_absent.
    + rewrite IH.
      * now rewrite <- app_assoc.
      * unfold dict_keys in *. rewrite map_app. simpl.
        now rewrite <- app_assoc.
    + apply NoDup_remove_2 in Hnd.
      destruct (dict_get acc k) eqn:E; [|reflexivity].
      exfalso. apply Hnd. apply in_or_app. left.
      apply dict_get_in in E. change k with (fst (k, v0)). now apply in_map.
Qed.

Section RenameInPlace.
Variables (old_key new_key : string) (val : node) (d1 : dict node).

Lemma rename_rebuild_map (l : dict node) : forall acc,
    (forall k v, In (k, v) l ->
       if String.eqb k old_key then v = val
       else k <> new_key /\ dict_get d1 k = Some v) ->
    NoDup (dict_keys acc ++ dict_keys (map (rename_key old_key new_key) l)) ->
    rename_rebuild (dict_keys (map (rename_key old_key new_key) l))
      new_key val d1 acc
    = Ok (acc ++ map (rename_key old_key new_key) l).
  Proof.
    induction l as [|[k v] t IH]; simpl; intros acc Hl Hnd.
    - now rewrite app_nil_r.
    - assert (Hacc : forall k', ~ In k' (dict_keys acc) -> forall v' : node,
                dict_set acc k' v' = acc ++ [(k', v')]).
      { intros k' Hk' v'. apply dict_set_absent.
        destruct (dict_get acc k') eqn:E; [|reflexivity].
        exfalso. apply Hk'. apply dict_get_in in E.
        change k' with (fst (k', n)). now apply in_map. }
      pose proof (Hl k v (or_introl eq_refl)) as Hkv.
      pose proof (NoDup_remove_2 _ _ _ Hnd) as Hfresh.
      assert (Hfa : ~ In (fst (rename_key old_key new_key (k, v))) (dict_keys acc))
        by (intros Hin; apply Hfresh; apply in_or_app; now left).
      assert (Hnd' : forall kv, NoDup (dict_keys (acc ++ [kv]) ++
                       dict_keys (map (rename_key old_key new_key) t)) ->
                     rename_rebuild (dict_keys (map (rename_key old_key new_key) t))
                       new_key val d1 (acc ++ [kv])
                     = Ok ((acc ++ [kv]) ++ map (rename_key old_key new_key) t)).
      { intros kv Hn. apply IH; [|exact Hn]. intros; apply Hl; now right. }
      unfold rename_key in *. simpl in *.
      destruct (String.eqb k old_key) eqn:E; simpl in *.
      + rewrite String.eqb_refl. subst v. rewrite Hacc by assumption.
        rewrite Hnd'; [now rewrite <- app_assoc|].
        unfold dict_keys in *. rewrite map_app. simpl. now rewrite <- app_assoc.
      + destruct Hkv as [Hne Hget].
        destruct (String.eqb_spec k new_key); [contradiction|].
        rewrite Hget, Hacc by assumption.
        rewrite Hnd'; [now rewrite <- app_assoc|].
        unfold dict_keys in *. rewrite map_app. simpl. now rewrite <- app_assoc.
  Qed.
End RenameInPlace.

Lemma renamed_keys (d : dict node) old_key new_key : forall idx,
  NoDup (dict_keys d) ->
  keys_index (dict_keys d) old_key = Some idx ->
  list_set (dict_keys d) idx new_key
  = dict_keys (map (rename_key old_key new_key) d).
Proof.
  induction d as [|[k0 v0] t IH]; simpl; intros idx Hnd Hi; [discriminate|].
  inversion Hnd as [|? ? Hnin Hnd']; subst. unfold rename_key at 1. simpl.
  destruct (String.eqb_spec old_key k0) as [->|Hk].
  - inversion Hi; subst. rewrite String.eqb_refl. simpl. f_equal.
    clear -Hnin. induction t as [|[k1 v1] t IH]; simpl; [reflexivity|].
    simpl in Hnin. unfold rename_key at 1. simpl.
    destruct (String.eqb_spec k1 k0) as [->|Hk1]; [tauto|].
    simpl. f_equal. apply IH. tauto.
  - destruct (keys_index (dict_keys t) old_key) as [i|] eqn:Hki; [|discriminate].
    inversion Hi; subst.
    destruct (String.eqb_spec k0 old_key); [congruence|]. simpl. f_equal.
    now apply IH.
Qed.

Lemma renamed_keys_NoDup (d : dict node) old_key new_key :
  NoDup (dict_keys d) -> ~ In new_key (dict_keys d) ->
  NoDup (dict_keys (map (rename_key old_key new_key) d)).
Proof.
  induction d as [|[k0 v0] t IH]; simpl; intros Hnd Hnew; [constructor|].
  inversion Hnd as [|? ? Hnin Hnd']; subst.
  constructor; [|apply IH; tauto].
  unfold dict_keys. rewrite map_map. rewrite in_map_iff.
  intros ([k1 v1] & Heq & Hin). unfold rename_key in *. simpl in *.
  assert (Hk1 : In k1 (dict_keys t))
    by (change k1 with (fst (k1, v1)); now apply in_map).
  destruct (String.eqb_spec k1 old_key) as [->|H1];
    destruct (String.eqb_spec k0 old_key) as [->|H0]; simpl in *; subst;
    tauto.
Qed.

Lemma rename_in_place_ok d old_key new_key d' :
  NoDup (dict_keys d) ->
  _rename_dict_key_in_place d old_key new_key = (Ok tt, d') ->
  d' = map (rename_key old_key new_key) d
  /\ dict_mem d old_key = true /\ dict_mem d new_key = false.
Proof.
  intros Hnd. unfold _rename_dict_key_in_place.
  destruct (dict_mem d old_key) eqn:Hold; simpl; [|discriminate].
  destruct (dict_mem d new_key) eqn:Hnew; [discriminate|].
  destruct (keys_index (dict_keys d) old_key) as [idx|] eqn:Hi; [|discriminate].
  destruct (dict_get d old_key) as [val|] eqn:Hval; [|discriminate].
  assert (Hnin : ~ In new_key (dict_keys d)).
  { intros Hin. apply dict_mem_in_keys in Hin. congruence. }
  rewrite (renamed_keys d old_key new_key idx Hnd Hi).
  rewrite (rename_rebuild_map old_key new_key val (dict_del d old_key) d []).
  - simpl. intros [= <-]. split; [|auto].
    unfold dict_update. rewrite fold_set_append; [reflexivity|].
    simpl. now apply renamed_keys_NoDup.
  - intros k v Hin. destruct (String.eqb_spec k old_key) as [->|Hk].
    + rewrite (dict_get_nodup d old_key v Hnd Hin) in Hval. congruence.
    + split.
      * intros ->. apply Hnin. change new_key with (fst (new_key, v)).
        now apply in_map.
      * rewrite dict_get_del_other by assumption. now apply dict_get_nodup.
  - simpl. now apply renamed_keys_NoDup.
Qed.




(** ** [_flatten_file_map] visits every node once *)

Lemma node_paths_cons p k c t :
  node_paths p (Dir ((k, c) :: t))
  = path_join p k :: node_paths (path_join p k) c ++ node_paths p (Dir t).
Proof. reflexivity. Qed.

Lemma count_dirs_cons k c t :
  count_dirs (Dir ((k, c) :: t)) = (count_dirs c + count_dirs (Dir t))%nat.
Proof. simpl. lia. Qed.

Lemma count_files_cons k c t :
  count_files (Dir ((k, c) :: t)) = (count_files c + count_files (Dir t))%nat.
Proof. reflexivity. Qed.

Lemma flatten_items_spec cur items : forall results stack,
  NoDup (dict_keys results ++ node_paths cur (Dir items) ++ stack_paths stack) ->
  let (results', stack') := flatten_items true cur items results stack in
  Permutation (dict_keys results' ++ stack_paths stack')
              (dict_keys results ++ node_paths cur (Dir items) ++ stack_paths stack)
  /\ S (stack_dirs stack') = (count_dirs (Dir items) + stack_dirs stack)%nat.
Proof.
  induction items as [|[k c] t IH]; intros results stack Hnd.
  - simpl. split; [reflexivity|lia].
  - rewrite node_paths_cons in Hnd. cbn [flatten_items].
    set (np := path_join cur k) in *.
    assert (Hfresh : dict_get results np = None).
    { destruct (dict_get results np) eqn:E; [|reflexivity]. exfalso.
      apply dict_get_in in E. apply (in_map fst) in E. simpl in E.
      apply NoDup_remove_2 with (l := dict_keys results) in Hnd.
      apply Hnd. apply in_or_app. now left. }
    assert (Hkeys : forall v, dict_keys (dict_set results np v)
                              = dict_keys results ++ [np]).
    { intros v. rewrite dict_set_absent by assumption.
      unfold dict_keys. now rewrite map_app. }
    destruct c as [f|d].
    + specialize (IH (dict_set results np (Some f)) stack).
      destruct (flatten_items true cur t (dict_set results np (Some f)) stack)
        as [results' stack'].
      rewrite Hkeys in IH. simpl in Hnd. rewrite <- app_assoc in IH. simpl in IH.
      specialize (IH Hnd). destruct IH as [IHp IHd].
      rewrite node_paths_cons, count_dirs_cons. simpl. split; [exact IHp|exact IHd].
    + specialize (IH (dict_set results np None) ((np, d) :: stack)).
      destruct (flatten_items true cur t (dict_set results np None)
                  ((np, d) :: stack)) as [results' stack'].
      rewrite Hkeys in IH. rewrite <- app_assoc in IH.
      cbn [stack_paths stack_dirs] in IH.
      assert (Hperm : Permutation
                (dict_keys results ++ [np] ++ node_paths cur (Dir t)
                   ++ node_paths np (Dir d) ++ stack_paths stack)
                (dict_keys results ++ (np :: node_paths np (Dir d)
                   ++ node_paths cur (Dir t)) ++ stack_paths stack)).
      { apply Permutation_app_head. simpl. constructor.
        rewrite <- app_assoc. rewrite !app_assoc.
        apply Permutation_app_tail. apply Permutation_app_comm. }
      assert (Hnd' : NoDup (dict_keys results ++ [np] ++ node_paths cur (Dir t)
                              ++ node_paths np (Dir d) ++ stack_paths stack)).
      { eapply Permutation_NoDup; [symmetry; exact Hperm|exact Hnd]. }
      specialize (IH Hnd'). destruct IH as [IHp IHd].
      rewrite node_paths_cons, count_dirs_cons. split.
      * etransitivity; [exact IHp|exact Hperm].
      * lia.
Qed.

Lemma flatten_loop_spec : forall fuel stack results,
  (stack_dirs stack <= fuel)%nat ->
  NoDup (dict_keys results ++ stack_paths stack) ->
  Permutation (dict_keys (flatten_loop fuel true stack results))
              (dict_keys results ++ stack_paths stack).
Proof.
  induction fuel as [|n IH]; intros stack results Hfuel Hnd.
  - destruct stack as [|[p d] t]; simpl in *; [now rewrite app_nil_r|lia].
  - destruct stack as [|[p d] t]; simpl; [now rewrite app_nil_r|].
    cbn [stack_paths] in *.
    pose proof (flatten_items_spec p d results t Hnd) as Hi.
    destruct (flatten_items true p d results t) as [results' stack'].
    destruct Hi as [Hp Hd]. cbn [stack_dirs] in Hfuel.
    rewrite IH.
    + exact Hp.
    + lia.
    + eapply Permutation_NoDup; [symmetry; exact Hp|exact Hnd].
Qed.

(** Induction on trees, with the hypothesis for every child. *)
Lemma node_induction (P : node -> Prop) :
  (forall f, P (File f)) ->
  (forall d, Forall (fun kv => P (snd kv)) d -> P (Dir d)) ->
  forall n, P n.
Proof.
  intros Hf Hd.
  fix ind 1. intros [f|d]; [apply Hf|]. apply Hd.
  induction d as [|[k c] t IH]; constructor; [apply ind|exact IH].
Qed.

Lemma node_paths_length n : forall p,
  List.length (node_paths p n) = pred (count_files n + count_dirs n).
Proof.
  induction n as [f|d IH] using node_induction; intros p; [reflexivity|].
  induction d as [|[k c] t IHt]; [reflexivity|].
  inversion IH as [|? ? Hc Ht]; subst. simpl in Hc.
  rewrite node_paths_cons, count_files_cons, count_dirs_cons.
  cbn [List.length]. rewrite length_app, Hc, IHt by assumption.
  assert (0 < count_files c + count_dirs c)%nat by (destruct c; simpl; lia).
  assert (0 < count_dirs (Dir t))%nat by (simpl; lia).
  lia.
Qed.

(** *** Paths of distinct nodes are distinct *)

Local Open Scope string_scope.

Lemma append_assoc (a b c : string) : (a ++ b) ++ c = a ++ (b ++ c).
Proof. induction a as [|x a IH]; simpl; [reflexivity|now rewrite IH]. Qed.

Lemma append_empty_r (a : string) : a ++ "" = a.
Proof. induction a as [|x a IH]; simpl; [reflexivity|now rewrite IH]. Qed.

Lemma append_inj_l (a b c : string) : a ++ b = a ++ c -> b = c.
Proof. induction a as [|x a IH]; simpl; [auto|]. intros [= H]. auto. Qed.

Lemma component_split (k k' x x' : string) :
  no_slash k = true -> no_slash k' = true ->
  tail_like x -> tail_like x' ->
  k ++ x = k' ++ x' -> k = k' /\ x = x'.
Proof.
  revert k'. induction k as [|c t IH]; intros k' Hk Hk' Hx Hx' H.
  - destruct k' as [|c' t']; [auto|]. simpl in *.
    apply andb_true_iff in Hk'. destruct Hk' as [Hc' _].
    destruct Hx as [->|[r ->]]; [discriminate|].
    simpl in H. injection H as <- _. discriminate.
  - simpl in Hk. apply andb_true_iff in Hk. destruct Hk as [Hc Ht].
    destruct k' as [|c' t'].
    + simpl in H. destruct Hx' as [->|[r ->]]; [discriminate|].
      simpl in H. injection H as -> _. discriminate.
    + simpl in Hk'. apply andb_true_iff in Hk'. destruct Hk' as [_ Ht'].
      simpl in H. injection H as -> H.
      destruct (IH t' Ht Ht' Hx Hx' H) as [-> ->]. auto.
Qed.

Lemma ends_with_sep_append (q k : string) :
  k <> "" -> ends_with_sep (q ++ k) = ends_with_sep k.
Proof.
  intros Hk. induction q as [|c q IH]; [reflexivity|].
  simpl. rewrite IH. destruct (q ++ k) eqn:E; [|reflexivity].
  destruct q; simpl in E; [contradiction|discriminate].
Qed.

Lemma no_slash_ends (k : string) : no_slash k = true -> ends_with_sep k = false.
Proof.
  induction k as [|c t IH]; [reflexivity|]. simpl.
  intros H. apply andb_true_iff in H. destruct H as [Hc Ht].
  destruct t; [now apply negb_true_iff in Hc|auto].
Qed.

Lemma component_facts (k : string) :
  component k = true ->
  k <> "" /\ no_slash k = true /\ starts_with_sep k = false.
Proof.
  unfold component. intros H. apply andb_true_iff in H. destruct H as [Hne Hns].
  apply negb_true_iff, String.eqb_neq in Hne. repeat split; auto.
  destruct k; [contradiction|]. simpl in *.
  apply andb_true_iff in Hns. now apply negb_true_iff.
Qed.

Lemma path_join_component (p k : string) :
  component k = true -> path_join p k = join_prefix p ++ k.
Proof.
  intros H. destruct (component_facts k H) as (_ & _ & Hs).
  unfold path_join, join_prefix. rewrite Hs.
  destruct ((p =? "") || ends_with_sep p); [reflexivity|].
  now rewrite append_assoc.
Qed.

Lemma join_prefix_component (q k : string) :
  component k = true -> join_prefix (q ++ k) = q ++ k ++ "/".
Proof.
  intros H. destruct (component_facts k H) as (Hne & Hns & _).
  unfold join_prefix. rewrite ends_with_sep_append, no_slash_ends by assumption.
  destruct (String.eqb_spec (q ++ k) "") as [E|E].
  - destruct q; simpl in E; [contradiction|discriminate].
  - simpl. now rewrite append_assoc.
Qed.

Lemma component_names_dir (d : dict node) :
  component_names (Dir d) = true ->
  forall k c, In (k, c) d -> component k = true /\ component_names c = true.
Proof.
  induction d as [|[k0 c0] t IH]; simpl; [tauto|].
  intros H. apply andb_true_iff in H. destruct H as [H Ht].
  apply andb_true_iff in H. destruct H as [Hk Hc].
  intros k c [[= <- <-]|Hin]; auto.
Qed.

(** Below a node at [q ++ k] every path continues with a separator. *)
Lemma node_paths_below (n : node) : forall q k s,
  component k = true -> component_names n = true ->
  In s (node_paths (q ++ k) n) -> exists r, s = q ++ k ++ "/" ++ r.
Proof.
  induction n as [f|d IH] using node_induction; intros q k s Hk Hn Hin;
    [contradiction|].
  pose proof (component_names_dir d Hn) as Hd. clear Hn.
  induction d as [|[k1 c1] t IHt]; [contradiction|].
  inversion IH as [|? ? Hc Ht]; subst. simpl in Hc.
  destruct (Hd k1 c1 (or_introl eq_refl)) as [Hk1 Hc1].
  rewrite node_paths_cons in Hin.
  rewrite path_join_component, join_prefix_component in Hin by assumption.
  destruct Hin as [<-|Hin].
  - exists k1. now rewrite !append_assoc.
  - apply in_app_or in Hin. destruct Hin as [Hin|Hin].
    + destruct (Hc (q ++ k ++ "/") k1 s Hk1 Hc1 Hin) as [r ->].
      exists (k1 ++ "/" ++ r). now rewrite !append_assoc.
    + apply IHt; auto. intros; apply Hd; now right.
Qed.

(** A path of a dictionary at [p] starts with one of its keys. *)
Lemma node_paths_dir_head (d : dict node) p s :
  component_names (Dir d) = true ->
  In s (node_paths p (Dir d)) ->
  exists k c x, In (k, c) d /\ s = join_prefix p ++ k ++ x /\ tail_like x.
Proof.
  intros Hn. pose proof (component_names_dir d Hn) as Hd. clear Hn.
  induction d as [|[k1 c1] t IHt]; [contradiction|].
  destruct (Hd k1 c1 (or_introl eq_refl)) as [Hk1 Hc1].
  rewrite node_paths_cons. rewrite path_join_component by assumption.
  intros [<-|Hin].
  - exists k1, c1, "". rewrite append_empty_r. repeat split; [now left|now left].
  - apply in_app_or in Hin. destruct Hin as [Hin|Hin].
    + destruct (node_paths_below c1 (join_prefix p) k1 s Hk1 Hc1 Hin) as [r ->].
      exists k1, c1, ("/" ++ r). repeat split; [now left|right; eauto].
    + destruct IHt as (k & c & x & Hi & Hs & Hx); auto.
      { intros; apply Hd; now right. }
      exists k, c, x. repeat split; auto. now right.
Qed.

Lemma node_paths_NoDup (n : node) : forall p,
  component_names n = true -> unique_names n = true ->
  NoDup (node_paths p n).
Proof.
  induction n as [f|d IH] using node_induction; intros p Hn Hu; [constructor|].
  pose proof (component_names_dir d Hn) as Hd.
  destruct (unique_names_dir d Hu) as [Hnd Hud]. clear Hu.
  induction d as [|[k1 c1] t IHt]; [constructor|].
  inversion IH as [|? ? Hc Ht]; subst. simpl in Hc.
  inversion Hnd as [|? ? Hk1t Hndt]; subst.
  destruct (Hd k1 c1 (or_introl eq_refl)) as [Hk1 Hc1].
  destruct (component_facts k1 Hk1) as (_ & Hns1 & _).
  assert (Hnt : component_names (Dir t) = true).
  { simpl in Hn. apply andb_true_iff in Hn. apply Hn. }
  assert (Hother : forall s x, tail_like x -> s = join_prefix p ++ k1 ++ x ->
                               ~ In s (node_paths p (Dir t))).
  { intros s x Hx -> Hin.
    destruct (node_paths_dir_head t p _ Hnt Hin) as (k & c & x' & Hi & Hs & Hx').
    apply append_inj_l in Hs.
    destruct (Hd k c (or_intror Hi)) as [Hk _].
    destruct (component_facts k Hk) as (_ & Hns & _).
    destruct (component_split k1 k x x' Hns1 Hns Hx Hx' Hs) as [-> _].
    apply Hk1t. change k with (fst (k, c)). now apply in_map. }
  rewrite node_paths_cons. rewrite path_join_component by assumption.
  constructor.
  - intros Hin. apply in_app_or in Hin. destruct Hin as [Hin|Hin].
    + destruct (node_paths_below c1 (join_prefix p) k1 _ Hk1 Hc1 Hin) as [r Hr].
      apply append_inj_l in Hr. rewrite <- (append_empty_r k1) in Hr at 1.
      apply component_split in Hr; auto; [|now left|right; eauto].
      destruct Hr as [_ Hr]. discriminate.
    + eapply (Hother _ ""); [now left| |exact Hin]. now rewrite append_empty_r.
  - assert (Hndc : NoDup (node_paths (join_prefix p ++ k1) c1)).
    { apply Hc; auto. eapply Hud. now left. }
    assert (Hndt' : NoDup (node_paths p (Dir t))).
    { apply IHt; auto.
      - intros; apply Hd; now right.
      - intros; eapply Hud; right; eauto. }
    apply NoDup_app; auto.
    intros s Hin.
    destruct (node_paths_below c1 (join_prefix p) k1 s Hk1 Hc1 Hin) as [r Hr].
    eapply (Hother s ("/" ++ r)); [right; eauto|exact Hr].
Qed.

(** The index with directories has one key for each node below the root. *)
Lemma flatten_tree_length nm fs :
  component_names (Dir fs) = true -> unique_names (Dir fs) = true ->
  List.length (flatten_tree true nm fs)
  = (count_files (Dir fs) + count_subdirs fs)%nat.
Proof.
  intros Hn Hu. unfold flatten_tree.
  pose proof (flatten_loop_spec (count_dirs (Dir fs))
                [(splitext_root nm, fs)] []) as H.
  cbn [stack_paths stack_dirs dict_keys map app] in H.
  rewrite app_nil_r in H.
  assert (Hp := H ltac:(lia) (node_paths_NoDup (Dir fs) _ Hn Hu)).
  apply Permutation_length in Hp. unfold dict_keys in Hp.
  rewrite length_map in Hp. etransitivity; [exact Hp|]. rewrite node_paths_length.
  unfold count_subdirs. simpl count_dirs. lia.
Qed.

(** C7, as the code has it: [__len__] is the size of the index that also
    holds a marker for every directory, so it counts the files and the
    directories below the root. *)
Theorem C7_len_counts_files_and_directories :
  forall a : Arc,
    index_in_sync a ->
    component_names (Dir (files a)) = true ->
    unique_names (Dir (files a)) = true ->
    fst (__len__ a)
    = Z.of_nat (count_files (Dir (files a)) + count_subdirs (files a)).
Proof.
  intros a Hs Hn Hu.
  destruct (update_fresh a Hs) as (Hf & _).
  unfold __len__. cbn [fst]. rewrite Hf. unfold len, _flatten_file_map.
  now rewrite flatten_tree_length.
Qed.

Lemma C7_len_counts_files_and_directories_witness :
  fst (__len__ scenario_arc)
  = Z.of_nat (count_files (Dir (files scenario_arc))
              + count_subdirs (files scenario_arc)).
Proof.
  apply (C7_len_counts_files_and_directories scenario_arc).
  - apply sync_pending. reflexivity.
  - reflexivity.
  - reflexivity.
Defined.

(** The claim as stated fails: an archive with one empty directory and no
    file has length 1. *)
Lemma C7_len_counterexample :
  fst (__len__ one_dir_arc) = 1
  /\ count_files (Dir (files one_dir_arc)) = 0%nat
  /\ fst (__len__ one_dir_arc)
     <> Z.of_nat (count_files (Dir (files one_dir_arc))).
Proof. repeat split. discriminate. Qed.

Local Close Scope string_scope.

(** ** Reading through a window *)

Lemma len_app {A} (l1 l2 : list A) : len (l1 ++ l2) = len l1 + len l2.
Proof. unfold len. rewrite length_app. lia. Qed.

Lemma len_nonneg {A} (l : list A) : 0 <= len l.
Proof. unfold len. lia. Qed.

Lemma slice_agree lo hi c1 c2 p n :
  agree lo hi c1 c2 -> lo <= p -> 0 <= n -> p + n <= hi ->
  firstn (Z.to_nat n) (skipn (Z.to_nat p) c1)
  = firstn (Z.to_nat n) (skipn (Z.to_nat p) c2).
Proof.
  intros (pre1 & pre2 & mid & post1 & post2 & -> & -> & H1 & H2 & Hm) Hp Hn Hh.
  unfold len in *.
  assert (Hs : forall (pre post : bytes), Z.of_nat (List.length pre) = lo ->
            firstn (Z.to_nat n) (skipn (Z.to_nat p) (pre ++ mid ++ post))
            = firstn (Z.to_nat n) (skipn (Z.to_nat p - List.length pre) mid)).
  { intros pre post Hpre.
    rewrite skipn_app, (skipn_all2 pre) by lia. simpl.
    rewrite skipn_app, firstn_app.
    rewrite length_skipn.
    replace (Z.to_nat n - (List.length mid - (Z.to_nat p - List.length pre)))%nat
      with 0%nat by lia.
    simpl. now rewrite app_nil_r. }
  rewrite (Hs pre1 post1 H1), (Hs pre2 post2 H2).
  do 2 f_equal. lia.
Qed.

Lemma takewhile_nul_count l : forall t n eof,
  takewhile_nul l = (t, n, eof) ->
  0 <= n <= len l /\ (eof = false -> 1 <= n) /\ (eof = true -> n = len l).
Proof.
  unfold len. induction l as [|b l IH]; simpl; intros t n eof H.
  - inversion H; subst. repeat split; try lia; discriminate.
  - destruct (Byte.eqb b x00).
    + inversion H; subst. repeat split; try lia; discriminate.
    + destruct (takewhile_nul l) as [[t' n'] e'].
      inversion H; subst. destruct (IH _ _ _ eq_refl) as (H1 & H2 & H3).
      repeat split; try lia. intros E. specialize (H3 E). lia.
Qed.

Lemma takewhile_nul_app m : forall post t n,
  takewhile_nul (m ++ post) = (t, n, false) -> n <= len m ->
  forall post', takewhile_nul (m ++ post') = (t, n, false).
Proof.
  induction m as [|b m IH]; intros post t n H Hn post'.
  - exfalso. apply takewhile_nul_count in H. unfold len in Hn. simpl in Hn.
    destruct H as (_ & H & _). specialize (H eq_refl). lia.
  - simpl in *. destruct (Byte.eqb b x00); [exact H|].
    destruct (takewhile_nul (m ++ post)) as [[t' n'] e'] eqn:E.
    inversion H; subst.
    rewrite (IH post t' n' E); [reflexivity|].
    unfold len in *. simpl in Hn. lia.
Qed.

Lemma scan_agree lo hi c1 c2 p t n eof :
  agree lo hi c1 c2 -> lo <= p ->
  takewhile_nul (skipn (Z.to_nat p) c1) = (t, n, eof) ->
  p + (n + (if eof then 1 else 0)) <= hi ->
  takewhile_nul (skipn (Z.to_nat p) c2) = (t, n, eof).
Proof.
  intros (pre1 & pre2 & mid & post1 & post2 & -> & -> & H1 & H2 & Hm) Hp H Hh.
  assert (Hph : p <= hi).
  { apply takewhile_nul_count in H. destruct eof; lia. }
  unfold len in *.
  assert (Hs : forall (pre post : bytes), Z.of_nat (List.length pre) = lo ->
            skipn (Z.to_nat p) (pre ++ mid ++ post)
            = skipn (Z.to_nat p - List.length pre) mid ++ post).
  { intros pre post Hpre.
    rewrite skipn_app, (skipn_all2 pre) by lia. simpl.
    rewrite skipn_app.
    replace (Z.to_nat p - List.length pre - List.length mid)%nat with 0%nat by lia.
    reflexivity. }
  rewrite (Hs pre1 post1 H1) in H. rewrite (Hs pre2 post2 H2).
  replace (Z.to_nat p - List.length pre2)%nat
    with (Z.to_nat p - List.length pre1)%nat by lia.
  pose proof (takewhile_nul_count _ _ _ _ H) as (Hc1 & Hc2 & Hc3).
  destruct eof.
  - exfalso. specialize (Hc3 eq_refl). rewrite len_app in Hc3.
    unfold len in Hc3. rewrite length_skipn in Hc3. lia.
  - eapply takewhile_nul_app; [exact H|].
    unfold len. rewrite length_skipn. lia.
Qed.

(** *** The simulation, primitive by primitive *)

Section Simulation.
Variables (c2 : bytes) (lo hi : Z).

Lemma sim_ret {A B} (R : A -> B -> Prop) a b :
  R a b -> simulates R c2 lo hi (ret a) (ret b).
Proof.
  intros HR s a' s' Hw Ha [= <- <-]. exists b. auto.
Qed.

Lemma sim_bind {A B A' B'} (R : A -> B -> Prop) (R' : A' -> B' -> Prop)
    (m1 : M A) (m2 : M B) (f1 : A -> M A') (f2 : B -> M B') :
  simulates R c2 lo hi m1 m2 ->
  (forall a b, R a b -> simulates R' c2 lo hi (f1 a) (f2 b)) ->
  simulates R' c2 lo hi (bind m1 f1) (bind m2 f2).
Proof.
  intros Hm Hf s a' s' Hw Ha H. unfold bind in *.
  destruct (m1 s) as [[a s1]|e] eqn:E1; [|discriminate].
  destruct (Hm _ _ _ Hw Ha E1) as (b & E2 & HR & Hw1 & Hc1).
  rewrite E2. rewrite <- Hc1 in Ha.
  destruct (Hf a b HR _ _ _ Hw1 Ha H) as (b' & E3 & HR' & Hw2 & Hc2).
  exists b'. repeat split; auto. congruence.
Qed.

Lemma sim_lift {A B} (R : A -> B -> Prop) (r1 : result A) (r2 : result B) :
  (forall a, r1 = Ok a -> exists b, r2 = Ok b /\ R a b) ->
  simulates R c2 lo hi (lift r1) (lift r2).
Proof.
  intros Hr s a s' Hw Ha H. unfold lift in *.
  destruct r1 as [a1|e]; [|discriminate]. inversion H; subst.
  destruct (Hr a eq_refl) as (b & -> & HR). exists b. auto.
Qed.

Lemma sim_tell : simulates eq c2 lo hi stream_tell stream_tell.
Proof. intros s a s' Hw Ha [= <- <-]. exists (pos s). auto. Qed.

Lemma sim_seek p : simulates eq c2 lo hi (stream_seek p) (stream_seek p).
Proof.
  intros s a s' Hw Ha. unfold stream_seek.
  destruct (p <? 0); [discriminate|]. intros [= <- <-]. exists tt. auto.
Qed.

Lemma sim_read n : simulates eq c2 lo hi (stream_read n) (stream_read n).
Proof.
  intros s a s' Hw Ha. unfold stream_read, in_window, remaining.
  rewrite Hw. simpl.
  destruct ((0 <=? n) && (lo <=? pos s) && (pos s + n <=? hi)) eqn:E;
    [|discriminate].
  apply andb_true_iff in E. destruct E as [E E3].
  apply andb_true_iff in E. destruct E as [E1 E2].
  apply Z.leb_le in E1, E2, E3.
  destruct (n <? 0) eqn:En; [apply Z.ltb_lt in En; lia|].
  intros [= <- <-]. eexists. split; [|auto].
  rewrite (slice_agree lo hi (content s) c2 (pos s) n) by assumption.
  reflexivity.
Qed.

Lemma sim_read_terminated_string :
  simulates eq c2 lo hi read_terminated_string read_terminated_string.
Proof.
  intros s a s' Hw Ha. unfold read_terminated_string, in_window, remaining.
  rewrite Hw. simpl.
  destruct (takewhile_nul (skipn (Z.to_nat (pos s)) (content s)))
    as [[t n] eof] eqn:E.
  destruct ((0 <=? n + (if eof then 1 else 0)) && (lo <=? pos s)
            && (pos s + (n + (if eof then 1 else 0)) <=? hi)) eqn:Ew;
    [|discriminate].
  apply andb_true_iff in Ew. destruct Ew as [Ew E3].
  apply andb_true_iff in Ew. destruct Ew as [E1 E2].
  apply Z.leb_le in E1, E2, E3.
  rewrite (scan_agree lo hi (content s) c2 (pos s) t n eof Ha E2 E E3).
  destruct (decode_ascii t) as [str|e]; [|discriminate].
  intros [= <- <-]. eexists. split; [reflexivity|auto].
Qed.

Lemma sim_for_each {A St St'} (R : St -> St' -> Prop) (l : list A)
    (body1 : A -> St -> M St) (body2 : A -> St' -> M St') :
  (forall x st st', R st st' ->
     simulates R c2 lo hi (body1 x st) (body2 x st')) ->
  forall st st', R st st' ->
    simulates R c2 lo hi (for_each l body1 st) (for_each l body2 st').
Proof.
  intros Hb. induction l as [|x t IH]; intros st st' HR; simpl.
  - now apply sim_ret.
  - eapply sim_bind; [apply Hb; exact HR|]. intros a b Hab. now apply IH.
Qed.

Lemma sim_weaken {A B} (R R' : A -> B -> Prop) (m1 : M A) (m2 : M B) :
  (forall a b, R a b -> R' a b) ->
  simulates R c2 lo hi m1 m2 -> simulates R' c2 lo hi m1 m2.
Proof.
  intros HR Hm s a s' Hw Ha H.
  destruct (Hm _ _ _ Hw Ha H) as (b & E & Hab & Hrest).
  exists b. auto.
Qed.

End Simulation.

(** *** The tree-building part of the decoder *)

Lemma list_index_related (es1 es2 : list FST_ENTRY) x e1 :
  Forall2 same_but_dir_parent es1 es2 ->
  list_index es1 x = Ok e1 ->
  exists e2, list_index es2 x = Ok e2 /\ same_but_dir_parent e1 e2.
Proof.
  unfold list_index. intros HF. destruct (x <? 0); [discriminate|].
  generalize (Z.to_nat x) as n. induction HF as [|a b l1 l2 Hab HF IH];
    intros [|n]; simpl; try discriminate.
  - intros [= <-]. eauto.
  - apply IH.
Qed.

Section TreeSimulation.
Variables (c2 : bytes) (lo hi : Z).
Variables (es1 es2 : list FST_ENTRY) (tbl : Z).
Hypothesis Hes : Forall2 same_but_dir_parent es1 es2.

Lemma sim_entry x :
  simulates same_but_dir_parent c2 lo hi
    (lift (list_index es1 x)) (lift (list_index es2 x)).
Proof. apply sim_lift. intros a Ha. eapply list_index_related; eauto. Qed.

Lemma sim_load_dir_step path x st :
  simulates eq c2 lo hi
    (load_dir_step es1 tbl path x st) (load_dir_step es2 tbl path x st).
Proof.
  unfold load_dir_step.
  eapply sim_bind; [apply sim_entry|].
  intros e1 e2 (Hd & Hn & Hx & Ha). rewrite <- Hn, <- Hd, <- Hx.
  eapply sim_bind; [apply sim_seek|]. intros _ _ _.
  eapply sim_bind; [apply sim_read_terminated_string|]. intros nm ? <-.
  eapply sim_bind with (R := eq).
  - destruct (is_dir e1).
    + destruct (next_entry_or_len e1 =? x + 1);
        destruct (heap_alloc (store st)); now apply sim_ret.
    + rewrite <- (Ha eq_refl).
      eapply sim_bind; [apply sim_seek|]. intros _ _ _.
      eapply sim_bind; [apply sim_read|]. intros bs ? <-.
      now apply sim_ret.
  - intros st1 ? <-.
    destruct (pop_closed (dir_stack st1) x) as [|[[? ?] ?] ?];
      now apply sim_ret.
Qed.

Lemma sim_load_dir parsed dir_idx path :
  simulates eq c2 lo hi
    (load_dir es1 tbl parsed dir_idx path) (load_dir es2 tbl parsed dir_idx path).
Proof.
  unfold load_dir.
  eapply sim_bind; [apply sim_entry|].
  intros e1 e2 (Hd & Hn & Hx & Ha). rewrite <- Hx.
  eapply sim_bind with (R := eq).
  - apply sim_for_each; [|reflexivity].
    intros x st ? <-. apply sim_load_dir_step.
  - intros st ? <-. now apply sim_ret.
Qed.

Lemma sim_load_top_step i st :
  simulates eq c2 lo hi
    (load_top_step es1 tbl i st) (load_top_step es2 tbl i st).
Proof.
  unfold load_top_step. destruct st as [fs parsed].
  destruct (in_list i parsed); [now apply sim_ret|].
  eapply sim_bind; [apply sim_entry|].
  intros e1 e2 (Hd & Hn & Hx & Ha). rewrite <- Hn, <- Hd, <- Hx.
  destruct (is_dir e1).
  - eapply sim_bind; [apply sim_seek|]. intros _ _ _.
    eapply sim_bind; [apply sim_read_terminated_string|]. intros nm ? <-.
    eapply sim_bind; [apply sim_load_dir|]. intros [sub parsed'] ? <-.
    now apply sim_ret.
  - eapply sim_bind; [apply sim_seek|]. intros _ _ _.
    eapply sim_bind; [apply sim_read_terminated_string|]. intros nm ? <-.
    eapply sim_bind; [apply sim_read|]. intros bs ? <-.
    now apply sim_ret.
Qed.

Lemma sim_load_tree :
  simulates eq c2 lo hi (load_tree es1 tbl) (load_tree es2 tbl).
Proof.
  unfold load_tree.
  eapply sim_bind; [apply sim_entry|].
  intros e1 e2 (Hd & Hn & Hx & Ha). rewrite <- Hx.
  eapply sim_bind with (R := eq).
  - apply sim_for_each; [|reflexivity].
    intros x st ? <-. apply sim_load_top_step.
  - intros [fs parsed] ? <-. now apply sim_ret.
Qed.

End TreeSimulation.

(** ** What the decoder rejects *)

Section TableSimulation.
Variables (c2 : bytes) (lo hi : Z).

Lemma sim_load_from_bin : simulates eq c2 lo hi load_from_bin load_from_bin.
Proof.
  unfold load_from_bin.
  eapply sim_bind; [apply sim_read|]. intros bs ? <-.
  apply sim_lift. eauto.
Qed.

Lemma sim_load_entries n :
  simulates eq c2 lo hi (load_entries n) (load_entries n).
Proof.
  induction n as [|n IH]; simpl; [now apply sim_ret|].
  eapply sim_bind; [apply sim_load_from_bin|]. intros e ? <-.
  eapply sim_bind; [apply IH|]. intros es ? <-. now apply sim_ret.
Qed.

Lemma sim_open_arc base fst_start :
  simulates eq c2 lo hi (open_arc base fst_start) (open_arc base fst_start).
Proof.
  unfold open_arc.
  eapply sim_bind; [apply sim_seek|]. intros _ _ _.
  eapply sim_bind; [apply sim_load_from_bin|]. intros e ? <-.
  eapply sim_bind; [apply sim_load_entries|]. intros es ? <-.
  eapply sim_bind; [apply sim_tell|]. intros p ? <-. now apply sim_ret.
Qed.

Lemma sim_load_header : simulates eq c2 lo hi load_header load_header.
Proof.
  unfold load_header.
  eapply sim_bind; [apply sim_tell|]. intros base ? <-.
  eapply sim_bind; [apply sim_read|]. intros mb ? <-.
  eapply sim_bind with (R := eq); [apply sim_lift; eauto|]. intros fm ? <-.
  destruct (negb (bytes_eqb fm U8_FILE_MAGIC));
    [apply sim_lift; intros; discriminate|].
  eapply sim_bind; [apply sim_read|]. intros hdr ? <-.
  eapply sim_bind with (R := eq); [apply sim_lift; eauto|].
  intros [[a b] c] ? <-.
  eapply sim_bind; [apply sim_read|]. intros rs ? <-. now apply sim_ret.
Qed.

Lemma sim_load_table : simulates eq c2 lo hi load_table load_table.
Proof.
  unfold load_table.
  eapply sim_bind; [apply sim_load_header|]. intros [[[a b] c] d] ? <-.
  apply sim_open_arc.
Qed.

End TableSimulation.

Lemma stream_read_spec n s bs s' :
  0 <= n -> stream_read n s = Ok (bs, s') ->
  bs = firstn (Z.to_nat n) (remaining s)
  /\ s' = set_pos s (pos s + len bs)
  /\ in_window s (pos s) n = true.
Proof.
  intros Hn. unfold stream_read.
  destruct (in_window s (pos s) n); [|discriminate].
  destruct (n <? 0) eqn:E; [apply Z.ltb_lt in E; lia|].
  intros [= <- <-]. auto.
Qed.

Lemma in_window_bounds s p n lo hi :
  window s = Some (lo, hi) -> in_window s p n = true ->
  0 <= n /\ lo <= p /\ p + n <= hi.
Proof.
  unfold in_window. intros ->. rewrite !andb_true_iff, !Z.leb_le. tauto.
Qed.

Lemma entry_of_bytes_length bs e : entry_of_bytes bs = Ok e -> len bs = 12.
Proof.
  unfold entry_of_bytes, unpack_III, unpack3. intros H.
  do 13 (destruct bs as [|? bs]; try discriminate). reflexivity.
Qed.

(** A record is read from 12 bytes of the stream. *)
Lemma load_from_bin_pos s e s' :
  0 <= pos s -> load_from_bin s = Ok (e, s') ->
  pos s' = pos s + 12 /\ pos s' <= len (content s)
  /\ content s' = content s /\ window s' = window s
  /\ stream_name s' = stream_name s
  /\ (forall lo hi, window s = Some (lo, hi) -> lo <= pos s /\ pos s' <= hi).
Proof.
  intros Hp. unfold load_from_bin, bind.
  destruct (stream_read 12 s) as [[bs s1]|x] eqn:Er; [|discriminate].
  apply stream_read_spec in Er; [|lia]. destruct Er as (Hbs & -> & Hw).
  unfold lift. destruct (entry_of_bytes bs) as [e0|x] eqn:Ee; [|discriminate].
  intros [= <- <-]. apply entry_of_bytes_length in Ee.
  assert (Hl : pos s + 12 <= len (content s)).
  { rewrite Hbs in Ee. unfold len, remaining in *.
    rewrite length_firstn, length_skipn in Ee. lia. }
  cbn [set_pos pos content window stream_name]. rewrite Ee.
  repeat split; try lia.
  - destruct (in_window_bounds _ _ _ _ _ H Hw) as (? & ? & ?); lia.
  - destruct (in_window_bounds _ _ _ _ _ H Hw) as (? & ? & ?); lia.
Qed.

Lemma load_entries_pos n : forall s es s',
  0 <= pos s -> load_entries n s = Ok (es, s') ->
  pos s' = pos s + 12 * Z.of_nat n
  /\ (n <> 0%nat -> pos s' <= len (content s))
  /\ content s' = content s /\ window s' = window s
  /\ stream_name s' = stream_name s
  /\ (forall lo hi, window s = Some (lo, hi) -> n <> 0%nat ->
        lo <= pos s /\ pos s' <= hi).
Proof.
  induction n as [|n IH]; intros s es s' Hp; simpl.
  - intros [= <- <-].
    refine (conj _ (conj _ (conj _ (conj _ (conj _ _)))));
      try reflexivity; try lia; intros; congruence.
  - unfold bind. destruct (load_from_bin s) as [[e s1]|x] eqn:E1; [|discriminate].
    destruct (load_from_bin_pos s e s1 Hp E1) as (P1 & P2 & P3 & P4 & P6 & P5).
    destruct (load_entries n s1) as [[es1 s2]|x] eqn:E2; [|discriminate].
    intros [= <- <-].
    destruct (IH s1 es1 s2 ltac:(lia) E2) as (Q1 & Q2 & Q3 & Q4 & Q6 & Q5).
    rewrite P3 in *. rewrite P4 in *.
    assert (Hn : n = 0%nat \/ n <> 0%nat) by lia.
    refine (conj _ (conj _ (conj _ (conj _ (conj _ _)))));
      try congruence; try lia.
    intros lo hi Hw _. destruct (P5 _ _ Hw) as [P5a P5b].
    split; [lia|]. destruct Hn as [->|Hn]; [lia|].
    destruct (Q5 _ _ Hw Hn). lia.
Qed.

Lemma entry_of_bytes_fields bs e :
  entry_of_bytes bs = Ok e ->
  e = mkEntry (negb (Z.land (be_value (firstn 4 bs)) 4278190080 =? 0))
              (Z.land (be_value (firstn 4 bs)) 16777215)
              (be_value (firstn 4 (skipn 4 bs)))
              (be_value (firstn 4 (skipn 8 bs))).
Proof.
  unfold entry_of_bytes, unpack_III, unpack3. intros H.
  do 13 (destruct bs as [|? bs]; try discriminate).
  now inversion H.
Qed.

Lemma slice_of_slice {A} (c : list A) p n k m :
  (k + m <= n)%nat ->
  firstn m (skipn k (firstn n (skipn p c))) = firstn m (skipn (p + k) c).
Proof.
  intros H. rewrite skipn_firstn_comm, firstn_firstn, skipn_skipn.
  f_equal; [lia|f_equal; lia].
Qed.

Lemma bytes_eqb_eq a b : bytes_eqb a b = true <-> a = b.
Proof.
  unfold bytes_eqb. destruct (list_eq_dec byte_eq_dec a b); split;
    auto; discriminate.
Qed.

(** What a successful [load_header] has read. *)
Lemma load_header_spec s r s' :
  0 <= pos s -> load_header s = Ok (r, s') ->
  pos s + 16 <= len (content s)
  /\ firstn 4 (remaining s) = U8_FILE_MAGIC
  /\ fst (fst (fst r)) = pos s
  /\ snd (fst (fst r)) = signed32 (word_at (content s) (pos s + 4))
  /\ content s' = content s /\ window s' = window s
  /\ stream_name s' = stream_name s /\ 0 <= pos s'.
Proof.
  intros Hp. unfold load_header, bind, stream_tell.
  destruct (stream_read 4 s) as [[mb s1]|x] eqn:E1; [|discriminate].
  apply stream_read_spec in E1; [|lia]. destruct E1 as (Hmb & -> & _).
  unfold lift at 1. destruct (unpack_4s mb) as [fm|x] eqn:E2; [|discriminate].
  assert (Hfm : fm = mb /\ len mb = 4).
  { unfold unpack_4s in E2. do 5 (destruct mb as [|? mb]; try discriminate).
    inversion E2. auto. }
  destruct Hfm as [-> Hl4].
  destruct (bytes_eqb mb U8_FILE_MAGIC) eqn:Em; [|discriminate].
  apply bytes_eqb_eq in Em. cbn [negb].
  destruct (stream_read 12 _) as [[hdr s2]|x] eqn:E3; [|discriminate].
  apply stream_read_spec in E3; [|lia]. destruct E3 as (Hhdr & -> & _).
  unfold lift at 1. destruct (unpack_iii hdr) as [[[a b] c]|x] eqn:E4;
    [|discriminate].
  assert (Hh : len hdr = 12 /\ a = signed32 (be_value (firstn 4 hdr))).
  { unfold unpack_iii, unpack3 in E4.
    do 13 (destruct hdr as [|? hdr]; try discriminate). inversion E4. auto. }
  destruct Hh as [Hl12 Ha].
  destruct (stream_read 16 _) as [[rs s3]|x] eqn:E5; [|discriminate].
  apply stream_read_spec in E5; [|lia]. destruct E5 as (Hrs & -> & _).
  unfold ret. intros [= <- <-].
  cbn [fst snd set_pos content window stream_name pos] in *.
  unfold remaining in *. cbn [set_pos content pos] in *.
  change (Z.to_nat 4) with 4%nat in *. change (Z.to_nat 12) with 12%nat in *.
  rewrite Hl4 in *.
  assert (Hlen : pos s + 16 <= len (content s)).
  { rewrite Hhdr in Hl12. unfold len in *.
    rewrite length_firstn, length_skipn in Hl12. lia. }
  refine (conj Hlen (conj _ (conj eq_refl (conj _ (conj eq_refl
            (conj eq_refl (conj eq_refl _))))))).
  - congruence.
  - rewrite Ha, Hhdr, firstn_firstn. reflexivity.
  - pose proof (len_nonneg hdr). pose proof (len_nonneg rs). lia.
Qed.

(** What a successful [open_arc] has read. *)
Lemma open_arc_spec base fst_start s es tbl s' :
  open_arc base fst_start s = Ok ((es, tbl), s') ->
  0 <= base + fst_start
  /\ tbl = base + fst_start
           + 12 * Z.max 1 (word_at (content s) (base + fst_start + 8))
  /\ tbl <= len (content s) /\ tbl = pos s'
  /\ len es = Z.max 1 (word_at (content s) (base + fst_start + 8))
  /\ content s' = content s /\ window s' = window s
  /\ stream_name s' = stream_name s.
Proof.
  unfold open_arc, bind, stream_seek, stream_tell, ret.
  destruct (base + fst_start <? 0) eqn:E0; [discriminate|].
  apply Z.ltb_ge in E0.
  destruct (load_from_bin _) as [[head s1]|x] eqn:E1; [|discriminate].
  pose proof E1 as E1'.
  apply load_from_bin_pos in E1; [|exact E0].
  destruct E1 as (P1 & P2 & P3 & P4 & P5 & _).
  cbn [set_pos pos content window stream_name] in *.
  destruct (load_entries _ s1) as [[nodes s2]|x] eqn:E2; [|discriminate].
  pose proof E2 as E2'.
  apply load_entries_pos in E2; [|lia].
  destruct E2 as (Q1 & Q2 & Q3 & Q4 & Q5 & _).
  intros [= <- <- <-].
  assert (Hnext : next_entry_or_len head
                  = word_at (content s) (base + fst_start + 8)).
  { unfold load_from_bin, bind in E1'.
    destruct (stream_read 12 _) as [[bs s0]|x] eqn:Er; [|discriminate].
    apply stream_read_spec in Er; [|lia]. destruct Er as (Hbs & _ & _).
    change (Z.to_nat 12) with 12%nat in *.
    unfold lift in E1'. destruct (entry_of_bytes bs) as [e|x] eqn:Ee;
      [|discriminate].
    inversion E1'; subst e s0. clear E1'.
    rewrite (entry_of_bytes_fields _ _ Ee). cbn [next_entry_or_len].
    unfold word_at. f_equal. rewrite Hbs. unfold remaining.
    cbn [set_pos pos content].
    rewrite (slice_of_slice (content s) (Z.to_nat (base + fst_start)) 12 8 4)
      by lia.
    f_equal. f_equal. lia. }
  assert (Hlen : len nodes = Z.of_nat (Z.to_nat (next_entry_or_len head - 1))).
  { clear -E2'. revert s1 nodes s2 E2'.
    generalize (Z.to_nat (next_entry_or_len head - 1)) as n.
    induction n as [|n IH]; simpl; intros s1 nodes s2.
    - intros [= <- <-]. reflexivity.
    - unfold bind. destruct (load_from_bin s1) as [[e sa]|x]; [|discriminate].
      destruct (load_entries n sa) as [[l sb]|x] eqn:E; [|discriminate].
      intros [= <- <-]. apply IH in E. unfold len in *. simpl. lia. }
  rewrite <- Hnext.
  refine (conj E0 (conj _ (conj _ (conj eq_refl (conj _ (conj _ (conj _ _))))))).
  - lia.
  - destruct (Z.to_nat (next_entry_or_len head - 1)) eqn:En.
    + lia.
    + rewrite <- P3. apply Q2. lia.
  - unfold len in *. cbn [List.length]. lia.
  - congruence.
  - congruence.
  - congruence.
Qed.

(** What a successful [load_table] has read: a complete header and a
    complete record table. *)
Lemma load_table_spec s es tbl s' :
  0 <= pos s -> load_table s = Ok ((es, tbl), s') ->
  pos s + 16 <= len (content s)
  /\ firstn 4 (remaining s) = U8_FILE_MAGIC
  /\ 0 <= table_start s
  /\ tbl = table_end s /\ tbl <= len (content s) /\ tbl = pos s'
  /\ len es = Z.max 1 (record_count s)
  /\ content s' = content s /\ window s' = window s
  /\ stream_name s' = stream_name s.
Proof.
  intros Hp. unfold load_table, bind.
  destruct (load_header s) as [[[[[base fst_start] fsz] fstart] s1]|x] eqn:E1;
    [|discriminate].
  apply load_header_spec in E1; [|exact Hp].
  cbn [fst snd] in E1. destruct E1 as (H1 & H2 & -> & -> & H3 & H4 & H5 & H6).
  intros E2. apply open_arc_spec in E2.
  destruct E2 as (Q0 & Q1 & Q2 & Q3 & Q4 & Q5 & Q6 & Q7).
  rewrite H3 in *. unfold table_end, record_count, table_start.
  refine (conj H1 (conj H2 (conj Q0 (conj Q1 (conj Q2 (conj Q3 (conj Q4
            (conj _ (conj _ _))))))))); congruence.
Qed.

Lemma agree_app c extra lo :
  0 <= lo <= len c -> agree lo (len c) c (c ++ extra).
Proof.
  intros Hlo. unfold agree.
  exists (firstn (Z.to_nat lo) c), (firstn (Z.to_nat lo) c),
    (skipn (Z.to_nat lo) c), [], extra.
  unfold len in *. rewrite app_nil_r, firstn_skipn.
  rewrite app_assoc, firstn_skipn, length_firstn, length_skipn.
  repeat split; lia.
Qed.

Lemma over_same s : window s = None -> over (content s) s = s.
Proof. destruct s; simpl; now intros ->. Qed.

(** A conforming stream decodes, and decodes to the same tree whatever
    follows it. *)
Lemma conforming_decodes s :
  window s = None -> conforming s = true ->
  exists t, forall extra,
    exists s', load_files (over (content s ++ extra) s)
               = Ok ((stream_name s, t), s').
Proof.
  intros Hw. unfold conforming.
  destruct (load_table (checked s 0 (len (content s))))
    as [[[es tbl] s1]|x] eqn:E1; [|discriminate].
  destruct (load_tree es tbl (checked s1 tbl (len (content s))))
    as [[t s2]|x] eqn:E2; [|discriminate].
  intros _. exists t. intros extra.
  assert (Hp : 0 <= pos s).
  { revert E1. unfold load_table, load_header, bind, stream_tell.
    destruct (stream_read 4 _) as [[mb sa]|x] eqn:Er; [|discriminate].
    intros _. apply stream_read_spec in Er; [|lia].
    destruct Er as (_ & _ & Hin).
    eapply in_window_bounds in Hin; [|reflexivity]. simpl in Hin. lia. }
  pose proof (load_table_spec (checked s 0 (len (content s))) _ _ _ Hp E1)
    as (T1 & T2 & T3 & T4 & T5 & T6
                                                  & T7 & T8 & T9 & T10).
  cbn [checked content pos] in *.
  destruct (sim_load_table (content s ++ extra) 0 (len (content s))
              (checked s 0 (len (content s))) (es, tbl) s1 eq_refl)
    as (r & F1 & <- & F2 & F3); [|exact E1|].
  { apply agree_app. pose proof (len_nonneg (content s)). lia. }
  destruct (sim_load_tree (content s ++ extra) tbl (len (content s)) es es tbl)
    with (s := checked s1 tbl (len (content s))) (a := t) (s' := s2)
    as (t' & G1 & <- & G2 & G3); auto.
  { clear. induction es; constructor; auto. repeat split; auto. }
  { cbn [checked content]. rewrite T8. apply agree_app.
    unfold table_end, table_start in *. cbn [pos content] in *. lia. }
  unfold load_files, bind. unfold over in *. cbn [checked pos stream_name] in *.
  rewrite F1. rewrite G1. unfold ret. cbn [stream_name]. eauto.
Qed.

(** ** The record table as a function of the bytes *)

Lemma slice_ext (c1 c2 : bytes) (p n : nat) :
  (forall i, (p <= i < p + n)%nat -> nth_error c2 i = nth_error c1 i) ->
  firstn n (skipn p c2) = firstn n (skipn p c1).
Proof.
  intros H. apply nth_error_ext. intros i.
  rewrite !nth_error_firstn, !nth_error_skipn.
  destruct (Nat.ltb i n) eqn:E; [|reflexivity].
  apply Nat.ltb_lt in E. apply H. lia.
Qed.

Lemma word_at_ext (c1 c2 : bytes) (p : Z) :
  0 <= p ->
  (forall i, p <= Z.of_nat i < p + 4 -> nth_error c2 i = nth_error c1 i) ->
  word_at c2 p = word_at c1 p.
Proof.
  intros Hp H. unfold word_at. f_equal. apply slice_ext.
  intros i Hi. apply H. lia.
Qed.

Lemma entry_of_bytes_complete bs :
  len bs = 12 -> exists e, entry_of_bytes bs = Ok e.
Proof.
  unfold len. intros H.
  do 13 (destruct bs as [|? bs]; try (simpl in H; lia)).
  eexists. reflexivity.
Qed.

Lemma load_from_bin_at s :
  window s = None -> 0 <= pos s -> pos s + 12 <= len (content s) ->
  load_from_bin s = Ok (entry_at (content s) (pos s), set_pos s (pos s + 12)).
Proof.
  intros Hw Hp Hl. unfold load_from_bin, bind, stream_read, in_window.
  rewrite Hw. change (12 <? 0) with false. cbv iota.
  change (Z.to_nat 12) with 12%nat.
  set (bs := firstn 12 (remaining s)).
  assert (Hlen : len bs = 12).
  { unfold bs, len, remaining in *. rewrite length_firstn, length_skipn. lia. }
  destruct (entry_of_bytes_complete bs Hlen) as [e He].
  unfold lift. rewrite He, Hlen. f_equal. f_equal.
  rewrite (entry_of_bytes_fields _ _ He). unfold entry_at, word_at, bs, remaining.
  rewrite firstn_firstn. change (Nat.min 4 12) with 4%nat.
  rewrite !slice_of_slice by lia.
  repeat f_equal; lia.
Qed.

Lemma load_entries_at n : forall s,
  window s = None -> 0 <= pos s ->
  pos s + 12 * Z.of_nat n <= len (content s) ->
  load_entries n s
  = Ok (entries_at (content s) (pos s) n,
        set_pos s (pos s + 12 * Z.of_nat n)).
Proof.
  unfold entries_at.
  induction n as [|n IH]; intros s Hw Hp Hl.
  - simpl. unfold ret. replace (pos s + 0) with (pos s) by lia.
    destruct s; reflexivity.
  - cbn [load_entries]. unfold bind.
    rewrite load_from_bin_at by (auto; lia).
    rewrite IH by (cbn [set_pos window pos content]; auto; lia).
    unfold ret. cbn [set_pos window pos content stream_name].
    f_equal. f_equal.
    + cbn [seq map]. rewrite <- seq_shift, map_map.
      replace (pos s + 12 * Z.of_nat 0) with (pos s) by lia.
      f_equal. apply map_ext. intros r.
      replace (pos s + 12 * Z.of_nat (S r)) with (pos s + 12 + 12 * Z.of_nat r)
        by lia.
      reflexivity.
    + replace (pos s + 12 + 12 * Z.of_nat n) with (pos s + 12 * Z.of_nat (S n))
        by lia.
      reflexivity.
Qed.

Lemma stream_read_unchecked n s :
  window s = None -> 0 <= n ->
  stream_read n s
  = Ok (firstn (Z.to_nat n) (remaining s),
        set_pos s (pos s + len (firstn (Z.to_nat n) (remaining s)))).
Proof.
  intros Hw Hn. unfold stream_read, in_window. rewrite Hw.
  destruct (n <? 0) eqn:E; [apply Z.ltb_lt in E; lia|reflexivity].
Qed.

Lemma load_header_complete s :
  window s = None -> 0 <= pos s ->
  firstn 4 (remaining s) = U8_FILE_MAGIC ->
  pos s + 16 <= len (content s) ->
  exists b c p,
    load_header s
    = Ok ((pos s, signed32 (word_at (content s) (pos s + 4)), b, c),
          set_pos s p).
Proof.
  intros Hw Hp Hm Hl. unfold load_header, bind, stream_tell.
  rewrite stream_read_unchecked by (auto; lia).
  change (Z.to_nat 4) with 4%nat. rewrite Hm.
  unfold lift at 1. cbn [unpack_4s U8_FILE_MAGIC].
  fold U8_FILE_MAGIC. rewrite (proj2 (bytes_eqb_eq _ _) eq_refl). cbn [negb].
  rewrite stream_read_unchecked by (auto; lia).
  change (Z.to_nat 12) with 12%nat.
  change (len U8_FILE_MAGIC) with 4.
  set (hdr := firstn 12 (remaining (set_pos s (pos s + 4)))).
  assert (Hlen : len hdr = 12).
  { unfold hdr, len, remaining in *. cbn [set_pos pos content].
    rewrite length_firstn, length_skipn. lia. }
  assert (Hu : exists b c, unpack_iii hdr
                 = Ok (signed32 (be_value (firstn 4 hdr)), b, c)).
  { unfold len in Hlen. unfold unpack_iii, unpack3.
    do 13 (destruct hdr as [|? hdr]; try (simpl in Hlen; lia)).
    eexists. eexists. reflexivity. }
  destruct Hu as (b & c & Hu). unfold lift at 1. rewrite Hu.
  rewrite stream_read_unchecked by (auto; lia).
  unfold ret. exists b, c. eexists. f_equal. f_equal.
  - f_equal. f_equal. f_equal. f_equal.
    unfold word_at, hdr, remaining. cbn [set_pos pos content].
    now rewrite firstn_firstn.
  - reflexivity.
Qed.

(** The table parses when the header and the table are complete, and then
    to the records the bytes spell. *)
Lemma load_table_complete s :
  window s = None -> 0 <= pos s ->
  firstn 4 (remaining s) = U8_FILE_MAGIC ->
  pos s + 16 <= len (content s) ->
  0 <= table_start s -> table_end s <= len (content s) ->
  load_table s = Ok (table_entries s, table_end s, set_pos s (table_end s)).
Proof.
  intros Hw Hp Hm Hl Hts Hte.
  destruct (load_header_complete s Hw Hp Hm Hl) as (b & c & p & Hh).
  unfold load_table, bind. rewrite Hh.
  unfold open_arc, bind, stream_seek. fold (table_start s).
  destruct (table_start s <? 0) eqn:E; [apply Z.ltb_lt in E; lia|].
  assert (Hte' : table_start s + 12 <= len (content s)).
  { unfold table_end in Hte. lia. }
  rewrite load_from_bin_at by (cbn [set_pos window pos content]; auto).
  cbn [set_pos window pos content stream_name entry_at next_entry_or_len].
  fold (record_count s).
  unfold set_pos at 1 2 3. cbn [pos content window stream_name].
  rewrite load_entries_at;
    [|exact Hw|cbn [pos]; lia|cbn [pos content]; unfold table_end in Hte; lia].
  unfold stream_tell, ret. cbn [set_pos window pos content stream_name].
  assert (Hend : table_start s + 12
                 + 12 * Z.of_nat (Z.to_nat (record_count s - 1))
                 = table_end s) by (unfold table_end; lia).
  rewrite Hend. f_equal. f_equal.
  f_equal. unfold table_entries, entries_at.
  replace (Z.to_nat (Z.max 1 (record_count s)))
    with (S (Z.to_nat (record_count s - 1))) by lia.
  cbn [seq map]. rewrite <- seq_shift, map_map.
  replace (table_start s + 12 * Z.of_nat 0) with (table_start s) by lia.
  f_equal. apply map_ext. intros r.
  replace (table_start s + 12 * Z.of_nat (S r))
    with (table_start s + 12 + 12 * Z.of_nat r) by lia.
  reflexivity.
Qed.

Lemma load_table_entries s es tbl s' :
  window s = None -> 0 <= pos s ->
  load_table s = Ok ((es, tbl), s') ->
  es = table_entries s /\ tbl = table_end s /\ s' = set_pos s (table_end s).
Proof.
  intros Hw Hp H. pose proof H as H'.
  apply load_table_spec in H'; [|exact Hp].
  destruct H' as (T1 & T2 & T3 & T4 & T5 & _).
  rewrite load_table_complete in H by (auto; lia).
  inversion H; subst. auto.
Qed.

(** ** The parent field of directory records is never consumed *)

Lemma agree_tail (c1 c2 : bytes) q :
  List.length c2 = List.length c1 -> 0 <= q <= len c1 ->
  (forall i, q <= Z.of_nat i -> nth_error c2 i = nth_error c1 i) ->
  agree q (len c1) c1 c2.
Proof.
  intros Hlen Hq H. unfold agree.
  exists (firstn (Z.to_nat q) c1), (firstn (Z.to_nat q) c2),
    (skipn (Z.to_nat q) c1), [], [].
  assert (Hs : skipn (Z.to_nat q) c2 = skipn (Z.to_nat q) c1).
  { apply nth_error_ext. intros i. rewrite !nth_error_skipn. apply H. lia. }
  unfold len in *. rewrite app_nil_r.
  split; [now rewrite firstn_skipn|].
  split; [now rewrite <- Hs, firstn_skipn|].
  rewrite !length_firstn, length_skipn. repeat split; lia.
Qed.

Lemma Forall2_map_seq {A B} (R : A -> B -> Prop) (f : nat -> A) (g : nat -> B) n :
  forall start,
  (forall r, (start <= r < start + n)%nat -> R (f r) (g r)) ->
  Forall2 R (map f (seq start n)) (map g (seq start n)).
Proof.
  induction n as [|n IH]; intros start H; simpl; constructor.
  - apply H. lia.
  - apply IH. intros r Hr. apply H. lia.
Qed.

Section DirParents.
Variables (s : stream) (c2 : bytes).
Hypothesis Hw : window s = None.
Hypothesis Hp : 0 <= pos s.
Hypothesis Hfst : pos s + 32 <= table_start s.
Hypothesis Hdiff : differ_in_dir_parents s c2.

Lemma untouched i :
  (forall r, 0 <= r < Z.max 1 (record_count s) -> dir_record s r = true ->
             ~ (table_start s + 12 * r + 4 <= Z.of_nat i
                < table_start s + 12 * r + 8)) ->
  nth_error c2 i = nth_error (content s) i.
Proof.
  intros H. destruct Hdiff as [_ Hd].
  assert (Hdec : forall a b : option byte, {a = b} + {a <> b}).
  { decide equality. apply Byte.byte_eq_dec. }
  destruct (Hdec (nth_error c2 i) (nth_error (content s) i)) as [E|E]; [exact E|].
  destruct (Hd i E) as (r & Hr & Hdir & Hi). exfalso. eapply H; eauto.
Qed.

Lemma word_untouched p :
  0 <= p ->
  (forall r, 0 <= r < Z.max 1 (record_count s) -> dir_record s r = true ->
             p + 4 <= table_start s + 12 * r + 4
             \/ table_start s + 12 * r + 8 <= p) ->
  word_at c2 p = word_at (content s) p.
Proof.
  intros Hp0 H. apply word_at_ext; [exact Hp0|].
  intros i Hi. apply untouched. intros r Hr Hd Hin.
  destruct (H r Hr Hd); lia.
Qed.

Lemma table_start_over : table_start (over c2 s) = table_start s.
Proof.
  unfold table_start, over. cbn [pos content]. f_equal. f_equal.
  apply word_untouched; [lia|]. intros r Hr Hd. left.
  unfold table_start in *. lia.
Qed.

Lemma record_count_over : record_count (over c2 s) = record_count s.
Proof.
  unfold record_count. rewrite table_start_over. unfold over. cbn [content].
  apply word_untouched; [lia|]. intros r Hr Hd. lia.
Qed.

Lemma table_end_over : table_end (over c2 s) = table_end s.
Proof.
  unfold table_end. now rewrite table_start_over, record_count_over.
Qed.

Lemma table_entries_related :
  Forall2 same_but_dir_parent (table_entries s) (table_entries (over c2 s)).
Proof.
  unfold table_entries, entries_at.
  rewrite table_start_over, record_count_over. unfold over. cbn [content].
  apply Forall2_map_seq. intros r Hr.
  set (p := table_start s + 12 * Z.of_nat r).
  assert (H0 : word_at c2 p = word_at (content s) p).
  { apply word_untouched; [unfold p; lia|]. intros r' Hr' Hd. unfold p. lia. }
  assert (H8 : word_at c2 (p + 8) = word_at (content s) (p + 8)).
  { apply word_untouched; [unfold p; lia|]. intros r' Hr' Hd. unfold p. lia. }
  unfold same_but_dir_parent, entry_at.
  cbn [is_dir name_off parent_or_file_off next_entry_or_len].
  rewrite H0, H8. repeat split; auto.
  intros Hnd. symmetry. apply word_untouched; [unfold p; lia|].
  intros r' Hr' Hd.
  assert (Hne : r' <> Z.of_nat r).
  { intros ->. unfold dir_record in Hd. fold p in Hd. congruence. }
  unfold p. lia.
Qed.

Lemma load_table_related es1 tbl s1 :
  load_table s = Ok ((es1, tbl), s1) ->
  exists es2,
    load_table (over c2 s) = Ok ((es2, tbl), over c2 s1)
    /\ Forall2 same_but_dir_parent es1 es2
    /\ agree tbl (len (content s)) (content s) c2.
Proof.
  intros H. pose proof H as H'.
  apply load_table_spec in H'; [|exact Hp].
  destruct H' as (T1 & T2 & T3 & T4 & T5 & _).
  apply load_table_entries in H; auto. destruct H as (-> & _ & ->).
  destruct Hdiff as [Hlen Hd]. subst tbl.
  exists (table_entries (over c2 s)).
  split; [|split].
  - rewrite load_table_complete.
    + rewrite table_end_over. reflexivity.
    + reflexivity.
    + exact Hp.
    + unfold remaining, over in *. cbn [pos content].
      rewrite <- T2. apply slice_ext. intros i Hi. apply untouched.
      intros r Hr Hdr. lia.
    + unfold over, len in *. cbn [pos content]. lia.
    + now rewrite table_start_over.
    + rewrite table_end_over. unfold over, len in *. cbn [content]. lia.
  - apply table_entries_related.
  - apply agree_tail; [exact Hlen| |].
    + unfold table_end in *. lia.
    + intros i Hi. apply untouched. intros r Hr Hdr.
      unfold table_end in Hi. nia.
Qed.

End DirParents.

(** C8.  Take a conforming stream whose record table starts at or after
    offset 0x20, and any other bytes that differ from it only inside bytes
    4 to 7 of directory records.  Both decode, and to the same archive: the
    decoder never uses the parent field of a directory record. *)
Theorem C8_directory_parent_unused :
  forall (s : stream) (c2 : bytes),
    window s = None ->
    conforming s = true ->
    pos s + 32 <= table_start s ->
    differ_in_dir_parents s c2 ->
    exists a,
      _load_from_bin s = Ok a /\ _load_from_bin (over c2 s) = Ok a.
Proof.
  intros s c2 Hw Hc Hfst Hdiff.
  destruct (conforming_decodes s Hw Hc) as [t Ht].
  destruct (Ht []) as [s3 Hs]. rewrite app_nil_r, over_same in Hs by exact Hw.
  exists (mkArc 0 (flatten_tree true (stream_name s) t)
                  (flatten_tree false (stream_name s) t)
                  false (stream_name s) t).
  split; [unfold _load_from_bin; now rewrite Hs|].
  (* the run on the other bytes *)
  unfold conforming in Hc.
  destruct (load_table (checked s 0 (len (content s))))
    as [[[es1 tbl] s1]|x] eqn:E1; [|discriminate].
  destruct (load_tree es1 tbl (checked s1 tbl (len (content s))))
    as [[t' s2]|x] eqn:E2; [|discriminate].
  assert (Hp : 0 <= pos s).
  { revert E1. unfold load_table, load_header, bind, stream_tell.
    destruct (stream_read 4 _) as [[mb sa]|x] eqn:Er; [|discriminate].
    intros _. apply stream_read_spec in Er; [|lia].
    destruct Er as (_ & _ & Hin).
    eapply in_window_bounds in Hin; [|reflexivity]. simpl in Hin. lia. }
  pose proof (load_table_spec (checked s 0 (len (content s))) _ _ _ Hp E1)
    as (T1 & T2 & T3 & T4 & T5 & T6 & T7 & T8 & T9 & T10).
  cbn [checked content pos] in *.
  (* the table, unchecked, on the stream itself *)
  destruct (sim_load_table (content s) 0 (len (content s))
              (checked s 0 (len (content s))) (es1, tbl) s1 eq_refl)
    as (r & F1 & <- & F2 & F3); [|exact E1|].
  { rewrite <- (app_nil_r (content s)) at 3. apply agree_app.
    pose proof (len_nonneg (content s)). lia. }
  assert (Hov : over (content s) (checked s 0 (len (content s))) = s).
  { destruct s; simpl in *; now subst. }
  rewrite Hov in F1.
  destruct (load_table_related s c2 Hw Hp Hfst Hdiff _ _ _ F1)
    as (es2 & G1 & G2 & G3).
  destruct (sim_load_tree c2 tbl (len (content s)) es1 es2 tbl G2)
    with (s := checked s1 tbl (len (content s))) (a := t') (s' := s2)
    as (t2 & K1 & <- & K2 & K3); auto.
  { cbn [checked content]. now rewrite T8. }
  (* both runs build the same tree *)
  assert (Htt : t' = t).
  { destruct (sim_load_tree (content s) tbl (len (content s)) es1 es1 tbl)
      with (s := checked s1 tbl (len (content s))) (a := t') (s' := s2)
      as (t3 & L1 & <- & _); auto.
    - clear. induction es1; constructor; auto. repeat split; auto.
    - cbn [checked content]. rewrite T8.
      rewrite <- (app_nil_r (content s)) at 3. apply agree_app.
      unfold table_end, table_start in *. cbn [pos content] in *. lia.
    - unfold load_files, bind in Hs. rewrite F1 in Hs.
      unfold over in L1, Hs. cbn [checked pos stream_name] in L1, Hs.
      rewrite L1 in Hs. unfold ret in Hs. now inversion Hs. }
  subst t'.
  unfold _load_from_bin, load_files, bind. rewrite G1.
  unfold over in *. cbn [checked pos stream_name] in *. rewrite K1.
  unfold ret. reflexivity.
Qed.

Lemma reparented_differs :
  differ_in_dir_parents (BytesIO scenario_bytes "course.arc") reparented_bytes.
Proof.
  split; [reflexivity|]. intros i H.
  exists 1. split; [vm_compute; split; [discriminate|reflexivity]|].
  split; [reflexivity|].
  change (table_start (BytesIO scenario_bytes "course.arc")) with 32.
  assert (Hi : i = 51%nat); [|subst i; lia].
  revert H. unfold reparented_bytes, BytesIO. cbn [content].
  set (c := scenario_bytes). vm_compute in c. subst c.
  cbn [firstn skipn app].
  do 128 (destruct i as [|i];
          [try reflexivity; intros H; exfalso; apply H; reflexivity|]).
  intros H. exfalso. apply H. destruct i; reflexivity.
Qed.

Lemma C8_directory_parent_unused_witness :
  exists a,
    _load_from_bin (BytesIO scenario_bytes "course.arc") = Ok a
    /\ _load_from_bin
         (over reparented_bytes (BytesIO scenario_bytes "course.arc")) = Ok a.
Proof.
  apply (C8_directory_parent_unused (BytesIO scenario_bytes "course.arc")
           reparented_bytes).
  - reflexivity.
  - vm_compute. reflexivity.
  - vm_compute. discriminate.
  - exact reparented_differs.
Defined.

(** ** The store of [load_dir] *)

Lemma list_set_length {A} (l : list A) i v :
  List.length (list_set l i v) = List.length l.
Proof.
  revert i. induction l as [|a l IH]; intros [|i]; simpl; auto.
Qed.

Lemma list_set_same {A} (l : list A) i v :
  (i < List.length l)%nat -> nth_error (list_set l i v) i = Some v.
Proof.
  revert i. induction l as [|a l IH]; intros [|i]; simpl; intros H;
    try lia; auto. apply IH. lia.
Qed.

Lemma list_set_other {A} (l : list A) i j v :
  i <> j -> nth_error (list_set l i v) j = nth_error l j.
Proof.
  revert i j. induction l as [|a l IH]; intros [|i] [|j]; simpl; intros H;
    auto; try congruence.
Qed.

Lemma heap_set_spec (h : heap) r k v obj :
  nth_error h r = Some obj ->
  nth_error (heap_set h r k v) r = Some (dict_set obj k v)
  /\ frame r h (heap_set h r k v)
  /\ List.length (heap_set h r k v) = List.length h.
Proof.
  intros H. unfold heap_set.
  assert (Hr : (r < List.length h)%nat).
  { apply nth_error_Some. congruence. }
  rewrite (nth_error_nth _ _ _ H). split; [|split].
  - now apply list_set_same.
  - intros i o Hi Ho. rewrite list_set_other; auto.
  - apply list_set_length.
Qed.

Lemma frame_refl r h : frame r h h.
Proof. intros i o _ H. exact H. Qed.

Lemma frame_trans r h1 h2 h3 : frame r h1 h2 -> frame r h2 h3 -> frame r h1 h3.
Proof. intros H1 H2 i o Hi Ho. apply H2; auto. Qed.

Lemma frame_alloc r (h : heap) o : frame r h (h ++ [o]).
Proof.
  intros i x _ H. rewrite nth_error_app1; auto.
  apply nth_error_Some. congruence.
Qed.

Lemma repr_node_dir h lb r d :
  repr_node h lb (HDict r) (Dir d)
  <-> (lb < r)%nat
      /\ exists obj, nth_error h r = Some obj /\ repr_items h r d obj.
Proof.
  cbn [repr_node].
  assert (H : forall d obj,
             (fix items (d : dict node) (obj : dict hval) {struct d} : Prop :=
                match d with
                | [] => obj = []
                | (k, c) :: t =>
                    match obj with
                    | [] => False
                    | (k', v') :: obj' =>
                        k' = k /\ repr_node h r v' c /\ items t obj'
                    end
                end) d obj <-> repr_items h r d obj).
  { clear d. induction d as [|[k c] t IH]; intros obj; simpl; [tauto|].
    destruct obj as [|[k' v'] obj']; [tauto|]. rewrite IH. tauto. }
  split.
  - intros (Hlt & obj & Hn & Hi). split; [exact Hlt|].
    exists obj. split; [exact Hn|]. now apply H.
  - intros (Hlt & obj & Hn & Hi). split; [exact Hlt|].
    exists obj. split; [exact Hn|]. now apply H.
Qed.

(** A representation only looks at objects after [lb]. *)
Lemma repr_node_stable h h' n : forall lb v,
  (forall i o, (lb < i)%nat -> nth_error h i = Some o -> nth_error h' i = Some o) ->
  repr_node h lb v n -> repr_node h' lb v n.
Proof.
  induction n as [f|d IH] using node_induction; intros lb v Hst.
  - destruct v; simpl; auto.
  - destruct v as [f|r]; [simpl; auto|].
    rewrite !repr_node_dir. intros (Hlt & obj & Hn & Hi).
    split; [exact Hlt|]. exists obj. split; [apply Hst; auto|].
    clear Hn. revert obj Hi.
    induction d as [|[k c] t IHt]; intros obj Hi; [exact Hi|].
    inversion IH as [|? ? Hc Ht]; subst. simpl in Hc.
    destruct obj as [|[k' v'] obj']; [exact Hi|].
    destruct Hi as (Hk & Hv & Hrest). simpl. split; [exact Hk|]. split.
    + apply Hc; [|exact Hv]. intros i o Hi. apply Hst. lia.
    + apply IHt; assumption.
Qed.

Lemma repr_items_stable h h' r d : forall obj,
  (forall i o, (r < i)%nat -> nth_error h i = Some o -> nth_error h' i = Some o) ->
  repr_items h r d obj -> repr_items h' r d obj.
Proof.
  induction d as [|[k c] t IH]; intros obj Hst; [auto|].
  destruct obj as [|[k' v'] obj']; [auto|].
  intros (Hk & Hv & Hrest). simpl. split; [exact Hk|]. split.
  - eapply repr_node_stable; eauto.
  - apply IH; auto.
Qed.

Lemma repr_items_app h r d1 d2 o1 o2 :
  repr_items h r d1 o1 -> repr_items h r d2 o2 ->
  repr_items h r (d1 ++ d2) (o1 ++ o2).
Proof.
  revert o1. induction d1 as [|[k c] t IH]; intros o1 H1 H2.
  - simpl in H1. subst o1. exact H2.
  - destruct o1 as [|[k' v'] o1']; [contradiction|].
    destruct H1 as (Hk & Hv & Hrest). simpl. auto.
Qed.

(** Reading a represented directory back gives the tree. *)
Lemma reify_step n h r :
  reify (S n) h r
  = map (fun kv => (fst kv, reify_val n h (snd kv))) (nth r h []).
Proof.
  cbn [reify]. induction (nth r h []) as [|[k [f|r']] t IH]; simpl;
    [reflexivity| |]; now rewrite IH.
Qed.

Lemma reify_val_repr h n : forall lb v fuel,
  repr_node h lb v n ->
  (List.length h - lb - 1 <= fuel)%nat ->
  reify_val fuel h v = n.
Proof.
  induction n as [f|d IH] using node_induction; intros lb v fuel Hr Hf.
  - destruct v; simpl in *; [now subst|contradiction].
  - destruct v as [f|r]; [contradiction|].
    apply repr_node_dir in Hr. destruct Hr as (Hlt & obj & Hn & Hi).
    assert (Hrl : (r < List.length h)%nat).
    { apply nth_error_Some. congruence. }
    destruct fuel as [|fuel]; [lia|].
    cbn [reify_val]. rewrite reify_step, (nth_error_nth _ _ _ Hn). f_equal.
    clear Hn. revert obj Hi.
    induction d as [|[k c] t IHt]; intros obj Hi.
    + simpl in Hi. now subst.
    + inversion IH as [|? ? Hc Ht]; subst. simpl in Hc.
      destruct obj as [|[k' v'] obj']; [contradiction|].
      destruct Hi as (-> & Hv & Hrest). simpl. f_equal.
      * f_equal. eapply Hc; [exact Hv|lia].
      * apply IHt; assumption.
Qed.

Lemma reify_root h d obj :
  nth_error h 0 = Some obj -> repr_items h 0 d obj ->
  reify (List.length h) h 0 = d.
Proof.
  intros Hn Hi.
  assert (Hl : (0 < List.length h)%nat) by (apply nth_error_Some; congruence).
  destruct (List.length h) as [|n] eqn:El; [lia|].
  rewrite reify_step, (nth_error_nth _ _ _ Hn).
  clear Hn. revert obj Hi. induction d as [|[k c] t IHt]; intros obj Hi.
  - simpl in Hi. now subst.
  - destruct obj as [|[k' v'] obj']; [contradiction|].
    destruct Hi as (-> & Hv & Hrest). simpl. f_equal.
    + f_equal. eapply reify_val_repr; [exact Hv|lia].
    + now apply IHt.
Qed.

(** ** [load_dir] rebuilds what the records spell *)

Lemma range_nil a b : b <= a -> range a b = [].
Proof. intros H. unfold range. now replace (Z.to_nat (b - a)) with 0%nat by lia. Qed.

Lemma range_cons a b : a < b -> range a b = a :: range (a + 1) b.
Proof.
  intros H. unfold range.
  replace (Z.to_nat (b - a)) with (S (Z.to_nat (b - (a + 1)))) by lia.
  cbn [seq map]. f_equal; [lia|].
  rewrite <- seq_shift, map_map. apply map_ext. intros i. lia.
Qed.

Lemma range_app a b c : a <= b <= c -> range a c = range a b ++ range b c.
Proof.
  remember (Z.to_nat (b - a)) as n eqn:En. revert a En.
  induction n as [|n IH]; intros a En H.
  - assert (a = b) by lia. subst a. now rewrite (range_nil b b) by lia.
  - rewrite (range_cons a c), (range_cons a b) by lia.
    simpl. f_equal. apply IH; lia.
Qed.

Lemma for_each_app {A St} (l1 l2 : list A) (body : A -> St -> M St) st s :
  for_each (l1 ++ l2) body st s
  = match for_each l1 body st s with
    | Ok (st', s') => for_each l2 body st' s'
    | Raise e => Raise e
    end.
Proof.
  revert st s. induction l1 as [|x t IH]; intros st s; [reflexivity|].
  simpl. unfold bind. destruct (body x st s) as [[st1 s1]|e]; auto.
Qed.

Lemma forest_size_cons k c t :
  forest_size ((k, c) :: t) = (node_size c + forest_size t)%nat.
Proof. reflexivity. Qed.

Lemma node_size_dir d : node_size (Dir d) = S (forest_size d).
Proof. reflexivity. Qed.

Lemma node_size_pos n : (0 < node_size n)%nat.
Proof. destruct n; simpl; lia. Qed.

Lemma canon_node_dir k d : canon_node k (Dir d) = Dir (canon d).
Proof.
  cbn [canon_node]. f_equal. unfold canon.
  induction d as [|[k' c] t IH]; simpl; [reflexivity|now rewrite IH].
Qed.

Lemma canon_cons k c t : canon ((k, c) :: t) = (k, canon_node k c) :: canon t.
Proof. reflexivity. Qed.

Lemma canon_keys d : dict_keys (canon d) = dict_keys d.
Proof. unfold canon, dict_keys. rewrite map_map. reflexivity. Qed.

Section Machine.
Variables (c : bytes) (tbl : Z) (es : list FST_ENTRY).

Lemma seek_ok p s :
  reads c s -> 0 <= p ->
  stream_seek p s = Ok (tt, set_pos s p) /\ reads c (set_pos s p).
Proof.
  intros [Hw Hc] Hp. unfold stream_seek.
  destruct (p <? 0) eqn:E; [apply Z.ltb_lt in E; lia|].
  split; [reflexivity|]. split; assumption.
Qed.

Lemma read_terminated_string_ok k s :
  reads c s -> name_at c (pos s) k ->
  exists s', read_terminated_string s = Ok (k, s') /\ reads c s'.
Proof.
  intros [Hw Hc] (Hp & taken & n & eof & Ht & Hd).
  unfold read_terminated_string, in_window, remaining. rewrite Hw, Hc, Ht, Hd.
  eexists. split; [reflexivity|]. split; assumption.
Qed.

Lemma stream_read_ok n d s :
  reads c s -> data_at c (pos s) n d ->
  exists s', stream_read n s = Ok (d, s') /\ reads c s'.
Proof.
  intros [Hw Hc] (Ha & Hn & Hd).
  rewrite stream_read_unchecked by assumption.
  unfold remaining. rewrite Hc, Hd.
  eexists. split; [reflexivity|]. split; assumption.
Qed.

Lemma stream_read_any n s :
  reads c s -> 0 <= n ->
  exists d s', stream_read n s = Ok (d, s') /\ reads c s'.
Proof.
  intros [Hw Hc] Hn. rewrite stream_read_unchecked by assumption.
  eexists. eexists. split; [reflexivity|]. split; assumption.
Qed.

Variable path : string.

(** The end of every step: the state follows the top of the stack. *)
Lemma step_end x (st1 : dir_state) (s : stream) :
  (let stk := pop_closed (dir_stack st1) x in
   match stk with
   | (_, d, p) :: _ =>
       ret (mkDirState (store st1) d p stk (already_parsed st1))
   | [] =>
       ret (mkDirState (store st1) 0%nat path stk (already_parsed st1))
   end) s
  = Ok (mkDirState (store st1) (stack_top (pop_closed (dir_stack st1) x))
          (stack_path path (pop_closed (dir_stack st1) x))
          (pop_closed (dir_stack st1) x) (already_parsed st1), s).
Proof.
  cbv zeta. destruct (pop_closed (dir_stack st1) x) as [|[[cl d] p] t];
    reflexivity.
Qed.

Lemma step_file x e k dat st s :
  list_index es x = Ok e -> is_dir e = false ->
  name_at c (tbl + name_off e) k ->
  data_at c (parent_or_file_off e) (next_entry_or_len e) dat ->
  reads c s ->
  exists s',
    load_dir_step es tbl path x st s
    = Ok (mkDirState
            (heap_set (store st) (current_dir st) k (HFile (mkArcFile k dat)))
            (stack_top (pop_closed (dir_stack st) x))
            (stack_path path (pop_closed (dir_stack st) x))
            (pop_closed (dir_stack st) x)
            (already_parsed st ++ [x]), s')
    /\ reads c s'.
Proof.
  intros He Hd Hn Hdat Hs. unfold load_dir_step, bind, lift. rewrite He.
  pose proof Hn as (Hp & _).
  destruct (seek_ok (tbl + name_off e) s Hs Hp) as [-> Hs1].
  destruct (read_terminated_string_ok k _ Hs1 Hn) as (s2 & -> & Hs2).
  rewrite Hd. pose proof Hdat as (Ha & _).
  destruct (seek_ok (parent_or_file_off e) s2 Hs2 Ha) as [-> Hs3].
  destruct (stream_read_ok _ dat _ Hs3 Hdat) as (s4 & -> & Hs4).
  unfold ret at 1. rewrite step_end. cbn [store dir_stack already_parsed].
  eauto.
Qed.

Lemma step_dir_empty x e k st s :
  list_index es x = Ok e -> is_dir e = true ->
  name_at c (tbl + name_off e) k ->
  next_entry_or_len e = x + 1 ->
  reads c s ->
  exists s',
    load_dir_step es tbl path x st s
    = Ok (mkDirState
            (heap_set (store st ++ [[]]) (current_dir st) k
               (HDict (List.length (store st))))
            (stack_top (pop_closed (dir_stack st) x))
            (stack_path path (pop_closed (dir_stack st) x))
            (pop_closed (dir_stack st) x)
            (already_parsed st ++ [x]), s')
    /\ reads c s'.
Proof.
  intros He Hd Hn Hnext Hs. unfold load_dir_step, bind, lift. rewrite He.
  pose proof Hn as (Hp & _).
  destruct (seek_ok (tbl + name_off e) s Hs Hp) as [-> Hs1].
  destruct (read_terminated_string_ok k _ Hs1 Hn) as (s2 & -> & Hs2).
  rewrite Hd, Hnext, Z.eqb_refl. unfold heap_alloc, ret at 1.
  rewrite step_end. cbn [store dir_stack already_parsed]. eauto.
Qed.

Lemma step_dir_open x e k st s :
  list_index es x = Ok e -> is_dir e = true ->
  name_at c (tbl + name_off e) k ->
  next_entry_or_len e <> x + 1 ->
  reads c s ->
  exists s' p,
    load_dir_step es tbl path x st s
    = Ok (mkDirState
            (heap_set (store st ++ [[]]) (current_dir st) k
               (HDict (List.length (store st))))
            (List.length (store st)) p
            ((next_entry_or_len e, List.length (store st), path) :: dir_stack st)
            (already_parsed st ++ [x]), s')
    /\ reads c s'.
Proof.
  intros He Hd Hn Hnext Hs. unfold load_dir_step, bind, lift. rewrite He.
  pose proof Hn as (Hp & _).
  destruct (seek_ok (tbl + name_off e) s Hs Hp) as [-> Hs1].
  destruct (read_terminated_string_ok k _ Hs1 Hn) as (s2 & -> & Hs2).
  rewrite Hd. apply Z.eqb_neq in Hnext. rewrite Hnext.
  unfold heap_alloc, ret at 1. rewrite step_end.
  cbn [store dir_stack already_parsed pop_closed stack_top stack_path].
  rewrite Hnext. cbn [stack_top stack_path]. eauto.
Qed.

End Machine.

(** ** The loop of [load_dir] over a forest *)

Lemma pop_closed_id (stk : list (Z * nat * string)) y :
  Forall (fun e => y + 1 < fst (fst e)) stk -> pop_closed stk y = stk.
Proof.
  intros H. destruct H as [|[[cl d] p] t Hc Ht]; [reflexivity|].
  simpl in *. destruct (cl =? y + 1) eqn:E; [|reflexivity].
  apply Z.eqb_eq in E. lia.
Qed.

Lemma dict_set_fresh {V} (obj : dict V) k v rest :
  NoDup (dict_keys obj ++ k :: rest) -> dict_set obj k v = obj ++ [(k, v)].
Proof.
  intros H. apply dict_set_absent. apply NoDup_remove_2 in H.
  destruct (dict_get obj k) as [v0|] eqn:E; [|reflexivity].
  exfalso. apply H. apply in_or_app. left.
  apply dict_get_in in E. change k with (fst (k, v0)). now apply in_map.
Qed.

Lemma NoDup_keys_snoc {V} (obj : dict V) k (v : V) rest :
  NoDup (dict_keys obj ++ k :: rest) ->
  NoDup (dict_keys (obj ++ [(k, v)]) ++ rest).
Proof.
  intros H. unfold dict_keys in *. rewrite map_app. simpl.
  now rewrite <- app_assoc.
Qed.

Section Forest.
Variables (c : bytes) (tbl : Z) (es : list FST_ENTRY) (path : string).

(** The loop of [load_dir] over the records of a forest [F], started in the
    directory on top of the stack: it appends to that directory the
    entries of [F], the directories being new objects of the store that
    hold their own entries, and leaves the stack as it found it once the
    directories closed by the last record are popped. *)
Lemma forest_run (n : node) :
  match n with
  | File _ => True
  | Dir F =>
      forall x st s S obj,
        encodes c tbl es x F ->
        reads c s ->
        dir_stack st = S -> current_dir st = stack_top S ->
        nth_error (store st) (current_dir st) = Some obj ->
        NoDup (dict_keys obj ++ dict_keys F) ->
        unique_names (Dir F) = true ->
        Forall (fun e => x + Z.of_nat (forest_size F) <= fst (fst e)) S ->
        exists st' s' items,
          for_each (range x (x + Z.of_nat (forest_size F)))
            (load_dir_step es tbl path) st s = Ok (st', s')
          /\ reads c s'
          /\ dir_stack st'
             = match F with
               | [] => S
               | _ => pop_closed S (x + Z.of_nat (forest_size F) - 1)
               end
          /\ current_dir st' = stack_top (dir_stack st')
          /\ already_parsed st'
             = already_parsed st ++ range x (x + Z.of_nat (forest_size F))
          /\ frame (current_dir st) (store st) (store st')
          /\ nth_error (store st') (current_dir st) = Some (obj ++ items)
          /\ repr_items (store st') (current_dir st) (canon F) items
  end.
Proof.
  induction n as [f|F IH] using node_induction; [exact I|].
  induction F as [|[k cn] t IHt];
    intros x st s S obj Henc Hs HS Hcur Hobj Hnd Hu Hcl.
  - (* nothing to read *)
    exists st, s, []. rewrite Z.add_0_r, range_nil by lia.
    rewrite !app_nil_r. simpl. repeat split; auto; try apply Hs.
    + congruence.
    + apply frame_refl.
  - inversion IH as [|? ? IHc IHF]; subst. simpl in IHc.
    specialize (IHt IHF). clear IH IHF.
    destruct (unique_names_dir _ Hu) as [Hndk Huc].
    assert (Hut : unique_names (Dir t) = true).
    { simpl in Hu |- *. apply andb_true_iff in Hu. destruct Hu as [Hu1 Hu2].
      simpl in Hu1. apply andb_true_iff in Hu1. destruct Hu1 as [_ Hu1].
      apply andb_true_iff in Hu2. destruct Hu2 as [_ Hu2].
      apply andb_true_iff. split; assumption. }
    assert (Hcurlen : (current_dir st < List.length (store st))%nat).
    { apply nth_error_Some. congruence. }
    rewrite forest_size_cons in *. rewrite canon_cons.
    cbn [dict_keys map fst] in Hnd. fold (dict_keys t) in Hnd.
    set (cur := current_dir st) in *.
    set (h := store st) in *.
    inversion Henc as [|x0 k0 f e t0 He Hd Hn Hdat Ht
                       |x0 k0 d e t0 He Hd Hn Hnext Hsub Ht]; subst.
    + (* a file *)
      cbn [node_size] in *.
      destruct (step_file c tbl es path x e k (data f) st s He Hd Hn Hdat Hs)
        as (s1 & Hstep & Hs1).
      fold h cur in Hstep.
      destruct (heap_set_spec h cur k (HFile (mkArcFile k (data f))) obj Hobj)
        as (Hset & Hfr & Hlen).
      rewrite (dict_set_fresh obj k _ _ Hnd) in Hset.
      rewrite (range_cons x) by lia. cbn [for_each]. unfold bind.
      rewrite Hstep.
      destruct t as [|kt t'].
      * (* the last entry of the directory *)
        change (forest_size []) with 0%nat in *.
        rewrite range_nil by lia. cbn [for_each]. unfold ret.
        eexists. exists s1, [(k, HFile (mkArcFile k (data f)))].
        cbn [dir_stack current_dir already_parsed store].
        split; [reflexivity|].
        cbn [dir_stack current_dir already_parsed store].
        split; [exact Hs1|].
        split; [f_equal; lia|]. split; [reflexivity|].
        split; [reflexivity|].
        split; [exact Hfr|].
        split; [exact Hset|]. simpl. auto.
      * (* more entries follow *)
        assert (Hsz : (0 < forest_size (kt :: t'))%nat).
        { destruct kt as [kk cc]. rewrite forest_size_cons.
          pose proof (node_size_pos cc). lia. }
        assert (Hpop : pop_closed (dir_stack st) x = dir_stack st).
        { apply pop_closed_id. eapply Forall_impl; [|exact Hcl].
          intros a Ha. simpl in Ha. lia. }
        rewrite Hpop in *.
        set (st1 := mkDirState _ _ _ _ _) in *.
        destruct (IHt (x + 1) st1 s1 (dir_stack st) (obj ++ [(k, HFile (mkArcFile k (data f)))]))
          as (st' & s' & items & Hrun & Hs' & Hstk & Hcd & Hap & Hfr' & Hob & Hrep);
          [exact Ht|exact Hs1|reflexivity|reflexivity
          |cbn [st1 store current_dir]; rewrite <- Hcur; exact Hset
          |now apply NoDup_keys_snoc|exact Hut| |].
        { eapply Forall_impl; [|exact Hcl]. intros a Ha. simpl in Ha. lia. }
        replace (x + Z.of_nat (1 + forest_size (kt :: t')))
          with (x + 1 + Z.of_nat (forest_size (kt :: t'))) by lia.
        rewrite Hrun. exists st', s', ((k, HFile (mkArcFile k (data f))) :: items).
        subst st1. cbn [dir_stack current_dir already_parsed store] in *.
        rewrite <- Hcur in *.
        split; [reflexivity|]. split; [exact Hs'|].
        split; [rewrite Hstk; f_equal; lia|]. split; [exact Hcd|].
        split; [rewrite Hap, <- app_assoc; reflexivity|].
        split; [eapply frame_trans; eauto|].
        split; [rewrite Hob, <- app_assoc; reflexivity|].
        simpl. auto.
    + (* a directory *)
      rewrite node_size_dir in *. rewrite canon_node_dir.
      assert (Hud : unique_names (Dir d) = true) by (eapply Huc; now left).
      destruct d as [|kd d'].
      * (* empty *)
        change (forest_size []) with 0%nat in *.
        destruct (step_dir_empty c tbl es path x e k st s He Hd Hn
                    ltac:(simpl in Hnext; lia) Hs) as (s1 & Hstep & Hs1).
        fold h cur in Hstep.
        assert (Hobj1 : nth_error (h ++ [[]]) cur = Some obj).
        { rewrite nth_error_app1; auto. }
        destruct (heap_set_spec (h ++ [[]]) cur k (HDict (List.length h)) obj Hobj1)
          as (Hset & Hfr & Hlen).
        rewrite (dict_set_fresh obj k _ _ Hnd) in Hset.
        assert (Hnew : nth_error (heap_set (h ++ [[]]) cur k
                                    (HDict (List.length h))) (List.length h)
                       = Some []).
        { apply Hfr; [lia|]. rewrite nth_error_app2 by lia.
          now rewrite Nat.sub_diag. }
        assert (Hfr0 : frame cur h (heap_set (h ++ [[]]) cur k
                                      (HDict (List.length h)))).
        { eapply frame_trans; [apply frame_alloc|exact Hfr]. }
        rewrite (range_cons x) by lia. cbn [for_each]. unfold bind.
        rewrite Hstep.
        change (forest_size []) with 0%nat in *.
        destruct t as [|kt t'].
        -- change (forest_size []) with 0%nat in *.
           rewrite range_nil by lia. cbn [for_each]. unfold ret.
           eexists. exists s1, [(k, HDict (List.length h))].
           cbn [dir_stack current_dir already_parsed store].
           split; [reflexivity|].
           cbn [dir_stack current_dir already_parsed store].
           split; [exact Hs1|].
           split; [f_equal; lia|]. split; [reflexivity|].
           split; [reflexivity|].
           split; [exact Hfr0|].
           split; [exact Hset|].
           split; [reflexivity|]. split; [|reflexivity].
           apply repr_node_dir. split; [exact Hcurlen|].
           exists []. split; [exact Hnew|reflexivity].
        -- assert (Hsz : (0 < forest_size (kt :: t'))%nat).
           { destruct kt as [kk cc]. rewrite forest_size_cons.
             pose proof (node_size_pos cc). lia. }
           assert (Hpop : pop_closed (dir_stack st) x = dir_stack st).
           { apply pop_closed_id. eapply Forall_impl; [|exact Hcl].
             intros a Ha. simpl in Ha. lia. }
           rewrite Hpop in *.
           set (st1 := mkDirState _ _ _ _ _) in *.
           destruct (IHt (x + 1) st1 s1 (dir_stack st)
                       (obj ++ [(k, HDict (List.length h))]))
             as (st' & s' & items & Hrun & Hs' & Hstk & Hcd & Hap & Hfr' & Hob
                 & Hrep);
             [|exact Hs1|reflexivity|reflexivity
             |cbn [st1 store current_dir]; rewrite <- Hcur; exact Hset
             |now apply NoDup_keys_snoc|exact Hut| |].
           { replace (x + 1 + Z.of_nat 0) with (x + 1) in Ht by lia. exact Ht. }
           { eapply Forall_impl; [|exact Hcl]. intros a Ha. simpl in Ha. lia. }
           replace (x + Z.of_nat (1 + forest_size (kt :: t')))
             with (x + 1 + Z.of_nat (forest_size (kt :: t'))) by lia.
           rewrite Hrun.
           exists st', s', ((k, HDict (List.length h)) :: items).
           subst st1. cbn [dir_stack current_dir already_parsed store] in *.
           rewrite <- Hcur in *.
           split; [reflexivity|]. split; [exact Hs'|].
           split; [rewrite Hstk; f_equal; lia|]. split; [exact Hcd|].
           split; [rewrite Hap, <- app_assoc; reflexivity|].
           split; [eapply frame_trans; eauto|].
           split; [rewrite Hob, <- app_assoc; reflexivity|].
           split; [reflexivity|]. split; [|exact Hrep].
           apply repr_node_dir. split; [exact Hcurlen|].
           exists []. split; [|reflexivity].
           apply Hfr'; [lia|exact Hnew].
      * (* with entries: it becomes the current directory *)
        set (d := kd :: d') in *.
        assert (Hszd : (0 < forest_size d)%nat).
        { unfold d. destruct kd as [kk cc]. rewrite forest_size_cons.
          pose proof (node_size_pos cc). lia. }
        destruct (step_dir_open c tbl es path x e k st s He Hd Hn
                    ltac:(lia) Hs) as (s1 & p1 & Hstep & Hs1).
        fold h cur in Hstep.
        assert (Hobj1 : nth_error (h ++ [[]]) cur = Some obj).
        { rewrite nth_error_app1; auto. }
        destruct (heap_set_spec (h ++ [[]]) cur k (HDict (List.length h)) obj Hobj1)
          as (Hset & Hfr & Hlen).
        rewrite (dict_set_fresh obj k _ _ Hnd) in Hset.
        set (h1 := heap_set (h ++ [[]]) cur k (HDict (List.length h))) in *.
        assert (Hnew : nth_error h1 (List.length h) = Some []).
        { apply Hfr; [lia|]. rewrite nth_error_app2 by lia.
          now rewrite Nat.sub_diag. }
        set (st1 := mkDirState _ _ _ _ _) in Hstep.
        set (S1 := (next_entry_or_len e, List.length h, path) :: dir_stack st).
        destruct (IHc (x + 1) st1 s1 S1 [])
          as (st2 & s2 & items_d & Hrun2 & Hs2 & Hstk2 & Hcd2 & Hap2 & Hfr2
              & Hob2 & Hrep2);
          [exact Hsub|exact Hs1|reflexivity|reflexivity|exact Hnew
          |simpl; exact (proj1 (unique_names_dir _ Hud))|exact Hud| |].
        { constructor; [simpl; lia|].
          eapply Forall_impl; [|exact Hcl]. intros a Ha. simpl in Ha. lia. }
        cbn [dir_stack current_dir already_parsed store st1] in *.
        fold d in Hstk2.
        assert (Hstk2' : dir_stack st2
                         = pop_closed (dir_stack st) (x + Z.of_nat (forest_size d))).
        { rewrite Hstk2. unfold S1. cbn [pop_closed].
          replace (next_entry_or_len e
                   =? x + 1 + Z.of_nat (forest_size d) - 1 + 1) with true
            by (symmetry; apply Z.eqb_eq; lia).
          f_equal. lia. }
        assert (Hcur2 : nth_error (store st2) cur
                        = Some (obj ++ [(k, HDict (List.length h))])).
        { apply Hfr2; [lia|exact Hset]. }
        assert (Hfrh : forall h', frame cur (store st2) h' ->
                                  frame cur h h').
        { intros h' Hf i o Hi Ho. apply Hf; [exact Hi|].
          assert (i < List.length h)%nat by (apply nth_error_Some; congruence).
          apply Hfr2; [lia|]. apply Hfr; [exact Hi|].
          rewrite nth_error_app1; auto. }
        rewrite (range_cons x) by lia. cbn [for_each]. unfold bind.
        rewrite Hstep.
        rewrite (range_app (x + 1) (x + 1 + Z.of_nat (forest_size d))) by lia.
        rewrite for_each_app, Hrun2.
        destruct t as [|kt t'].
        -- change (forest_size []) with 0%nat in *.
           rewrite range_nil by lia. cbn [for_each]. unfold ret.
           exists st2, s2, [(k, HDict (List.length h))].
           rewrite app_nil_r.
           split; [reflexivity|]. split; [exact Hs2|].
           split; [rewrite Hstk2'; f_equal; lia|]. split; [exact Hcd2|].
           split.
           { rewrite Hap2, <- app_assoc. reflexivity. }
           split; [apply Hfrh, frame_refl|].
           split; [exact Hcur2|].
           split; [reflexivity|]. split; [|reflexivity].
           apply repr_node_dir. split; [exact Hcurlen|].
           exists items_d. split; [exact Hob2|exact Hrep2].
        -- assert (Hsz : (0 < forest_size (kt :: t'))%nat).
           { destruct kt as [kk cc]. rewrite forest_size_cons.
             pose proof (node_size_pos cc). lia. }
           rewrite (pop_closed_id (dir_stack st)) in Hstk2'
             by (eapply Forall_impl; [|exact Hcl];
                 intros a Ha; simpl in Ha; lia).
           destruct (IHt (x + 1 + Z.of_nat (forest_size d)) st2 s2 (dir_stack st)
                       (obj ++ [(k, HDict (List.length h))]))
             as (st' & s' & items & Hrun & Hs' & Hstk & Hcd & Hap & Hfr' & Hob
                 & Hrep);
             [exact Ht|exact Hs2|exact Hstk2'
             |rewrite Hcd2, Hstk2'; reflexivity
             |rewrite Hcd2, Hstk2', <- Hcur; exact Hcur2
             |now apply NoDup_keys_snoc|exact Hut| |].
           { eapply Forall_impl; [|exact Hcl]. intros a Ha. simpl in Ha. lia. }
           assert (Hc2 : current_dir st2 = cur).
           { rewrite Hcd2, Hstk2'. symmetry. exact Hcur. }
           rewrite Hc2 in *.
           replace (x + Z.of_nat (S (forest_size d) + forest_size (kt :: t')))
             with (x + 1 + Z.of_nat (forest_size d)
                   + Z.of_nat (forest_size (kt :: t'))) by lia.
           rewrite Hrun.
           exists st', s', ((k, HDict (List.length h)) :: items).
           split; [reflexivity|]. split; [exact Hs'|].
           split; [rewrite Hstk; f_equal; lia|]. split; [exact Hcd|].
           split; [rewrite Hap, Hap2, <- !app_assoc; reflexivity|].
           split; [apply Hfrh; exact Hfr'|].
           split; [rewrite Hob, <- app_assoc; reflexivity|].
           split; [reflexivity|]. split; [|exact Hrep].
           apply repr_node_dir. split; [exact Hcurlen|].
           exists items_d. split.
           ++ apply Hfr'; [lia|exact Hob2].
           ++ eapply repr_items_stable; [|exact Hrep2].
              intros i o Hi Ho. apply Hfr'; [lia|exact Ho].
Qed.

End Forest.

(** ** [load_dir] and the top-level loop *)

Lemma in_list_In x l : in_list x l = true <-> In x l.
Proof.
  unfold in_list. rewrite existsb_exists. split.
  - intros (y & Hy & E). apply Z.eqb_eq in E. now subst.
  - intros H. exists x. split; [assumption|apply Z.eqb_refl].
Qed.

Lemma in_range i a b : In i (range a b) <-> a <= i < b.
Proof.
  unfold range. rewrite in_map_iff. split.
  - intros (j & <- & Hj). apply in_seq in Hj. lia.
  - intros H. exists (Z.to_nat (i - a)). split; [lia|].
    apply in_seq. lia.
Qed.

Section Loader.
Variables (c : bytes) (tbl : Z) (es : list FST_ENTRY).

(** [load_dir] on the record of a directory returns what the directory
    holds and marks its records as parsed. *)
Lemma load_dir_ok i e d parsed path s :
  list_index es i = Ok e ->
  next_entry_or_len e = i + 1 + Z.of_nat (forest_size d) ->
  encodes c tbl es (i + 1) d ->
  unique_names (Dir d) = true ->
  reads c s ->
  exists s',
    load_dir es tbl parsed i path s
    = Ok ((canon d,
           (parsed ++ [i]) ++ range (i + 1) (i + 1 + Z.of_nat (forest_size d))),
          s')
    /\ reads c s'.
Proof.
  intros He Hn Henc Hu Hs.
  pose proof (forest_run c tbl es path (Dir d)) as H. cbv beta iota in H.
  destruct (H (i + 1) (mkDirState [[]] 0%nat path [] (parsed ++ [i])) s [] [])
    as (st' & s' & items & Hrun & Hs' & _ & _ & Hap & _ & Hob & Hrep);
    [exact Henc|exact Hs|reflexivity|reflexivity|reflexivity
    |simpl; exact (proj1 (unique_names_dir _ Hu))|exact Hu|constructor|].
  cbn [store current_dir already_parsed] in *.
  exists s'. split; [|exact Hs'].
  unfold load_dir, bind, lift. rewrite He, Hn, Hrun. unfold ret.
  rewrite Hap. rewrite (reify_root _ _ _ Hob Hrep). reflexivity.
Qed.

Lemma skip_parsed l : forall files parsed s,
  (forall i, In i l -> In i parsed) ->
  for_each l (load_top_step es tbl) (files, parsed) s
  = Ok ((files, parsed), s).
Proof.
  induction l as [|a l IH]; intros files parsed s H; [reflexivity|].
  cbn [for_each]. unfold bind. unfold load_top_step at 1.
  rewrite (proj2 (in_list_In a parsed)) by (apply H; now left).
  unfold ret. apply IH. intros i Hi. apply H. now right.
Qed.

(** The top-level loop over the records of a forest: directories through
    [load_dir], files read where the stream stands after their name. *)
Lemma top_run F : forall x files parsed s,
  encodes c tbl es x F -> reads c s ->
  NoDup (dict_keys files ++ dict_keys F) ->
  unique_names (Dir F) = true ->
  (forall i, In i parsed -> i < x) ->
  exists parsed' s' items,
    for_each (range x (x + Z.of_nat (forest_size F)))
      (load_top_step es tbl) (files, parsed) s
    = Ok ((files ++ items, parsed'), s')
    /\ reads c s'
    /\ Forall2 top_rebuilt F items.
Proof.
  induction F as [|[k n] t IH]; intros x files parsed s Henc Hs Hnd Hu Hp.
  - exists parsed, s, []. rewrite range_nil by (simpl; lia).
    rewrite app_nil_r. repeat split; try apply Hs. constructor.
  - destruct (unique_names_dir _ Hu) as [Hndk Huc].
    assert (Hut : unique_names (Dir t) = true).
    { simpl in Hu |- *. apply andb_true_iff in Hu. destruct Hu as [Hn' Hc'].
      apply andb_true_iff in Hn'. destruct Hn' as [_ Hn'].
      apply andb_true_iff in Hc'. destruct Hc' as [_ Hc'].
      now rewrite Hn', Hc'. }
    assert (Hnot : in_list x parsed = false).
    { destruct (in_list x parsed) eqn:E; [|reflexivity].
      apply in_list_In, Hp in E. lia. }
    rewrite forest_size_cons.
    pose proof (node_size_pos n) as Hpos.
    rewrite (range_cons x) by lia. cbn [for_each]. unfold bind.
    unfold load_top_step at 1. rewrite Hnot. unfold bind, lift.
    inversion Henc as [|? ? f e ? He Hd Hn Hdat Ht
                       |? ? d e ? He Hd Hn Hnext Hsub Ht]; subst.
    + (* a file directly under the root *)
      rewrite He, Hd. pose proof Hn as (Hp0 & _).
      destruct (seek_ok c (tbl + name_off e) s Hs Hp0) as [-> Hs1].
      destruct (read_terminated_string_ok c k _ Hs1 Hn) as (s2 & -> & Hs2).
      destruct Hdat as (_ & Hlen & _).
      destruct (stream_read_any c (next_entry_or_len e) s2 Hs2 Hlen)
        as (bs & s3 & -> & Hs3).
      unfold ret at 1.
      rewrite (dict_set_fresh files k _ _ Hnd).
      destruct (IH (x + 1) (files ++ [(k, File (mkArcFile k bs))])
                  (parsed ++ [x]) s3)
        as (parsed' & s' & items & Hrun & Hs' & Hall);
        [exact Ht|exact Hs3|now apply NoDup_keys_snoc|exact Hut| |].
      { intros i Hi. apply in_app_or in Hi. destruct Hi as [Hi|[<-|[]]];
          [apply Hp in Hi|]; lia. }
      change (node_size (File f)) with 1%nat.
      replace (x + Z.of_nat (1 + forest_size t))
        with (x + 1 + Z.of_nat (forest_size t)) by lia.
      rewrite Hrun.
      exists parsed', s', ((k, File (mkArcFile k bs)) :: items).
      rewrite <- app_assoc. split; [reflexivity|]. split; [exact Hs'|].
      constructor; [|exact Hall]. split; reflexivity.
    + (* a directory: [load_dir], then its records are skipped *)
      rewrite He, Hd. pose proof Hn as (Hp0 & _).
      destruct (seek_ok c (tbl + name_off e) s Hs Hp0) as [-> Hs1].
      destruct (read_terminated_string_ok c k _ Hs1 Hn) as (s2 & -> & Hs2).
      assert (Hud : unique_names (Dir d) = true).
      { apply (Huc k). now left. }
      destruct (load_dir_ok x e d parsed (sep ++ k)%string s2 He Hnext Hsub
                  Hud Hs2) as (s3 & -> & Hs3).
      unfold ret at 1.
      rewrite (dict_set_fresh files k _ _ Hnd).
      rewrite node_size_dir.
      rewrite (range_app (x + 1) (x + 1 + Z.of_nat (forest_size d))) by lia.
      rewrite for_each_app, skip_parsed.
      2:{ intros i Hi. apply in_or_app. now right. }
      destruct (IH (x + 1 + Z.of_nat (forest_size d))
                  (files ++ [(k, Dir (canon d))])
                  ((parsed ++ [x])
                     ++ range (x + 1) (x + 1 + Z.of_nat (forest_size d))) s3)
        as (parsed' & s' & items & Hrun & Hs' & Hall);
        [exact Ht|exact Hs3|now apply NoDup_keys_snoc|exact Hut| |].
      { intros i Hi. apply in_app_or in Hi. destruct Hi as [Hi|Hi].
        - apply in_app_or in Hi. destruct Hi as [Hi|[<-|[]]];
            [apply Hp in Hi|]; lia.
        - apply in_range in Hi. lia. }
      replace (x + Z.of_nat (S (forest_size d) + forest_size t))
        with (x + 1 + Z.of_nat (forest_size d) + Z.of_nat (forest_size t))
        by lia.
      rewrite Hrun.
      exists parsed', s', ((k, Dir (canon d)) :: items).
      rewrite <- app_assoc. split; [reflexivity|]. split; [exact Hs'|].
      constructor; [|exact Hall]. split; reflexivity.
Qed.

Lemma load_tree_ok F e0 s :
  list_index es 0 = Ok e0 ->
  next_entry_or_len e0 = 1 + Z.of_nat (forest_size F) ->
  encodes c tbl es 1 F ->
  unique_names (Dir F) = true ->
  reads c s ->
  exists files s',
    load_tree es tbl s = Ok (files, s') /\ Forall2 top_rebuilt F files.
Proof.
  intros He Hn Henc Hu Hs.
  destruct (top_run F 1 [] [] s Henc Hs) as (parsed' & s' & items & Hrun & _ & H);
    [simpl; exact (proj1 (unique_names_dir _ Hu))|exact Hu
    |intros i []|].
  unfold load_tree, bind, lift. rewrite He, Hn.
  unfold dict in *. rewrite Hrun.
  exists items, s'. split; [reflexivity|exact H].
Qed.

End Loader.

(** ** The encoder: the lists [traverse] fills *)

Lemma flat_cons k c t : flat ((k, c) :: t) = flat_node k c ++ flat t.
Proof. reflexivity. Qed.

Lemma flat_node_dir k d :
  flat_node k (Dir d) = IDir k (forest_size d) :: flat d.
Proof.
  cbn [flat_node]. f_equal. unfold flat.
  induction d as [|[k' c] t IH]; [reflexivity|].
  cbn [List.flat_map fst snd]. now rewrite IH.
Qed.

Lemma flat_node_length n : forall k, List.length (flat_node k n) = node_size n.
Proof.
  induction n as [f|d IH] using node_induction; intros k; [reflexivity|].
  rewrite flat_node_dir, node_size_dir. cbn [List.length]. f_equal.
  induction d as [|[k' c] t IHt]; [reflexivity|].
  inversion IH as [|? ? Hc Ht]; subst.
  rewrite flat_cons, length_app, forest_size_cons.
  cbn [snd] in Hc. rewrite Hc, IHt; auto.
Qed.

Lemma flat_length d : List.length (flat d) = forest_size d.
Proof.
  pose proof (flat_node_length (Dir d) EmptyString) as H.
  rewrite flat_node_dir, node_size_dir in H. cbn [List.length] in H. lia.
Qed.

Section Indexed.
Context {A B : Type}.

Lemma Forall2i_length (R : Z -> A -> B -> Prop) i la lb :
  Forall2i R i la lb -> List.length la = List.length lb.
Proof. induction 1; simpl; congruence. Qed.

Lemma Forall2i_app (R : Z -> A -> B -> Prop) la : forall i lb la' lb',
  Forall2i R i la lb -> Forall2i R (i + len la) la' lb' ->
  Forall2i R i (la ++ la') (lb ++ lb').
Proof.
  induction la as [|a la IH]; intros i lb la' lb' H H'.
  - inversion H; subst. simpl. now rewrite Z.add_0_r in H'.
  - inversion H; subst. simpl. constructor; [assumption|].
    apply IH; [assumption|].
    replace (i + 1 + len la) with (i + len (a :: la)); [assumption|].
    unfold len. simpl. lia.
Qed.

Lemma Forall2i_impl (R Q : Z -> A -> B -> Prop) i la lb :
  (forall j a b, i <= j -> R j a b -> Q j a b) ->
  Forall2i R i la lb -> Forall2i Q i la lb.
Proof.
  intros H HR. induction HR; constructor.
  - apply H; [lia|assumption].
  - apply IHHR. intros j a' b' Hj. apply H. lia.
Qed.

Lemma Forall2i_nth (R : Z -> A -> B -> Prop) i la lb :
  Forall2i R i la lb ->
  forall n a, nth_error la n = Some a ->
  exists b, nth_error lb n = Some b /\ R (i + Z.of_nat n) a b.
Proof.
  induction 1 as [|i a b la lb Hab H IH]; intros n x Hn.
  - destruct n; discriminate.
  - destruct n as [|n]; simpl in Hn.
    + inversion Hn; subst. exists b. rewrite Z.add_0_r. auto.
    + destruct (IH n x Hn) as (y & Hy & HR). exists y. split; [exact Hy|].
      replace (i + Z.of_nat (S n)) with (i + 1 + Z.of_nat n) by lia.
      exact HR.
Qed.

End Indexed.

Lemma list_set_mid {A} (l1 : list A) a l2 v :
  list_set (l1 ++ a :: l2) (List.length l1) v = l1 ++ v :: l2.
Proof. induction l1 as [|x l1 IH]; simpl; [reflexivity|now rewrite IH]. Qed.

Lemma item_files_app its1 : forall idx its2,
  item_files idx (its1 ++ its2)
  = item_files idx its1 ++ item_files (idx + len its1) its2.
Proof.
  induction its1 as [|[k f|k sz] t IH]; intros idx its2; simpl.
  - now rewrite Z.add_0_r.
  - rewrite IH. do 3 f_equal. unfold len. simpl. lia.
  - rewrite IH. do 2 f_equal. unfold len. simpl. lia.
Qed.

Lemma extends_by_refl st : extends_by st st [].
Proof.
  exists []. simpl. rewrite !app_nil_r. repeat split. constructor.
Qed.

Lemma extends_by_trans st st1 st2 its1 its2 :
  extends_by st st1 its1 -> extends_by st1 st2 its2 ->
  extends_by st st2 (its1 ++ its2).
Proof.
  intros (e1 & He1 & Hf1 & Hn1 & Hm1) (e2 & He2 & Hf2 & Hn2 & Hm2).
  assert (Hlen : len (fst_entries st1) = len (fst_entries st) + len its1).
  { rewrite He1, len_app. f_equal. unfold len.
    now rewrite (Forall2i_length _ _ _ _ Hf1). }
  exists (e1 ++ e2). rewrite Hlen in *.
  split; [rewrite He2, He1; symmetry; apply app_assoc|].
  split; [now apply Forall2i_app|].
  split; [rewrite Hn2, Hn1, map_app; symmetry; apply app_assoc|].
  rewrite Hm2, Hm1, item_files_app. symmetry; apply app_assoc.
Qed.

Lemma traverse_dir k d parent st :
  traverse k (Dir d) parent st
  = let st2 := traverse_all d (len (fst_entries st)) (snd (add_entry k st)) in
    fill_entry st2 (len (fst_entries st))
      (mkEntry true 0 parent (len (fst_entries st2))).
Proof.
  cbn [traverse add_entry snd]. cbv zeta.
  match goal with
  | |- fill_entry (?F d ?s1) _ _ = _ =>
      assert (E : forall s, F d s = traverse_all d (len (fst_entries st)) s)
  end.
  { induction d as [|[k' c] t IHd]; intros s; [reflexivity|].
    cbn [traverse_all]. rewrite <- IHd. reflexivity. }
  rewrite E. reflexivity.
Qed.

Lemma traverse_file k f parent st :
  extends_by st (traverse k (File f) parent st) [IFile k f].
Proof.
  cbn [traverse add_entry fill_entry fst_entries names file_map].
  exists [Some (mkEntry false 0 0 0)].
  split.
  { unfold len. rewrite Nat2Z.id.
    rewrite (list_set_mid (fst_entries st) None []). reflexivity. }
  split.
  { constructor; [|constructor]. exists (mkEntry false 0 0 0). auto. }
  split; reflexivity.
Qed.

Lemma traverse_dir_spec k d parent st :
  (forall p s, extends_by s (traverse_all d p s) (flat d)) ->
  extends_by st (traverse k (Dir d) parent st) (IDir k (forest_size d) :: flat d).
Proof.
  intros H. rewrite traverse_dir. cbv zeta.
  destruct (H (len (fst_entries st)) (snd (add_entry k st)))
    as (ents & He & Hf & Hn & Hm).
  set (st2 := traverse_all d _ _) in *.
  cbn [add_entry snd fst_entries names file_map] in He, Hf, Hn, Hm.
  assert (Hl1 : len (fst_entries st ++ [None]) = len (fst_entries st) + 1).
  { rewrite len_app. reflexivity. }
  rewrite Hl1 in *.
  exists (Some (mkEntry true 0 parent (len (fst_entries st2))) :: ents).
  cbn [fill_entry fst_entries names file_map].
  split.
  { rewrite He, <- app_assoc. cbn [app]. unfold len at 1.
    rewrite Nat2Z.id. apply list_set_mid. }
  split.
  { constructor; [|exact Hf]. eexists. split; [reflexivity|].
    split; [reflexivity|]. cbn [next_entry_or_len].
    rewrite He, len_app, Hl1. unfold len at 2.
    rewrite <- (Forall2i_length _ _ _ _ Hf), flat_length. reflexivity. }
  split.
  { rewrite Hn, <- app_assoc. reflexivity. }
  rewrite Hm. reflexivity.
Qed.

Lemma traverse_all_step d :
  Forall (fun kv => forall k p s,
            extends_by s (traverse k (snd kv) p s) (flat_node k (snd kv))) d ->
  forall p s, extends_by s (traverse_all d p s) (flat d).
Proof.
  induction 1 as [|[k c] t Hc Ht IH]; intros p s.
  - apply extends_by_refl.
  - cbn [traverse_all]. rewrite flat_cons.
    eapply extends_by_trans; [apply Hc|apply IH].
Qed.

Lemma traverse_spec n : forall k parent st,
  extends_by st (traverse k n parent st) (flat_node k n).
Proof.
  induction n as [f|d IH] using node_induction; intros k parent st.
  - apply traverse_file.
  - rewrite flat_node_dir. apply traverse_dir_spec.
    now apply traverse_all_step.
Qed.

Lemma traverse_all_spec d p s : extends_by s (traverse_all d p s) (flat d).
Proof.
  apply traverse_all_step. apply Forall_forall. intros kv _ k p' s'.
  apply traverse_spec.
Qed.

Lemma build_fst_spec fs :
  exists ents,
    fst_entries (build_fst fs)
    = Some (mkEntry true 0 0 (1 + Z.of_nat (forest_size fs))) :: ents
    /\ Forall2i pre_ok 1 (flat fs) ents
    /\ names (build_fst fs) = EmptyString :: map item_name (flat fs)
    /\ file_map (build_fst fs) = item_files 1 (flat fs).
Proof.
  unfold build_fst. cbn [add_entry fst_entries names file_map].
  change (len (@nil (option FST_ENTRY))) with 0. cbn [app].
  destruct (traverse_all_spec fs 0 (mkEnc [None] [EmptyString] []))
    as (ents & He & Hf & Hn & Hm).
  set (st1 := traverse_all fs 0 _) in *.
  cbn [fst_entries names file_map] in He, Hf, Hn, Hm.
  change (len [@None FST_ENTRY]) with 1 in *.
  exists ents. cbn [fill_entry fst_entries names file_map].
  rewrite He, Hn, Hm. cbn [app list_set Z.to_nat].
  split; [|auto].
  do 3 f_equal. unfold len. cbn [List.length].
  rewrite <- (Forall2i_length _ _ _ _ Hf), flat_length. lia.
Qed.

(** ** The encoder: string table, name offsets and file offsets *)

Lemma build_string_table_spec nms : forall tab offs,
  exists more news,
    build_string_table nms tab offs = (tab ++ more, offs ++ news)
    /\ Forall2 (fun nm o =>
                  exists pre rest,
                    tab ++ more = pre ++ encode_ascii_replace nm ++ x00 :: rest
                    /\ o = len pre) nms news.
Proof.
  induction nms as [|nm t IH]; intros tab offs.
  - exists [], []. simpl. rewrite !app_nil_r. split; [reflexivity|constructor].
  - cbn [build_string_table].
    destruct (IH (tab ++ encode_ascii_replace nm ++ [x00]) (offs ++ [len tab]))
      as (more & news & E & H).
    exists (encode_ascii_replace nm ++ [x00] ++ more), (len tab :: news).
    split.
    { rewrite E. f_equal; rewrite <- !app_assoc; reflexivity. }
    constructor.
    + exists tab, more. split; reflexivity.
    + eapply Forall2_impl; [|exact H].
      intros a b (pre & rest & E' & ->). exists pre, rest.
      split; [|reflexivity]. rewrite <- E', <- !app_assoc. reflexivity.
Qed.

Lemma assign_name_offsets_spec oes : forall idx offs es,
  assign_name_offsets oes idx offs = Ok es ->
  Forall2i (fun i oe e =>
              exists e0,
                oe = Some e0 /\ is_dir e = is_dir e0
                /\ next_entry_or_len e = next_entry_or_len e0
                /\ list_index offs i = Ok (name_off e)) idx oes es.
Proof.
  induction oes as [|[e0|] t IH]; intros idx offs es H; simpl in H.
  - inversion H; subst. constructor.
  - destruct (list_index offs idx) as [off|] eqn:Eo; [|discriminate].
    destruct (assign_name_offsets t (idx + 1) offs) as [rest|] eqn:Er;
      [|discriminate].
    inversion H; subst. constructor; [|now apply IH].
    exists e0. cbn. auto.
  - discriminate.
Qed.

Lemma align_spec x b :
  0 < b -> x <= _align x b < x + b /\ (_align x b) mod b = 0.
Proof.
  intros Hb. unfold _align.
  pose proof (Z.mod_pos_bound x b Hb) as Hm.
  destruct (x mod b =? 0) eqn:E; cbn [negb].
  - apply Z.eqb_eq in E. split; [lia|exact E].
  - apply Z.eqb_neq in E. split; [lia|].
    rewrite (Z.div_mod x b) at 1 by lia.
    replace (b * (x / b) + x mod b + (b - x mod b))
      with ((x / b + 1) * b) by lia.
    apply Z.mod_mul. lia.
Qed.

Lemma file_padding_length f :
  len (file_padding f) = _align (len (data f)) 32 - len (data f).
Proof.
  unfold file_padding, len at 1. rewrite repeat_length.
  pose proof (align_spec (len (data f)) 32 ltac:(lia)). lia.
Qed.

Lemma file_padding_spec f :
  file_padding f
  = repeat x00 (Z.to_nat ((32 - len (data f) mod 32) mod 32)).
Proof.
  unfold file_padding, _align.
  pose proof (Z.mod_pos_bound (len (data f)) 32 ltac:(lia)) as Hm.
  destruct (len (data f) mod 32 =? 0) eqn:E; cbn [negb]; do 2 f_equal.
  - apply Z.eqb_eq in E. rewrite E. change ((32 - 0) mod 32) with 0. lia.
  - apply Z.eqb_neq in E.
    rewrite (Z.mod_small (32 - len (data f) mod 32)) by lia. lia.
Qed.

(** The file records against the bytes [write_files] appends. *)
Lemma files_laid es : forall idx m off es' buf out,
  fill_file_entries es idx m off = Ok es' ->
  write_files es' idx m buf = Ok out ->
  len buf = off ->
  exists more,
    out = buf ++ more
    /\ Forall2i (fun i e e' =>
                   name_off e' = name_off e /\ is_dir e' = is_dir e
                   /\ if is_dir e
                      then next_entry_or_len e' = next_entry_or_len e
                      else exists f pre rest,
                             file_map_get m i = Ok f
                             /\ out = pre ++ data f ++ file_padding f ++ rest
                             /\ parent_or_file_off e' = len pre
                             /\ next_entry_or_len e' = len (data f)
                             /\ (off mod 32 = 0 -> len pre mod 32 = 0))
         idx es es'.
Proof.
  induction es as [|e t IH]; intros idx m off es' buf out Hf Hw Hl;
    cbn [fill_file_entries] in Hf.
  - inversion Hf; subst. cbn in Hw. inversion Hw; subst.
    exists []. rewrite app_nil_r. split; [reflexivity|constructor].
  - destruct (is_dir e) eqn:Ed; cbn [negb] in Hf.
    + destruct (fill_file_entries t (idx + 1) m off) as [rest|] eqn:Er;
        [|discriminate].
      inversion Hf; subst. cbn [write_files] in Hw. rewrite Ed in Hw.
      cbn [negb] in Hw.
      destruct (IH _ _ _ _ _ _ Er Hw eq_refl) as (more & -> & H).
      exists more. split; [reflexivity|].
      constructor; [|exact H]. rewrite Ed. auto.
    + destruct (file_map_get m idx) as [f|] eqn:Eg; [|discriminate].
      destruct (fill_file_entries t (idx + 1) m
                  (off + _align (len (data f)) 32)) as [rest|] eqn:Er;
        [|discriminate].
      inversion Hf; subst. cbn [write_files is_dir negb] in Hw.
      rewrite Eg in Hw.
      destruct (IH _ _ _ _ _ _ Er Hw) as (more & -> & H).
      { rewrite !len_app, file_padding_length. lia. }
      exists (data f ++ file_padding f ++ more).
      split; [now rewrite <- !app_assoc|].
      constructor.
      * rewrite Ed. cbn. split; [reflexivity|]. split; [reflexivity|].
        exists f, buf, more.
        split; [exact Eg|]. rewrite <- !app_assoc. auto.
      * eapply Forall2i_impl; [|exact H].
        intros j a b _ (Hn & Hd & Hr). split; [exact Hn|].
        split; [exact Hd|]. destruct (is_dir a); [exact Hr|].
        destruct Hr as (f' & pre & rest' & Hg & Ho & Hp & Hx & Hm).
        exists f', pre, rest'. repeat (split; [assumption|]).
        intros H0. apply Hm.
        pose proof (align_spec (len (data f)) 32 ltac:(lia)) as [_ Ha].
        rewrite Z.add_mod, H0, Ha by lia. reflexivity.
Qed.

(** [file_map_get] on the map [traverse] builds. *)
Lemma file_map_get_items its : forall idx i n k f,
  nth_error its n = Some (IFile k f) -> i = idx + Z.of_nat n ->
  file_map_get (item_files idx its) i = Ok f.
Proof.
  assert (Hlt : forall its idx i, i < idx ->
                  file_map_get (item_files idx its) i = Raise KeyError).
  { clear. induction its as [|[k f|k sz] t IH]; intros idx i Hi; simpl.
    - reflexivity.
    - destruct (idx =? i) eqn:E; [apply Z.eqb_eq in E; lia|].
      apply IH. lia.
    - apply IH. lia. }
  induction its as [|it t IH]; intros idx i n k f Hn Hi.
  - destruct n; discriminate.
  - destruct n as [|n]; simpl in Hn.
    + inversion Hn; subst. simpl. rewrite Z.add_0_r, Z.eqb_refl. reflexivity.
    + assert (Hne : (idx =? i) = false) by (apply Z.eqb_neq; lia).
      destruct it as [k' f'|k' sz]; simpl; [rewrite Hne|];
        apply (IH (idx + 1) i n k f Hn); lia.
Qed.

(** ** The encoder: integers and records as bytes *)

Lemma Z_of_byte_of_Z z : 0 <= z < 256 -> Z_of_byte (byte_of_Z z) = z.
Proof.
  intros H. unfold Z_of_byte, byte_of_Z. rewrite Z.mod_small by lia.
  destruct (Byte.of_N (Z.to_N z)) as [b|] eqn:E.
  - apply Byte.to_of_N in E. rewrite E. lia.
  - apply Byte.of_N_None_iff in E. lia.
Qed.

Lemma be_value_acc bs : forall acc,
  fold_left (fun a b => a * 256 + Z_of_byte b) bs acc
  = acc * 256 ^ len bs + be_value bs.
Proof.
  unfold be_value. induction bs as [|b t IH]; intros acc; cbn [fold_left].
  - change (len (@nil byte)) with 0. cbn [fold_left]. lia.
  - rewrite (IH (acc * 256 + Z_of_byte b)), (IH (0 * 256 + Z_of_byte b)).
    replace (len (b :: t)) with (len t + 1) by (unfold len; simpl; lia).
    rewrite Z.pow_add_r by (pose proof (len_nonneg t); lia). lia.
Qed.

Lemma be_value_cons b t :
  be_value (b :: t) = Z_of_byte b * 256 ^ len t + be_value t.
Proof.
  unfold be_value at 1. cbn [fold_left]. rewrite be_value_acc. lia.
Qed.

Lemma be_value_app l1 l2 :
  be_value (l1 ++ l2) = be_value l1 * 256 ^ len l2 + be_value l2.
Proof.
  unfold be_value at 1 2. rewrite fold_left_app. apply be_value_acc.
Qed.

Lemma be_bytes_length n : forall v, List.length (be_bytes n v) = n.
Proof. induction n as [|n IH]; intros v; simpl; [reflexivity|now rewrite IH]. Qed.

Lemma be_value_be_bytes n : forall v,
  0 <= v < 256 ^ Z.of_nat n -> be_value (be_bytes n v) = v.
Proof.
  induction n as [|n IH]; intros v H.
  - change (256 ^ Z.of_nat 0) with 1 in H. cbn. lia.
  - cbn [be_bytes]. rewrite be_value_cons. unfold len.
    rewrite be_bytes_length.
    set (P := 256 ^ Z.of_nat n) in *.
    assert (HP : 0 < P) by (apply Z.pow_pos_nonneg; lia).
    assert (HS : 256 ^ Z.of_nat (S n) = 256 * P).
    { rewrite Nat2Z.inj_succ, Z.pow_succ_r by lia. reflexivity. }
    rewrite HS in H.
    rewrite Z_of_byte_of_Z.
    2:{ split; [apply Z.div_pos; lia|apply Z.div_lt_upper_bound; lia]. }
    rewrite IH by (apply Z.mod_pos_bound; lia).
    pose proof (Z.div_mod v P ltac:(lia)). lia.
Qed.

Lemma skipn_len_app {A} (pre l : list A) :
  skipn (Z.to_nat (len pre)) (pre ++ l) = l.
Proof.
  unfold len. rewrite Nat2Z.id, skipn_app, skipn_all, Nat.sub_diag.
  reflexivity.
Qed.

Lemma firstn_len_app {A} (w l : list A) n :
  List.length w = n -> firstn n (w ++ l) = w.
Proof.
  intros <-. rewrite firstn_app, firstn_all, Nat.sub_diag. simpl.
  apply app_nil_r.
Qed.

Lemma word_at_split c pre w post p :
  c = pre ++ w ++ post -> List.length w = 4%nat -> p = len pre ->
  word_at c p = be_value w.
Proof.
  intros -> Hw ->. unfold word_at. rewrite skipn_len_app.
  now rewrite firstn_len_app.
Qed.

Lemma flag_word d no :
  d = 0 \/ d = 1 -> 0 <= no < 2 ^ 24 ->
  Z.land (d * 2 ^ 24 + no) 16777215 = no
  /\ (Z.land (d * 2 ^ 24 + no) 4278190080 =? 0) = (d =? 0).
Proof.
  intros Hd Hn. split.
  - change 16777215 with (Z.ones 24). rewrite Z.land_ones by lia.
    rewrite Z.add_comm, Z.mod_add by lia. apply Z.mod_small; lia.
  - change 4278190080 with (Z.shiftl 255 24).
    assert (E : Z.land (d * 2 ^ 24 + no) (Z.shiftl 255 24)
                = Z.shiftl (Z.land (Z.shiftr (d * 2 ^ 24 + no) 24) 255) 24).
    { apply Z.bits_inj'. intros n Hn0. rewrite Z.land_spec.
      destruct (Z.ltb_spec n 24).
      - rewrite !Z.shiftl_spec_low by lia. apply andb_false_r.
      - rewrite !Z.shiftl_spec by lia.
        rewrite Z.land_spec, Z.shiftr_spec by lia.
        replace (n - 24 + 24) with n by lia. reflexivity. }
    rewrite E, Z.shiftr_div_pow2 by lia.
    replace ((d * 2 ^ 24 + no) / 2 ^ 24) with d.
    2:{ rewrite Z.div_add_l by lia. rewrite Z.div_small by lia. lia. }
    destruct Hd; subst; reflexivity.
Qed.

Lemma to_binary_fields e bin :
  to_binary e = Ok bin ->
  0 <= name_off e < 2 ^ 24
  /\ 0 <= parent_or_file_off e < 2 ^ 32
  /\ 0 <= next_entry_or_len e < 2 ^ 32
  /\ bin = (be_bytes 1 (if is_dir e then 1 else 0) ++ be_bytes 3 (name_off e))
           ++ be_bytes 4 (parent_or_file_off e)
           ++ be_bytes 4 (next_entry_or_len e).
Proof.
  unfold to_binary. intros H.
  assert (E1 : int_to_bytes 1 (if is_dir e then 1 else 0)
               = Ok (be_bytes 1 (if is_dir e then 1 else 0)))
    by (destruct (is_dir e); reflexivity).
  rewrite E1 in H. clear E1.
  destruct ((0 <=? name_off e) && (name_off e <=? 16777215)) eqn:E2;
    cbn [negb] in H; [|discriminate].
  unfold int_to_bytes in H.
  destruct ((0 <=? name_off e) && (name_off e <? 256 ^ Z.of_nat 3)) eqn:E3;
    [|discriminate].
  destruct ((0 <=? parent_or_file_off e)
            && (parent_or_file_off e <? 256 ^ Z.of_nat 4)) eqn:E4;
    [|discriminate].
  destruct ((0 <=? next_entry_or_len e)
            && (next_entry_or_len e <? 256 ^ Z.of_nat 4)) eqn:E5;
    [|discriminate].
  inversion H; subst. clear H.
  apply andb_true_iff in E3, E4, E5.
  change (256 ^ Z.of_nat 3) with (2 ^ 24) in E3.
  change (256 ^ Z.of_nat 4) with (2 ^ 32) in E4, E5.
  rewrite <- app_assoc. repeat split; lia.
Qed.

Lemma to_binary_entry_at e bin :
  to_binary e = Ok bin ->
  len bin = 12
  /\ forall pre post, entry_at (pre ++ bin ++ post) (len pre) = e.
Proof.
  intros H. apply to_binary_fields in H.
  destruct H as (Hn & Hp & Hx & ->).
  set (w1 := be_bytes 1 (if is_dir e then 1 else 0) ++ be_bytes 3 (name_off e)).
  set (w2 := be_bytes 4 (parent_or_file_off e)).
  set (w3 := be_bytes 4 (next_entry_or_len e)).
  assert (L1 : List.length w1 = 4%nat)
    by (unfold w1; rewrite length_app, !be_bytes_length; reflexivity).
  assert (L2 : List.length w2 = 4%nat) by apply be_bytes_length.
  assert (L3 : List.length w3 = 4%nat) by apply be_bytes_length.
  split.
  { unfold len. rewrite !length_app, L1, L2, L3. reflexivity. }
  intros pre post. unfold entry_at.
  rewrite (word_at_split _ pre w1 (w2 ++ w3 ++ post) (len pre));
    [|now rewrite <- !app_assoc|exact L1|reflexivity].
  rewrite (word_at_split _ (pre ++ w1) w2 (w3 ++ post) (len pre + 4));
    [|now rewrite <- !app_assoc|exact L2
     |unfold len; rewrite length_app, L1; lia].
  rewrite (word_at_split _ (pre ++ w1 ++ w2) w3 post (len pre + 8));
    [|now rewrite <- !app_assoc|exact L3
     |unfold len; rewrite !length_app, L1, L2; lia].
  assert (V1 : be_value w1 = (if is_dir e then 1 else 0) * 2 ^ 24 + name_off e).
  { unfold w1. rewrite be_value_app. unfold len. rewrite be_bytes_length.
    rewrite !be_value_be_bytes;
      [reflexivity|change (256 ^ Z.of_nat 3) with (2 ^ 24); lia
      |destruct (is_dir e); change (256 ^ Z.of_nat 1) with 256; lia]. }
  rewrite V1.
  destruct (flag_word (if is_dir e then 1 else 0) (name_off e)) as [F1 F2];
    [destruct (is_dir e); auto|exact Hn|].
  rewrite F1, F2.
  unfold w2, w3. rewrite !be_value_be_bytes
    by (change (256 ^ Z.of_nat 4) with (2 ^ 32); lia).
  destruct e as [d no p nx]. cbn. f_equal. destruct d; reflexivity.
Qed.

Lemma write_entries_spec es : forall buf out,
  write_entries es buf = Ok out ->
  exists recs,
    out = buf ++ recs /\ len recs = 12 * len es
    /\ forall post n e,
         nth_error es n = Some e ->
         entry_at (out ++ post) (len buf + 12 * Z.of_nat n) = e.
Proof.
  induction es as [|e t IH]; intros buf out H; cbn [write_entries] in H.
  - inversion H; subst. exists []. rewrite app_nil_r.
    split; [reflexivity|]. split; [reflexivity|].
    intros post n e Hn. destruct n; discriminate.
  - destruct (to_binary e) as [b|] eqn:Eb; [|discriminate].
    destruct (to_binary_entry_at e b Eb) as [Hl Hat].
    destruct (IH _ _ H) as (recs & -> & Hr & Hall).
    exists (b ++ recs). split; [now rewrite <- app_assoc|].
    split.
    { rewrite len_app, Hl, Hr. unfold len. cbn [List.length]. lia. }
    intros post n e' Hn. destruct n as [|n]; simpl in Hn.
    + inversion Hn; subst. rewrite Z.add_0_r.
      rewrite <- !app_assoc. apply Hat.
    + rewrite <- (Hall post n e' Hn). f_equal. rewrite len_app, Hl. lia.
Qed.

Lemma entries_at_ext c es : forall p,
  (forall n e, nth_error es n = Some e -> entry_at c (p + 12 * Z.of_nat n) = e) ->
  entries_at c p (List.length es) = es.
Proof.
  unfold entries_at. induction es as [|e t IH]; intros p H; [reflexivity|].
  cbn [List.length seq map]. f_equal.
  - rewrite <- (H 0%nat e eq_refl). f_equal.
  - rewrite <- seq_shift, map_map. rewrite <- (IH (p + 12)) at 2.
    + apply map_ext. intros r. f_equal. lia.
    + intros n e' Hn. rewrite <- (H (S n) e' Hn). f_equal. lia.
Qed.

Lemma pack_header_spec L header :
  pack_header L = Ok header ->
  header = U8_FILE_MAGIC
           ++ (be_bytes 4 (fst_offset L)
               ++ be_bytes 4 (fst_size L + str_table_size L)
               ++ be_bytes 4 (file_data_offset L) ++ repeat x00 16)
  /\ len header = 32
  /\ 0 <= file_data_offset L < 2 ^ 32.
Proof.
  unfold pack_header, pack_I. intros H.
  destruct ((0 <=? fst_offset L) && (fst_offset L <? 2 ^ 32));
    [|discriminate].
  destruct ((0 <=? fst_size L + str_table_size L)
            && (fst_size L + str_table_size L <? 2 ^ 32)); [|discriminate].
  destruct ((0 <=? file_data_offset L) && (file_data_offset L <? 2 ^ 32))
    eqn:E1; [|discriminate].
  inversion H; subst. clear H. split; [reflexivity|].
  split.
  { reflexivity. }
  apply andb_true_iff in E1. lia.
Qed.

(** ** The encoder: names in the string table, and the records as a forest *)

Lemma decode_encode_clean k :
  clean_name k = true -> decode_ascii (encode_ascii_replace k) = Ok k.
Proof.
  induction k as [|a t IH]; intros H; [reflexivity|].
  cbn [clean_name] in H. apply andb_true_iff in H. destruct H as [H Ht].
  apply andb_true_iff in H. destruct H as [H1 H2].
  cbn [encode_ascii_replace decode_ascii]. unfold encode_char.
  rewrite H1, H1, (IH Ht), ascii_of_byte_of_ascii. reflexivity.
Qed.

Lemma takewhile_clean k rest :
  clean_name k = true ->
  takewhile_nul (encode_ascii_replace k ++ x00 :: rest)
  = (encode_ascii_replace k, len (encode_ascii_replace k) + 1, false).
Proof.
  induction k as [|a t IH]; intros H; [reflexivity|].
  cbn [clean_name] in H. apply andb_true_iff in H. destruct H as [H Ht].
  apply andb_true_iff in H. destruct H as [H1 H2].
  cbn [encode_ascii_replace app takewhile_nul]. unfold encode_char.
  rewrite H1. apply negb_true_iff in H2. rewrite H2, (IH Ht).
  f_equal. f_equal. unfold len. cbn [List.length]. lia.
Qed.

Lemma name_at_table c pre k rest p :
  c = pre ++ encode_ascii_replace k ++ x00 :: rest -> p = len pre ->
  clean_name k = true -> name_at c p k.
Proof.
  intros -> -> Hk. split; [apply len_nonneg|].
  rewrite skipn_len_app, (takewhile_clean k rest Hk).
  do 3 eexists. split; [reflexivity|]. now apply decode_encode_clean.
Qed.

Lemma clean_items n : forall k,
  clean_name k = true -> clean_names n = true ->
  Forall (fun it => clean_name (item_name it) = true) (flat_node k n).
Proof.
  induction n as [f|d IH] using node_induction; intros k Hk Hn.
  - repeat constructor. exact Hk.
  - rewrite flat_node_dir. constructor; [exact Hk|].
    clear k Hk. induction d as [|[k' c] t IHt]; [constructor|].
    inversion IH as [|? ? Hc Ht]; subst. cbn [snd] in Hc.
    cbn [clean_names] in Hn. apply andb_true_iff in Hn. destruct Hn as [Hn Hr].
    apply andb_true_iff in Hn. destruct Hn as [Hk' Hcn].
    rewrite flat_cons. apply Forall_app. split; [now apply Hc|].
    apply IHt; [exact Ht|exact Hr].
Qed.

Lemma clean_flat fs :
  clean_names (Dir fs) = true ->
  Forall (fun it => clean_name (item_name it) = true) (flat fs).
Proof.
  intros H. pose proof (clean_items (Dir fs) EmptyString eq_refl H) as HF.
  rewrite flat_node_dir in HF. now inversion HF.
Qed.

Lemma Forall2_nth {A B} (R : A -> B -> Prop) la lb :
  Forall2 R la lb ->
  forall n a, nth_error la n = Some a ->
  exists b, nth_error lb n = Some b /\ R a b.
Proof.
  induction 1 as [|a b la lb Hab H IH]; intros n x Hn.
  - destruct n; discriminate.
  - destruct n as [|n]; simpl in Hn.
    + inversion Hn; subst. exists b. auto.
    + apply IH in Hn. exact Hn.
Qed.

Section FlatEncodes.
Variables (c : bytes) (tbl : Z) (es : list FST_ENTRY).

Lemma encodes_of_flat n :
  match n with
  | File _ => True
  | Dir F =>
      forall x,
        (forall i it,
           nth_error (flat F) i = Some it ->
           exists e, list_index es (x + Z.of_nat i) = Ok e
                     /\ rec_ok c tbl (x + Z.of_nat i) it e) ->
        encodes c tbl es x F
  end.
Proof.
  induction n as [f|F IH] using node_induction; [exact I|].
  induction F as [|[k cn] t IHt]; intros x H.
  - constructor.
  - inversion IH as [|? ? IHc IHF]; subst. specialize (IHt IHF).
    cbn [snd] in IHc. clear IH IHF.
    destruct cn as [f|d].
    + destruct (H 0%nat (IFile k f) eq_refl) as (e & He & Hn & Hd & Hdat).
      rewrite Z.add_0_r in *. cbn [item_name] in Hn.
      eapply encodes_file; eauto.
      apply IHt. intros i it Hi.
      destruct (H (S i) it Hi) as (e' & He' & Hr). exists e'.
      replace (x + 1 + Z.of_nat i) with (x + Z.of_nat (S i)) by lia. auto.
    + rewrite flat_cons, flat_node_dir in H.
      destruct (H 0%nat (IDir k (forest_size d)) eq_refl)
        as (e & He & Hn & Hd & Hnx).
      rewrite Z.add_0_r in *. cbn [item_name] in Hn.
      eapply encodes_dir; eauto.
      * apply IHc. intros i it Hi.
        destruct (H (S i) it) as (e' & He' & Hr).
        { cbn [app nth_error]. rewrite nth_error_app1; [exact Hi|].
          apply nth_error_Some. congruence. }
        exists e'.
        replace (x + 1 + Z.of_nat i) with (x + Z.of_nat (S i)) by lia. auto.
      * apply IHt. intros i it Hi.
        destruct (H (S (List.length (flat d) + i)) it) as (e' & He' & Hr).
        { cbn [app nth_error]. rewrite nth_error_app2 by lia.
          replace (List.length (flat d) + i - List.length (flat d))%nat
            with i by lia. exact Hi. }
        exists e'. rewrite flat_length in He', Hr.
        replace (x + 1 + Z.of_nat (forest_size d) + Z.of_nat i)
          with (x + Z.of_nat (S (forest_size d + i))) by lia. auto.
Qed.

End FlatEncodes.

(** ** The encoder: what [to_bytes] writes *)

Lemma fill_file_entries_length es : forall idx m off es',
  fill_file_entries es idx m off = Ok es' -> List.length es' = List.length es.
Proof.
  induction es as [|e t IH]; intros idx m off es' H; cbn [fill_file_entries] in H.
  - now inversion H.
  - destruct (negb (is_dir e)).
    + destruct (file_map_get m idx) as [f|]; [|discriminate].
      destruct (fill_file_entries t (idx + 1) m _) as [rest|] eqn:E;
        [|discriminate].
      inversion H; subst. cbn [List.length]. f_equal. eapply IH, E.
    + destruct (fill_file_entries t (idx + 1) m off) as [rest|] eqn:E;
        [|discriminate].
      inversion H; subst. cbn [List.length]. f_equal. eapply IH, E.
Qed.

(** The bytes [emit] writes for the layout of a tree: the header words,
    the records where the decoder reads them, and for every node, in the
    order of [traverse], its record against its name and its data. *)
Lemma encoder_records fs L bs :
  compute_layout fs = Ok L -> emit L = Ok bs ->
  firstn 4 bs = U8_FILE_MAGIC
  /\ word_at bs 4 = 32
  /\ word_at bs 12 = file_data_offset L
  /\ file_data_offset L mod 32 = 0
  /\ len (lay_entries L) = 1 + Z.of_nat (forest_size fs)
  /\ 32 + 12 * len (lay_entries L) <= len bs
  /\ (forall n e, nth_error (lay_entries L) n = Some e ->
                  entry_at bs (32 + 12 * Z.of_nat n) = e)
  /\ (exists e0, nth_error (lay_entries L) 0 = Some e0
                 /\ next_entry_or_len e0 = len (lay_entries L))
  /\ (forall n it,
        nth_error (flat fs) n = Some it ->
        exists e,
          nth_error (lay_entries L) (S n) = Some e
          /\ (clean_name (item_name it) = true ->
              name_at bs (32 + 12 * len (lay_entries L) + name_off e)
                (item_name it))
          /\ match it with
             | IFile _ f => is_dir e = false /\ file_laid bs e f
             | IDir _ sz =>
                 is_dir e = true
                 /\ next_entry_or_len e = 1 + Z.of_nat n + 1 + Z.of_nat sz
             end).
Proof.
  intros HL Hemit.
  unfold compute_layout in HL.
  destruct (build_fst_spec fs) as (ents & Hents & Hpre & Hnames & Hfm).
  destruct (build_string_table_spec (names (build_fst fs)) [] [])
    as (strtab & offs & Hbst & Hoffs).
  cbn [app] in Hbst, Hoffs.
  rewrite Hbst in HL.
  destruct (assign_name_offsets (fst_entries (build_fst fs)) 0 offs)
    as [es3|] eqn:Ha; [|discriminate].
  destruct (fill_file_entries es3 0 (file_map (build_fst fs)) _)
    as [es4|] eqn:Hf; [|discriminate].
  injection HL as HL.
  assert (HLe : lay_entries L = es4) by (rewrite <- HL; reflexivity).
  assert (HLs : lay_string_table L = strtab) by (rewrite <- HL; reflexivity).
  assert (HLm : lay_file_map L = file_map (build_fst fs))
    by (rewrite <- HL; reflexivity).
  assert (HLo : fst_offset L = 32) by (rewrite <- HL; reflexivity).
  assert (HLf : file_data_offset L
                = _align (32 + len es3 * 12 + len strtab) 32)
    by (rewrite <- HL; reflexivity).
  clear HL.
  unfold emit in Hemit. rewrite HLe, HLs, HLm in *.
  destruct (pack_header L) as [hdr|] eqn:Hh; [|discriminate].
  destruct (write_entries es4 hdr) as [buf1|] eqn:Hw; [|discriminate].
  cbv zeta in Hemit.
  apply pack_header_spec in Hh. rewrite HLo in Hh.
  destruct Hh as (Hhdr & Hhl & Hfr).
  destruct (write_entries_spec _ _ _ Hw) as (recs & -> & Hrl & Hrec).
  apply assign_name_offsets_spec in Ha. rewrite Hents in Ha.
  pose proof (Forall2i_length _ _ _ _ Ha) as Hl3.
  pose proof (Forall2i_length _ _ _ _ Hpre) as Hlp.
  rewrite flat_length in Hlp.
  remember ((hdr ++ recs) ++ strtab) as buf2 eqn:Hbuf2.
  assert (Hlb : len buf2 = 32 + len es3 * 12 + len strtab).
  { rewrite Hbuf2, !len_app, Hhl, Hrl. unfold len.
    rewrite (fill_file_entries_length _ _ _ _ _ Hf). lia. }
  remember (repeat x00 (Z.to_nat (_align (len buf2) 32 - len buf2))) as pad
    eqn:Hpad.
  destruct (files_laid es3 0 _ _ es4 _ bs Hf Hemit) as (more & Hbs & Hfl).
  { rewrite len_app, Hpad. unfold len at 2. rewrite repeat_length.
    pose proof (align_spec (len buf2) 32 ltac:(lia)) as Hal.
    rewrite Z2Nat.id by lia. rewrite <- Hlb. lia. }
  pose proof (Forall2i_length _ _ _ _ Hfl) as Hl4.
  assert (Hlen4 : len es4 = 1 + Z.of_nat (forest_size fs)).
  { unfold len. rewrite <- Hl4, <- Hl3, Hlp. cbn [List.length]. lia. }
  assert (Hbs' : forall post, bs ++ post
                   = (hdr ++ recs) ++ strtab ++ pad ++ more ++ post).
  { intros post. rewrite Hbs, Hbuf2. now rewrite <- !app_assoc. }
  split.
  { rewrite Hbs, Hbuf2. rewrite Hhdr, <- !app_assoc. reflexivity. }
  split.
  { eapply (word_at_split _ U8_FILE_MAGIC (be_bytes 4 32)).
    - rewrite Hbs, Hbuf2. rewrite Hhdr, <- !app_assoc. reflexivity.
    - reflexivity.
    - reflexivity. }
  split.
  { rewrite <- (be_value_be_bytes 4 (file_data_offset L))
      by (change (256 ^ Z.of_nat 4) with (2 ^ 32); exact Hfr).
    eapply (word_at_split _
              (U8_FILE_MAGIC ++ be_bytes 4 32
                 ++ be_bytes 4 (fst_size L + str_table_size L))
              (be_bytes 4 (file_data_offset L))).
    - rewrite Hbs, Hbuf2, Hhdr, <- !app_assoc. reflexivity.
    - apply be_bytes_length.
    - reflexivity. }
  assert (Hfa : file_data_offset L mod 32 = 0).
  { rewrite HLf. apply align_spec. lia. }
  split; [exact Hfa|].
  split; [exact Hlen4|].
  split.
  { rewrite Hbs, Hbuf2. rewrite !len_app, Hhl, Hrl.
    pose proof (len_nonneg strtab). pose proof (len_nonneg pad).
    pose proof (len_nonneg more). lia. }
  split.
  { intros n e Hn. rewrite <- (Hrec (strtab ++ pad ++ more) n e Hn).
    rewrite Hhl. f_equal. rewrite Hbs, Hbuf2.
    now rewrite <- !app_assoc. }
  split.
  { destruct (Forall2i_nth _ _ _ _ Ha 0%nat _ eq_refl)
      as (e3 & He3 & e0 & [= <-] & Hd3 & Hn3 & _).
    destruct (Forall2i_nth _ _ _ _ Hfl 0%nat _ He3)
      as (e4 & He4 & _ & Hd4 & Hx4).
    cbn [is_dir next_entry_or_len] in Hd3, Hn3. rewrite Hd3 in Hx4.
    exists e4. split; [exact He4|]. rewrite Hx4, Hn3, Hlen4. reflexivity. }
  intros n it Hn.
  destruct (Forall2i_nth _ _ _ _ Hpre n it Hn)
    as (oe & Hoe & e0 & -> & Hd0 & Hx0).
  destruct (Forall2i_nth _ _ _ _ Ha (S n) (Some e0) Hoe)
    as (e3 & He3 & e0' & [= <-] & Hd3 & Hn3 & Ho3).
  destruct (Forall2i_nth _ _ _ _ Hfl (S n) _ He3)
    as (e4 & He4 & Hno4 & Hd4 & Hx4).
  assert (Hnm : nth_error (names (build_fst fs)) (S n) = Some (item_name it)).
  { rewrite Hnames. cbn [nth_error]. now apply map_nth_error. }
  destruct (Forall2_nth _ _ _ Hoffs (S n) _ Hnm)
    as (o & Ho & pre & rest & Hst & ->).
  unfold list_index in Ho3.
  replace (0 + Z.of_nat (S n) <? 0) with false in Ho3
    by (symmetry; apply Z.ltb_ge; lia).
  replace (Z.to_nat (0 + Z.of_nat (S n))) with (S n) in Ho3 by lia.
  rewrite Ho in Ho3. injection Ho3 as Ho3.
  exists e4. split; [exact He4|].
  split.
  { intros Hck.
    apply (name_at_table bs ((hdr ++ recs) ++ pre) (item_name it)
             (rest ++ pad ++ more)); [| |exact Hck].
    - rewrite Hbs, Hbuf2, Hst, <- !app_assoc. reflexivity.
    - rewrite Hno4, <- Ho3, !len_app, Hhl, Hrl. lia. }
  destruct it as [k f|k sz]; cbn [item_is_dir] in Hd0.
  - rewrite Hd3, Hd0 in Hd4, Hx4. split; [exact Hd4|].
    destruct Hx4 as (f' & pre' & rest' & Hg & Hc & Hp & Hx & Hm).
    rewrite Hfm in Hg.
    rewrite (file_map_get_items (flat fs) 1 (0 + Z.of_nat (S n)) n k f Hn)
      in Hg by lia.
    injection Hg as <-.
    split; [rewrite Hp; apply Hm; rewrite <- HLf; exact Hfa|].
    split; [exact Hx|].
    exists pre', rest'. rewrite <- file_padding_spec. auto.
  - rewrite Hd3, Hd0 in Hd4, Hx4. split; [exact Hd4|].
    rewrite Hx4, Hn3, Hx0. reflexivity.
Qed.

(** ** The round trip *)

(** The decoder run on what the encoder wrote. *)
Lemma decode_encoded fs L bs nm :
  compute_layout fs = Ok L -> emit L = Ok bs ->
  clean_names (Dir fs) = true -> unique_names (Dir fs) = true ->
  exists a',
    decode nm bs = Ok a' /\ Forall2 top_rebuilt fs (files a').
Proof.
  intros HL Hemit Hclean Hu.
  destruct (encoder_records fs L bs HL Hemit)
    as (Hmagic & Hw4 & _ & _ & Hlen & Hfit & Hrec & (e0 & He0 & Hn0) & Hitems).
  pose proof (clean_flat fs Hclean) as Hcf. rewrite Forall_forall in Hcf.
  set (es := lay_entries L) in *.
  set (s := BytesIO bs nm).
  assert (Hts : table_start s = 32).
  { unfold table_start, s. cbn [pos content BytesIO].
    change (0 + 4) with 4. rewrite Hw4. reflexivity. }
  assert (Hrc : record_count s = len es).
  { unfold record_count. rewrite Hts. cbn [content s BytesIO].
    rewrite <- Hn0, <- (Hrec 0%nat e0 He0). reflexivity. }
  assert (Hte : table_end s = 32 + 12 * len es).
  { unfold table_end. rewrite Hts, Hrc. lia. }
  assert (Htab : table_entries s = es).
  { unfold table_entries. rewrite Hts, Hrc. cbn [content s BytesIO].
    replace (Z.to_nat (Z.max 1 (len es))) with (List.length es)
      by (unfold len in *; lia).
    apply entries_at_ext. exact Hrec. }
  assert (Htbl : load_table s
                 = Ok (es, 32 + 12 * len es, set_pos s (32 + 12 * len es))).
  { assert (H : load_table s
                 = Ok (table_entries s, table_end s, set_pos s (table_end s))).
    { apply load_table_complete.
      - reflexivity.
      - cbn. lia.
      - exact Hmagic.
      - cbn [pos content s BytesIO]. lia.
      - lia.
      - rewrite Hte. exact Hfit. }
    rewrite Htab, Hte in H. exact H. }
  assert (Henc : encodes bs (32 + 12 * len es) es 1 fs).
  { apply (encodes_of_flat bs (32 + 12 * len es) es (Dir fs)).
    intros i it Hi. destruct (Hitems i it Hi) as (e & He & Hnm & Hr).
    exists e. split.
    { unfold list_index.
      replace (1 + Z.of_nat i <? 0) with false
        by (symmetry; apply Z.ltb_ge; lia).
      replace (Z.to_nat (1 + Z.of_nat i)) with (S i) by lia.
      now rewrite He. }
    split; [apply Hnm, Hcf, (nth_error_In _ _ Hi)|].
    destruct it as [k f|k sz]; [|exact Hr].
    destruct Hr as (Hd & Ha & Hx & pre & rest & Hc & Hp).
    split; [exact Hd|]. rewrite Hx, <- Hp.
    split; [apply len_nonneg|]. split; [apply len_nonneg|].
    rewrite Hc, skipn_len_app. apply firstn_len_app.
    unfold len. now rewrite Nat2Z.id. }
  destruct (load_tree_ok bs (32 + 12 * len es) es fs e0
              (set_pos s (32 + 12 * len es)))
    as (fs' & s' & Htree & Hall);
    [unfold list_index; change (0 <? 0) with false;
     change (Z.to_nat 0) with 0%nat; cbv iota; now rewrite He0|lia|exact Henc|exact Hu
    |split; reflexivity|].
  unfold decode, _load_from_bin, load_files, bind. fold s.
  rewrite Htbl, Htree. unfold ret.
  eexists. split; [reflexivity|exact Hall].
Qed.

(** C1, as amended.  For every tree whose sibling names are unique and
    whose names are ASCII without NUL, when [to_bytes] returns a byte
    string, decoding it succeeds and yields a tree with the same names in
    the same order and nesting; every directory under the root comes back
    with all it holds, the bytes of its files included, each [ArcFile]
    named after its key; a file directly under the root comes back as a
    file under its name. *)
Theorem C1_roundtrip (a : Arc) (nm : string) (bs : bytes) :
  unique_names (Dir (files a)) = true ->
  clean_names (Dir (files a)) = true ->
  to_bytes a = Ok bs ->
  exists a',
    decode nm bs = Ok a' /\ Forall2 top_rebuilt (files a) (files a').
Proof.
  intros Hu Hc Hb. unfold to_bytes in Hb.
  destruct (compute_layout (files a)) as [L|] eqn:HL; [|discriminate].
  now apply (decode_encoded (files a) L bs nm).
Qed.

Lemma C1_roundtrip_witness :
  exists a',
    decode "course.arc" scenario_bytes = Ok a'
    /\ Forall2 top_rebuilt (files scenario_arc) (files a').
Proof.
  apply (C1_roundtrip scenario_arc "course.arc" scenario_bytes).
  - reflexivity.
  - reflexivity.
  - vm_compute. reflexivity.
Defined.

(** The claim as stated fails: a file whose name is not ASCII, in a
    directory, comes back under the name ["?"]. *)
Lemma C1_name_not_ascii :
  unique_names (Dir (files latin_arc)) = true
  /\ exists bs a',
       to_bytes latin_arc = Ok bs
       /\ decode "course.arc" bs = Ok a'
       /\ files latin_arc
          = [("d"%string, Dir [(latin_name, File (mkArcFile latin_name [x01]))])]
       /\ files a'
          = [("d"%string, Dir [("?"%string, File (mkArcFile "?" [x01]))])]
       /\ dict_keys (files a') = dict_keys (files latin_arc)
       /\ files a' <> canon (files latin_arc).
Proof.
  split; [reflexivity|].
  eexists. eexists. split; [vm_compute; reflexivity|].
  split; [vm_compute; reflexivity|].
  split; [reflexivity|]. split; [reflexivity|]. split; [reflexivity|].
  vm_compute. discriminate.
Qed.

(** The file of [root_file_arc], one byte [01] directly under the root,
    comes back with the byte that follows its name in the stream: the
    top-level branch of the decoder reads without seeking to the offset of
    the record. *)
Lemma root_file_contents_lost :
  files root_file_arc = [("x"%string, File (mkArcFile "x" [x01]))]
  /\ exists bs a',
       to_bytes root_file_arc = Ok bs
       /\ decode "course.arc" bs = Ok a'
       /\ files a' = [("x"%string, File (mkArcFile "x" [x00]))].
Proof.
  split; [reflexivity|].
  eexists. eexists. split; [vm_compute; reflexivity|].
  split; [vm_compute; reflexivity|]. reflexivity.
Qed.

(** ** Alignment *)

(** The items of a tree hold each of its files once. *)
Lemma flat_files n : forall k,
  List.length (filter (fun it => negb (item_is_dir it)) (flat_node k n))
  = count_files n.
Proof.
  induction n as [f|d IH] using node_induction; intros k; [reflexivity|].
  rewrite flat_node_dir. cbn [filter item_is_dir negb count_files].
  induction d as [|[k' c] t IHt]; [reflexivity|].
  inversion IH as [|? ? Hc Ht]; subst. cbn [snd] in Hc.
  rewrite flat_cons, filter_app, length_app, Hc, (IHt Ht). reflexivity.
Qed.

(* ------------------------------------------------------------------ *)
(** * Further properties of the library

    ** Lookups after mutations *)

Lemma files_update a : files (_update a) = files a.
Proof. unfold _update. destruct (0 <? _mod_count a); reflexivity. Qed.

Lemma getitem_list l a :
  fst (__getitem__ (ItemList l) a) = walk l (Dir (files a)).
Proof. unfold __getitem__. cbn. now rewrite files_update. Qed.

Lemma walk_app p : forall q n,
  walk (p ++ q) n
  = match walk p n with Ok m => walk q m | Raise e => Raise e end.
Proof.
  induction p as [|k p IH]; intros q n; [reflexivity|].
  cbn [app walk]. destruct n as [f|d]; [reflexivity|].
  destruct (dict_get d k); [apply IH|reflexivity].
Qed.

Lemma walk_unique p : forall n m,
  unique_names n = true -> walk p n = Ok m -> unique_names m = true.
Proof.
  induction p as [|k p IH]; intros n m Hu H; cbn [walk] in H.
  - now inversion H; subst.
  - destruct n as [f|d]; [discriminate|].
    destruct (dict_get d k) as [v|] eqn:Hg; [|discriminate].
    apply (IH v m); [|exact H].
    apply unique_names_dir in Hu. destruct Hu as [_ Hc].
    apply (Hc k). now apply dict_get_in.
Qed.

Lemma dict_get_del_same {V} (d : dict V) k :
  NoDup (dict_keys d) -> dict_get (dict_del d k) k = None.
Proof.
  induction d as [|[k0 v0] t IH]; intros Hn; [reflexivity|].
  cbn [dict_del]. inversion Hn as [|? ? Hnot Ht]; subst.
  destruct (String.eqb_spec k k0) as [->|Hk].
  - destruct (dict_get t k0) eqn:E; [|reflexivity].
    exfalso. apply Hnot. apply dict_get_in in E.
    change k0 with (fst (k0, v)). now apply in_map.
  - cbn [dict_get]. destruct (String.eqb_spec k k0); [contradiction|].
    now apply IH.
Qed.

Section Reach.
Context {A : Type} (K : dict node -> result A * dict node).

(** A successful [_get_or_create_directory] ran its caller on the
    directory found at [path], or on a new empty one, and left the result
    at [path]. *)
Lemma get_or_create_reaches path : forall cur r fs,
  _get_or_create_directory path K cur = (Ok r, fs) ->
  exists d d',
    K d = (Ok r, d') /\ walk path (Dir fs) = Ok (Dir d')
    /\ (walk path (Dir cur) = Ok (Dir d)
        \/ (d = [] /\ walk path (Dir cur) = Raise KeyError)).
Proof.
  induction path as [|seg rest IH]; intros cur r fs H;
    cbn [_get_or_create_directory] in H.
  - exists cur, fs. cbn [walk]. auto.
  - destruct (dict_get cur seg) as [[f|d0]|] eqn:Hg.
    + discriminate.
    + destruct (_get_or_create_directory rest K d0) as [r0 sub] eqn:Hd.
      injection H as -> <-.
      destruct (IH _ _ _ Hd) as (d & d' & HK & Hw & Hold).
      exists d, d'. split; [exact HK|]. cbn [walk].
      rewrite dict_get_set_same, Hg. auto.
    + destruct (_get_or_create_directory rest K []) as [r0 sub] eqn:Hd.
      injection H as -> <-.
      destruct (IH _ _ _ Hd) as (d & d' & HK & Hw & Hold).
      exists d, d'. split; [exact HK|]. cbn [walk].
      rewrite dict_get_set_same, Hg. split; [exact Hw|]. right.
      split; [|reflexivity].
      destruct Hold as [Hold|[Hold _]]; [|exact Hold].
      destruct rest; cbn [walk] in Hold; [now inversion Hold|discriminate].
Qed.

(** A successful descent ran its caller on the directory found at
    [parents] and left the result there. *)
Lemma descend_reaches parents : forall cur r fs,
  descend parents K cur = (Ok r, fs) ->
  exists d d',
    K d = (Ok r, d') /\ walk parents (Dir cur) = Ok (Dir d)
    /\ walk parents (Dir fs) = Ok (Dir d').
Proof.
  induction parents as [|key rest IH]; intros cur r fs H; cbn [descend] in H.
  - exists cur, fs. cbn [walk]. auto.
  - destruct (dict_get cur key) as [[f|d0]|] eqn:Hg; try discriminate.
    destruct (descend rest K d0) as [r0 sub] eqn:Hd.
    injection H as -> <-.
    destruct (IH _ _ _ Hd) as (d & d' & HK & Hw & Hw').
    exists d, d'. split; [exact HK|]. cbn [walk].
    rewrite dict_get_set_same, Hg. auto.
Qed.

Hypothesis K_keeps : forall d r d' q f,
  K d = (r, d') ->
  walk q (Dir d) = Ok (File f) -> walk q (Dir d') = Ok (File f).

Lemma get_or_create_keeps path : forall cur r fs,
  _get_or_create_directory path K cur = (r, fs) ->
  forall q f, walk q (Dir cur) = Ok (File f) -> walk q (Dir fs) = Ok (File f).
Proof.
  induction path as [|seg rest IH]; intros cur r fs H q f Hq;
    cbn [_get_or_create_directory] in H.
  - eapply K_keeps; eauto.
  - destruct q as [|k0 q]; [discriminate|]. cbn [walk] in Hq |- *.
    destruct (dict_get cur seg) as [[f0|d0]|] eqn:Hg.
    + injection H as _ <-. exact Hq.
    + destruct (_get_or_create_directory rest K d0) as [r0 sub] eqn:Hd.
      injection H as _ <-.
      destruct (String.eqb_spec k0 seg) as [->|Hne].
      * rewrite dict_get_set_same. rewrite Hg in Hq.
        eapply IH; eauto.
      * rewrite dict_get_set_other by assumption. exact Hq.
    + destruct (_get_or_create_directory rest K []) as [r0 sub] eqn:Hd.
      injection H as _ <-.
      destruct (String.eqb_spec k0 seg) as [->|Hne].
      * rewrite Hg in Hq. discriminate.
      * rewrite !dict_get_set_other by assumption. exact Hq.
Qed.

End Reach.

Lemma insert_at_keeps fn el d r d' q f :
  insert_at fn el d = (r, d') ->
  walk q (Dir d) = Ok (File f) -> walk q (Dir d') = Ok (File f).
Proof.
  unfold insert_at, dict_mem. intros H Hq.
  destruct (dict_get d fn) as [v|] eqn:Hg; injection H as _ <-; [exact Hq|].
  destruct q as [|k0 q]; [discriminate|]. cbn [walk] in Hq |- *.
  destruct (String.eqb_spec k0 fn) as [->|Hne].
  - rewrite Hg in Hq. discriminate.
  - rewrite dict_get_set_other by assumption. exact Hq.
Qed.

Lemma append_internal_ok fn file path a a' :
  _append_internal fn file path a = (Ok tt, a') ->
  walk (segments path ++ [fn]) (Dir (files a')) = Ok (File file).
Proof.
  unfold _append_internal. intros H.
  destruct (_get_or_create_directory (segments path) (insert_at fn (File file))
              (files a)) as [[[]|e] fs] eqn:Hg; [|discriminate].
  injection H as <-. cbn [bump set_files files].
  destruct (get_or_create_reaches _ _ _ _ _ Hg) as (d & d' & HK & Hw & _).
  rewrite walk_app, Hw. unfold insert_at in HK.
  destruct (dict_mem d fn); [discriminate|]. injection HK as <-.
  cbn [walk]. now rewrite dict_get_set_same.
Qed.

Lemma append_file_walk disk filename file path a a' :
  append_file disk filename file path a = (Ok tt, a') ->
  exists bs,
    (file = RawData bs \/ exists p, file = FromPath p /\ disk p = Some bs)
    /\ walk (segments path ++ [filename]) (Dir (files a'))
       = Ok (File (mkArcFile filename bs)).
Proof.
  unfold append_file. intros H.
  destruct file as [bs|p].
  - exists bs. split; [now left|]. now apply append_internal_ok in H.
  - destruct (disk p) as [bs|] eqn:Hd; [|discriminate].
    exists bs. split; [right; eauto|]. now apply append_internal_ok in H.
Qed.

Lemma append_file_keeps disk fn file path a r a' q f :
  append_file disk fn file path a = (r, a') ->
  walk q (Dir (files a)) = Ok (File f) ->
  walk q (Dir (files a')) = Ok (File f).
Proof.
  intros H Hq.
  assert (Hint : forall fl r0,
            _append_internal fn fl path a = (r0, a') ->
            walk q (Dir (files a')) = Ok (File f)).
  { intros fl r0 Ha. unfold _append_internal in Ha.
    destruct (_get_or_create_directory (segments path)
                (insert_at fn (File fl)) (files a)) as [r1 fs] eqn:Hg.
    assert (Hfs : files a' = fs)
      by (destruct r1; injection Ha as _ <-; reflexivity).
    rewrite Hfs.
    eapply (get_or_create_keeps (insert_at fn (File fl))); eauto.
    intros d r2 d' q0 f0. apply insert_at_keeps. }
  unfold append_file in H. destruct file as [bs|p]; [eapply Hint; eauto|].
  destruct (disk p); [eapply Hint; eauto|].
  injection H as _ <-. exact Hq.
Qed.

Lemma mkdir_keeps path a r a' q f :
  mkdir path a = (r, a') ->
  walk q (Dir (files a)) = Ok (File f) ->
  walk q (Dir (files a')) = Ok (File f).
Proof.
  intros H Hq. unfold mkdir in H.
  destruct (_get_or_create_directory (segments path)
              (fun d => (Ok tt, d)) (files a)) as [r0 fs] eqn:Hg.
  assert (Hfs : files a' = fs)
    by (destruct r0; injection H as _ <-; reflexivity).
  rewrite Hfs.
  eapply (get_or_create_keeps (fun d : dict node => (Ok tt, d))); eauto.
  intros d r1 d' q0 f0 [= _ <-]. auto.
Qed.

(** After a successful [append_file] the file is found under the directory
    path followed by its name: an [ArcFile] named [filename], holding the
    bytes given or read from disk. *)
Theorem getitem_after_append disk filename file path a a' :
  append_file disk filename file path a = (Ok tt, a') ->
  exists bs,
    (file = RawData bs \/ exists p, file = FromPath p /\ disk p = Some bs)
    /\ fst (__getitem__ (ItemList (segments path ++ [filename])) a')
       = Ok (File (mkArcFile filename bs)).
Proof.
  intros H. rewrite getitem_list. exact (append_file_walk _ _ _ _ _ _ H).
Qed.

Lemma getitem_after_append_witness :
  exists bs,
    (RawData [x01; x02] = RawData bs
     \/ exists p, RawData [x01; x02] = FromPath p /\ no_disk p = Some bs)
    /\ fst (__getitem__
              (ItemList (segments (PathStr "point") ++ ["point_001.bin"%string]))
              scenario_arc)
       = Ok (File (mkArcFile "point_001.bin" bs)).
Proof.
  apply (getitem_after_append no_disk "point_001.bin" (RawData [x01; x02])
           (PathStr "point") Arc_new scenario_arc).
  reflexivity.
Defined.

(** [append_file] and [mkdir], whether they return or raise, leave every
    file that could be looked up where it was, with the same content. *)
Theorem append_mkdir_keep_files a a' q f :
  (exists disk filename file path r,
      append_file disk filename file path a = (r, a'))
  \/ (exists path r, mkdir path a = (r, a')) ->
  fst (__getitem__ (ItemList q) a) = Ok (File f) ->
  fst (__getitem__ (ItemList q) a') = Ok (File f).
Proof.
  rewrite !getitem_list.
  intros [(disk & fn & file & path & r & H)|(path & r & H)] Hq.
  - eapply append_file_keeps; eauto.
  - eapply mkdir_keeps; eauto.
Qed.

Lemma append_mkdir_keep_files_witness :
  fst (__getitem__ (ItemList ["x"%string]) two_files_arc)
  = Ok (File (mkArcFile "x" [x01])).
Proof.
  apply (append_mkdir_keep_files root_file_arc two_files_arc).
  - left. exists no_disk, "y"%string, (RawData [x02]), PathNone, (Ok tt).
    reflexivity.
  - reflexivity.
Defined.

(** After a successful [mkdir] the path resolves to a directory; and when
    the path already resolved to a directory the tree is left as it was. *)
Theorem mkdir_then_lookup path a a' :
  mkdir path a = (Ok tt, a') ->
  (exists d, fst (__getitem__ (ItemList (segments path)) a') = Ok (Dir d))
  /\ (forall d, fst (__getitem__ (ItemList (segments path)) a) = Ok (Dir d) ->
                files a' = files a)
  /\ _mod_count a' = _mod_count a + 1.
Proof.
  unfold mkdir. intros H. rewrite !getitem_list.
  destruct (_get_or_create_directory (segments path) (fun d => (Ok tt, d))
              (files a)) as [[[]|e] fs] eqn:Hg; [|discriminate].
  injection H as <-. cbn [bump set_files files _mod_count].
  split; [|split; [|reflexivity]].
  - destruct (get_or_create_reaches _ _ _ _ _ Hg) as (d & d' & HK & Hw & _).
    eauto.
  - intros d. revert Hg. generalize (files a) as cur. revert fs d.
    induction (segments path) as [|seg rest IH]; intros fs d cur Hg Hw;
      cbn [_get_or_create_directory] in Hg.
    + now injection Hg as <-.
    + cbn [walk] in Hw.
      destruct (dict_get cur seg) as [[f|d0]|] eqn:Hd; try discriminate.
      destruct (_get_or_create_directory rest (fun d => (Ok tt, d)) d0)
        as [r0 sub] eqn:Hs.
      injection Hg as -> <-.
      rewrite (IH sub d d0 Hs Hw). now apply dict_set_get_id.
Qed.

Lemma mkdir_then_lookup_witness :
  (exists d, fst (__getitem__ (ItemList (segments (PathStr "point")))
                    (snd (mkdir (PathStr "point") scenario_arc))) = Ok (Dir d))
  /\ (forall d, fst (__getitem__ (ItemList (segments (PathStr "point")))
                       scenario_arc) = Ok (Dir d) ->
                files (snd (mkdir (PathStr "point") scenario_arc))
                = files scenario_arc)
  /\ _mod_count (snd (mkdir (PathStr "point") scenario_arc))
     = _mod_count scenario_arc + 1.
Proof.
  apply (mkdir_then_lookup (PathStr "point") scenario_arc).
  reflexivity.
Defined.

(** ** Lookups after [delete], [move] and [rename] *)

Lemma contains_list l a :
  fst (__contains__ (ItemList l) a)
  = match walk l (Dir (files a)) with
    | Ok _ => Ok true
    | Raise KeyError => Ok false
    | Raise e => Raise e
    end.
Proof.
  unfold __contains__, __getitem__. cbn. rewrite files_update.
  destruct (walk l (Dir (files a))) as [n|[]]; reflexivity.
Qed.

Lemma split_last (p : list string) :
  p <> [] -> p = removelast p ++ [last p EmptyString].
Proof. intros H. now apply app_removelast_last. Qed.

Lemma delete_removes path a a' :
  unique_names (Dir (files a)) = true ->
  delete path a = (Ok tt, a') ->
  (exists n, walk (segments path) (Dir (files a)) = Ok n)
  /\ walk (segments path) (Dir (files a')) = Raise KeyError.
Proof.
  unfold delete. intros Hu H.
  destruct (segments path) as [|s0 p0] eqn:Hp; [discriminate|].
  rewrite <- Hp in *.
  assert (Hne : segments path <> []) by (rewrite Hp; discriminate).
  clear Hp s0 p0.
  destruct (descend (removelast (segments path))
              (delete_at (last (segments path) EmptyString)) (files a))
    as [[[]|e] fs] eqn:Hd.
  2:{ destruct (segments path); [contradiction|discriminate]. }
  assert (Ha' : files a' = fs).
  { destruct (segments path); [contradiction|]. now injection H as <-. }
  rewrite Ha'. clear H Ha'.
  destruct (descend_reaches _ _ _ _ _ Hd) as (d & d' & HK & Hw & Hw').
  unfold delete_at, dict_mem in HK.
  destruct (dict_get d (last (segments path) EmptyString)) as [v|] eqn:Hg;
    [|discriminate].
  injection HK as <-.
  rewrite (split_last _ Hne), !walk_app, Hw, Hw'. cbn [walk]. rewrite Hg.
  split; [eauto|].
  rewrite dict_get_del_same; [auto|].
  pose proof (walk_unique _ _ _ Hu Hw) as Hud.
  now apply unique_names_dir in Hud.
Qed.

(** After a successful [delete] the path is no longer in the archive. *)
Theorem contains_after_delete path a a' :
  unique_names (Dir (files a)) = true ->
  delete path a = (Ok tt, a') ->
  fst (__contains__ (ItemList (segments path)) a') = Ok false
  /\ fst (__contains__ (ItemList (segments path)) a) = Ok true.
Proof.
  intros Hu H. rewrite !contains_list.
  destruct (delete_removes path a a' Hu H) as [[n ->] ->]. auto.
Qed.

Lemma contains_after_delete_witness :
  fst (__contains__ (ItemList (segments (PathStr "point/point_001.bin")))
         (snd (delete (PathStr "point/point_001.bin") scenario_arc)))
  = Ok false
  /\ fst (__contains__ (ItemList (segments (PathStr "point/point_001.bin")))
            scenario_arc) = Ok true.
Proof.
  apply (contains_after_delete (PathStr "point/point_001.bin") scenario_arc).
  - reflexivity.
  - reflexivity.
Defined.

(** Asking for a path that goes on below a file raises [TypeError], from
    [__getitem__] and from [__contains__] alike: [__contains__] catches
    [KeyError] only. *)
Theorem lookup_below_file p k rest f a :
  fst (__getitem__ (ItemList p) a) = Ok (File f) ->
  fst (__getitem__ (ItemList (p ++ k :: rest)) a) = Raise TypeError
  /\ fst (__contains__ (ItemList (p ++ k :: rest)) a) = Raise TypeError.
Proof.
  rewrite !getitem_list, contains_list, walk_app. intros ->. auto.
Qed.

Lemma lookup_below_file_witness :
  fst (__getitem__ (ItemList (["x"%string] ++ "y"%string :: [])) root_file_arc)
  = Raise TypeError
  /\ fst (__contains__ (ItemList (["x"%string] ++ "y"%string :: []))
            root_file_arc) = Raise TypeError.
Proof.
  apply (lookup_below_file ["x"%string] "y"%string [] (mkArcFile "x" [x01])).
  reflexivity.
Defined.

(** A path that leaves a directory through a key the directory does not
    hold gives [KeyError] from [__getitem__] and [False] from
    [__contains__], whatever follows the key in the path. *)
Theorem lookup_missing_key p k rest d a :
  fst (__getitem__ (ItemList p) a) = Ok (Dir d) ->
  dict_get d k = None ->
  fst (__getitem__ (ItemList (p ++ k :: rest)) a) = Raise KeyError
  /\ fst (__contains__ (ItemList (p ++ k :: rest)) a) = Ok false.
Proof.
  rewrite !getitem_list, contains_list, walk_app. intros -> Hg.
  cbn [walk]. rewrite Hg. auto.
Qed.

Lemma lookup_missing_key_witness :
  fst (__getitem__ (ItemList ([] ++ "z"%string :: ["w"%string])) root_file_arc)
  = Raise KeyError
  /\ fst (__contains__ (ItemList ([] ++ "z"%string :: ["w"%string]))
            root_file_arc) = Ok false.
Proof.
  apply (lookup_missing_key [] "z"%string ["w"%string] (files root_file_arc)).
  - reflexivity.
  - reflexivity.
Defined.

(** After a successful [move] the destination path resolves to the node
    the source path resolved to before. *)
Theorem getitem_after_move src dest a a' :
  move src dest a = (Ok tt, a') ->
  exists element,
    fst (__getitem__ (ItemList (segments src)) a) = Ok element
    /\ fst (__getitem__ (ItemList (segments dest)) a') = Ok element
    /\ _mod_count a' = _mod_count a + 2.
Proof.
  unfold move. intros H. rewrite !getitem_list.
  destruct (segments src) as [|s0 sp] eqn:Hs; [discriminate|].
  destruct (segments dest) as [|d0 dp] eqn:Hd; [discriminate|].
  rewrite <- Hs, <- Hd in *.
  assert (Hsn : segments src <> []) by (rewrite Hs; discriminate).
  assert (Hdn : segments dest <> []) by (rewrite Hd; discriminate).
  clear Hs Hd s0 sp d0 dp.
  destruct (descend (removelast (segments src))
              (pop_source (last (segments src) EmptyString)) (files a))
    as [[element|e] fs] eqn:Hpop; [|discriminate].
  cbn [bump set_files files _mod_count] in H.
  destruct (_get_or_create_directory (removelast (segments dest))
              (insert_at (last (segments dest) EmptyString) element) fs)
    as [[[]|e] fs'] eqn:Hins; [|discriminate].
  injection H as <-. cbn [bump set_files files _mod_count].
  exists element.
  destruct (descend_reaches _ _ _ _ _ Hpop) as (d & d' & HK & Hw & _).
  destruct (get_or_create_reaches _ _ _ _ _ Hins) as (t & t' & HK' & Hw' & _).
  split; [|split; [|lia]].
  - rewrite (split_last _ Hsn), walk_app, Hw. unfold pop_source in HK.
    destruct (dict_get d (last (segments src) EmptyString)) as [v|] eqn:Hg;
      [|discriminate].
    injection HK as -> _. cbn [walk]. now rewrite Hg.
  - rewrite (split_last _ Hdn), walk_app, Hw'. unfold insert_at in HK'.
    destruct (dict_mem t (last (segments dest) EmptyString)); [discriminate|].
    injection HK' as <-. cbn [walk]. now rewrite dict_get_set_same.
Qed.

Lemma getitem_after_move_witness :
  exists element,
    fst (__getitem__ (ItemList (segments (PathStr "point/point_001.bin")))
           scenario_arc) = Ok element
    /\ fst (__getitem__ (ItemList (segments (PathStr "a/b")))
              (snd (move (PathStr "point/point_001.bin") (PathStr "a/b")
                      scenario_arc))) = Ok element
    /\ _mod_count (snd (move (PathStr "point/point_001.bin") (PathStr "a/b")
                          scenario_arc))
       = _mod_count scenario_arc + 2.
Proof.
  apply (getitem_after_move (PathStr "point/point_001.bin") (PathStr "a/b")
           scenario_arc).
  reflexivity.
Defined.

Lemma dict_get_renamed (d : dict node) old_key new_key v :
  dict_get d old_key = Some v -> dict_mem d new_key = false ->
  dict_get (map (rename_key old_key new_key) d) new_key = Some v
  /\ (NoDup (dict_keys d) ->
      dict_get (map (rename_key old_key new_key) d) old_key = None).
Proof.
  unfold dict_mem. induction d as [|[k0 v0] t IH]; intros Hg Hm; [discriminate|].
  cbn [map dict_get] in *. unfold rename_key at 1 3. cbn [fst snd].
  destruct (String.eqb_spec new_key k0) as [->|Hnk].
  { now destruct (dict_get ((k0, v0) :: t) k0). }
  destruct (String.eqb_spec old_key k0) as [->|Hok].
  - injection Hg as ->. rewrite String.eqb_refl. cbn [dict_get].
    rewrite String.eqb_refl. split; [reflexivity|].
    intros Hn. destruct (String.eqb_spec k0 new_key); [congruence|].
    inversion Hn as [|? ? Hnot _]; subst.
    assert (Hfix : forall l : dict node,
              ~ In k0 (dict_keys l) ->
              dict_get (map (rename_key k0 new_key) l) k0 = None).
    { clear - n. induction l as [|[k1 v1] l IHl]; intros Hl; [reflexivity|].
      cbn [map dict_get]. unfold rename_key at 1. cbn [fst snd].
      destruct (String.eqb_spec k1 k0) as [->|H1].
      - exfalso. apply Hl. now left.
      - cbn [dict_get]. destruct (String.eqb_spec k0 k1); [congruence|].
        apply IHl. intros Hin. apply Hl. now right. }
    now apply Hfix.
  - destruct (String.eqb_spec k0 old_key); [congruence|].
    cbn [dict_get].
    destruct (String.eqb_spec new_key k0); [contradiction|].
    destruct (String.eqb_spec old_key k0); [contradiction|].
    destruct (IH Hg Hm) as [H1 H2]. split; [exact H1|].
    intros Hn. apply H2. now inversion Hn.
Qed.

(** After a successful [rename] the node is found under the new name and
    the old name is gone. *)
Theorem getitem_after_rename path new_name a a' :
  unique_names (Dir (files a)) = true ->
  rename path new_name a = (Ok tt, a') ->
  exists element,
    fst (__getitem__ (ItemList (segments path)) a) = Ok element
    /\ fst (__getitem__
              (ItemList (removelast (segments path) ++ [new_name])) a')
       = Ok element
    /\ fst (__contains__ (ItemList (segments path)) a') = Ok false.
Proof.
  unfold rename. intros Hu H. rewrite !getitem_list, contains_list.
  destruct (segments path) as [|s0 p0] eqn:Hp; [discriminate|].
  rewrite <- Hp in *.
  assert (Hne : segments path <> []) by (rewrite Hp; discriminate).
  clear Hp s0 p0.
  destruct (descend (removelast (segments path))
              (rename_at (last (segments path) EmptyString) new_name)
              (files a)) as [[[]|e] fs] eqn:Hd.
  2:{ destruct (segments path); [contradiction|discriminate]. }
  assert (Ha' : files a' = fs).
  { destruct (segments path); [contradiction|]. now injection H as <-. }
  rewrite Ha'. clear H Ha'.
  destruct (descend_reaches _ _ _ _ _ Hd) as (d & d' & HK & Hw & Hw').
  pose proof (walk_unique _ _ _ Hu Hw) as Hud.
  apply unique_names_dir in Hud. destruct Hud as [Hnd _].
  unfold rename_at in HK.
  destruct (negb (dict_mem d (last (segments path) EmptyString)));
    [discriminate|].
  destruct (rename_in_place_ok _ _ _ _ Hnd HK) as (-> & Hmo & Hmn).
  unfold dict_mem in Hmo.
  destruct (dict_get d (last (segments path) EmptyString)) as [v|] eqn:Hg;
    [|discriminate].
  destruct (dict_get_renamed d _ new_name v Hg Hmn) as [Hnew Hold].
  exists v. rewrite (split_last _ Hne) at 1 3.
  rewrite !walk_app, Hw, Hw'. cbn [walk].
  rewrite Hg, Hnew, (Hold Hnd). auto.
Qed.

Lemma getitem_after_rename_witness :
  exists element,
    fst (__getitem__ (ItemList (segments (PathStr "point/point_001.bin")))
           scenario_arc) = Ok element
    /\ fst (__getitem__
              (ItemList (removelast (segments (PathStr "point/point_001.bin"))
                           ++ ["q"%string]))
              (snd (rename (PathStr "point/point_001.bin") "q" scenario_arc)))
       = Ok element
    /\ fst (__contains__ (ItemList (segments (PathStr "point/point_001.bin")))
              (snd (rename (PathStr "point/point_001.bin") "q" scenario_arc)))
       = Ok false.
Proof.
  apply (getitem_after_rename (PathStr "point/point_001.bin") "q" scenario_arc).
  - reflexivity.
  - reflexivity.
Defined.

(** ** [_align] and the 12-byte record *)

(** For a positive boundary [_align] returns the least multiple of the
    boundary that is not below [x]. *)
Theorem align_least_multiple x boundary :
  0 < boundary ->
  (_align x boundary) mod boundary = 0
  /\ x <= _align x boundary < x + boundary
  /\ (forall m, x <= m -> m mod boundary = 0 -> _align x boundary <= m).
Proof.
  intros Hb. destruct (align_spec x boundary Hb) as [Hr Hm].
  split; [exact Hm|]. split; [exact Hr|].
  intros m Hxm Hmm.
  apply Z.mod_divide in Hm; [|lia]. apply Z.mod_divide in Hmm; [|lia].
  destruct Hm as [q Hq]. destruct Hmm as [q' Hq'].
  rewrite Hq in *. rewrite Hq' in *.
  destruct (Z_lt_le_dec q' q) as [Hlt|Hle]; [|nia].
  exfalso. assert (q' + 1 <= q) by lia. nia.
Qed.

Lemma align_least_multiple_witness :
  (_align 45 32) mod 32 = 0
  /\ 45 <= _align 45 32 < 45 + 32
  /\ (forall m, 45 <= m -> m mod 32 = 0 -> _align 45 32 <= m).
Proof. apply (align_least_multiple 45 32). lia. Defined.

(** What [to_binary] returns is read back by [load_from_bin] as the same
    record, wherever the 12 bytes sit in the stream. *)
Theorem entry_roundtrip e bin pre post nm :
  to_binary e = Ok bin ->
  load_from_bin (mkStream (pre ++ bin ++ post) (len pre) nm None)
  = Ok (e, mkStream (pre ++ bin ++ post) (len pre + 12) nm None).
Proof.
  intros H. destruct (to_binary_entry_at e bin H) as [Hl Hat].
  rewrite load_from_bin_at.
  - cbn [content pos]. rewrite Hat. reflexivity.
  - reflexivity.
  - cbn. apply len_nonneg.
  - cbn [content pos]. rewrite !len_app, Hl.
    pose proof (len_nonneg post). lia.
Qed.

Lemma entry_roundtrip_witness :
  load_from_bin
    (mkStream ([x07] ++ [x01; x00; x00; x05; x00; x00; x00; x00;
                         x00; x00; x00; x03] ++ [])
       (len [x07]) "f" None)
  = Ok (mkEntry true 5 0 3,
        mkStream ([x07] ++ [x01; x00; x00; x05; x00; x00; x00; x00;
                            x00; x00; x00; x03] ++ [])
          (len [x07] + 12) "f" None).
Proof.
  apply (entry_roundtrip (mkEntry true 5 0 3)). reflexivity.
Defined.

Lemma to_binary_cases e :
  let ok24 := (0 <=? name_off e) && (name_off e <? 2 ^ 24) in
  let ok32 v := (0 <=? v) && (v <? 2 ^ 32) in
  match to_binary e with
  | Ok bin =>
      len bin = 12 /\ ok24 = true /\ ok32 (parent_or_file_off e) = true
      /\ ok32 (next_entry_or_len e) = true
  | Raise ex =>
      if ok24
      then ex = OverflowError
           /\ ok32 (parent_or_file_off e) && ok32 (next_entry_or_len e) = false
      else ex = ValueError
  end.
Proof.
  cbv zeta. destruct (to_binary e) as [bin|ex] eqn:H.
  - destruct (to_binary_entry_at e bin H) as [Hl _].
    apply to_binary_fields in H. destruct H as (Hn & Hp & Hx & _).
    split; [exact Hl|].
    repeat split; apply andb_true_iff; split;
      try (apply Z.leb_le; lia); apply Z.ltb_lt; lia.
  - unfold to_binary in H.
    assert (E1 : int_to_bytes 1 (if is_dir e then 1 else 0)
                 = Ok (be_bytes 1 (if is_dir e then 1 else 0)))
      by (destruct (is_dir e); reflexivity).
    rewrite E1 in H. clear E1.
    replace (name_off e <? 2 ^ 24) with (name_off e <=? 16777215)
      by (destruct (Z.leb_spec (name_off e) 16777215);
          destruct (Z.ltb_spec (name_off e) (2 ^ 24)); lia || reflexivity).
    destruct ((0 <=? name_off e) && (name_off e <=? 16777215)) eqn:E2;
      cbn [negb] in H; [|now injection H as <-].
    unfold int_to_bytes in H.
    change (256 ^ Z.of_nat 3) with (2 ^ 24) in H.
    change (256 ^ Z.of_nat 4) with (2 ^ 32) in H.
    replace ((0 <=? name_off e) && (name_off e <? 2 ^ 24)) with true in H.
    2:{ symmetry. apply andb_true_iff in E2. destruct E2 as [A B].
        apply Z.leb_le in A, B. apply andb_true_iff.
        split; [apply Z.leb_le|apply Z.ltb_lt]; lia. }
    destruct ((0 <=? parent_or_file_off e) && (parent_or_file_off e <? 2 ^ 32));
      [|now injection H as <-].
    destruct ((0 <=? next_entry_or_len e) && (next_entry_or_len e <? 2 ^ 32));
      [discriminate|now injection H as <-].
Qed.

(** [to_binary] returns 12 bytes exactly when the name offset fits 24 bits
    and the two other fields fit 32 bits; a name offset out of range is a
    [ValueError], whatever the other fields, and otherwise a field out of
    range is an [OverflowError]. *)
Theorem to_binary_range e :
  let ok24 := (0 <=? name_off e) && (name_off e <? 2 ^ 24) in
  let ok32 v := (0 <=? v) && (v <? 2 ^ 32) in
  match to_binary e with
  | Ok bin =>
      len bin = 12 /\ ok24 = true /\ ok32 (parent_or_file_off e) = true
      /\ ok32 (next_entry_or_len e) = true
  | Raise ex =>
      if ok24
      then ex = OverflowError
           /\ ok32 (parent_or_file_off e) && ok32 (next_entry_or_len e) = false
      else ex = ValueError
  end.
Proof. apply to_binary_cases. Qed.

Lemma byte_of_Z_of_byte b : byte_of_Z (Z_of_byte b) = b.
Proof.
  unfold byte_of_Z, Z_of_byte.
  pose proof (Byte.to_N_bounded b) as Hb.
  rewrite Z.mod_small by lia. rewrite N2Z.id, Byte.of_to_N. reflexivity.
Qed.

Lemma Z_of_byte_bound b : 0 <= Z_of_byte b < 256.
Proof. unfold Z_of_byte. pose proof (Byte.to_N_bounded b). lia. Qed.

Lemma be_value_bound l : 0 <= be_value l < 256 ^ len l.
Proof.
  induction l as [|b t IH].
  - cbn. lia.
  - rewrite be_value_cons.
    replace (len (b :: t)) with (len t + 1) by (unfold len; cbn [List.length]; lia).
    rewrite Z.pow_add_r by (pose proof (len_nonneg t); lia).
    pose proof (Z_of_byte_bound b). nia.
Qed.

Lemma be_bytes_be_value l : be_bytes (List.length l) (be_value l) = l.
Proof.
  induction l as [|b t IH]; [reflexivity|].
  cbn [List.length be_bytes]. rewrite be_value_cons.
  pose proof (be_value_bound t) as Hb. unfold len in *.
  set (P := 256 ^ Z.of_nat (List.length t)) in *.
  assert (HP : 0 < P) by (apply Z.pow_pos_nonneg; lia).
  rewrite Z.div_add_l by lia. rewrite Z.div_small by lia.
  rewrite Z.add_0_r, byte_of_Z_of_byte. f_equal.
  rewrite Z.add_comm, Z.mod_add by lia. rewrite Z.mod_small by lia.
  exact IH.
Qed.

Lemma flag_word_byte d no :
  0 <= d < 256 -> 0 <= no < 2 ^ 24 ->
  Z.land (d * 2 ^ 24 + no) 16777215 = no
  /\ (Z.land (d * 2 ^ 24 + no) 4278190080 =? 0) = (d =? 0).
Proof.
  intros Hd Hn. split.
  - change 16777215 with (Z.ones 24). rewrite Z.land_ones by lia.
    rewrite Z.add_comm, Z.mod_add by lia. apply Z.mod_small; lia.
  - change 4278190080 with (Z.shiftl 255 24).
    assert (E : Z.land (d * 2 ^ 24 + no) (Z.shiftl 255 24)
                = Z.shiftl (Z.land (Z.shiftr (d * 2 ^ 24 + no) 24) 255) 24).
    { apply Z.bits_inj'. intros n Hn0. rewrite Z.land_spec.
      destruct (Z.ltb_spec n 24).
      - rewrite !Z.shiftl_spec_low by lia. apply andb_false_r.
      - rewrite !Z.shiftl_spec by lia.
        rewrite Z.land_spec, Z.shiftr_spec by lia.
        replace (n - 24 + 24) with n by lia. reflexivity. }
    rewrite E, Z.shiftr_div_pow2 by lia.
    replace ((d * 2 ^ 24 + no) / 2 ^ 24) with d.
    2:{ rewrite Z.div_add_l by lia. rewrite Z.div_small by lia. lia. }
    change 255 with (Z.ones 8). rewrite Z.land_ones by lia.
    rewrite Z.mod_small by (change (2 ^ 8) with 256; lia).
    rewrite Z.shiftl_mul_pow2 by lia.
    destruct (Z.eqb_spec d 0) as [->|Hne]; [reflexivity|].
    apply Z.eqb_neq. lia.
Qed.

(** A record read from 12 bytes is always written back by [to_binary], as
    the same bytes but for the first: any non-zero flag byte comes back
    as 1. *)
Theorem entry_reencode bs e :
  entry_of_bytes bs = Ok e ->
  exists b rest,
    bs = b :: rest
    /\ is_dir e = negb (Byte.eqb b x00)
    /\ to_binary e = Ok ((if Byte.eqb b x00 then x00 else x01) :: rest).
Proof.
  intros H. pose proof (entry_of_bytes_fields _ _ H) as He.
  unfold entry_of_bytes, unpack_III, unpack3 in H.
  do 13 (destruct bs as [|? bs]; try discriminate). clear H.
  cbn [firstn skipn] in He.
  set (w1 := [b0; b1; b2]) in *. set (w2 := [b3; b4; b5; b6]) in *.
  set (w3 := [b7; b8; b9; b10]) in *.
  change [b; b0; b1; b2] with (b :: w1) in He.
  rewrite be_value_cons in He.
  pose proof (be_value_bound w1) as B1. pose proof (be_value_bound w2) as B2.
  pose proof (be_value_bound w3) as B3. pose proof (Z_of_byte_bound b) as Bb.
  change (len w1) with 3 in *. change (len w2) with 4 in *.
  change (len w3) with 4 in *.
  change (256 ^ 3) with (2 ^ 24) in *. change (256 ^ 4) with (2 ^ 32) in *.
  destruct (flag_word_byte (Z_of_byte b) (be_value w1) Bb B1) as [F1 F2].
  rewrite F1, F2 in He.
  assert (Hflag : (Z_of_byte b =? 0) = Byte.eqb b x00).
  { destruct (Byte.eqb b x00) eqn:Eb.
    - apply Byte.byte_dec_bl in Eb. now subst.
    - apply Z.eqb_neq. intros Hz.
      assert (Hb0 : b = x00)
        by (rewrite <- (byte_of_Z_of_byte b), Hz; reflexivity).
      subst b. discriminate Eb. }
  rewrite Hflag in He.
  exists b, (w1 ++ w2 ++ w3). split; [reflexivity|].
  split; [rewrite He; reflexivity|].
  unfold to_binary. rewrite He.
  cbn [is_dir name_off parent_or_file_off next_entry_or_len].
  assert (E1 : int_to_bytes 1 (if negb (Byte.eqb b x00) then 1 else 0)
               = Ok [if Byte.eqb b x00 then x00 else x01])
    by (destruct (Byte.eqb b x00); reflexivity).
  rewrite E1.
  replace ((0 <=? be_value w1) && (be_value w1 <=? 16777215)) with true
    by (symmetry; apply andb_true_iff; split; apply Z.leb_le; lia).
  cbn [negb]. unfold int_to_bytes.
  change (256 ^ Z.of_nat 3) with (2 ^ 24).
  change (256 ^ Z.of_nat 4) with (2 ^ 32).
  replace ((0 <=? be_value w1) && (be_value w1 <? 2 ^ 24)) with true
    by (symmetry; apply andb_true_iff; split;
        [apply Z.leb_le|apply Z.ltb_lt]; lia).
  replace ((0 <=? be_value w2) && (be_value w2 <? 2 ^ 32)) with true
    by (symmetry; apply andb_true_iff; split;
        [apply Z.leb_le|apply Z.ltb_lt]; lia).
  replace ((0 <=? be_value w3) && (be_value w3 <? 2 ^ 32)) with true
    by (symmetry; apply andb_true_iff; split;
        [apply Z.leb_le|apply Z.ltb_lt]; lia).
  change (be_bytes 3 (be_value w1))
    with (be_bytes (List.length w1) (be_value w1)).
  change (be_bytes 4 (be_value w2))
    with (be_bytes (List.length w2) (be_value w2)).
  change (be_bytes 4 (be_value w3))
    with (be_bytes (List.length w3) (be_value w3)).
  rewrite (be_bytes_be_value w1), (be_bytes_be_value w2),
    (be_bytes_be_value w3).
  reflexivity.
Qed.

Lemma entry_reencode_witness :
  exists b rest,
    [x80; x00; x00; x05; x00; x00; x00; x00; x00; x00; x00; x03] = b :: rest
    /\ is_dir (mkEntry true 5 0 3) = negb (Byte.eqb b x00)
    /\ to_binary (mkEntry true 5 0 3)
       = Ok ((if Byte.eqb b x00 then x00 else x01) :: rest).
Proof.
  apply (entry_reencode
           [x80; x00; x00; x05; x00; x00; x00; x00; x00; x00; x00; x03]).
  reflexivity.
Defined.

(** ** Paths given as strings *)

Local Open Scope string_scope.

Lemma no_slash_app a b :
  no_slash (a ++ b) = no_slash a && no_slash b.
Proof.
  induction a as [|c a IH]; [reflexivity|].
  cbn [append no_slash]. rewrite IH. now rewrite andb_assoc.
Qed.

Lemma append_nonempty_l (a : string) c : a ++ String c "" <> "".
Proof. destruct a; discriminate. Qed.

Lemma split_segments_components s : forall cur,
  no_slash cur = true ->
  Forall (fun seg => component seg = true) (split_segments cur s).
Proof.
  induction s as [|c s IH]; intros cur Hc; cbn [split_segments].
  - destruct (String.eqb_spec cur ""); [constructor|].
    repeat constructor. unfold component. rewrite Hc.
    destruct (String.eqb_spec cur ""); [contradiction|reflexivity].
  - destruct (Ascii.eqb c "/") eqn:E.
    + apply Forall_app. split; [|now apply IH].
      destruct (String.eqb_spec cur ""); [constructor|].
      repeat constructor. unfold component. rewrite Hc.
      destruct (String.eqb_spec cur ""); [contradiction|reflexivity].
    + apply IH. rewrite no_slash_app, Hc. cbn [no_slash]. now rewrite E.
Qed.

Lemma split_segments_word k : forall cur rest,
  no_slash k = true ->
  split_segments cur (k ++ rest) = split_segments (cur ++ k) rest.
Proof.
  induction k as [|c k IH]; intros cur rest Hk.
  - now rewrite append_empty_r.
  - cbn [no_slash] in Hk. apply andb_true_iff in Hk. destruct Hk as [Hc Hk].
    apply negb_true_iff in Hc. cbn [append split_segments]. rewrite Hc.
    rewrite IH by assumption. now rewrite append_assoc.
Qed.

Lemma split_join l :
  Forall (fun k => component k = true) l ->
  split_path (String.concat "/" l) = l.
Proof.
  unfold split_path. induction l as [|k t IH]; intros H; [reflexivity|].
  inversion H as [|? ? Hk Ht]; subst.
  destruct (component_facts k Hk) as (Hne & Hns & _).
  destruct t as [|k' t'].
  - cbn [String.concat].
    replace (split_segments "" k) with (split_segments "" (k ++ ""))
      by now rewrite append_empty_r.
    rewrite split_segments_word by assumption.
    cbn [append split_segments].
    destruct (String.eqb_spec k ""); [contradiction|reflexivity].
  - change (String.concat "/" (k :: k' :: t'))
      with (k ++ "/" ++ String.concat "/" (k' :: t')).
    rewrite split_segments_word by assumption.
    cbn [append split_segments]. change (Ascii.eqb "/" "/") with true.
    cbv iota. destruct (String.eqb_spec k ""); [contradiction|].
    cbn [app]. f_equal. now apply IH.
Qed.

Lemma contains_sep_app a b :
  contains_sep (a ++ b) = contains_sep a || contains_sep b.
Proof.
  induction a as [|c a IH]; [reflexivity|].
  cbn [append contains_sep]. rewrite IH. now rewrite orb_assoc.
Qed.

Lemma contains_sep_no_slash k : contains_sep k = negb (no_slash k).
Proof.
  induction k as [|c k IH]; [reflexivity|].
  cbn [contains_sep no_slash]. rewrite IH.
  now destruct (Ascii.eqb c "/"), (no_slash k).
Qed.

(** The segments of a string path are never empty and hold no ['/']; and a
    list of such segments joined with ['/'] is split back into the same
    list, by the mutations and, when the list is not empty, by
    [__getitem__]: the two ways of giving a path are interchangeable. *)
Theorem string_paths s l :
  Forall (fun k => component k = true) (segments (PathStr s))
  /\ (Forall (fun k => component k = true) l ->
      segments (PathStr (String.concat "/" l)) = segments (PathList l)
      /\ (l <> [] ->
          item_keys (ItemStr (String.concat "/" l)) = item_keys (ItemList l))).
Proof.
  split.
  - cbn [segments]. unfold split_path. now apply split_segments_components.
  - intros H. cbn [segments item_keys]. rewrite (split_join l H).
    split; [reflexivity|]. intros Hne.
    destruct l as [|k [|k' t]]; [contradiction| |].
    + cbn [String.concat]. inversion H as [|? ? Hk _]; subst.
      destruct (component_facts k Hk) as (_ & Hns & _).
      now rewrite contains_sep_no_slash, Hns.
    + change (String.concat "/" (k :: k' :: t))
        with (k ++ "/" ++ String.concat "/" (k' :: t)).
      rewrite contains_sep_app. cbn [append contains_sep].
      change (Ascii.eqb "/" "/") with true. cbn [orb].
      now rewrite orb_true_r.
Qed.

Lemma string_paths_witness :
  segments (PathStr (String.concat "/" ["point"; "point_001.bin"]))
  = segments (PathList ["point"; "point_001.bin"])
  /\ (["point"; "point_001.bin"] <> [] ->
      item_keys (ItemStr (String.concat "/" ["point"; "point_001.bin"]))
      = item_keys (ItemList ["point"; "point_001.bin"])).
Proof.
  apply (string_paths "" ["point"; "point_001.bin"]).
  repeat constructor.
Defined.

Local Close Scope string_scope.

(** ** The encoder: header and data region as functions of the tree *)

Lemma Forall2i_Forall2 {A B} (R : A -> B -> Prop) i la lb :
  Forall2i (fun _ => R) i la lb -> Forall2 R la lb.
Proof. induction 1; constructor; assumption. Qed.

Lemma fill_file_entries_dirs es : forall idx m off es',
  fill_file_entries es idx m off = Ok es' ->
  Forall2 (fun e e' => is_dir e' = is_dir e) es es'.
Proof.
  induction es as [|e t IH]; intros idx m off es' H;
    cbn [fill_file_entries] in H.
  - injection H as <-. constructor.
  - destruct (is_dir e) eqn:Ed; cbn [negb] in H.
    + destruct (fill_file_entries t (idx + 1) m off) as [rest|] eqn:Er;
        [|discriminate].
      injection H as <-. constructor; [now rewrite Ed|eapply IH, Er].
    + destruct (file_map_get m idx) as [f|]; [|discriminate].
      destruct (fill_file_entries t (idx + 1) m _) as [rest|] eqn:Er;
        [|discriminate].
      injection H as <-. constructor; [now rewrite Ed|eapply IH, Er].
Qed.

Lemma encode_ascii_replace_length nm :
  List.length (encode_ascii_replace nm) = String.length nm.
Proof. induction nm as [|c t IH]; simpl; [reflexivity|now rewrite IH]. Qed.

Lemma build_string_table_len nms : forall tab offs,
  len (fst (build_string_table nms tab offs))
  = len tab
    + fold_right (fun nm acc => Z.of_nat (String.length nm) + 1 + acc) 0 nms.
Proof.
  induction nms as [|nm t IH]; intros tab offs;
    cbn [build_string_table fold_right].
  - cbn [fst]. lia.
  - rewrite IH, !len_app.
    replace (len (encode_ascii_replace nm)) with (Z.of_nat (String.length nm))
      by (unfold len; now rewrite encode_ascii_replace_length).
    change (len [x00]) with 1. lia.
Qed.

Lemma names_size_map its :
  fold_right (fun nm acc => Z.of_nat (String.length nm) + 1 + acc) 0
    (map item_name its)
  = names_size its.
Proof.
  unfold names_size. induction its as [|it t IH]; [reflexivity|].
  cbn [map fold_right]. now rewrite IH.
Qed.

Lemma shape_compose offs ents : forall its t3 i j,
  Forall2i pre_ok i its ents ->
  Forall2i (fun i oe e =>
              exists e0,
                oe = Some e0 /\ is_dir e = is_dir e0
                /\ next_entry_or_len e = next_entry_or_len e0
                /\ list_index offs i = Ok (name_off e)) j ents t3 ->
  Forall2 (fun it e => is_dir e = item_is_dir it) its t3.
Proof.
  induction ents as [|oe ents IH]; intros its t3 i j Hp Ht;
    inversion Hp as [|? it ? its' ? Hit Hp']; subst;
    inversion Ht as [|? ? e ? t3' He Ht']; subst; constructor.
  - destruct Hit as (e1 & -> & Hd1 & _).
    destruct He as (e2 & [= <-] & Hd2 & _). congruence.
  - eapply IH; eauto.
Qed.

(** What steps 1 to 4 compute, read off the tree. *)
Lemma layout_shape fs L :
  compute_layout fs = Ok L ->
  Forall2 (fun it e => is_dir e = item_is_dir it)
    (IDir EmptyString (forest_size fs) :: flat fs) (lay_entries L)
  /\ lay_file_map L = item_files 1 (flat fs)
  /\ fst_offset L = 32
  /\ fst_size L = 12 * (1 + Z.of_nat (forest_size fs))
  /\ str_table_size L = 1 + names_size (flat fs)
  /\ len (lay_string_table L) = 1 + names_size (flat fs)
  /\ file_data_offset L
     = _align (32 + 12 * (1 + Z.of_nat (forest_size fs))
               + (1 + names_size (flat fs))) 32.
Proof.
  intros HL. unfold compute_layout in HL.
  destruct (build_fst_spec fs) as (ents & Hents & Hpre & Hnames & Hfm).
  pose proof (build_string_table_len (names (build_fst fs)) [] []) as Hlen.
  destruct (build_string_table (names (build_fst fs)) [] [])
    as [strtab offs] eqn:Hbst.
  cbn [fst] in Hlen. rewrite Hnames in Hlen. cbn [map fold_right] in Hlen.
  rewrite names_size_map in Hlen. change (len (@nil byte)) with 0 in Hlen.
  change (Z.of_nat (String.length "")) with 0 in Hlen.
  destruct (assign_name_offsets (fst_entries (build_fst fs)) 0 offs)
    as [es3|] eqn:Ha; [|discriminate].
  destruct (fill_file_entries es3 0 (file_map (build_fst fs)) _)
    as [es4|] eqn:Hf; [|discriminate].
  injection HL as HL.
  apply assign_name_offsets_spec in Ha. rewrite Hents in Ha.
  apply fill_file_entries_dirs in Hf.
  assert (Hshape : Forall2 (fun it e => is_dir e = item_is_dir it)
                     (IDir EmptyString (forest_size fs) :: flat fs) es4).
  { assert (H3 : Forall2 (fun it e => is_dir e = item_is_dir it)
                   (IDir EmptyString (forest_size fs) :: flat fs) es3).
    { inversion Ha as [|? ? e3 ? t3 Hroot Htail]; subst.
      constructor.
      - destruct Hroot as (e0 & [= <-] & Hd & _). exact Hd.
      - eapply shape_compose; eauto. }
    clear - H3 Hf. revert es4 Hf.
    induction H3; intros es4 Hf; inversion Hf; subst; constructor.
    - congruence.
    - auto. }
  pose proof (Forall2_length Hshape) as Hl4.
  cbn [List.length] in Hl4. rewrite flat_length in Hl4.
  pose proof (Forall2_length Hf) as Hl3.
  assert (Hes3 : len es3 = 1 + Z.of_nat (forest_size fs))
    by (unfold len; lia).
  assert (HLe : lay_entries L = es4) by (rewrite <- HL; reflexivity).
  assert (HLs : lay_string_table L = strtab) by (rewrite <- HL; reflexivity).
  assert (HLm : lay_file_map L = file_map (build_fst fs))
    by (rewrite <- HL; reflexivity).
  assert (HLo : fst_offset L = 32) by (rewrite <- HL; reflexivity).
  assert (HLz : fst_size L = len es3 * 12) by (rewrite <- HL; reflexivity).
  assert (HLt : str_table_size L = len strtab) by (rewrite <- HL; reflexivity).
  assert (HLf : file_data_offset L
                = _align (32 + len es3 * 12 + len strtab) 32)
    by (rewrite <- HL; reflexivity).
  rewrite HLe, HLs, HLm, HLo, HLz, HLt, HLf, Hes3, Hlen.
  split; [exact Hshape|]. split; [exact Hfm|]. split; [reflexivity|].
  split; [lia|]. split; [lia|]. split; [lia|]. f_equal. lia.
Qed.

Lemma write_files_items its : forall es idx m buf out,
  Forall2 (fun it e => is_dir e = item_is_dir it) its es ->
  (forall n k f, nth_error its n = Some (IFile k f) ->
                 file_map_get m (idx + Z.of_nat n) = Ok f) ->
  write_files es idx m buf = Ok out ->
  out = buf ++ List.concat (map item_chunk its).
Proof.
  induction its as [|it its IH]; intros es idx m buf out HF Hm Hw;
    inversion HF as [|? e ? t Hd Ht]; subst; cbn [write_files] in Hw.
  - injection Hw as <-. cbn. now rewrite app_nil_r.
  - assert (Hm' : forall n k f, nth_error its n = Some (IFile k f) ->
                    file_map_get m (idx + 1 + Z.of_nat n) = Ok f).
    { intros n k f Hn. rewrite <- (Hm (S n) k f Hn). f_equal. lia. }
    rewrite Hd in Hw. destruct it as [k f|k sz]; cbn [item_is_dir negb] in Hw.
    + pose proof (Hm 0%nat k f eq_refl) as H0.
      change (Z.of_nat 0) with 0 in H0. rewrite Z.add_0_r in H0.
      rewrite H0 in Hw.
      rewrite (IH _ _ _ _ _ Ht Hm' Hw). cbn [map List.concat item_chunk].
      now rewrite <- !app_assoc.
    + rewrite (IH _ _ _ _ _ Ht Hm' Hw). reflexivity.
Qed.

Lemma chunks_aligned its :
  len (List.concat (map item_chunk its)) mod 32 = 0.
Proof.
  induction its as [|[k f|k sz] t IH]; cbn [map List.concat item_chunk]; auto.
  rewrite !len_app, file_padding_length.
  destruct (align_spec (len (data f)) 32 ltac:(lia)) as [_ Ha].
  match goal with
  | |- ?x mod 32 = 0 =>
      replace x with (_align (len (data f)) 32
                      + len (List.concat (map item_chunk t))) by lia
  end.
  rewrite Z.add_mod, Ha, IH by lia. reflexivity.
Qed.

Lemma data_region a bs :
  to_bytes a = Ok bs ->
  exists pre,
    bs = pre ++ List.concat (map item_chunk (flat (files a)))
    /\ len pre = word_at bs 12
    /\ len pre mod 32 = 0
    /\ len bs mod 32 = 0.
Proof.
  intros Hb. unfold to_bytes in Hb.
  destruct (compute_layout (files a)) as [L|] eqn:HL; [|discriminate].
  destruct (encoder_records _ _ _ HL Hb) as (_ & _ & Hw & Hal & _).
  destruct (layout_shape _ _ HL)
    as (Hshape & Hfm & Hfo & Hfs & Hss & Hsl & Hfd).
  unfold emit in Hb.
  destruct (pack_header L) as [hdr|] eqn:Hh; [|discriminate].
  destruct (write_entries (lay_entries L) hdr) as [buf1|] eqn:Hwe;
    [|discriminate].
  cbv zeta in Hb.
  apply pack_header_spec in Hh. destruct Hh as (_ & Hhl & _).
  destruct (write_entries_spec _ _ _ Hwe) as (recs & -> & Hrl & _).
  remember ((hdr ++ recs) ++ lay_string_table L) as buf2 eqn:Hbuf2.
  remember (repeat x00 (Z.to_nat (_align (len buf2) 32 - len buf2))) as pad
    eqn:Hpad.
  pose proof (Forall2_length Hshape) as Hl4. cbn [List.length] in Hl4.
  rewrite flat_length in Hl4.
  assert (Hlb : len buf2
                = 32 + 12 * (1 + Z.of_nat (forest_size (files a)))
                  + (1 + names_size (flat (files a)))).
  { rewrite Hbuf2, !len_app, Hhl, Hrl, Hsl. unfold len. lia. }
  assert (Hl3 : len (buf2 ++ pad) = file_data_offset L).
  { rewrite len_app, Hpad. unfold len at 2. rewrite repeat_length.
    pose proof (align_spec (len buf2) 32 ltac:(lia)) as Hal'.
    rewrite Z2Nat.id by lia. rewrite Hfd, <- Hlb. lia. }
  assert (Hm : forall n k f,
            nth_error (IDir EmptyString (forest_size (files a))
                         :: flat (files a)) n = Some (IFile k f) ->
            file_map_get (lay_file_map L) (0 + Z.of_nat n) = Ok f).
  { intros n k f Hn. destruct n as [|n]; [discriminate|].
    cbn [nth_error] in Hn. rewrite Hfm.
    apply (file_map_get_items _ 1 _ n k f Hn). lia. }
  pose proof (write_files_items _ _ _ _ _ _ Hshape Hm Hb) as Hbs.
  cbn [map List.concat item_chunk app] in Hbs.
  exists (buf2 ++ pad). split; [exact Hbs|].
  split; [now rewrite Hl3|]. split; [now rewrite Hl3|].
  assert (Hlen : len bs
                 = len (buf2 ++ pad)
                   + len (List.concat (map item_chunk (flat (files a))))).
  { rewrite Hbs at 1. apply len_app. }
  rewrite Hlen, Hl3, Z.add_mod, Hal, chunks_aligned by lia. reflexivity.
Qed.

(** The byte string [to_bytes] returns, from the start of the file data on,
    is the data of the files in the order of the records, each followed by
    its padding, and nothing else; it starts at a multiple of 32, the
    offset written in the header, and the whole length is a multiple
    of 32. *)
Theorem to_bytes_data_region a bs :
  to_bytes a = Ok bs ->
  exists pre,
    bs = pre ++ List.concat (map item_chunk (flat (files a)))
    /\ len pre = word_at bs 12
    /\ len pre mod 32 = 0
    /\ len bs mod 32 = 0.
Proof. apply data_region. Qed.

Lemma to_bytes_data_region_witness :
  exists pre,
    scenario_bytes = pre ++ List.concat (map item_chunk (flat (files scenario_arc)))
    /\ len pre = word_at scenario_bytes 12
    /\ len pre mod 32 = 0
    /\ len scenario_bytes mod 32 = 0.
Proof.
  apply (to_bytes_data_region scenario_arc scenario_bytes).
  vm_compute. reflexivity.
Defined.

Lemma write_files_prefix es : forall idx m buf out,
  write_files es idx m buf = Ok out -> exists more, out = buf ++ more.
Proof.
  induction es as [|e t IH]; intros idx m buf out H; cbn [write_files] in H.
  - injection H as <-. exists []. now rewrite app_nil_r.
  - destruct (negb (is_dir e)).
    + destruct (file_map_get m idx) as [f|]; [|discriminate].
      destruct (IH _ _ _ _ H) as [more ->].
      exists (data f ++ file_padding f ++ more). now rewrite <- !app_assoc.
    + eapply IH, H.
Qed.

Lemma slice_mid {A} (pre w post : list A) n m :
  List.length pre = n -> List.length w = m ->
  firstn m (skipn n (pre ++ w ++ post)) = w.
Proof.
  intros <- <-. rewrite skipn_app, skipn_all, Nat.sub_diag. cbn [skipn app].
  now apply firstn_len_app.
Qed.

Lemma pack_header_words L header :
  pack_header L = Ok header ->
  0 <= fst_size L + str_table_size L < 2 ^ 32.
Proof.
  unfold pack_header, pack_I. intros H.
  destruct ((0 <=? fst_offset L) && (fst_offset L <? 2 ^ 32));
    [|discriminate].
  destruct ((0 <=? fst_size L + str_table_size L)
            && (fst_size L + str_table_size L <? 2 ^ 32)) eqn:E;
    [|discriminate].
  apply andb_true_iff in E. lia.
Qed.

(** The header of the byte string [to_bytes] returns, read off the tree:
    the magic, the record table at 32, the size of the table and of the
    names, the aligned start of the file data, 16 zero bytes; and the root
    record announces one record per node and one for itself. *)
Theorem to_bytes_header a bs :
  to_bytes a = Ok bs ->
  let n := 1 + Z.of_nat (forest_size (files a)) in
  let t := 1 + names_size (flat (files a)) in
  firstn 4 bs = U8_FILE_MAGIC
  /\ word_at bs 4 = 32
  /\ word_at bs 8 = 12 * n + t
  /\ word_at bs 12 = _align (32 + 12 * n + t) 32
  /\ firstn 16 (skipn 16 bs) = repeat x00 16
  /\ next_entry_or_len (entry_at bs 32) = n.
Proof.
  intros Hb. cbv zeta. unfold to_bytes in Hb.
  destruct (compute_layout (files a)) as [L|] eqn:HL; [|discriminate].
  destruct (encoder_records _ _ _ HL Hb)
    as (Hmagic & Hw4 & Hw12 & _ & Hlen & _ & Hrec & (e0 & He0 & Hn0) & _).
  destruct (layout_shape _ _ HL) as (_ & _ & Hfo & Hfs & Hss & _ & Hfd).
  split; [exact Hmagic|]. split; [exact Hw4|].
  unfold emit in Hb.
  destruct (pack_header L) as [hdr|] eqn:Hh; [|discriminate].
  destruct (write_entries (lay_entries L) hdr) as [buf1|] eqn:Hwe;
    [|discriminate].
  cbv zeta in Hb.
  pose proof (pack_header_words _ _ Hh) as Hrange.
  apply pack_header_spec in Hh. destruct Hh as (Hhdr & _ & _).
  destruct (write_entries_spec _ _ _ Hwe) as (recs & -> & _ & _).
  match type of Hb with
  | write_files _ _ _ ?b = _ =>
      destruct (write_files_prefix _ _ _ b bs Hb) as [more Hbs]
  end.
  assert (Hsplit : bs = (U8_FILE_MAGIC ++ be_bytes 4 (fst_offset L))
                          ++ be_bytes 4 (fst_size L + str_table_size L)
                          ++ (be_bytes 4 (file_data_offset L)
                              ++ repeat x00 16 ++ recs
                              ++ lay_string_table L
                              ++ repeat x00
                                   (Z.to_nat
                                      (_align
                                         (len ((hdr ++ recs)
                                               ++ lay_string_table L)) 32
                                       - len ((hdr ++ recs)
                                              ++ lay_string_table L)))
                              ++ more)).
  { rewrite Hbs. rewrite Hhdr at 1. rewrite <- !app_assoc. reflexivity. }
  split.
  { rewrite (word_at_split bs _ _ _ 8 Hsplit);
      [|apply be_bytes_length|reflexivity].
    rewrite be_value_be_bytes
      by (change (256 ^ Z.of_nat 4) with (2 ^ 32); exact Hrange).
    rewrite Hfs, Hss. reflexivity. }
  split; [rewrite Hw12, Hfd; reflexivity|].
  split.
  { rewrite Hsplit, <- !app_assoc.
    rewrite (app_assoc U8_FILE_MAGIC), (app_assoc (U8_FILE_MAGIC ++ _)),
      (app_assoc ((U8_FILE_MAGIC ++ _) ++ _)).
    apply slice_mid; [|apply repeat_length].
    rewrite !length_app, !be_bytes_length. reflexivity. }
  rewrite <- Hlen, <- Hn0, <- (Hrec 0%nat e0 He0). reflexivity.
Qed.

Lemma to_bytes_header_witness :
  let n := 1 + Z.of_nat (forest_size (files scenario_arc)) in
  let t := 1 + names_size (flat (files scenario_arc)) in
  firstn 4 scenario_bytes = U8_FILE_MAGIC
  /\ word_at scenario_bytes 4 = 32
  /\ word_at scenario_bytes 8 = 12 * n + t
  /\ word_at scenario_bytes 12 = _align (32 + 12 * n + t) 32
  /\ firstn 16 (skipn 16 scenario_bytes) = repeat x00 16
  /\ next_entry_or_len (entry_at scenario_bytes 32) = n.
Proof.
  apply (to_bytes_header scenario_arc scenario_bytes).
  vm_compute. reflexivity.
Defined.

(** ** The round trip when no file sits directly under the root *)

Lemma top_rebuilt_dirs fs fs' :
  no_root_file fs = true -> Forall2 top_rebuilt fs fs' -> fs' = canon fs.
Proof.
  intros Hn H. induction H as [|[k n] [k' n'] t t' Hkv Ht IH]; [reflexivity|].
  cbn [no_root_file forallb] in Hn. apply andb_true_iff in Hn.
  destruct Hn as [Hd Hn]. cbn [snd] in Hd.
  destruct Hkv as [Hk Hv]. cbn [fst snd] in Hk, Hv. subst k'.
  destruct n as [f|d]; [discriminate|].
  destruct n' as [f'|d']; [contradiction|]. subst d'.
  rewrite canon_cons, canon_node_dir. f_equal. apply IH, Hn.
Qed.

Lemma roundtrip_exact a nm bs :
  unique_names (Dir (files a)) = true ->
  clean_names (Dir (files a)) = true ->
  no_root_file (files a) = true ->
  to_bytes a = Ok bs ->
  exists a',
    decode nm bs = Ok a'
    /\ files a' = canon (files a)
    /\ _arc_name a' = nm /\ _mod_count a' = 0.
Proof.
  intros Hu Hc Hn Hb. unfold to_bytes in Hb.
  destruct (compute_layout (files a)) as [L|] eqn:HL; [|discriminate].
  destruct (decode_encoded (files a) L bs nm HL Hb Hc Hu) as (a' & Hd & Hall).
  exists a'. split; [exact Hd|]. split; [now apply top_rebuilt_dirs|].
  unfold decode, _load_from_bin in Hd.
  destruct (load_files (BytesIO bs nm)) as [[[nm' fs'] s']|] eqn:Hl;
    [|discriminate].
  injection Hd as <-. cbn [_arc_name _mod_count]. split; [|reflexivity].
  unfold load_files, bind in Hl.
  destruct (load_table (BytesIO bs nm)) as [[[es tbl] s1]|]; [|discriminate].
  destruct (load_tree es tbl s1) as [[fs1 s2]|]; [|discriminate].
  unfold ret in Hl. now injection Hl as <- _ _.
Qed.

(** When every entry directly under the root is a directory, the names are
    unique among siblings, ASCII and without NUL, and [to_bytes] returns,
    decoding its result gives back the whole tree, file contents included,
    every [ArcFile] named after its key; the archive is named after the
    stream and has no modification pending. *)
Theorem roundtrip_without_root_files a nm bs :
  unique_names (Dir (files a)) = true ->
  clean_names (Dir (files a)) = true ->
  no_root_file (files a) = true ->
  to_bytes a = Ok bs ->
  exists a',
    decode nm bs = Ok a'
    /\ files a' = canon (files a)
    /\ _arc_name a' = nm /\ _mod_count a' = 0.
Proof. apply roundtrip_exact. Qed.

Lemma roundtrip_without_root_files_witness :
  exists a',
    decode "course.arc" scenario_bytes = Ok a'
    /\ files a' = canon (files scenario_arc)
    /\ _arc_name a' = "course.arc"%string /\ _mod_count a' = 0.
Proof.
  apply (roundtrip_without_root_files scenario_arc "course.arc" scenario_bytes).
  - reflexivity.
  - reflexivity.
  - reflexivity.
  - vm_compute. reflexivity.
Defined.

(** ** The decoder on streams it did not write *)

Lemma takewhile_nul_none l :
  Forall (fun b => Byte.eqb b x00 = false) l ->
  takewhile_nul l = (l, len l, true).
Proof.
  induction 1 as [|b t Hb Ht IH]; [reflexivity|].
  cbn [takewhile_nul]. rewrite Hb, IH. f_equal. f_equal.
  unfold len. cbn [List.length]. lia.
Qed.

(** A name that runs to the end of the stream without its terminator is
    accepted: [read_terminated_string] returns the bytes left, decoded, and
    leaves the stream at its end. *)
Theorem unterminated_name_accepted s k :
  window s = None ->
  Forall (fun b => Byte.eqb b x00 = false) (remaining s) ->
  decode_ascii (remaining s) = Ok k ->
  read_terminated_string s = Ok (k, set_pos s (pos s + len (remaining s))).
Proof.
  intros Hw Hn Hd. unfold read_terminated_string, in_window.
  rewrite (takewhile_nul_none _ Hn), Hw, Hd. reflexivity.
Qed.

Lemma unterminated_name_accepted_witness :
  read_terminated_string (mkStream [x00; x61; x62] 1 "f" None)
  = Ok ("ab"%string,
        set_pos (mkStream [x00; x61; x62] 1 "f" None)
          (1 + len (remaining (mkStream [x00; x61; x62] 1 "f" None)))).
Proof.
  apply (unterminated_name_accepted (mkStream [x00; x61; x62] 1 "f" None)).
  - reflexivity.
  - repeat constructor.
  - reflexivity.
Defined.

(** The decoder reads any stream laid out as the format says, whoever
    wrote it: when the record table read by [open_arc] spells a forest in
    preorder, names in the string table, directories bounded by their
    last field, files by offset and length wherever their data sits, the
    tree returned has the names and the nesting of the forest, with the
    contents of every file below a directory. *)
Theorem decoder_reads_format nm bs es tbl s1 e0 F :
  load_table (BytesIO bs nm) = Ok (es, tbl, s1) ->
  list_index es 0 = Ok e0 ->
  next_entry_or_len e0 = 1 + Z.of_nat (forest_size F) ->
  encodes bs tbl es 1 F ->
  unique_names (Dir F) = true ->
  exists a', decode nm bs = Ok a' /\ Forall2 top_rebuilt F (files a').
Proof.
  intros Ht He Hn Henc Hu.
  destruct (load_table_entries (BytesIO bs nm) es tbl s1 eq_refl
              ltac:(cbn; lia) Ht) as (_ & _ & ->).
  destruct (load_tree_ok bs tbl es F e0
              (set_pos (BytesIO bs nm) (table_end (BytesIO bs nm)))
              He Hn Henc Hu (conj eq_refl eq_refl))
    as (fs' & s' & Htree & Hall).
  unfold decode, _load_from_bin, load_files, bind.
  rewrite Ht, Htree. unfold ret.
  eexists. split; [reflexivity|exact Hall].
Qed.

Lemma decoder_reads_format_witness :
  exists a',
    decode "course.arc" scenario_bytes = Ok a'
    /\ Forall2 top_rebuilt
         [("point"%string,
           Dir [("point_001.bin"%string,
                 File (mkArcFile "point_001.bin" [x01; x02]))])]
         (files a').
Proof.
  assert (Hname : forall p k, 0 <= p ->
            (let '(taken, _, _) :=
               takewhile_nul (skipn (Z.to_nat p) scenario_bytes) in
             decode_ascii taken) = Ok k ->
            name_at scenario_bytes p k).
  { intros p k Hp H. split; [exact Hp|].
    destruct (takewhile_nul (skipn (Z.to_nat p) scenario_bytes))
      as [[taken n] eof]. eauto. }
  eapply (decoder_reads_format "course.arc" scenario_bytes
            [mkEntry true 0 0 3; mkEntry true 1 0 3; mkEntry false 7 96 2]
            68 _ (mkEntry true 0 0 3)).
  - vm_compute. reflexivity.
  - reflexivity.
  - reflexivity.
  - eapply encodes_dir with (e := mkEntry true 1 0 3);
      [reflexivity|reflexivity
      |apply Hname; [cbn; lia|vm_compute; reflexivity]
      |reflexivity| |apply encodes_nil].
    eapply encodes_file with (e := mkEntry false 7 96 2);
      [reflexivity|reflexivity
      |apply Hname; [cbn; lia|vm_compute; reflexivity]
      | |apply encodes_nil].
    split; [cbn; lia|]. split; [cbn; lia|]. vm_compute. reflexivity.
  - reflexivity.
Defined.

(** ** The two cached maps *)

Lemma only_some_keys results np :
  dict_get results np = None -> dict_get (only_some results) np = None.
Proof.
  unfold only_some. induction results as [|[k v] t IH]; [reflexivity|].
  cbn [dict_get filter snd].
  destruct (String.eqb_spec np k); [discriminate|]. intros H.
  destruct v; cbn [dict_get]; [|now apply IH].
  destruct (String.eqb_spec np k); [contradiction|now apply IH].
Qed.

Lemma only_some_app a b : only_some (a ++ b) = only_some a ++ only_some b.
Proof. apply filter_app. Qed.

(** One pass over a dictionary without directory markers is the pass with
    markers, the markers filtered out. *)
Lemma flatten_items_filter cur items : forall results stack,
  NoDup (dict_keys results ++ node_paths cur (Dir items) ++ stack_paths stack) ->
  flatten_items false cur items (only_some results) stack
  = (only_some (fst (flatten_items true cur items results stack)),
     snd (flatten_items true cur items results stack))
  /\ (List.length (only_some (fst (flatten_items true cur items results stack)))
      + stack_files (snd (flatten_items true cur items results stack))
      = List.length (only_some results) + count_files (Dir items)
        + stack_files stack)%nat.
Proof.
  induction items as [|[k c] t IH]; intros results stack Hnd.
  - cbn [flatten_items fst snd]. split; [reflexivity|].
    change (count_files (Dir [])) with 0%nat. lia.
  - rewrite node_paths_cons in Hnd. cbn [flatten_items].
    set (np := path_join cur k) in *.
    assert (Hfresh : dict_get results np = None).
    { destruct (dict_get results np) eqn:E; [|reflexivity]. exfalso.
      apply dict_get_in in E. apply (in_map fst) in E. simpl in E.
      apply NoDup_remove_2 with (l := dict_keys results) in Hnd.
      apply Hnd. apply in_or_app. now left. }
    assert (Hkeys : forall v, dict_keys (dict_set results np v)
                              = dict_keys results ++ [np]).
    { intros v. rewrite dict_set_absent by assumption.
      unfold dict_keys. now rewrite map_app. }
    rewrite count_files_cons.
    destruct c as [f|d].
    + assert (Hs : dict_set (only_some results) np (Some f)
                   = only_some (dict_set results np (Some f))).
      { rewrite !dict_set_absent by (try apply only_some_keys; assumption).
        now rewrite only_some_app. }
      rewrite Hs.
      destruct (IH (dict_set results np (Some f)) stack) as [IH1 IH2].
      { rewrite Hkeys, <- app_assoc. exact Hnd. }
      split; [exact IH1|]. rewrite IH2.
      rewrite dict_set_absent, only_some_app, length_app by assumption.
      cbn. lia.
    + assert (Hs : only_some results = only_some (dict_set results np None)).
      { rewrite dict_set_absent by assumption. rewrite only_some_app.
        cbn. now rewrite app_nil_r. }
      rewrite Hs.
      destruct (IH (dict_set results np None) ((np, d) :: stack))
        as [IH1 IH2].
      { rewrite Hkeys, <- app_assoc. cbn [stack_paths].
        eapply Permutation_NoDup; [|exact Hnd].
        apply Permutation_app_head. simpl. constructor.
        rewrite <- !app_assoc. rewrite !app_assoc.
        apply Permutation_app_tail. apply Permutation_app_comm. }
      split; [exact IH1|]. rewrite IH2, <- Hs. cbn [stack_files]. lia.
Qed.

Lemma flatten_loop_filter : forall fuel stack results,
  (stack_dirs stack <= fuel)%nat ->
  NoDup (dict_keys results ++ stack_paths stack) ->
  flatten_loop fuel false stack (only_some results)
  = only_some (flatten_loop fuel true stack results)
  /\ List.length (only_some (flatten_loop fuel true stack results))
     = (List.length (only_some results) + stack_files stack)%nat.
Proof.
  induction fuel as [|n IH]; intros stack results Hfuel Hnd.
  - destruct stack as [|[p d] t];
      [cbn [flatten_loop stack_files]; split; [reflexivity|lia]|].
    cbn [stack_dirs count_dirs] in Hfuel. lia.
  - destruct stack as [|[p d] t];
      [cbn [flatten_loop stack_files]; split; [reflexivity|lia]|].
    cbn [flatten_loop stack_paths stack_files] in *.
    pose proof (flatten_items_spec p d results t Hnd) as Hi.
    destruct (flatten_items_filter p d results t Hnd) as [Hf Hl].
    rewrite Hf.
    destruct (flatten_items true p d results t) as [results' stack'].
    cbn [fst snd] in *. destruct Hi as [Hp Hd].
    cbn [stack_dirs] in Hfuel.
    destruct (IH stack' results') as [IH1 IH2].
    + lia.
    + eapply Permutation_NoDup; [symmetry; exact Hp|exact Hnd].
    + split; [exact IH1|]. rewrite IH2. lia.
Qed.

(** With no modification pending or after a refresh, what [get_all_files]
    returns is the map [__len__] and [__iter__] read with the markers of
    directories left out, in the same order, and it has one entry per
    file of the tree. *)
Theorem get_all_files_is_the_index_filtered a :
  index_in_sync a ->
  component_names (Dir (files a)) = true ->
  unique_names (Dir (files a)) = true ->
  fst (get_all_files a)
  = only_some (_flat_file_struct (snd (get_all_files a)))
  /\ List.length (fst (get_all_files a)) = count_files (Dir (files a)).
Proof.
  intros Hs Hn Hu. unfold get_all_files. cbn [fst snd].
  destruct (update_fresh a Hs) as (Hflat & Honly & _).
  rewrite Hflat, Honly. unfold _flatten_file_map, flatten_tree.
  destruct (flatten_loop_filter (count_dirs (Dir (files a)))
              [(splitext_root (_arc_name a), files a)] []) as [H1 H2].
  - cbn [stack_dirs]. lia.
  - cbn [dict_keys map app stack_paths]. rewrite app_nil_r.
    now apply node_paths_NoDup.
  - change (only_some []) with (@nil (string * option ArcFile)) in H1.
    rewrite H1. split; [reflexivity|]. rewrite H2. cbn. lia.
Qed.

Lemma get_all_files_is_the_index_filtered_witness :
  fst (get_all_files scenario_arc)
  = only_some (_flat_file_struct (snd (get_all_files scenario_arc)))
  /\ List.length (fst (get_all_files scenario_arc))
     = count_files (Dir (files scenario_arc)).
Proof.
  apply (get_all_files_is_the_index_filtered scenario_arc).
  - split; [cbn; lia|]. cbn. discriminate.
  - reflexivity.
  - reflexivity.
Defined.

(** ** What the mutations keep of a tree *)

Section Invariant.
Context {A : Type} (K : dict node -> result A * dict node).
Variables (P : dict node -> Prop) (path0 : list string).
Hypothesis K_P : forall d r d', K d = (r, d') -> P d -> P d'.
Hypothesis P_nil : P [].
Hypothesis P_set : forall d k sub,
  In k path0 -> P d -> P sub -> P (dict_set d k (Dir sub)).
Hypothesis P_sub : forall d k sub,
  P d -> dict_get d k = Some (Dir sub) -> P sub.

(** A property of dictionaries that holds of the empty one, goes down to
    sub-directories and is kept when a sub-directory with the property is
    bound, is kept by [_get_or_create_directory] when its caller keeps
    it. *)
Lemma get_or_create_invariant path :
  incl path path0 ->
  forall cur r fs,
    P cur -> _get_or_create_directory path K cur = (r, fs) -> P fs.
Proof.
  induction path as [|seg rest IH]; intros Hin cur r fs Hc H;
    cbn [_get_or_create_directory] in H.
  - eapply K_P; eauto.
  - assert (Hseg : In seg path0) by (apply Hin; now left).
    assert (Hrest : incl rest path0)
      by (intros x Hx; apply Hin; now right).
    destruct (dict_get cur seg) as [[f|d0]|] eqn:Hg.
    + now injection H as _ <-.
    + destruct (_get_or_create_directory rest K d0) as [r0 sub] eqn:Hd.
      injection H as _ <-. apply P_set; [exact Hseg|exact Hc|].
      eapply IH; [exact Hrest|eapply P_sub; eauto|exact Hd].
    + destruct (_get_or_create_directory rest K []) as [r0 sub] eqn:Hd.
      injection H as _ <-. apply P_set; [exact Hseg| |].
      * apply P_set; [exact Hseg|exact Hc|exact P_nil].
      * eapply IH; [exact Hrest|exact P_nil|exact Hd].
Qed.

End Invariant.

Lemma dict_set_in {V} (d : dict V) k v k' v' :
  In (k', v') (dict_set d k v) -> (k', v') = (k, v) \/ In (k', v') d.
Proof.
  induction d as [|[k0 v0] t IH]; cbn [dict_set].
  - intros [H|[]]. now left.
  - destruct (String.eqb k k0).
    + intros [H|H]; [now left|right; now right].
    + intros [H|H]; [right; now left|].
      destruct (IH H); [now left|right; now right].
Qed.

Lemma dict_keys_set {V} (d : dict V) k v :
  dict_keys (dict_set d k v)
  = if dict_mem d k then dict_keys d else dict_keys d ++ [k].
Proof.
  unfold dict_mem. destruct (dict_get d k) as [v0|] eqn:Hg.
  - eapply dict_keys_set_present; eauto.
  - rewrite dict_set_absent by assumption. unfold dict_keys.
    now rewrite map_app.
Qed.

Lemma unique_names_intro d :
  NoDup (dict_keys d) ->
  (forall k c, In (k, c) d -> unique_names c = true) ->
  unique_names (Dir d) = true.
Proof.
  intros Hn Hc. cbn [unique_names]. apply andb_true_iff. split.
  - now apply nodup_strings_NoDup.
  - clear Hn. induction d as [|[k c] t IH]; [reflexivity|].
    rewrite (Hc k c) by now left. cbn [andb]. apply IH.
    intros k' c' Hin. apply (Hc k'). now right.
Qed.

Lemma unique_set d k v :
  unique_names (Dir d) = true -> unique_names v = true ->
  unique_names (Dir (dict_set d k v)) = true.
Proof.
  intros Hd Hv. apply unique_names_dir in Hd. destruct Hd as [Hn Hc].
  apply unique_names_intro.
  - rewrite dict_keys_set. unfold dict_mem.
    destruct (dict_get d k) eqn:Hg; [exact Hn|].
    apply NoDup_app; [exact Hn|repeat constructor; intros []|].
    intros x Hx [<-|[]]. eapply dict_get_none_not_in; eauto.
  - intros k' c Hin. apply dict_set_in in Hin.
    destruct Hin as [[= -> ->]|Hin]; [exact Hv|eapply Hc; eauto].
Qed.

Lemma clean_names_dir d :
  clean_names (Dir d) = true
  <-> forall k c, In (k, c) d -> clean_name k = true /\ clean_names c = true.
Proof.
  induction d as [|[k c] t IH].
  - split; [intros _ k c []|reflexivity].
  - change (clean_names (Dir ((k, c) :: t)))
      with (clean_name k && clean_names c && clean_names (Dir t)).
    rewrite !andb_true_iff, IH. split.
    + intros [[Hk Hc] Ht] k' c' [[= <- <-]|Hin]; [auto|now apply Ht].
    + intros H. split; [apply H; now left|].
      intros k' c' Hin. apply H. now right.
Qed.

Lemma clean_set d k v :
  clean_names (Dir d) = true -> clean_name k = true ->
  clean_names v = true ->
  clean_names (Dir (dict_set d k v)) = true.
Proof.
  rewrite !clean_names_dir. intros Hd Hk Hv k' c Hin.
  apply dict_set_in in Hin.
  destruct Hin as [[= -> ->]|Hin]; [auto|now apply Hd].
Qed.

Lemma canon_set d k v :
  canon (dict_set d k v) = dict_set (canon d) k (canon_node k v).
Proof.
  induction d as [|[k0 v0] t IH]; [reflexivity|].
  cbn [dict_set]. rewrite canon_cons. cbn [dict_set].
  destruct (String.eqb k k0); [reflexivity|].
  now rewrite canon_cons, IH.
Qed.

Lemma canon_get d k :
  dict_get (canon d) k = option_map (canon_node k) (dict_get d k).
Proof.
  induction d as [|[k0 v0] t IH]; [reflexivity|].
  rewrite canon_cons. cbn [dict_get].
  destruct (String.eqb_spec k k0) as [->|]; [reflexivity|exact IH].
Qed.

Lemma no_root_file_set d k sub :
  no_root_file d = true -> no_root_file (dict_set d k (Dir sub)) = true.
Proof.
  unfold no_root_file. induction d as [|[k0 v0] t IH]; intros H.
  - reflexivity.
  - cbn [dict_set forallb snd] in *. apply andb_true_iff in H.
    destruct H as [H0 Ht].
    destruct (String.eqb k k0); cbn [forallb snd is_dict].
    + exact Ht.
    + rewrite H0. now apply IH.
Qed.

Lemma get_or_create_no_root_file {A} (K : dict node -> result A * dict node)
    seg rest cur r fs :
  no_root_file cur = true ->
  _get_or_create_directory (seg :: rest) K cur = (r, fs) ->
  no_root_file fs = true.
Proof.
  intros Hc H. cbn [_get_or_create_directory] in H.
  destruct (dict_get cur seg) as [[f|d0]|].
  - now injection H as _ <-.
  - destruct (_get_or_create_directory rest K d0) as [r0 sub].
    injection H as _ <-. now apply no_root_file_set.
  - destruct (_get_or_create_directory rest K []) as [r0 sub].
    injection H as _ <-. now apply no_root_file_set, no_root_file_set.
Qed.

(** The tree is well formed for the round trip: sibling names are unique,
    names are ASCII without NUL, and every [ArcFile] is named after its
    key.  [append_file] keeps this when the path and the file name are
    such names. *)
Lemma append_file_well_formed disk fn file path a r a' :
  unique_names (Dir (files a)) = true
  /\ clean_names (Dir (files a)) = true /\ canon (files a) = files a ->
  Forall (fun k => clean_name k = true) (segments path) ->
  clean_name fn = true ->
  append_file disk fn file path a = (r, a') ->
  unique_names (Dir (files a')) = true
  /\ clean_names (Dir (files a')) = true /\ canon (files a') = files a'.
Proof.
  intros Hw Hp Hfn H.
  assert (Hint : forall bs r0,
            _append_internal fn (mkArcFile fn bs) path a = (r0, a') ->
            unique_names (Dir (files a')) = true
            /\ clean_names (Dir (files a')) = true
            /\ canon (files a') = files a').
  { intros bs r0 Ha. unfold _append_internal in Ha.
    destruct (_get_or_create_directory (segments path)
                (insert_at fn (File (mkArcFile fn bs))) (files a))
      as [r1 fs] eqn:Hg.
    assert (Hfs : files a' = fs)
      by (destruct r1; injection Ha as _ <-; reflexivity).
    rewrite Hfs.
    apply (get_or_create_invariant
             (insert_at fn (File (mkArcFile fn bs)))
             (fun d => unique_names (Dir d) = true
                       /\ clean_names (Dir d) = true /\ canon d = d)
             (segments path)) with (path := segments path) (cur := files a)
                                   (r := r1);
      [| | | |apply incl_refl|exact Hw|exact Hg].
    - intros d r2 d' HK (Hu & Hc & Hk). unfold insert_at in HK.
      destruct (dict_mem d fn); injection HK as _ <-; [auto|].
      split; [now apply unique_set|]. split; [now apply clean_set|].
      rewrite canon_set, Hk. reflexivity.
    - auto.
    - intros d k sub Hin (Hu & Hc & Hk) (Hu' & Hc' & Hk').
      rewrite Forall_forall in Hp.
      split; [now apply unique_set|].
      split; [apply clean_set; auto|].
      rewrite canon_set, canon_node_dir, Hk, Hk'. reflexivity.
    - intros d k sub (Hu & Hc & Hk) Hg'.
      pose proof Hg' as Hin. apply dict_get_in in Hin.
      split; [apply unique_names_dir in Hu; destruct Hu as [_ Hu];
              now apply (Hu k)|].
      split; [rewrite clean_names_dir in Hc; now apply (Hc k)|].
      pose proof (canon_get d k) as Hcg. rewrite Hk, Hg' in Hcg.
      cbn [option_map] in Hcg. rewrite canon_node_dir in Hcg.
      now injection Hcg as <-. }
  unfold append_file in H. destruct file as [bs|p]; [eapply Hint; eauto|].
  destruct (disk p); [eapply Hint; eauto|].
  injection H as _ <-. exact Hw.
Qed.

(** ** The archive [saveArc] builds *)

Local Open Scope string_scope.

Lemma clean_name_app a b :
  clean_name (a ++ b) = clean_name a && clean_name b.
Proof.
  induction a as [|c a IH]; [reflexivity|].
  cbn [append clean_name]. rewrite IH. now rewrite !andb_assoc.
Qed.

Lemma clean_substring s : forall n m,
  clean_name s = true -> clean_name (substring n m s) = true.
Proof.
  induction s as [|c s IH]; intros n m H.
  - destruct n, m; reflexivity.
  - cbn [clean_name] in H. apply andb_true_iff in H. destruct H as [Hc Hs].
    destruct n as [|n]; [destruct m as [|m]|]; cbn [substring].
    + reflexivity.
    + cbn [clean_name]. rewrite Hc. now apply IH.
    + now apply IH.
Qed.

Lemma clean_folder nm :
  clean_name nm = true -> clean_name (folder_name_of nm) = true.
Proof.
  intros H. unfold folder_name_of.
  destruct (2 <? String.length (substring 5 (String.length nm - 9) nm))%nat;
    repeat apply clean_substring; exact H.
Qed.

Lemma split_segments_clean s : forall cur,
  clean_name cur = true -> clean_name s = true ->
  Forall (fun k => clean_name k = true) (split_segments cur s).
Proof.
  induction s as [|c s IH]; intros cur Hc Hs; cbn [split_segments].
  - destruct (cur =? ""); repeat constructor. exact Hc.
  - cbn [clean_name] in Hs. apply andb_true_iff in Hs. destruct Hs as [Hch Hs].
    destruct (Ascii.eqb c "/").
    + apply Forall_app. split; [|now apply IH].
      destruct (cur =? ""); repeat constructor. exact Hc.
    + apply IH; [|exact Hs]. rewrite clean_name_app, Hc.
      cbn [clean_name]. now rewrite Hch.
Qed.

Lemma split_segments_sep a : forall cur b,
  split_segments cur (a ++ String "/" b)
  = (split_segments cur a ++ split_segments "" b)%list.
Proof.
  induction a as [|c a IH]; intros cur b.
  - cbn [append split_segments]. change (Ascii.eqb "/" "/") with true.
    reflexivity.
  - cbn [append split_segments]. destruct (Ascii.eqb c "/").
    + now rewrite IH, app_assoc.
    + apply IH.
Qed.

Lemma save_path_segments nm :
  segments (save_path nm)
  = (split_path (folder_name_of nm) ++ split_path nm)%list.
Proof. apply split_segments_sep. Qed.

Lemma save_path_clean nm :
  clean_name nm = true ->
  Forall (fun k => clean_name k = true) (segments (save_path nm)).
Proof.
  intros H. rewrite save_path_segments. apply Forall_app.
  split; apply split_segments_clean; auto using clean_folder.
Qed.

Lemma insert_by_name_perm f l : Permutation (insert_by_name f l) (f :: l).
Proof.
  induction l as [|g t IH]; cbn [insert_by_name]; [reflexivity|].
  destruct (String.leb (name f) (name g)); [reflexivity|].
  rewrite IH. apply perm_swap.
Qed.

Lemma sort_by_name_perm l : Permutation (sort_by_name l) l.
Proof.
  induction l as [|f t IH]; [reflexivity|].
  cbn [sort_by_name fold_right]. rewrite insert_by_name_perm.
  now constructor.
Qed.

Local Close Scope string_scope.

(** The file is in the archive where [saveArc] puts a file of that name. *)
Lemma append_all_found l : forall a a',
  append_all l a = (Ok tt, a') ->
  (forall q g, walk q (Dir (files a)) = Ok (File g) ->
               walk q (Dir (files a')) = Ok (File g))
  /\ forall f, In f l ->
       walk (segments (save_path (name f)) ++ [name f]) (Dir (files a'))
       = Ok (File (mkArcFile (name f) (data f))).
Proof.
  induction l as [|f t IH]; intros a a' H; cbn [append_all] in H.
  - injection H as <-. split; [auto|intros f []].
  - destruct (append_file (fun _ => None) (name f) (RawData (data f))
                (save_path (name f)) a) as [[[]|e] a1] eqn:Ha; [|discriminate].
    destruct (IH _ _ H) as [Hkeep Hfound].
    assert (Hk1 : forall q g, walk q (Dir (files a)) = Ok (File g) ->
                              walk q (Dir (files a1)) = Ok (File g)).
    { intros q g Hq. eapply append_file_keeps; eauto. }
    split; [auto|]. intros g [<-|Hin]; [|now apply Hfound].
    apply Hkeep.
    destruct (append_file_walk _ _ _ _ _ _ Ha) as (bs & [Hb|Hb] & Hg).
    + injection Hb as <-. exact Hg.
    + destruct Hb as (p & Hp & _). discriminate.
Qed.

(** Every file handed to [saveArc] is in the archive it builds, in the
    directories named by the path it was appended with, under its own
    name and with its data. *)
Theorem saved_files_found contents a f :
  build_archive contents = (Ok tt, a) ->
  In f contents ->
  fst (__getitem__ (ItemList (segments (save_path (name f)) ++ [name f])) a)
  = Ok (File (mkArcFile (name f) (data f))).
Proof.
  unfold build_archive. intros H Hin. rewrite getitem_list.
  apply (append_all_found _ _ _ H).
  eapply Permutation_in; [symmetry; apply sort_by_name_perm|exact Hin].
Qed.

Lemma saved_files_found_witness :
  fst (__getitem__
         (ItemList (segments (save_path "point_001.bin")
                      ++ ["point_001.bin"%string]))
         (snd (build_archive [mkArcFile "route_001.bin" [x02];
                              mkArcFile "point_001.bin" [x01]])))
  = Ok (File (mkArcFile "point_001.bin" [x01])).
Proof.
  apply (saved_files_found
           [mkArcFile "route_001.bin" [x02]; mkArcFile "point_001.bin" [x01]]
           _ (mkArcFile "point_001.bin" [x01])).
  - reflexivity.
  - right. left. reflexivity.
Defined.

Lemma get_or_create_existing {A} (K : dict node -> result A * dict node)
    path : forall cur d,
  walk path (Dir cur) = Ok (Dir d) ->
  fst (_get_or_create_directory path K cur) = fst (K d).
Proof.
  induction path as [|seg rest IH]; intros cur d H; cbn [walk] in H.
  - now injection H as <-.
  - cbn [_get_or_create_directory].
    destruct (dict_get cur seg) as [[f|d0]|]; try discriminate.
    + destruct rest; discriminate.
    + specialize (IH d0 d H).
      destruct (_get_or_create_directory rest K d0) as [r0 sub].
      exact IH.
Qed.

Lemma append_present disk fn bs path a g :
  walk (segments path ++ [fn]) (Dir (files a)) = Ok (File g) ->
  fst (append_file disk fn (RawData bs) path a) = Raise KeyError.
Proof.
  intros H. rewrite walk_app in H.
  destruct (walk (segments path) (Dir (files a))) as [[f|d]|] eqn:Hw;
    try discriminate.
  cbn [walk] in H.
  destruct (dict_get d fn) as [v|] eqn:Hg; [|discriminate].
  unfold append_file, _append_internal.
  pose proof (get_or_create_existing
                (insert_at fn (File (mkArcFile fn bs))) _ _ _ Hw) as He.
  destruct (_get_or_create_directory (segments path)
              (insert_at fn (File (mkArcFile fn bs))) (files a)) as [r fs].
  cbn [fst] in He. unfold insert_at, dict_mem in He. rewrite Hg in He.
  cbn [fst] in He. subst r. reflexivity.
Qed.

Lemma append_all_duplicate l : forall a,
  (exists f g, In f l
               /\ walk (segments (save_path (name f)) ++ [name f])
                    (Dir (files a)) = Ok (File g))
  \/ ~ NoDup (map name l) ->
  exists e, fst (append_all l a) = Raise e.
Proof.
  induction l as [|f t IH]; intros a H.
  - destruct H as [(f & g & [] & _)|H]; exfalso. apply H. constructor.
  - cbn [append_all].
    destruct (append_file (fun _ => None) (name f) (RawData (data f))
                (save_path (name f)) a) as [[[]|e] a1] eqn:Ha;
      [|eexists; reflexivity].
    apply IH.
    assert (Hk1 : forall q g, walk q (Dir (files a)) = Ok (File g) ->
                              walk q (Dir (files a1)) = Ok (File g)).
    { intros q g Hq. eapply append_file_keeps; eauto. }
    assert (Hnew : walk (segments (save_path (name f)) ++ [name f])
                     (Dir (files a1))
                   = Ok (File (mkArcFile (name f) (data f)))).
    { destruct (append_file_walk _ _ _ _ _ _ Ha) as (bs & [Hb|Hb] & Hg).
      - injection Hb as <-. exact Hg.
      - destruct Hb as (p & Hp & _). discriminate. }
    destruct H as [(f' & g & [<-|Hin] & Hw)|Hnd].
    + pose proof (append_present (fun _ => None) _ (data f) _ _ _ Hw) as Hr.
      rewrite Ha in Hr. discriminate.
    + left. exists f', g. split; [exact Hin|now apply Hk1].
    + destruct (in_dec string_dec (name f) (map name t)) as [Hi|Hni].
      * left. apply in_map_iff in Hi. destruct Hi as (f' & Hn & Hin).
        exists f', (mkArcFile (name f) (data f)). split; [exact Hin|].
        rewrite Hn. exact Hnew.
      * right. intros Ht. apply Hnd. cbn [map]. now constructor.
Qed.

(** When two of the files handed to [saveArc] have the same name, the
    archive is not built and nothing is written: an [append_file] raises. *)
Theorem saved_duplicate_names_rejected contents :
  ~ NoDup (map name contents) ->
  exists e,
    fst (build_archive contents) = Raise e
    /\ saveArc_bytes contents = Raise e.
Proof.
  intros H. unfold saveArc_bytes, build_archive.
  destruct (append_all_duplicate (sort_by_name contents) Arc_new) as [e He].
  { right. intros Hn. apply H.
    eapply Permutation_NoDup; [|exact Hn].
    apply Permutation_map, sort_by_name_perm. }
  exists e.
  destruct (append_all (sort_by_name contents) Arc_new) as [r a].
  cbn [fst] in He. subst r. auto.
Qed.

Lemma saved_duplicate_names_rejected_witness :
  exists e,
    fst (build_archive [mkArcFile "point_001.bin" [x01];
                        mkArcFile "point_001.bin" [x02]]) = Raise e
    /\ saveArc_bytes [mkArcFile "point_001.bin" [x01];
                      mkArcFile "point_001.bin" [x02]] = Raise e.
Proof.
  apply (saved_duplicate_names_rejected
           [mkArcFile "point_001.bin" [x01]; mkArcFile "point_001.bin" [x02]]).
  intros H. inversion H as [|? ? Hn _]. apply Hn. now left.
Defined.

Lemma append_all_well_formed l : forall a r a',
  Forall (fun f => clean_name (name f) = true /\ split_path (name f) <> []) l ->
  (unique_names (Dir (files a)) = true
   /\ clean_names (Dir (files a)) = true /\ canon (files a) = files a)
  /\ no_root_file (files a) = true ->
  append_all l a = (r, a') ->
  (unique_names (Dir (files a')) = true
   /\ clean_names (Dir (files a')) = true /\ canon (files a') = files a')
  /\ no_root_file (files a') = true.
Proof.
  induction l as [|f t IH]; intros a r a' Hl [Hw Hn] H; cbn [append_all] in H.
  - injection H as _ <-. auto.
  - inversion Hl as [|? ? [Hc Hs] Ht]; subst.
    destruct (append_file (fun _ => None) (name f) (RawData (data f))
                (save_path (name f)) a) as [r1 a1] eqn:Ha.
    assert (H1 : (unique_names (Dir (files a1)) = true
                  /\ clean_names (Dir (files a1)) = true
                  /\ canon (files a1) = files a1)
                 /\ no_root_file (files a1) = true).
    { split.
      - eapply append_file_well_formed; [exact Hw| |exact Hc|exact Ha].
        now apply save_path_clean.
      - unfold append_file, _append_internal in Ha.
        destruct (segments (save_path (name f))) as [|seg rest] eqn:Hp.
        { rewrite save_path_segments in Hp. apply app_eq_nil in Hp.
          destruct Hp as [_ Hp]. contradiction. }
        destruct (_get_or_create_directory (seg :: rest)
                    (insert_at (name f)
                       (File (mkArcFile (name f) (data f)))) (files a))
          as [r2 fs] eqn:Hg.
        assert (Hfs : files a1 = fs)
          by (destruct r2; injection Ha as _ <-; reflexivity).
        rewrite Hfs. eapply get_or_create_no_root_file; eauto. }
    destruct r1 as [[]|e].
    + eapply IH; eauto.
    + injection H as _ <-. exact H1.
Qed.

(** What [saveArc] writes is read back as the archive it built: when the
    names of the files are ASCII without NUL and not made of ['/'] only,
    and the bytes are written, decoding them gives the same tree, every
    file with its name and its data. *)
Theorem saved_archive_roundtrip contents nm bs :
  Forall (fun f => clean_name (name f) = true /\ split_path (name f) <> [])
    contents ->
  saveArc_bytes contents = Ok bs ->
  exists a a',
    build_archive contents = (Ok tt, a)
    /\ decode nm bs = Ok a'
    /\ files a' = files a
    /\ forall f, In f contents ->
         fst (__getitem__
                (ItemList (segments (save_path (name f)) ++ [name f])) a')
         = Ok (File (mkArcFile (name f) (data f))).
Proof.
  intros Hl Hb. unfold saveArc_bytes in Hb.
  destruct (build_archive contents) as [[[]|e] a] eqn:Hbuild; [|discriminate].
  assert (Hl' : Forall (fun f => clean_name (name f) = true
                                 /\ split_path (name f) <> [])
                  (sort_by_name contents)).
  { rewrite Forall_forall in *. intros f Hin. apply Hl.
    eapply Permutation_in; [apply sort_by_name_perm|exact Hin]. }
  destruct (append_all_well_formed _ Arc_new _ _ Hl'
              ltac:(repeat split; reflexivity) Hbuild)
    as [(Hu & Hc & Hk) Hn].
  destruct (roundtrip_exact a nm bs Hu Hc Hn Hb)
    as (a' & Hd & Hf & _).
  rewrite Hk in Hf.
  exists a, a'. split; [reflexivity|]. split; [exact Hd|].
  split; [exact Hf|]. intros f Hin.
  rewrite getitem_list, Hf.
  unfold build_archive in Hbuild.
  apply (append_all_found _ _ _ Hbuild).
  eapply Permutation_in; [apply Permutation_sym, sort_by_name_perm|exact Hin].
Qed.

Lemma saved_archive_roundtrip_witness :
  exists a a',
    build_archive [mkArcFile "route_001.bin" [x02];
                   mkArcFile "point_001.bin" [x01]] = (Ok tt, a)
    /\ decode "course.arc"
         (match saveArc_bytes [mkArcFile "route_001.bin" [x02];
                               mkArcFile "point_001.bin" [x01]] with
          | Ok bs => bs
          | Raise _ => []
          end) = Ok a'
    /\ files a' = files a
    /\ forall f, In f [mkArcFile "route_001.bin" [x02];
                       mkArcFile "point_001.bin" [x01]] ->
         fst (__getitem__
                (ItemList (segments (save_path (name f)) ++ [name f])) a')
         = Ok (File (mkArcFile (name f) (data f))).
Proof.
  apply (saved_archive_roundtrip
           [mkArcFile "route_001.bin" [x02]; mkArcFile "point_001.bin" [x01]]).
  - repeat constructor; discriminate.
  - vm_compute. reflexivity.
Defined.

(* ------------------------------------------------------------------ *)
(** ** The index lists a directory before what it holds *)

Lemma parents_first_snoc root r p v :
  parents_first root r ->
  (exists q k, component k = true /\ p = path_join q k
               /\ (q = root \/ In (q, None) r)) ->
  parents_first root (r ++ [(p, v)]).
Proof.
  intros Hr Hp l1 p' v' l2 E.
  destruct l2 as [|x l2] using rev_ind.
  - apply app_inj_tail in E. destruct E as [<- [= <- <-]]. exact Hp.
  - clear IHl2. rewrite app_comm_cons, app_assoc in E.
    apply app_inj_tail in E. destruct E as [E _].
    exact (Hr _ _ _ _ E).
Qed.

Lemma stack_ready_more root results extra stack :
  stack_ready root results stack ->
  stack_ready root (results ++ extra) stack.
Proof.
  unfold stack_ready. apply Forall_impl. intros [p d] [[H|H] Hc]; split; auto.
  right. apply in_or_app. now left.
Qed.

Lemma flatten_items_parents root cur items : forall results stack,
  NoDup (dict_keys results ++ node_paths cur (Dir items) ++ stack_paths stack) ->
  component_names (Dir items) = true ->
  (cur = root \/ In (cur, None) results) ->
  parents_first root results ->
  stack_ready root results stack ->
  parents_first root (fst (flatten_items true cur items results stack))
  /\ stack_ready root (fst (flatten_items true cur items results stack))
       (snd (flatten_items true cur items results stack)).
Proof.
  induction items as [|[k c] t IH]; intros results stack Hnd Hn Hcur Hpf Hst.
  - cbn. auto.
  - rewrite node_paths_cons in Hnd. cbn [flatten_items].
    pose proof (component_names_dir _ Hn k c (or_introl eq_refl)) as [Hk Hc].
    assert (Hnt : component_names (Dir t) = true).
    { simpl in Hn. apply andb_true_iff in Hn. apply Hn. }
    set (np := path_join cur k) in *.
    assert (Hfresh : dict_get results np = None).
    { destruct (dict_get results np) eqn:E; [|reflexivity]. exfalso.
      apply dict_get_in in E. apply (in_map fst) in E. simpl in E.
      apply NoDup_remove_2 with (l := dict_keys results) in Hnd.
      apply Hnd. apply in_or_app. now left. }
    assert (Hset : forall v, dict_set results np v = results ++ [(np, v)])
      by (intros v; now apply dict_set_absent).
    assert (Hkeys : forall v, dict_keys (results ++ [(np, v)])
                              = dict_keys results ++ [np])
      by (intros v; unfold dict_keys; now rewrite map_app).
    assert (Hcur' : forall v, cur = root \/ In (cur, None) (results ++ [(np, v)])).
    { intros v. destruct Hcur as [H|H]; [now left|right].
      apply in_or_app. now left. }
    assert (Hpf' : forall v, parents_first root (results ++ [(np, v)])).
    { intros v. apply parents_first_snoc; [exact Hpf|].
      exists cur, k. auto. }
    destruct c as [f|d]; rewrite Hset.
    + apply IH; auto.
      * rewrite Hkeys, <- app_assoc. exact Hnd.
      * now apply stack_ready_more.
    + apply IH; auto.
      * rewrite Hkeys, <- app_assoc. cbn [stack_paths].
        eapply Permutation_NoDup; [|exact Hnd].
        apply Permutation_app_head. simpl. constructor.
        rewrite <- app_assoc. rewrite !app_assoc.
        apply Permutation_app_tail. apply Permutation_app_comm.
      * constructor; [|now apply stack_ready_more].
        cbn [fst snd]. split; [|exact Hc].
        right. apply in_or_app. right. now left.
Qed.

Lemma flatten_loop_parents root : forall fuel stack results,
  (stack_dirs stack <= fuel)%nat ->
  NoDup (dict_keys results ++ stack_paths stack) ->
  parents_first root results ->
  stack_ready root results stack ->
  parents_first root (flatten_loop fuel true stack results).
Proof.
  induction fuel as [|n IH]; intros stack results Hfuel Hnd Hpf Hst.
  - exact Hpf.
  - destruct stack as [|[p d] t]; [exact Hpf|].
    cbn [flatten_loop]. cbn [stack_paths] in Hnd.
    inversion Hst as [|? ? [Hp Hc] Hst']; subst. cbn [fst snd] in Hp, Hc.
    pose proof (flatten_items_spec p d results t Hnd) as Hi.
    pose proof (flatten_items_parents root p d results t Hnd Hc Hp Hpf Hst')
      as Hq.
    destruct (flatten_items true p d results t) as [results' stack'].
    destruct Hi as [Hperm Hd]. destruct Hq as [Hpf' Hst2].
    cbn [stack_dirs] in Hfuel. cbn [fst snd] in *.
    apply IH; auto.
    + lia.
    + eapply Permutation_NoDup; [symmetry; exact Hperm|exact Hnd].
Qed.

Lemma flatten_tree_parents nm fs :
  component_names (Dir fs) = true -> unique_names (Dir fs) = true ->
  parents_first (splitext_root nm) (flatten_tree true nm fs).
Proof.
  intros Hn Hu. unfold flatten_tree. apply flatten_loop_parents.
  - cbn [stack_dirs]. lia.
  - cbn [dict_keys map app stack_paths]. rewrite app_nil_r.
    now apply node_paths_NoDup.
  - intros l1 p v l2 E. destruct l1; discriminate.
  - constructor; [|constructor]. cbn [fst snd]. auto.
Qed.

(** The index a reader sees lists a directory before anything it holds:
    after [_update], every key of [_flat_file_struct] is a name joined to
    a path that is the stem of the archive name or the key of an earlier
    entry that marks a directory. *)
Theorem index_lists_parents_first a :
  index_in_sync a ->
  component_names (Dir (files a)) = true ->
  unique_names (Dir (files a)) = true ->
  forall l1 p v l2,
    _flat_file_struct (_update a) = l1 ++ (p, v) :: l2 ->
    exists q k, component k = true /\ p = path_join q k
                /\ (q = splitext_root (_arc_name a) \/ In (q, None) l1).
Proof.
  intros Hs Hn Hu. destruct (update_fresh a Hs) as (Hflat & _).
  rewrite Hflat. exact (flatten_tree_parents (_arc_name a) (files a) Hn Hu).
Qed.

Lemma index_lists_parents_first_witness :
  exists q k,
    component k = true
    /\ "ARC_FILE/point/point_001.bin"%string = path_join q k
    /\ (q = splitext_root (_arc_name scenario_arc)
        \/ In (q, None) [("ARC_FILE/point"%string, @None ArcFile)]).
Proof.
  apply (index_lists_parents_first scenario_arc
           ltac:(split; [cbn; lia|cbn; discriminate]) eq_refl eq_refl
           [("ARC_FILE/point"%string, None)]
           "ARC_FILE/point/point_001.bin"%string
           (Some (mkArcFile "point_001.bin" [x01; x02])) []).
  reflexivity.
Defined.

(* ------------------------------------------------------------------ *)
(** ** When [delete] and [append_file] raise *)

Lemma descend_delete_outcome k parents : forall cur,
  fst (descend parents (delete_at k) cur)
  = match walk (parents ++ [k]) (Dir cur) with
    | Ok _ => Ok tt
    | Raise TypeError => Raise ValueError
    | Raise e => Raise e
    end.
Proof.
  induction parents as [|s rest IH]; intros cur.
  - cbn [descend app walk]. unfold delete_at, dict_mem.
    destruct (dict_get cur k); reflexivity.
  - cbn [descend app walk].
    destruct (dict_get cur s) as [[f|d]|]; [destruct rest; reflexivity| |reflexivity].
    specialize (IH d). destruct (descend rest (delete_at k) d). exact IH.
Qed.

(** [delete] answers as a lookup of the same path does: it removes what
    [__getitem__] finds, raises [KeyError] where the lookup raises it, and
    [ValueError] where the lookup runs into a file on the way; an empty
    path is a [ValueError]. *)
Theorem delete_follows_lookup path a :
  fst (delete path a)
  = match segments path with
    | [] => Raise ValueError
    | _ :: _ =>
        match fst (__getitem__ (ItemList (segments path)) a) with
        | Ok _ => Ok tt
        | Raise TypeError => Raise ValueError
        | Raise e => Raise e
        end
    end.
Proof.
  unfold delete. rewrite getitem_list.
  destruct (segments path) as [|s t]; [reflexivity|].
  assert (Hne : s :: t <> []) by discriminate.
  replace (walk (s :: t) (Dir (files a)))
    with (walk (removelast (s :: t) ++ [last (s :: t) EmptyString])
            (Dir (files a)))
    by (now rewrite <- split_last).
  rewrite <- descend_delete_outcome. cbv zeta.
  destruct (descend (removelast (s :: t))
              (delete_at (last (s :: t) EmptyString)) (files a))
    as [[[]|e] fs]; reflexivity.
Qed.

Lemma walk_empty_dir p :
  walk p (Dir []) = Ok (Dir []) /\ p = [] \/ walk p (Dir []) = Raise KeyError.
Proof. destruct p; [left|right]; auto. Qed.

Lemma get_or_create_insert_outcome fn el path : forall cur,
  match fst (_get_or_create_directory path (insert_at fn el) cur) with
  | Ok _ =>
      (forall pre post f, path = pre ++ post ->
                          walk pre (Dir cur) <> Ok (File f))
      /\ (forall d, walk path (Dir cur) = Ok (Dir d) -> dict_get d fn = None)
  | Raise ValueError =>
      exists pre post f, path = pre ++ post /\ walk pre (Dir cur) = Ok (File f)
  | Raise KeyError =>
      exists d v, walk path (Dir cur) = Ok (Dir d) /\ dict_get d fn = Some v
  | Raise _ => False
  end.
Proof.
  induction path as [|seg rest IH]; intros cur.
  - cbn [_get_or_create_directory]. unfold insert_at, dict_mem.
    destruct (dict_get cur fn) as [v|] eqn:Hg; cbn [fst].
    + exists cur, v. auto.
    + split.
      * intros pre post f E. symmetry in E. apply app_eq_nil in E.
        destruct E as [-> _]. discriminate.
      * intros d [= <-]. exact Hg.
  - cbn [_get_or_create_directory]. unfold dict in *.
    destruct (dict_get cur seg) as [[f|d0]|] eqn:Hg.
    + cbn [fst]. exists [seg], rest, f. split; [reflexivity|].
      cbn [walk]. now rewrite Hg.
    + specialize (IH d0).
      destruct (_get_or_create_directory rest (insert_at fn el) d0)
        as [[[]|e] sub]; cbn [fst] in *.
      * destruct IH as [IH1 IH2]. split.
        -- intros pre post f E. destruct pre as [|s pre]; [discriminate|].
           injection E as -> E. cbn [walk]. rewrite Hg. eapply IH1; eauto.
        -- intros d. cbn [walk]. rewrite Hg. apply IH2.
      * destruct e; try exact IH.
        -- destruct IH as (pre & post & f & -> & Hw).
           exists (seg :: pre), post, f. split; [reflexivity|].
           cbn [walk]. now rewrite Hg.
        -- destruct IH as (d & v & Hw & Hd). exists d, v.
           cbn [walk]. rewrite Hg. auto.
    + specialize (IH []).
      destruct (_get_or_create_directory rest (insert_at fn el) [])
        as [[[]|e] sub]; cbn [fst] in *.
      * split.
        -- intros pre post f E. destruct pre as [|s pre]; [discriminate|].
           injection E as -> E. cbn [walk]. rewrite Hg. discriminate.
        -- intros d. cbn [walk]. rewrite Hg. discriminate.
      * destruct e; try exact IH.
        -- destruct IH as (pre & post & f & _ & Hw).
           destruct (walk_empty_dir pre) as [[Hr _]|Hr]; rewrite Hr in Hw;
             discriminate.
        -- destruct IH as (d & v & Hw & Hd).
           destruct (walk_empty_dir rest) as [[Hr _]|Hr]; rewrite Hr in Hw;
             [|discriminate].
           injection Hw as <-. discriminate.
Qed.

(** The errors of [append_file] with raw data are the two its
    documentation names, each exactly in its case: [ValueError] when a
    leading part of the directory path is a file, [KeyError] when the
    directory path is a directory that has the name already; otherwise the
    call succeeds. *)
Theorem append_file_outcomes disk fn bs path a :
  match fst (append_file disk fn (RawData bs) path a) with
  | Ok _ =>
      (forall pre post f, segments path = pre ++ post ->
         fst (__getitem__ (ItemList pre) a) <> Ok (File f))
      /\ (forall d, fst (__getitem__ (ItemList (segments path)) a) = Ok (Dir d) ->
                    dict_get d fn = None)
  | Raise ValueError =>
      exists pre post f,
        segments path = pre ++ post
        /\ fst (__getitem__ (ItemList pre) a) = Ok (File f)
  | Raise KeyError =>
      exists d v,
        fst (__getitem__ (ItemList (segments path)) a) = Ok (Dir d)
        /\ dict_get d fn = Some v
  | Raise _ => False
  end.
Proof.
  unfold append_file, _append_internal.
  pose proof (get_or_create_insert_outcome fn (File (mkArcFile fn bs))
                (segments path) (files a)) as H.
  destruct (_get_or_create_directory (segments path)
              (insert_at fn (File (mkArcFile fn bs))) (files a))
    as [[[]|e] fs]; cbn [fst] in *.
  - destruct H as [H1 H2]. split.
    + intros pre post f E. rewrite getitem_list. eapply H1; eauto.
    + intros d. rewrite getitem_list. apply H2.
  - destruct e; try exact H.
    + destruct H as (pre & post & f & E & Hw). exists pre, post, f.
      now rewrite getitem_list.
    + destruct H as (d & v & Hw & Hd). exists d, v. now rewrite getitem_list.
Qed.

(* ------------------------------------------------------------------ *)
(** ** Rejected mutations *)

(** C3.  A call of [mkdir], [append_file], [rename] or [delete] that raises
    leaves the tree as it was (and so does a rejected [__setitem__]).  A
    [move] whose source resolves (a [delete] of the source would succeed)
    and that raises [KeyError], which is then the destination-name-exists
    check, leaves the tree with the source removed and not restored: the
    tree is the one [delete] of the source gives, and, sibling names being
    unique, the source path was in the archive before the call and is not
    in it after. *)
Theorem C3_rejected_mutations :
  forall (c : call) (a a' : Arc) (e : exn),
    run c a = (Raise e, a') ->
    match c with
    | CallMove src dest =>
        fst (delete src a) = Ok tt -> e = KeyError ->
        files a' = files (snd (delete src a))
        /\ (unique_names (Dir (files a)) = true ->
            fst (__contains__ (ItemList (segments src)) a) = Ok true
            /\ fst (__contains__ (ItemList (segments src)) a') = Ok false)
    | _ => files a' = files a
    end.
Proof.
  intros [p|disk fn f p|p n|p|src dest|key value] a a' e H; simpl in H.
  - eapply mkdir_raise; eauto.
  - eapply append_file_raise; eauto.
  - eapply rename_raise; eauto.
  - eapply delete_raise; eauto.
  - intros Hd ->.
    pose proof (move_key_error_loses_source _ _ _ _ Hd H) as Hf.
    split; [exact Hf|]. intros Hu. rewrite !contains_list, Hf.
    destruct (delete src a) as [r a''] eqn:Hdel. cbn [fst snd] in *.
    subst r.
    destruct (delete_removes src a a'' Hu Hdel) as [[n ->] ->]. auto.
  - eapply setitem_raise; eauto.
Qed.

(** A rejected [mkdir] through a file, and a [move] onto a taken name. *)
Lemma C3_rejected_mutations_witness :
  files (snd (mkdir (PathStr "x/y") root_file_arc)) = files root_file_arc
  /\ files (snd (move (PathStr "x") (PathStr "y") two_files_arc))
     = files (snd (delete (PathStr "x") two_files_arc))
  /\ fst (__contains__ (ItemList (segments (PathStr "x"))) two_files_arc)
     = Ok true
  /\ fst (__contains__ (ItemList (segments (PathStr "x")))
            (snd (move (PathStr "x") (PathStr "y") two_files_arc)))
     = Ok false.
Proof.
  split.
  - apply (C3_rejected_mutations (CallMkdir (PathStr "x/y")) root_file_arc
             (snd (mkdir (PathStr "x/y") root_file_arc)) ValueError).
    reflexivity.
  - destruct (C3_rejected_mutations (CallMove (PathStr "x") (PathStr "y"))
                two_files_arc
                (snd (move (PathStr "x") (PathStr "y") two_files_arc))
                KeyError eq_refl eq_refl eq_refl) as [H1 H2].
    split; [exact H1|]. apply H2. reflexivity.
Defined.

(* ------------------------------------------------------------------ *)
(** ** The concrete scenario *)

(** C5.  The archive [{"point": {"point_001.bin": b"\x01\x02"}}] encodes
    to a stream of three records whose name table has 21 bytes; decoding
    it from a stream whose name without its extension is [course] yields
    exactly one file, at [course/point/point_001.bin], with contents
    [b"\x01\x02"]; the record of that file in the emitted table carries the
    data offset 96: it is a multiple of 32 and the first one from
    [0x20 + 12*3 + len(name_table) = 89] on, and the data of the file sits
    there. *)
Theorem C5_concrete_scenario :
  forall nm : string,
    splitext_root nm = "course"%string ->
    exists bs a L entries tbl s' e,
      to_bytes scenario_arc = Ok bs
      /\ decode nm bs = Ok a
      /\ fst (get_all_files a)
         = [("course/point/point_001.bin"%string,
             Some (mkArcFile "point_001.bin" [x01; x02]))]
      /\ files a
         = [("point"%string,
             Dir [("point_001.bin"%string,
                   File (mkArcFile "point_001.bin" [x01; x02]))])]
      /\ compute_layout (files scenario_arc) = Ok L
      /\ open_arc 0 32 (BytesIO bs nm) = Ok (entries, tbl, s')
      /\ entries = lay_entries L
      /\ List.length entries = 3%nat
      /\ nth_error entries 2 = Some e
      /\ is_dir e = false
      /\ parent_or_file_off e
         = _align (32 + 12 * 3 + len (lay_string_table L)) 32
      /\ firstn 2 (skipn (Z.to_nat (parent_or_file_off e)) bs) = [x01; x02]
      /\ len (lay_string_table L) = 21
      /\ lay_string_table L
         = firstn 21 (skipn (Z.to_nat tbl) bs)
      /\ tbl = 32 + 12 * 3
      /\ parent_or_file_off e = 96
      /\ parent_or_file_off e mod 32 = 0
      /\ 32 + 12 * 3 + len (lay_string_table L) <= parent_or_file_off e
         < 32 + 12 * 3 + len (lay_string_table L) + 32
      /\ word_at bs 12 = 96.
Proof.
  intros nm Hnm.
  set (T := [("point"%string,
              Dir [("point_001.bin"%string,
                    File (mkArcFile "point_001.bin" [x01; x02]))])]).
  assert (Hbs : exists bs, to_bytes scenario_arc = Ok bs)
    by (vm_compute; eauto).
  destruct Hbs as [bs Hbs]. pose proof Hbs as Hbs'.
  vm_compute in Hbs'. injection Hbs' as Hbs'.
  assert (HL : exists L, compute_layout (files scenario_arc) = Ok L)
    by (vm_compute; eauto).
  destruct HL as [L HL]. pose proof HL as HL'.
  vm_compute in HL'. injection HL' as HL'.
  assert (Hload : exists s', load_files (BytesIO bs nm) = Ok ((nm, T), s'))
    by (subst bs; vm_compute; eauto).
  destruct Hload as [s1 Hload].
  assert (Hopen : exists s', open_arc 0 32 (BytesIO bs nm)
                             = Ok (lay_entries L, 68, s'))
    by (subst bs L; vm_compute; eauto).
  destruct Hopen as (s2 & Hopen).
  exists bs, (mkArc 0 (flatten_tree true nm T) (flatten_tree false nm T)
                    false nm T), L, (lay_entries L), 68, s2.
  assert (He : exists e, nth_error (lay_entries L) 2 = Some e
                         /\ is_dir e = false
                         /\ parent_or_file_off e
                            = _align (32 + 12 * 3 + len (lay_string_table L)) 32
                         /\ firstn 2 (skipn (Z.to_nat (parent_or_file_off e)) bs)
                            = [x01; x02]
                         /\ parent_or_file_off e = 96)
    by (subst bs L; vm_compute; eauto 6).
  destruct He as (e & He1 & He2 & He3 & He4 & He5). exists e.
  assert (Hlen : len (lay_string_table L) = 21)
    by (subst L; vm_compute; reflexivity).
  split; [exact Hbs|].
  split; [unfold decode, _load_from_bin; now rewrite Hload|].
  split; [unfold get_all_files, _update, flatten_tree; simpl;
          rewrite Hnm; reflexivity|].
  split; [reflexivity|].
  split; [exact HL|].
  split; [exact Hopen|].
  split; [reflexivity|].
  split; [subst L; reflexivity|].
  split; [exact He1|]. split; [exact He2|]. split; [exact He3|].
  split; [exact He4|]. split; [exact Hlen|].
  split; [subst bs L; vm_compute; reflexivity|].
  split; [reflexivity|]. split; [exact He5|].
  rewrite He5, Hlen.
  split; [reflexivity|]. split; [lia|].
  subst bs. vm_compute. reflexivity.
Qed.

Lemma C5_concrete_scenario_witness :
  exists bs a L entries tbl s' e,
    to_bytes scenario_arc = Ok bs
    /\ decode "course.arc" bs = Ok a
    /\ fst (get_all_files a)
       = [("course/point/point_001.bin"%string,
           Some (mkArcFile "point_001.bin" [x01; x02]))]
    /\ files a
       = [("point"%string,
           Dir [("point_001.bin"%string,
                 File (mkArcFile "point_001.bin" [x01; x02]))])]
    /\ compute_layout (files scenario_arc) = Ok L
    /\ open_arc 0 32 (BytesIO bs "course.arc") = Ok (entries, tbl, s')
    /\ entries = lay_entries L
    /\ List.length entries = 3%nat
    /\ nth_error entries 2 = Some e
    /\ is_dir e = false
    /\ parent_or_file_off e
       = _align (32 + 12 * 3 + len (lay_string_table L)) 32
    /\ firstn 2 (skipn (Z.to_nat (parent_or_file_off e)) bs) = [x01; x02]
    /\ len (lay_string_table L) = 21
    /\ lay_string_table L
       = firstn 21 (skipn (Z.to_nat tbl) bs)
    /\ tbl = 32 + 12 * 3
    /\ parent_or_file_off e = 96
    /\ parent_or_file_off e mod 32 = 0
    /\ 32 + 12 * 3 + len (lay_string_table L) <= parent_or_file_off e
       < 32 + 12 * 3 + len (lay_string_table L) + 32
    /\ word_at bs 12 = 96.
Proof. apply (C5_concrete_scenario "course.arc"). reflexivity. Defined.

(** The claim as stated fails for a stream whose name has a directory
    part: read from ["dir/course.arc"] the archive has the display name
    [course], yet its only file is listed at
    [dir/course/point/point_001.bin], because the index starts its paths
    with [os.path.splitext] of the whole stream name. *)
Lemma C5_name_with_directory :
  exists a,
    decode "dir/course.arc" scenario_bytes = Ok a
    /\ arc_name a = "course"%string
    /\ fst (get_all_files a)
       = [("dir/course/point/point_001.bin"%string,
           Some (mkArcFile "point_001.bin" [x01; x02]))]
    /\ fst (get_all_files a)
       <> [("course/point/point_001.bin"%string,
            Some (mkArcFile "point_001.bin" [x01; x02]))].
Proof.
  eexists. split; [vm_compute; reflexivity|].
  split; [reflexivity|]. split; [reflexivity|]. discriminate.
Qed.

(* ------------------------------------------------------------------ *)
(** ** Alignment and padding *)

Lemma padded_chunk_item it : padded_chunk it = item_chunk it.
Proof.
  destruct it as [k f|k sz]; [|reflexivity].
  cbn [padded_chunk item_chunk]. now rewrite file_padding_spec.
Qed.

Lemma padded_chunks its :
  map padded_chunk its = map item_chunk its.
Proof. apply map_ext, padded_chunk_item. Qed.

(** The offsets step 4 assigns: the start of the file data plus what the
    files numbered before take, padding included. *)
Lemma fill_offsets es : forall its idx m off es',
  fill_file_entries es idx m off = Ok es' ->
  Forall2 (fun it e => is_dir e = item_is_dir it) its es' ->
  (forall n k f, nth_error its n = Some (IFile k f) ->
                 file_map_get m (idx + Z.of_nat n) = Ok f) ->
  forall n k f,
    nth_error its n = Some (IFile k f) ->
    exists e',
      nth_error es' n = Some e'
      /\ is_dir e' = false
      /\ next_entry_or_len e' = len (data f)
      /\ parent_or_file_off e'
         = off + len (List.concat (map item_chunk (firstn n its))).
Proof.
  induction es as [|e t IH]; intros its idx m off es' H HF Hm n k f Hn;
    cbn [fill_file_entries] in H.
  - injection H as <-. inversion HF; subst. destruct n; discriminate.
  - assert (Hm' : forall its' it,
              its = it :: its' ->
              forall n k f, nth_error its' n = Some (IFile k f) ->
                            file_map_get m (idx + 1 + Z.of_nat n) = Ok f).
    { intros its' it -> n0 k0 f0 Hn0. rewrite <- (Hm (S n0) k0 f0 Hn0).
      f_equal. lia. }
    destruct (is_dir e) eqn:Ed; cbn [negb] in H.
    + destruct (fill_file_entries t (idx + 1) m off) as [rest|] eqn:Er;
        [|discriminate].
      injection H as <-.
      inversion HF as [|it ? its' ? Hit HF']; subst.
      destruct it as [k0 f0|k0 sz]; [cbn in Hit; congruence|].
      destruct n as [|n]; [discriminate|]. cbn [nth_error] in Hn |- *.
      destruct (IH its' _ _ _ _ Er HF' (Hm' _ _ eq_refl) n k f Hn)
        as (e' & H1 & H2 & H3 & H4).
      exists e'. cbn [firstn map List.concat item_chunk app]. auto.
    + destruct (file_map_get m idx) as [af|] eqn:Hg; [|discriminate].
      destruct (fill_file_entries t (idx + 1) m _) as [rest|] eqn:Er;
        [|discriminate].
      injection H as <-.
      inversion HF as [|it ? its' ? Hit HF']; subst.
      destruct it as [k0 f0|k0 sz]; [|cbn in Hit; discriminate].
      pose proof (Hm 0%nat k0 f0 eq_refl) as H0.
      change (Z.of_nat 0) with 0 in H0. rewrite Z.add_0_r, Hg in H0.
      injection H0 as ->.
      destruct n as [|n]; cbn [nth_error] in Hn |- *.
      * injection Hn as _ <-. eexists. split; [reflexivity|].
        cbn. repeat split; lia.
      * destruct (IH its' _ _ _ _ Er HF' (Hm' _ _ eq_refl) n k f Hn)
          as (e' & H1 & H2 & H3 & H4).
        exists e'. split; [exact H1|]. split; [exact H2|].
        split; [exact H3|]. rewrite H4.
        cbn [firstn map List.concat item_chunk].
        rewrite !len_app, file_padding_length. lia.
Qed.

Lemma layout_fill fs L :
  compute_layout fs = Ok L ->
  exists es3,
    fill_file_entries es3 0 (lay_file_map L) (file_data_offset L)
    = Ok (lay_entries L).
Proof.
  intros HL. unfold compute_layout in HL.
  destruct (build_string_table (names (build_fst fs)) [] [])
    as [strtab offs].
  destruct (assign_name_offsets (fst_entries (build_fst fs)) 0 offs)
    as [es3|]; [|discriminate].
  destruct (fill_file_entries es3 0 (file_map (build_fst fs)) _)
    as [es4|] eqn:Hf; [|discriminate].
  injection HL as HL. exists es3. rewrite <- HL. exact Hf.
Qed.

(** C6.  In a byte string returned by [to_bytes], the start of the file
    data, as the encoder computes it and as written in the word at offset
    12 of the header, is a multiple of 32.  From there to its end the
    string is, for the files in the order of the records, the data of each
    file followed by exactly [(32 - length % 32) % 32] zero bytes, and
    nothing else.  For every file of the tree, the [n]-th node in the order
    of the records, the record [n + 1] of the stream is a file record that
    holds the length of the file and an offset that is a multiple of 32:
    the start of the file data plus what the nodes before it take; at that
    offset the stream holds the data of the file, its padding, and then
    what the nodes after it take, up to the end. *)
Theorem C6_alignment (a : Arc) (bs : bytes) :
  to_bytes a = Ok bs ->
  (exists L,
     compute_layout (files a) = Ok L
     /\ word_at bs 12 = file_data_offset L
     /\ file_data_offset L mod 32 = 0)
  /\ exists pre,
       bs = pre ++ List.concat (map padded_chunk (flat (files a)))
       /\ len pre = word_at bs 12
       /\ forall n k f,
            nth_error (flat (files a)) n = Some (IFile k f) ->
            let e := entry_at bs (32 + 12 * Z.of_nat (S n)) in
            is_dir e = false
            /\ next_entry_or_len e = len (data f)
            /\ parent_or_file_off e mod 32 = 0
            /\ parent_or_file_off e
               = len pre
                 + len (List.concat
                          (map padded_chunk (firstn n (flat (files a)))))
            /\ exists before,
                 bs = before ++ data f
                        ++ repeat x00
                             (Z.to_nat ((32 - len (data f) mod 32) mod 32))
                        ++ List.concat
                             (map padded_chunk
                                (skipn (S n) (flat (files a))))
                 /\ len before = parent_or_file_off e.
Proof.
  intros Hb.
  destruct (data_region a bs Hb) as (pre & Hbs & Hpre & Hpa & _).
  unfold to_bytes in Hb.
  destruct (compute_layout (files a)) as [L|] eqn:HL; [|discriminate].
  destruct (encoder_records (files a) L bs HL Hb)
    as (_ & _ & Hw & Hal & _ & _ & Hrec & _).
  split; [exists L; auto|].
  exists pre. rewrite padded_chunks. split; [exact Hbs|].
  split; [exact Hpre|]. intros n k f Hn. cbv zeta.
  destruct (layout_shape _ _ HL) as (Hshape & Hfm & _).
  destruct (layout_fill _ _ HL) as (es3 & Hfill).
  assert (Hm : forall n k f,
            nth_error (IDir EmptyString (forest_size (files a))
                         :: flat (files a)) n = Some (IFile k f) ->
            file_map_get (lay_file_map L) (0 + Z.of_nat n) = Ok f).
  { intros n0 k0 f0 Hn0. destruct n0 as [|n0]; [discriminate|].
    cbn [nth_error] in Hn0. rewrite Hfm.
    apply (file_map_get_items _ 1 _ n0 k0 f0 Hn0). lia. }
  destruct (fill_offsets es3 _ 0 _ _ _ Hfill Hshape Hm (S n) k f Hn)
    as (e & He & Hd & Hlen & Hoff).
  rewrite (Hrec (S n) e He).
  cbn [firstn map List.concat item_chunk app] in Hoff.
  rewrite padded_chunks.
  assert (Hoff' : parent_or_file_off e
                  = len pre
                    + len (List.concat
                             (map item_chunk (firstn n (flat (files a))))))
    by (rewrite Hoff; lia).
  split; [exact Hd|]. split; [exact Hlen|]. split.
  { rewrite Hoff', Z.add_mod, Hpa, chunks_aligned by lia. reflexivity. }
  split; [exact Hoff'|].
  exists (pre ++ List.concat (map item_chunk (firstn n (flat (files a))))).
  split; [|now rewrite len_app].
  rewrite Hbs at 1.
  rewrite <- (firstn_skipn n (flat (files a))) at 1.
  rewrite map_app, concat_app, <- app_assoc. f_equal. f_equal.
  assert (Hs : skipn n (flat (files a))
               = IFile k f :: skipn (S n) (flat (files a))).
  { clear - Hn. revert n Hn.
    induction (flat (files a)) as [|x l IH]; intros [|n] Hn;
      try discriminate.
    - injection Hn as ->. reflexivity.
    - cbn [nth_error] in Hn. cbn [skipn]. rewrite (IH n Hn). reflexivity. }
  rewrite Hs. cbn [map List.concat]. rewrite <- padded_chunk_item.
  cbn [padded_chunk]. rewrite <- !app_assoc, padded_chunks. reflexivity.
Qed.

Lemma C6_alignment_witness :
  (exists L,
     compute_layout (files scenario_arc) = Ok L
     /\ word_at scenario_bytes 12 = file_data_offset L
     /\ file_data_offset L mod 32 = 0)
  /\ exists pre,
       scenario_bytes
       = pre ++ List.concat (map padded_chunk (flat (files scenario_arc)))
       /\ len pre = word_at scenario_bytes 12
       /\ forall n k f,
            nth_error (flat (files scenario_arc)) n = Some (IFile k f) ->
            let e := entry_at scenario_bytes (32 + 12 * Z.of_nat (S n)) in
            is_dir e = false
            /\ next_entry_or_len e = len (data f)
            /\ parent_or_file_off e mod 32 = 0
            /\ parent_or_file_off e
               = len pre
                 + len (List.concat
                          (map padded_chunk
                             (firstn n (flat (files scenario_arc)))))
            /\ exists before,
                 scenario_bytes
                 = before ++ data f
                     ++ repeat x00
                          (Z.to_nat ((32 - len (data f) mod 32) mod 32))
                     ++ List.concat
                          (map padded_chunk
                             (skipn (S n) (flat (files scenario_arc))))
                 /\ len before = parent_or_file_off e.
Proof.
  apply (C6_alignment scenario_arc scenario_bytes).
  vm_compute. reflexivity.
Defined.

(* ------------------------------------------------------------------ *)
(** ** What the decoder checks and what it does not *)

(** *** Failures of the header and of the record table *)

Lemma load_from_bin_raise s e :
  window s = None -> load_from_bin s = Raise e -> e = StructError.
Proof.
  intros Hw. unfold load_from_bin, bind.
  rewrite stream_read_unchecked by (auto; lia). unfold lift, entry_of_bytes,
    unpack_III, unpack3.
  destruct (firstn (Z.to_nat 12) (remaining s))
    as [|b0 [|b1 [|b2 [|b3 [|b4 [|b5 [|b6 [|b7 [|b8 [|b9 [|b10 [|b11 [|]]]]]]]]]]]]];
    intros [= <-]; reflexivity.
Qed.

Lemma load_entries_raise n : forall s e,
  window s = None -> 0 <= pos s ->
  load_entries n s = Raise e -> e = StructError.
Proof.
  induction n as [|n IH]; intros s e Hw Hp; cbn [load_entries];
    [discriminate|].
  unfold bind at 1.
  destruct (load_from_bin s) as [[e0 s0]|x] eqn:E0.
  - destruct (load_from_bin_pos _ _ _ Hp E0) as (P1 & _ & _ & P4 & _).
    unfold bind at 1.
    destruct (load_entries n s0) as [[es s1]|x] eqn:E1; [discriminate|].
    intros [= <-]. eapply IH; [| |exact E1]; [congruence|lia].
  - intros [= <-]. eapply load_from_bin_raise; eauto.
Qed.

Lemma load_table_raise s e :
  window s = None -> 0 <= pos s ->
  firstn 4 (remaining s) = U8_FILE_MAGIC
  \/ (List.length (remaining s) < 4)%nat ->
  len (content s) < pos s + 16 \/ 0 <= table_start s ->
  load_table s = Raise e -> e = StructError.
Proof.
  intros Hw Hp Hm Hc. unfold load_table. unfold bind at 1.
  destruct (load_header s) as [[[[[base fst_start] sz] fstart] s0]|x] eqn:Eh.
  - destruct (load_header_spec _ _ _ Hp Eh)
      as (H16 & _ & Hb & Hf & Hc0 & Hw0 & _ & Hp0).
    cbn [fst snd] in Hb, Hf. subst base fst_start.
    destruct Hc as [Hc|Hc]; [lia|].
    unfold open_arc, bind, stream_seek.
    change (pos s + signed32 (word_at (content s) (pos s + 4)))
      with (table_start s).
    destruct (table_start s <? 0) eqn:E; [lia|].
    destruct (load_from_bin (set_pos s0 (table_start s)))
      as [[head s1]|x] eqn:E1.
    + destruct (load_from_bin_pos (set_pos s0 (table_start s)) _ _ Hc E1)
        as (P1 & _ & _ & P4 & _).
      match goal with
      | |- context [load_entries ?n s1] =>
          destruct (load_entries n s1) as [[es s2]|x] eqn:E2
      end; [discriminate|].
      intros [= <-]. eapply load_entries_raise; [| |exact E2].
      * rewrite P4. cbn [set_pos window]. congruence.
      * cbn [set_pos pos] in P1. lia.
    + intros [= <-]. eapply load_from_bin_raise; [|exact E1].
      cbn [set_pos window]. congruence.
  - intros [= <-]. revert Eh. unfold load_header, bind, stream_tell.
    rewrite stream_read_unchecked by (auto; lia).
    change (Z.to_nat 4) with 4%nat. unfold lift at 1.
    destruct Hm as [Hm|Hm].
    + rewrite Hm. cbn [unpack_4s U8_FILE_MAGIC bytes_eqb negb].
      assert (Hb : bytes_eqb U8_FILE_MAGIC U8_FILE_MAGIC = true)
        by now apply bytes_eqb_eq.
      rewrite Hb. cbn [negb].
      rewrite stream_read_unchecked by (auto; cbn [set_pos window pos]; lia).
      unfold lift at 1, unpack_iii.
      destruct (unpack3 _) as [[[a b] c]|y] eqn:Eu.
      * rewrite stream_read_unchecked by (auto; lia). discriminate.
      * intros [= <-]. revert Eu. unfold unpack3.
        destruct (firstn (Z.to_nat 12) _)
          as [|b0 [|b1 [|b2 [|b3 [|b4 [|b5 [|b6 [|b7 [|b8 [|b9 [|b10 [|b11 [|]]]]]]]]]]]]];
          intros [= <-]; reflexivity.
    + assert (Hl : (List.length (firstn 4 (remaining s)) < 4)%nat)
        by (rewrite length_firstn; lia).
      destruct (firstn 4 (remaining s)) as [|a [|b [|c [|d [|]]]]];
        cbn [List.length] in Hl; try lia; cbn [unpack_4s];
        intros [= <-]; reflexivity.
Qed.

(** *** Two runs that differ in what is not checked *)

Lemma follows_ret {A B} (R : A -> B -> Prop) c1 c2 a b :
  R a b -> follows R c1 c2 (ret a) (ret b).
Proof. intros HR s1 s2 a0 s1' Hp [= <- <-]. exists b, s2. auto. Qed.

Lemma follows_bind {A B A' B'} (R : A -> B -> Prop) (R' : A' -> B' -> Prop)
    c1 c2 (m1 : M A) (m2 : M B) (f1 : A -> M A') (f2 : B -> M B') :
  follows R c1 c2 m1 m2 ->
  (forall a b, R a b -> follows R' c1 c2 (f1 a) (f2 b)) ->
  follows R' c1 c2 (bind m1 f1) (bind m2 f2).
Proof.
  intros Hm Hf s1 s2 a s1' Hp. unfold bind.
  destruct (m1 s1) as [[x t1]|e] eqn:E1; [|discriminate].
  destruct (Hm _ _ _ _ Hp E1) as (y & t2 & -> & Hxy & Hp').
  now apply Hf.
Qed.

Lemma follows_lift {A B} (R : A -> B -> Prop) c1 c2
    (r1 : result A) (r2 : result B) :
  (forall a, r1 = Ok a -> exists b, r2 = Ok b /\ R a b) ->
  follows R c1 c2 (lift r1) (lift r2).
Proof.
  intros H s1 s2 a s1' Hp. unfold lift.
  destruct r1 as [x|e]; [|discriminate]. intros [= <- <-].
  destruct (H x eq_refl) as (b & -> & Hb). exists b, s2. auto.
Qed.

Lemma follows_for_each {A St St'} (R : St -> St' -> Prop) c1 c2 (l : list A)
    (body1 : A -> St -> M St) (body2 : A -> St' -> M St') :
  (forall x st1 st2, R st1 st2 ->
     follows R c1 c2 (body1 x st1) (body2 x st2)) ->
  forall st1 st2, R st1 st2 ->
    follows R c1 c2 (for_each l body1 st1) (for_each l body2 st2).
Proof.
  intros Hb. induction l as [|x l IH]; intros st1 st2 HR; cbn [for_each].
  - now apply follows_ret.
  - eapply follows_bind; [apply Hb, HR|]. intros a b Hab. now apply IH.
Qed.

Lemma unchecked_pair_pos c1 c2 s1 s2 p1 p2 :
  unchecked_pair c1 c2 s1 s2 ->
  unchecked_pair c1 c2 (set_pos s1 p1) (set_pos s2 p2).
Proof. intros (H1 & H2 & H3 & H4). repeat split; assumption. Qed.

Lemma follows_seek c1 c2 p1 p2 :
  0 <= p2 ->
  follows (fun _ _ => True) c1 c2 (stream_seek p1) (stream_seek p2).
Proof.
  intros Hp s1 s2 a s1' Hs. unfold stream_seek.
  destruct (p1 <? 0); [discriminate|]. intros [= <- <-].
  destruct (p2 <? 0) eqn:E; [lia|].
  exists tt, (set_pos s2 p2). split; [reflexivity|]. split; [exact I|].
  now apply unchecked_pair_pos.
Qed.

Lemma follows_read c1 c2 n1 n2 :
  follows (fun _ _ => True) c1 c2 (stream_read n1) (stream_read n2).
Proof.
  intros s1 s2 a s1' Hs. pose proof Hs as (H1 & H2 & H3 & H4).
  unfold stream_read, in_window. rewrite H3, H4. intros [= <- <-].
  eexists _, _. split; [reflexivity|]. split; [exact I|].
  now apply unchecked_pair_pos.
Qed.

(** A name is read after a seek to its offset: the second run reads its
    name when it can be read. *)
Lemma follows_name {A B} (R : A -> B -> Prop) c1 c2 p1 p2
    (k1 : string -> M A) (k2 : string -> M B) :
  0 <= p2 ->
  (name_readable c1 p1 = true -> name_readable c2 p2 = true) ->
  (forall n1 n2, follows R c1 c2 (k1 n1) (k2 n2)) ->
  follows R c1 c2
    (bind (stream_seek p1) (fun _ => bind read_terminated_string k1))
    (bind (stream_seek p2) (fun _ => bind read_terminated_string k2)).
Proof.
  intros Hp Hr Hk s1 s2 a s1' Hs. pose proof Hs as (H1 & H2 & H3 & H4).
  unfold bind, stream_seek.
  destruct (p1 <? 0); [discriminate|].
  destruct (p2 <? 0) eqn:E; [lia|].
  unfold read_terminated_string, in_window, remaining.
  cbn [set_pos content window pos]. rewrite H1, H2, H3, H4.
  unfold name_readable in Hr.
  destruct (takewhile_nul (skipn (Z.to_nat p1) c1)) as [[t1 n1] eof1].
  destruct (takewhile_nul (skipn (Z.to_nat p2) c2)) as [[t2 n2] eof2].
  cbn [fst] in Hr.
  destruct (decode_ascii t1) as [str1|] eqn:D1; [|discriminate].
  specialize (Hr eq_refl).
  destruct (decode_ascii t2) as [str2|] eqn:D2; [|discriminate].
  apply Hk. now apply unchecked_pair_pos, unchecked_pair_pos.
Qed.

Lemma list_index_all2 {A B} (P : A -> B -> bool) (l1 : list A) (l2 : list B)
    x a :
  all2 P l1 l2 = true -> list_index l1 x = Ok a ->
  exists b, list_index l2 x = Ok b /\ P a b = true.
Proof.
  unfold list_index. destruct (x <? 0); [discriminate|].
  generalize (Z.to_nat x) as n. revert l2.
  induction l1 as [|a1 l1 IH]; intros [|b1 l2] n H; cbn [all2] in H;
    try discriminate; destruct n as [|n]; cbn [nth_error]; try discriminate.
  - apply andb_true_iff in H. intros [= <-]. exists b1. tauto.
  - apply andb_true_iff in H. apply IH. tauto.
Qed.

Lemma list_index_Forall {A} (P : A -> Prop) (l : list A) x a :
  Forall P l -> list_index l x = Ok a -> P a.
Proof.
  unfold list_index. destruct (x <? 0); [discriminate|].
  destruct (nth_error l (Z.to_nat x)) as [b|] eqn:E; [|discriminate].
  intros HF [= <-]. rewrite Forall_forall in HF.
  apply HF. eapply nth_error_In, E.
Qed.

Lemma heap_set_length h r k v :
  List.length (heap_set h r k v) = List.length h.
Proof. apply list_set_length. Qed.

Lemma pop_closed_control x : forall stk1 stk2,
  map stack_control stk1 = map stack_control stk2 ->
  map stack_control (pop_closed stk1 x)
  = map stack_control (pop_closed stk2 x).
Proof.
  induction stk1 as [|[[z1 d1] p1] t1 IH]; intros [|[[z2 d2] p2] t2] H;
    try discriminate; [reflexivity|].
  cbn [map stack_control fst] in H. injection H as -> -> Ht.
  cbn [pop_closed]. destruct (z2 =? x + 1); [now apply IH|].
  cbn [map stack_control fst]. now rewrite Ht.
Qed.

Section Flow.
Variables (c1 c2 : bytes) (tbl1 tbl2 : Z) (es1 es2 : list FST_ENTRY).
Hypothesis Hes : all2 (same_flow c1 c2 tbl1 tbl2) es1 es2 = true.
Hypothesis Hnn : Forall (fun e => 0 <= tbl2 + name_off e
                                  /\ 0 <= parent_or_file_off e) es2.

Lemma entry_flow x e1 :
  list_index es1 x = Ok e1 ->
  exists e2,
    list_index es2 x = Ok e2
    /\ is_dir e2 = is_dir e1
    /\ (is_dir e1 = true -> next_entry_or_len e2 = next_entry_or_len e1)
    /\ (name_readable c1 (tbl1 + name_off e1) = true ->
        name_readable c2 (tbl2 + name_off e2) = true)
    /\ 0 <= tbl2 + name_off e2 /\ 0 <= parent_or_file_off e2.
Proof.
  intros H1. destruct (list_index_all2 _ _ _ _ _ Hes H1) as (e2 & H2 & Hf).
  exists e2. split; [exact H2|].
  pose proof (list_index_Forall _ _ _ _ Hnn H2) as [N1 N2].
  unfold same_flow in Hf. apply andb_true_iff in Hf. destruct Hf as [Hf Hr].
  apply andb_true_iff in Hf. destruct Hf as [Hd Hn].
  apply Bool.eqb_prop in Hd.
  split; [auto|]. split.
  - intros E. rewrite E in Hn. cbn in Hn. apply Z.eqb_eq in Hn. auto.
  - split; [|auto]. intros E. rewrite E in Hr. exact Hr.
Qed.

Lemma follows_load_dir_step p1 p2 x st1 st2 :
  same_control st1 st2 ->
  follows same_control c1 c2
    (load_dir_step es1 tbl1 p1 x st1) (load_dir_step es2 tbl2 p2 x st2).
Proof.
  intros (Hl & Hc & Hs & Hp). unfold load_dir_step.
  eapply follows_bind
    with (R := fun e1 e2 =>
                 is_dir e2 = is_dir e1
                 /\ (is_dir e1 = true ->
                     next_entry_or_len e2 = next_entry_or_len e1)
                 /\ (name_readable c1 (tbl1 + name_off e1) = true ->
                     name_readable c2 (tbl2 + name_off e2) = true)
                 /\ 0 <= tbl2 + name_off e2 /\ 0 <= parent_or_file_off e2).
  { apply follows_lift. intros e1 H1.
    destruct (entry_flow _ _ H1) as (e2 & H2 & Hrest). eauto. }
  intros e1 e2 (Hd & Hn & Hr & N1 & N2).
  apply follows_name; [exact N1|exact Hr|]. intros n1 n2.
  eapply follows_bind with (R := same_control).
  - rewrite Hd. destruct (is_dir e1) eqn:Ed.
    + rewrite (Hn eq_refl).
      destruct (next_entry_or_len e1 =? x + 1); unfold heap_alloc;
        apply follows_ret; unfold same_control;
        cbn [store current_dir dir_stack already_parsed map stack_control fst];
        rewrite !heap_set_length, !length_app, ?Hl, ?Hc, ?Hs, ?Hp;
        rewrite ?(Hn eq_refl); auto.
    + eapply follows_bind; [apply follows_seek, N2|]. intros _ _ _.
      eapply follows_bind; [apply follows_read|]. intros b1 b2 _.
      apply follows_ret. unfold same_control.
      cbn [store current_dir dir_stack already_parsed].
      rewrite !heap_set_length, ?Hl, ?Hc, ?Hs, ?Hp. auto.
  - intros t1 t2 (Tl & Tc & Ts & Tp). cbv zeta.
    pose proof (pop_closed_control x _ _ Ts) as Hpc.
    destruct (pop_closed (dir_stack t1) x) as [|[[z1 d1] q1] r1];
      destruct (pop_closed (dir_stack t2) x) as [|[[z2 d2] q2] r2];
      try discriminate; apply follows_ret; unfold same_control;
      cbn [store current_dir dir_stack already_parsed]; auto.
    cbn [map stack_control fst] in Hpc. injection Hpc as -> -> Hr'.
    cbn [map stack_control fst]. rewrite Hr'. auto.
Qed.

Lemma follows_load_dir parsed idx p1 p2 :
  (forall e1, list_index es1 idx = Ok e1 -> is_dir e1 = true) ->
  follows (fun r1 r2 => snd r1 = snd r2) c1 c2
    (load_dir es1 tbl1 parsed idx p1) (load_dir es2 tbl2 parsed idx p2).
Proof.
  intros Hdir. unfold load_dir.
  eapply follows_bind
    with (R := fun e1 e2 => next_entry_or_len e2 = next_entry_or_len e1).
  { apply follows_lift. intros e1 H1.
    destruct (entry_flow _ _ H1) as (e2 & H2 & _ & Hn & _).
    exists e2. split; [exact H2|]. apply Hn, (Hdir _ H1). }
  intros e1 e2 Hn. rewrite Hn.
  eapply follows_bind with (R := same_control).
  - apply follows_for_each.
    + intros x st1 st2. apply follows_load_dir_step.
    + repeat split; reflexivity.
  - intros t1 t2 (_ & _ & _ & Tp). apply follows_ret. exact Tp.
Qed.

Lemma follows_load_top_step i (st1 st2 : dict node * list Z) :
  snd st1 = snd st2 ->
  follows (fun r1 r2 => snd r1 = snd r2) c1 c2
    (load_top_step es1 tbl1 i st1) (load_top_step es2 tbl2 i st2).
Proof.
  destruct st1 as [f1 parsed], st2 as [f2 parsed2]. cbn [snd]. intros <-.
  unfold load_top_step. destruct (in_list i parsed).
  { now apply follows_ret. }
  eapply follows_bind
    with (R := fun e1 e2 =>
                 list_index es1 i = Ok e1
                 /\ is_dir e2 = is_dir e1
                 /\ (name_readable c1 (tbl1 + name_off e1) = true ->
                     name_readable c2 (tbl2 + name_off e2) = true)
                 /\ 0 <= tbl2 + name_off e2).
  { apply follows_lift. intros e1 H1.
    destruct (entry_flow _ _ H1) as (e2 & H2 & Hd & _ & Hr & N1 & _).
    exists e2. auto. }
  intros e1 e2 (H1 & Hd & Hr & N1). rewrite Hd.
  destruct (is_dir e1) eqn:Ed.
  - apply follows_name; [exact N1|exact Hr|]. intros n1 n2.
    eapply follows_bind.
    + apply follows_load_dir. intros e1' H1'. congruence.
    + intros [sub1 q1] [sub2 q2] Hq. apply follows_ret. exact Hq.
  - apply follows_name; [exact N1|exact Hr|]. intros n1 n2.
    eapply follows_bind; [apply follows_read|]. intros b1 b2 _.
    now apply follows_ret.
Qed.

Lemma follows_load_tree :
  (forall h1 h2, list_index es1 0 = Ok h1 -> list_index es2 0 = Ok h2 ->
                 next_entry_or_len h2 = next_entry_or_len h1) ->
  follows (fun _ _ => True) c1 c2 (load_tree es1 tbl1) (load_tree es2 tbl2).
Proof.
  intros Hh. unfold load_tree.
  eapply follows_bind
    with (R := fun h1 h2 => next_entry_or_len h2 = next_entry_or_len h1).
  { apply follows_lift. intros h1 H1.
    destruct (entry_flow _ _ H1) as (h2 & H2 & _).
    exists h2. split; [exact H2|]. now apply Hh. }
  intros h1 h2 Hn. rewrite Hn.
  eapply follows_bind with (R := fun r1 r2 => snd r1 = snd r2).
  - apply follows_for_each.
    + intros x st1 st2. apply follows_load_top_step.
    + reflexivity.
  - intros [f1 q1] [f2 q2] _. now apply follows_ret.
Qed.

End Flow.

(** *** Streams that decode alike *)

Lemma table_entries_nonneg s e :
  In e (table_entries s) -> 0 <= name_off e /\ 0 <= parent_or_file_off e.
Proof.
  unfold table_entries, entries_at. intros H. apply in_map_iff in H.
  destruct H as (r & <- & _). unfold entry_at. cbn [name_off parent_or_file_off].
  split.
  - apply Z.land_nonneg. right. lia.
  - unfold word_at. apply be_value_bound.
Qed.

Lemma decodes_alike s1 s2 es1 tbl1 r1 es2 tbl2 r2 a1 :
  window s1 = None -> window s2 = None -> 0 <= pos s1 -> 0 <= pos s2 ->
  load_table s1 = Ok (es1, tbl1, r1) ->
  load_table s2 = Ok (es2, tbl2, r2) ->
  same_records (content s1) (content s2) tbl1 tbl2 es1 es2 = true ->
  _load_from_bin s1 = Ok a1 ->
  exists a2, _load_from_bin s2 = Ok a2.
Proof.
  intros Hw1 Hw2 Hp1 Hp2 H1 H2 Hsame.
  unfold _load_from_bin, load_files, bind. rewrite H1, H2.
  destruct (load_tree es1 tbl1 r1) as [[t1 q1]|] eqn:E1; [|discriminate].
  intros _.
  destruct (load_table_entries _ _ _ _ Hw1 Hp1 H1) as (_ & _ & ->).
  destruct (load_table_entries _ _ _ _ Hw2 Hp2 H2) as (-> & -> & ->).
  destruct (load_table_spec _ _ _ _ Hp2 H2) as (_ & _ & Hts & _).
  unfold same_records in Hsame.
  destruct es1 as [|h1 t1']; [discriminate|].
  destruct (table_entries s2) as [|h2 t2'] eqn:Et; [discriminate|].
  apply andb_true_iff in Hsame. destruct Hsame as [Hh Hall].
  apply Z.eqb_eq in Hh.
  assert (Hnn : Forall (fun e => 0 <= table_end s2 + name_off e
                                 /\ 0 <= parent_or_file_off e) (h2 :: t2')).
  { rewrite <- Et. apply Forall_forall. intros e He.
    destruct (table_entries_nonneg _ _ He). unfold table_end. lia. }
  destruct (follows_load_tree (content s1) (content s2) tbl1 (table_end s2)
              (h1 :: t1') (h2 :: t2') Hall Hnn)
    with (s1 := set_pos s1 (table_end s1)) (s2 := set_pos s2 (table_end s2))
         (a := t1) (s1' := q1)
    as (t2 & q2 & E2 & _).
  - intros x1 x2 [= <-] [= <-]. auto.
  - repeat split; assumption.
  - exact E1.
  - rewrite E2. unfold ret. eauto.
Qed.

Lemma readable_firstn l : forall m,
  is_ok (decode_ascii (fst (fst (takewhile_nul l)))) = true ->
  is_ok (decode_ascii (fst (fst (takewhile_nul (firstn m l))))) = true.
Proof.
  induction l as [|b t IH]; intros [|m] H; cbn [firstn]; try reflexivity;
    try exact H.
  cbn [takewhile_nul] in H |- *.
  destruct (Byte.eqb b x00); [exact H|].
  specialize (IH m).
  destruct (takewhile_nul t) as [[tk n] eof].
  destruct (takewhile_nul (firstn m t)) as [[tk' n'] eof'].
  cbn [fst decode_ascii] in *.
  destruct (Z_of_byte b <? 128); [|discriminate].
  destruct (decode_ascii tk); [|discriminate].
  specialize (IH eq_refl). destruct (decode_ascii tk'); [reflexivity|discriminate].
Qed.

Lemma name_readable_cut c k p :
  name_readable c p = true -> name_readable (firstn k c) p = true.
Proof.
  unfold name_readable. rewrite skipn_firstn_comm. apply readable_firstn.
Qed.

Lemma word_at_firstn c (k : nat) p :
  0 <= p -> p + 4 <= Z.of_nat k ->
  word_at (firstn k c) p = word_at c p.
Proof.
  intros Hp Hk. apply word_at_ext; [exact Hp|]. intros i Hi.
  rewrite nth_error_firstn.
  destruct (Nat.ltb_spec i k); [reflexivity|lia].
Qed.

Lemma all2_diag {A} (P : A -> A -> bool) (l : list A) :
  (forall a, In a l -> P a a = true) -> all2 P l l = true.
Proof.
  induction l as [|a t IH]; intros H; [reflexivity|]. cbn [all2].
  rewrite (H a (or_introl eq_refl)). apply IH. intros b Hb. apply H. now right.
Qed.

Lemma cut_decodes nm c k a :
  decode nm c = Ok a ->
  16 <= k -> table_end (BytesIO c nm) <= k ->
  exists a', decode nm (firstn (Z.to_nat k) c) = Ok a'.
Proof.
  intros Hd H16 Hte. unfold decode in *.
  set (s1 := BytesIO c nm) in *.
  set (s2 := BytesIO (firstn (Z.to_nat k) c) nm).
  assert (Hload : exists es tbl r1, load_table s1 = Ok (es, tbl, r1)).
  { revert Hd. unfold _load_from_bin, load_files, bind.
    destruct (load_table s1) as [[[es tbl] r1]|]; [eauto|discriminate]. }
  destruct Hload as (es & tbl & r1 & H1).
  assert (Hp1 : 0 <= pos s1) by (cbn; lia).
  destruct (load_table_spec _ _ _ _ Hp1 H1)
    as (T16 & Tm & Tts & Ttbl & Tle & _).
  destruct (load_table_entries s1 _ _ _ eq_refl Hp1 H1) as (Hes & _).
  cbn [s1 BytesIO pos content] in T16, Tle.
  assert (Hstart : table_start s2 = table_start s1).
  { unfold table_start. cbn [s1 s2 BytesIO pos content].
    rewrite word_at_firstn by lia. reflexivity. }
  assert (Hge : table_start s1 + 12 <= table_end s1)
    by (unfold table_end; lia).
  assert (Hcount : record_count s2 = record_count s1).
  { unfold record_count. rewrite Hstart. cbn [s1 s2 BytesIO content].
    rewrite word_at_firstn by lia. reflexivity. }
  assert (Hend : table_end s2 = table_end s1).
  { unfold table_end. now rewrite Hstart, Hcount. }
  assert (Hent : table_entries s2 = table_entries s1).
  { unfold table_entries, entries_at. rewrite Hstart, Hcount.
    apply map_ext_in. intros r Hr. apply in_seq in Hr.
    cbn [s1 s2 BytesIO content]. unfold entry_at.
    assert (Hb : table_start s1 + 12 * Z.of_nat r + 12 <= table_end s1)
      by (unfold table_end; lia).
    rewrite !word_at_firstn by lia. reflexivity. }
  assert (Hlen : len (firstn (Z.to_nat k) c) = Z.min k (len c)).
  { unfold len. rewrite length_firstn. lia. }
  assert (H2 : load_table s2
               = Ok (table_entries s2, table_end s2,
                     set_pos s2 (table_end s2))).
  { apply load_table_complete.
    - reflexivity.
    - cbn. lia.
    - unfold remaining. cbn [s2 BytesIO pos content Z.to_nat skipn].
      rewrite firstn_firstn.
      replace (Init.Nat.min 4 (Z.to_nat k)) with 4%nat by lia.
      exact Tm.
    - cbn [s2 BytesIO pos content]. lia.
    - rewrite Hstart. exact Tts.
    - rewrite Hend. cbn [s2 BytesIO content]. lia. }
  eapply (decodes_alike s1 s2); try reflexivity; try exact H1;
    try exact H2; try exact Hd; try (cbn; lia).
  rewrite Hent, <- Hes. unfold same_records.
  destruct es as [|h t] eqn:Ees.
  { exfalso. apply (f_equal (@List.length _)) in Hes.
    unfold table_entries, entries_at in Hes.
    rewrite length_map, length_seq in Hes. cbn in Hes. lia. }
  rewrite Z.eqb_refl. cbn [andb]. apply all2_diag. intros e _.
  unfold same_flow. rewrite Bool.eqb_reflx, Z.eqb_refl, orb_true_r.
  cbn [andb]. rewrite Hend, <- Ttbl. cbn [s1 s2 BytesIO content].
  destruct (name_readable c (tbl + name_off e)) eqn:Er; [|reflexivity].
  cbn [negb orb]. now apply name_readable_cut.
Qed.

(** C4, as the code has it and as far as the code goes.  A stream whose
    four magic bytes are there and differ from the magic is rejected with
    [AssertionError]; a stream whose magic is right, or that is too short
    to hold it, and that ends inside the 16 header bytes that are parsed
    or inside the record table is rejected with [struct.error]; no object
    is built in either case.  Nothing else is checked.  A read that starts
    at or past the end of the stream returns no bytes and raises nothing.
    A stream that decodes still decodes when it is cut anywhere after its
    parsed header and its record table, inside the names or the data.
    More generally, when a stream decodes, so does every stream whose
    record table has the same kinds of records, the same last field in the
    directory records and in the first record, and names that can be read
    where those of the first can: name offsets, file offsets and file
    lengths are free, in range or not.  A conforming stream decodes, and to
    the same archive whatever bytes follow it. *)
Theorem C4_decoder_rejects :
  (forall s,
      window s = None ->
      List.length (firstn 4 (remaining s)) = 4%nat ->
      firstn 4 (remaining s) <> U8_FILE_MAGIC ->
      _load_from_bin s = Raise AssertionError)
  /\ (forall s,
        window s = None -> 0 <= pos s ->
        firstn 4 (remaining s) = U8_FILE_MAGIC
        \/ (List.length (remaining s) < 4)%nat ->
        len (content s) < pos s + 16
        \/ (0 <= table_start s /\ len (content s) < table_end s) ->
        _load_from_bin s = Raise StructError)
  /\ (forall s p n s1,
        window s = None -> len (content s) <= p ->
        stream_seek p s = Ok (tt, s1) ->
        stream_read n s1 = Ok ([], s1))
  /\ (forall nm c k a,
        decode nm c = Ok a ->
        16 <= k -> table_end (BytesIO c nm) <= k ->
        exists a', decode nm (firstn (Z.to_nat k) c) = Ok a')
  /\ (forall s1 s2 es1 tbl1 r1 es2 tbl2 r2 a1,
        window s1 = None -> window s2 = None ->
        0 <= pos s1 -> 0 <= pos s2 ->
        load_table s1 = Ok (es1, tbl1, r1) ->
        load_table s2 = Ok (es2, tbl2, r2) ->
        same_records (content s1) (content s2) tbl1 tbl2 es1 es2 = true ->
        _load_from_bin s1 = Ok a1 ->
        exists a2, _load_from_bin s2 = Ok a2)
  /\ (forall s,
        window s = None -> conforming s = true ->
        exists a,
          _load_from_bin s = Ok a
          /\ forall extra,
               _load_from_bin (over (content s ++ extra) s) = Ok a).
Proof.
  split; [|split; [|split; [|split; [|split]]]].
  - intros s Hw Hl Hm.
    unfold _load_from_bin, load_files, load_table, load_header, bind,
      stream_tell, stream_read, in_window.
    rewrite Hw. change (4 <? 0) with false. cbv iota.
    change (Z.to_nat 4) with 4%nat.
    assert (Hu : unpack_4s (firstn 4 (remaining s))
                 = Ok (firstn 4 (remaining s))).
    { destruct (firstn 4 (remaining s)) as [|a [|b [|c [|d [|e l]]]]];
        try discriminate. reflexivity. }
    unfold lift at 1. rewrite Hu.
    destruct (bytes_eqb (firstn 4 (remaining s)) U8_FILE_MAGIC) eqn:E.
    + apply bytes_eqb_eq in E. contradiction.
    + reflexivity.
  - intros s Hw Hp Hm Hcut. unfold _load_from_bin, load_files, bind.
    destruct (load_table s) as [[[es tbl] s1]|x] eqn:E.
    + exfalso. apply load_table_spec in E; [|exact Hp].
      destruct E as (T1 & _ & _ & T4 & T5 & _). lia.
    + f_equal. eapply load_table_raise; eauto.
      destruct Hcut as [Hc|[Hc _]]; auto.
  - intros s p n s1 Hw Hp. unfold stream_seek.
    destruct (p <? 0) eqn:E; [discriminate|]. apply Z.ltb_ge in E.
    intros [= <-]. unfold stream_read, in_window, remaining.
    cbn [set_pos window pos content]. rewrite Hw.
    rewrite skipn_all2 by (unfold len in Hp; lia).
    rewrite firstn_nil. destruct (n <? 0); unfold len; simpl;
      rewrite Z.add_0_r; reflexivity.
  - exact cut_decodes.
  - exact decodes_alike.
  - intros s Hw Hc. destruct (conforming_decodes s Hw Hc) as [t Ht].
    exists (mkArc 0 (flatten_tree true (stream_name s) t)
                    (flatten_tree false (stream_name s) t)
                    false (stream_name s) t).
    assert (Hall : forall extra,
               _load_from_bin (over (content s ++ extra) s)
               = Ok (mkArc 0 (flatten_tree true (stream_name s) t)
                           (flatten_tree false (stream_name s) t)
                           false (stream_name s) t)).
    { intros extra. destruct (Ht extra) as [s' Hs'].
      unfold _load_from_bin. now rewrite Hs'. }
    split; [|exact Hall].
    specialize (Hall []). rewrite app_nil_r, over_same in Hall; assumption.
Qed.

Lemma C4_decoder_rejects_witness :
  _load_from_bin (BytesIO [x55; xaa; x38; x2e; x00] "a.arc")
  = Raise AssertionError
  /\ _load_from_bin (BytesIO (firstn 40 scenario_bytes) "a.arc")
     = Raise StructError
  /\ (exists a', decode "course.arc" (firstn (Z.to_nat 80) scenario_bytes)
                 = Ok a')
  /\ (exists a2, _load_from_bin (BytesIO wild_offset_bytes "course.arc")
                 = Ok a2)
  /\ exists a,
       _load_from_bin (BytesIO scenario_bytes "course.arc") = Ok a
       /\ forall extra,
            _load_from_bin
              (over (content (BytesIO scenario_bytes "course.arc") ++ extra)
                    (BytesIO scenario_bytes "course.arc")) = Ok a.
Proof.
  destruct C4_decoder_rejects as (H1 & H2 & _ & H4 & H5 & H6).
  split; [|split; [|split; [|split]]].
  - apply H1; [reflexivity|reflexivity|discriminate].
  - apply H2.
    + reflexivity.
    + vm_compute. discriminate.
    + left. vm_compute. reflexivity.
    + right. split; vm_compute; [discriminate|reflexivity].
  - eapply (H4 "course.arc"%string scenario_bytes 80).
    + vm_compute. reflexivity.
    + lia.
    + vm_compute. discriminate.
  - eapply (H5 (BytesIO scenario_bytes "course.arc")
               (BytesIO wild_offset_bytes "course.arc")).
    + reflexivity.
    + reflexivity.
    + vm_compute. discriminate.
    + vm_compute. discriminate.
    + vm_compute. reflexivity.
    + vm_compute. reflexivity.
    + vm_compute. reflexivity.
    + vm_compute. reflexivity.
  - apply H6; [reflexivity|vm_compute; reflexivity].
Defined.

(** The claim as stated fails: the scenario stream cut in the middle of the
    file data decodes, to a one-byte file; with the file offset pointing far
    past the end it decodes too, to an empty file. *)
Lemma C4_truncated_is_accepted :
  (List.length truncated_bytes < List.length scenario_bytes)%nat
  /\ (exists a,
        decode "course.arc" truncated_bytes = Ok a
        /\ files a
           = [("point"%string,
               Dir [("point_001.bin"%string,
                     File (mkArcFile "point_001.bin" [x01]))])])
  /\ (exists a,
        decode "course.arc" wild_offset_bytes = Ok a
        /\ files a
           = [("point"%string,
               Dir [("point_001.bin"%string,
                     File (mkArcFile "point_001.bin" []))])]).
Proof.
  split; [vm_compute; lia|].
  split; eexists; (split; [vm_compute; reflexivity|reflexivity]).
Qed.
